(* ===== verification/_CoqProject ===== *)
-Q . S2P
Prelude.v
MinerRegistry.v
AssignmentTracker.v
StakePool.v
RateLimit.v
Config.v
Lines.v
Float.v
Json.v
Bytes.v
Wire.v
CsdClient.v
Db.v
Ledger.v
Columns.v
World.v
B3Lite.v
Payout.v
OpoiEngine.v
ExpertVram.v
Tensor.v
ExpertDispatch.v
ModelSource.v
Pipeline.v
ShardEngine.v
Speculative.v
B3LiteAudit.v
AuditPolicy.v
Kept.v
Session.v
Bridge.v
Threads.v
Interleaving.v
Concurrent.v
Composition.v
Credit.v
SetupWizard.v
Main.v
Sha256.v
TestsData.v
TestsShard.v
TestsExperts.v
TestsAudit.v
TestsMoe.v
