(* ===== verification/Prelude.v ===== *)
(** * cs-stratum-bridge: the development's root

    The bridge sits between the stratum miners of a mining pool and the [csd]
    daemon.  It relays the proof-of-work traffic of each miner to the real pool
    and owns the "OPoI" traffic itself: it polls the daemon for inference
    requests, hands them to miners, and drives every answer through commit,
    reveal, publish and payout.  Large models are run in shards (layer ranges)
    by several miners, mixture-of-experts layers are fanned out to expert hosts,
    and a draft miner may propose tokens that the shards verify in batches.

    ** Conventions

    A handler of the source is a function of the same name in a state monad
    ([M] below, [x ← m; k]); [x ←? m; k] is Rust's [?] on a [result].  Structs
    are records, enums inductive types; [HashMap], [DashMap] and [HashSet] are
    [gmap] and [gset], and where the source iterates over one, the order is a
    parameter ([MapIter]).  Integers keep their width where it can matter: the
    counters, little-endian codecs, sums that wrap and casts that saturate are
    written out; [f32] and [f64] are bit-exact ([Float]).  Tracing is left out.

    Everything outside the repository is a class of parameters with the
    documented facts the code relies on as its laws: the daemon ([Csd]), the
    order of a [SELECT] without [ORDER BY] ([RowOrder]), hashing, MAC and hex
    ([Crypto], [HexError]), the marketplace and model downloads ([Marketplace],
    [HttpGet]), tokenizers ([Tokenizers]), serde_json's text layer ([JsonText]),
    the order in which joined futures complete ([Schedule]), the printing of a
    float ([DisplayF64]), and before the loops run [Dotenv], [Daemons], [Entropy],
    clap's parser ([Clap]), sqlx's connection ([Sql]) and the embedded PostgreSQL
    ([EmbeddedPg]).
    PostgreSQL is a set of tables with the schema's constraints whose statements
    may fail, before or after taking effect ([Db.faults]).

    ** The parts (under [src/src/]) and the files that model them

    - [miner_registry.rs]: MinerRegistry.  Who is connected, what they can do,
      who is banned, and the round-robin choice of a worker.
    - [opoi/assignment.rs]: AssignmentTracker; [stake_pool.rs]: StakePool;
      [http/rate_limit.rs]: RateLimit; [config.rs]: Config.
    - [opoi/wire.rs]: Wire, on Json (value trees), Float and Bytes.
    - [rpc/csd_client.rs], [rpc/types.rs]: CsdClient.
    - [db/], [migrations/]: Db.  World ties client, tables, registry and the
      miners' downstream channels together: the state every engine shares.
      Ledger is what the table of answers promises, as a state machine of its
      own, and why each statement of Db keeps to it; Columns is what no statement
      but the payout's changes.
    - [error.rs]: this file, with the state monad and the generic lemmas.
    - [payout/mod.rs]: Payout; [opoi/engine.rs]: OpoiEngine (whole-model requests
      and the life of every submission); [opoi/b3lite.rs]: B3Lite (receipts).
    - [opoi/expert_vram.rs]: ExpertVram (a GGUF header parser and the sizes).
    - [opoi/expert_dispatch.rs]: Tensor (decoding and combining activations) and
      ExpertDispatch (placement, replies, retries, the join).
    - [opoi/shard_engine.rs]: ModelSource (where models are fetched), Pipeline
      (the data and the pure decisions) and ShardEngine (the handlers and ticks).
    - [opoi/speculative_engine.rs]: Speculative; ShardEngine knows it through the
      class [ShardEngine.SpecEngine].
    - [opoi/b3lite_audit.rs]: B3LiteAudit (dispatch, replay and verdict of sampled
      receipts) and AuditPolicy (what a verdict does).
    - [proxy/session.rs], [opoi/handler.rs]: Session, proved against the traits of
      [handler.rs] as classes ([OpoiHandler], [ShardHandler] and so on).
    - [main.rs], [state.rs], [http/handlers.rs], [http/mod.rs],
      [proxy/listener.rs], [opoi/topology_report.rs]: Bridge, the state that holds every component, the
      instances of those classes, the HTTP API, start-up, timers and tasks.
      Kept says what every operation of every engine does to what they share;
      Composition has the events of the running process and its invariants;
      Credit follows a credited wallet back to the pool's acceptance.
    - What may happen between two steps of a handler: Threads (handlers as trees
      of atomic actions), Interleaving (those of [opoi/engine.rs],
      [payout/mod.rs] and the ends of the pipelines in this form) and Concurrent
      (a process in which any number of them take turns).
    - [setup_wizard.rs]: SetupWizard, which runs before the configuration loads.
      Main is [main] itself up to the loops: wizard, configuration, database
      (the embedded one's password included), migrations, start-up.
    - The [#[test]]s of the repository, replayed on the model: TestsData,
      TestsShard, TestsExperts, TestsAudit, TestsMoe, with the SHA-256 of Sha256.
    - Lines: cutting a text into lines and writing lines that read back, for the
      sockets of Session and the files of SetupWizard.

    ** What runs atomically

    In the engines a handler is one step.  The exceptions are the long waits: a
    shard result that needs experts suspends its session ([Bridge.ExpertWait]) and
    each poll of an expert's future is an event ([ExpertDispatch.poll_task]); the
    auditor waits for a verdict or a process between events
    ([B3LiteAudit.au_run]); and detached tasks ([tokio::spawn]) are queued and run
    by events of their own.

    The handlers that touch the table of answers exist a second time, as threads
    ([Interleaving]) that can be interrupted before every statement, every call of
    the daemon and every operation on a shared map.  Alone they are the atomic
    ones ([Interleaving.uninterrupted_is_atomic]); in [Concurrent] any number of
    them take turns, next to the loops that reveal and pay (one of each, as
    [main.rs] spawns them) and to whatever the rest of the bridge does to the
    registry, the channels and the daemon's log.  The expert calls, the drafts and
    the shard results are not interrupted at their shorter awaits;
    AssignmentTracker and ExpertDispatch treat the operations of concurrent callers
    as sequences of steps.

    ** What the theorems show

    - Money.  [Composition.answers_follow_ledger]: under everything that can
      happen to the process, the table of answers moves by the ledger's steps
      alone; [Composition.answers_are_final]: no answer is lost, rewritten or paid
      twice.  [Concurrent.interleaving_follows_ledger]: the same when the handlers
      interrupt each other anywhere; [Concurrent.payments_are_due]: also then what
      is paid is, at that moment, published and unpaid.
      (Not so the assignments: [Concurrent.answered_request_assigned_again] is a
      schedule in which an answered request is handed out again.)
      [Payout.payout_batch]: one payment per run, of rows nobody was paid
      for.  [Credit.credit_needs_authorization]: and the wallet of every answer is
      one that the pool accepted on a session, whichever engine recorded it.
      [OpoiEngine.do_commit_settles]: a commit ends COMMITTED or FAILED.
      [Db.create_submission_spec]: one live submission per request.
    - Who may answer.  [OpoiEngine.submit_result_spec],
      [ShardEngine.shard_result_guard], [ExpertDispatch.expert_output_authentic],
      [B3LiteAudit.audit_verdict_authentic]: only the assigned miner, only for the
      step in flight; a refusal changes nothing.
      [AssignmentTracker.try_assign_exclusive] is the reason.
    - Where work goes.  [OpoiEngine.poll_and_assign_safe],
      [ShardEngine.expert_call_safe], [ExpertDispatch.dispatch_group_spec],
      [MinerRegistry.pick_next_round_robin].
    - Sharded decoding.  [ShardEngine.pipelines_reachable_ok] is the invariant of
      every reachable engine; [ShardEngine.dense_run_progress] follows a dense
      request through its shards; [Pipeline.build_response_roundtrip] decodes what
      is put on chain; [Tensor.combine_weighted_spec] is the expert combine;
      [ExpertDispatch.expert_retries_bounded] its termination.
    - Speculative decoding.  [Speculative.spec_lossless]: equivalent to greedy
      decoding with the target model alone; [Speculative.spec_refines_rounds]: the
      engine implements the abstract round protocol; its invariant and the
      rollback barrier.
    - Audits.  [AuditPolicy.conclude_spec], [AuditPolicy.audit_settles],
      [AuditPolicy.ejection_survives_restart], [B3Lite.receipt_binding].
    - The proxy.  [Session.relay_transparent] (and [Session.relayed_bytes], the
      same down to what is read from a socket), [Session.confirmed_by_pool],
      [Session.unconfirmed_is_harmless], [Bridge.session_end_releases].
    - The whole.  [Composition.bridge_reachable_ok] and [Composition.verdicts_stay]
      hold of every run of the composed process; [Bridge.submit_prompt_spec] and
      [RateLimit.rate_limit_bound] are the HTTP side.
    - Parsing and configuration.  [ExpertVram.parse_header_roundtrip],
      [ExpertVram.served_header_floor], [SetupWizard.patch_env_roundtrip].
    - Getting started.  [Main.main_serves]: a process that reaches its loops is
      configured, has a stake pool, a daemon that answers and a ledger in order;
      [Main.restart_reuses_password].
    - The repository's own tests hold of the model ([TestsMoe.d2_expert_group_dispatch_tests_pass]
      and the like); this is a check of the model, not of the code.

    ** Bounds and fuel

    The loops of the source have their own bounds, used as they are: five commit
    rounds ([OpoiEngine.MAX_ROUNDS]), two retries per expert, drafts of at most
    [Speculative.MAX_K] tokens, a million entries in a GGUF header.  Fuel appears
    where Rocq cannot see that recursion ends, and is never the reason of an
    answer: the GGUF parser gets the input's length plus one
    ([ExpertVram.parse_total]), the walk over the layers the number of tensors plus
    one, as each layer found owns one ([ExpertVram.layer_sizes_run]); [chunks4]
    and [trim] get the length of what they consume ([Tensor.chunks4_spec],
    [SetupWizard.trim_front_ends]).  The wizard's prompts get the number of lines
    of input left plus one: more changes nothing
    ([SetupWizard.connect_loop_fuel]), and running out is the loop that the source
    does not leave either ([SetupWizard.prompt_value_ends]).

    ** Limits and what is not modelled

    The composed invariant covers the schema, the registry, the auditor's books
    and the ledger of answers with the queued commits, together with what is
    never taken back (consequences, bans) and with the wallets the engines count
    ([Credit.honest]).  The
    pipeline invariants of the shard and speculative engines are proved of each
    engine under its own events: in the whole process a result that arrives twice
    or a prompt posted twice can break the step a waiting handler relies on
    ([ShardEngine.duplicate_result_skips_shard]).

    Not modelled, being input and output or code outside the repository: binding,
    reading and writing sockets (a connection and a line are events, the queue of
    a writer task is its session's [ss_up] or the channel's log); the PostgreSQL
    server and its migrations (parameters of Main) and the stop of the embedded
    one at shutdown; clap's parsing of the command line and environment; axum's
    routing and body decoding; reading environment variables and files into the
    model source tables; the texts the wizard prints; log output.  Of the tests,
    one that hashes two thousand texts is left out for its cost, and the two that
    need a live database or auditor run on the model's. *)

From coqutil Require Export Datatypes.RecordSetters.
From stdpp Require Export prelude gmap strings list sorting pretty.

(** Record update: [r <| field := v |>]. *)
Export TriangleBracketNotations.
#[global] Open Scope record_set.

(** ** Results and the error type of [src/error.rs] *)

Inductive result (A E : Type) : Type :=
| Ok (a : A)
| Err (e : E).
Arguments Ok {A E} a.
Arguments Err {A E} e.

(** [sqlx::Error] and [anyhow::Error] are opaque third-party errors: the
    bridge only ever prints them, so they carry the text they print. *)
Inductive AppError : Type :=
| Unauthorized
| UnknownRequest
| NotAssignedToCaller
| Rejected (msg : string)
| Rpc (msg : string)
| DbError (msg : string)
| Other (msg : string).

(** The [Display] text of an error ([#[error("...")]] attributes). *)
Definition error_to_string (e : AppError) : string :=
  match e with
  | Unauthorized => "unauthorized"
  | UnknownRequest => "unknown or already-resolved request_id"
  | NotAssignedToCaller => "request_id was not assigned to this connection"
  | Rejected m | Rpc m | DbError m | Other m => m
  end.

(** [AppError::to_stratum_error]: the [[code, message, null]] triple. *)
Definition to_stratum_error (e : AppError) : N * string :=
  let code :=
    match e with
    | Unauthorized => 24%N
    | UnknownRequest => 20%N
    | NotAssignedToCaller => 25%N
    | Rejected _ => 20%N
    | Rpc _ => 20%N
    | DbError _ | Other _ => 20%N
    end in
  (code, error_to_string e).

#[export] Instance AppError_eq_dec : EqDecision AppError.
Proof. solve_decision. Defined.

#[export] Instance result_eq_dec {A E} `{EqDecision A} `{EqDecision E} : EqDecision (result A E).
Proof. solve_decision. Defined.

(** ** A state monad, with stdpp's [x ← m; k] notation *)

Definition M (S A : Type) : Type := S → A * S.

#[export] Instance M_ret S : MRet (M S) := λ A x s, (x, s).
#[export] Instance M_bind S : MBind (M S) := λ A B f m s, let '(x, s') := m s in f x s'.

Definition gets {S A} (f : S → A) : M S A := λ s, (f s, s).
Definition modify {S} (f : S → S) : M S () := λ s, ((), f s).

(** [for x in l { f(x) }] *)
Fixpoint for_each {S A} (f : A → M S ()) (l : list A) : M S () :=
  match l with
  | [] => mret ()
  | x :: l' => f x ≫= λ _, for_each f l'
  end.

(** ** Machine integers: unsigned values are [N], kept below their width *)

Definition u32_modulus : N := (2 ^ 32)%N.
Definition u64_modulus : N := (2 ^ 64)%N.
Definition u32_max : N := (2 ^ 32 - 1)%N.
Definition u64_max : N := (2 ^ 64 - 1)%N.

(** Release-build arithmetic wraps (the crate sets no [overflow-checks]). *)
Definition wrap32 (x : N) : N := (x `mod` u32_modulus)%N.
Definition wrap64 (x : N) : N := (x `mod` u64_modulus)%N.

(** ** List operations of the standard library the code uses *)

(** [Iterator::find_map] *)
Fixpoint find_map {A B} (f : A → option B) (l : list A) : option B :=
  match l with
  | [] => None
  | x :: l' => match f x with Some y => Some y | None => find_map f l' end
  end.

(** [Iterator::find] *)
Definition find_first {A} (p : A → bool) (l : list A) : option A :=
  find_map (λ x, if p x then Some x else None) l.

(** [Iterator::position] *)
Fixpoint position {A} (p : A → bool) (l : list A) : option nat :=
  match l with
  | [] => None
  | x :: l' => if p x then Some 0 else S <$> position p l'
  end.

(** [slice::sort_by] is stable: [x] is inserted before the first element it
    is not greater than, going through the list from its end. *)
Fixpoint insert_sorted {A} (le : A → A → bool) (x : A) (l : list A) : list A :=
  match l with
  | [] => [x]
  | y :: l' => if le x y then x :: y :: l' else y :: insert_sorted le x l'
  end.
Fixpoint stable_sort {A} (le : A → A → bool) (l : list A) : list A :=
  match l with
  | [] => []
  | x :: l' => insert_sorted le x (stable_sort le l')
  end.

(** A [DashMap]/[HashMap] yields its entries in an order that is not
    specified: the model takes any enumeration of the keys. *)
Class MapIter := {
  iter_keys : ∀ {K : Type} `{Countable K} {V : Type}, gmap K V → list K;
  iter_keys_perm : ∀ {K : Type} `{Countable K} {V : Type} (m : gmap K V),
    iter_keys m ≡ₚ (map_to_list m).*1
}.

(** One such order, for the witnesses. *)
Definition key_iter : MapIter := {| iter_keys := λ K _ _ V m, (map_to_list m).*1;
  iter_keys_perm := λ K _ _ V m, reflexivity _ |}.

(** Case analysis on every [match]/[if] of a hypothesis or of the goal. *)
Ltac destruct_matches :=
  repeat match goal with
  | |- context [match ?x with _ => _ end] => destruct x eqn:?
  end.

(** ** Generic lemmas *)

Lemma find_map_Some {A B} (f : A → option B) l y :
  find_map f l = Some y ↔ ∃ l1 x l2, l = l1 ++ x :: l2 ∧ f x = Some y ∧ Forall (λ z, f z = None) l1.
Proof.
  split.
  - induction l as [|x l IH]; simpl; [done|]. destruct (f x) eqn:Hx.
    + intros [= ->]. exists [], x, l. repeat split; auto.
    + intros (l1 & x' & l2 & -> & Hf & Hall)%IH. exists (x :: l1), x', l2. auto.
  - intros (l1 & x & l2 & -> & Hf & Hall). induction Hall as [|z l1 Hz _ IH]; simpl.
    + by rewrite Hf.
    + by rewrite Hz.
Qed.

Lemma find_map_None {A B} (f : A → option B) l :
  find_map f l = None ↔ Forall (λ z, f z = None) l.
Proof.
  induction l as [|x l IH]; simpl; [by split|].
  destruct (f x) eqn:Hx; split; intros H.
  - done.
  - inversion H; congruence.
  - constructor; [done|]. by apply IH.
  - inversion H; subst. by apply IH.
Qed.

Lemma find_first_Some {A} (p : A → bool) l x :
  find_first p l = Some x → x ∈ l ∧ p x = true.
Proof.
  unfold find_first. intros (l1 & y & l2 & -> & Hy & _)%find_map_Some.
  destruct (p y) eqn:Hp; simplify_eq. split; [set_solver|done].
Qed.

Lemma find_first_None {A} (p : A → bool) l :
  find_first p l = None ↔ Forall (λ x, p x = false) l.
Proof.
  unfold find_first. rewrite find_map_None.
  apply Forall_iff. intros x. destruct (p x); naive_solver.
Qed.

Lemma position_Some {A} (p : A → bool) l i :
  position p l = Some i → ∃ x, l !! i = Some x ∧ p x = true.
Proof.
  revert i. induction l as [|x l IH]; intros i; simpl; [done|].
  destruct (p x) eqn:Hp; [intros [= <-]; eauto|].
  destruct (position p l) as [j|] eqn:Hj; simpl; [|done]. intros [= <-]. by apply IH.
Qed.

Lemma position_None {A} (p : A → bool) l :
  position p l = None ↔ Forall (λ x, p x = false) l.
Proof.
  induction l as [|x l IH]; simpl; [by split|].
  destruct (p x) eqn:Hp.
  - split; [done|]. inversion 1; congruence.
  - destruct (position p l) as [j|]; simpl; split; intros H; try done.
    + inversion H; subst. by apply IH in H3.
    + constructor; [done|]. by apply IH.
Qed.

Section stable_sort.
Context {A : Type} (le : A → A → bool).

Lemma insert_sorted_perm x l : insert_sorted le x l ≡ₚ x :: l.
Proof.
  induction l as [|y l IH]; simpl; [done|]. destruct (le x y); [done|].
  rewrite IH. apply Permutation_swap.
Qed.

Lemma stable_sort_perm l : stable_sort le l ≡ₚ l.
Proof.
  induction l as [|x l IH]; simpl; [done|]. by rewrite insert_sorted_perm, IH.
Qed.

Lemma insert_sorted_hd x y l :
  HdRel (λ a b, le a b = true) y l → le y x = true →
  HdRel (λ a b, le a b = true) y (insert_sorted le x l).
Proof. destruct l as [|z l]; simpl; [by constructor|]. inversion 1; subst. destruct (le x z); by constructor. Qed.

Lemma stable_sort_sorted l :
  (∀ x y, le x y = true ∨ le y x = true) →
  Sorted (λ a b, le a b = true) (stable_sort le l).
Proof.
  intros Htot. induction l as [|x l IH]; simpl; [constructor|].
  induction IH as [|y l' Hs IHs Hhd]; simpl; [by repeat constructor|].
  destruct (le x y) eqn:Hxy.
  - repeat constructor; auto.
  - constructor; [done|]. apply insert_sorted_hd; [done|].
    destruct (Htot x y); congruence.
Qed.
End stable_sort.

Lemma find_map_fmap {A B C} (f : B → option C) (g : A → B) l :
  find_map f (g <$> l) = find_map (λ x, f (g x)) l.
Proof. induction l as [|x l IH]; csimpl; [done|]. by rewrite IH. Qed.

Lemma find_map_ext {A B} (f g : A → option B) l :
  (∀ x, f x = g x) → find_map f l = find_map g l.
Proof. intros H. induction l as [|x l IH]; simpl; [done|]. by rewrite H, IH. Qed.

Lemma find_map_app {A B} (f : A → option B) l1 l2 :
  find_map f (l1 ++ l2) = match find_map f l1 with Some y => Some y | None => find_map f l2 end.
Proof. induction l1 as [|x l1 IH]; simpl; [done|]. by destruct (f x). Qed.

(** A list read through the indices [(s + o) mod n] is the list rotated by [s]. *)
Lemma rotated_lookups {A} (l : list A) s :
  s < length l →
  (λ o, l !! ((s + o) `mod` length l)) <$> seq 0 (length l) = Some <$> (drop s l ++ take s l).
Proof.
  intros Hs. apply list_eq. intros i.
  rewrite !list_lookup_fmap.
  destruct (decide (i < length l)) as [Hi|Hi].
  - rewrite lookup_seq_lt by done. simpl.
    destruct (decide (s + i < length l)) as [Hlt|Hge].
    + rewrite Nat.mod_small by done. rewrite lookup_app_l by (rewrite length_drop; lia).
      rewrite lookup_drop. destruct (lookup_lt_is_Some_2 l (s + i)) as [x ->]; done.
    + assert (s + i = length l + (s + i - length l)) as -> by lia.
      rewrite <-Nat.Div0.add_mod_idemp_l, Nat.Div0.mod_same, Nat.add_0_l.
      rewrite Nat.mod_small by lia.
      rewrite lookup_app_r by (rewrite length_drop; lia).
      rewrite length_drop. rewrite lookup_take_lt by lia.
      replace (i - (length l - s)) with (s + i - length l) by lia.
      destruct (lookup_lt_is_Some_2 l (s + i - length l)) as [x ->]; [lia|done].
  - rewrite lookup_seq_ge by lia.
    rewrite lookup_ge_None_2; [done|]. rewrite length_app, length_drop, length_take. lia.
Qed.

(** Sorting by an antisymmetric total order depends only on the elements. *)
Lemma stable_sort_unique {A} (le : A → A → bool) l1 l2 :
  (∀ x y, le x y = true ∨ le y x = true) →
  (∀ x y z, le x y = true → le y z = true → le x z = true) →
  (∀ x y, le x y = true → le y x = true → x = y) →
  l1 ≡ₚ l2 → stable_sort le l1 = stable_sort le l2.
Proof.
  intros Htot Htr Has Hp.
  assert (Transitive (λ a b, le a b = true)) by (intros ???; apply Htr).
  assert (AntiSymm (=) (λ a b, le a b = true)) by (intros ??; apply Has).
  eapply (StronglySorted_unique (λ a b, le a b = true)).
  - apply Sorted_StronglySorted, stable_sort_sorted; done.
  - apply Sorted_StronglySorted, stable_sort_sorted; done.
  - by rewrite !stable_sort_perm.
Qed.

Lemma find_first_cons {A} (p : A → bool) x l :
  find_first p (x :: l) = if p x then Some x else find_first p l.
Proof. unfold find_first. simpl. by destruct (p x). Qed.

Lemma filter_all {A} (P : A → Prop) `{∀ x, Decision (P x)} (l : list A) : Forall P l → filter P l = l.
Proof. induction 1 as [|x l Hx _ IH]; [done|]. rewrite filter_cons_True by done. by rewrite IH. Qed.

(** ** Running one component's operation on its part of a larger state *)

Definition zoom {S T A} (getter : S → T) (setter : T → S → S) (m : M T A) : M S A :=
  λ s, let '(a, t) := m (getter s) in (a, setter t s).

(** [let x = m?; k] *)
Definition try_bind {S A B E} (m : M S (result A E)) (k : A → M S (result B E)) : M S (result B E) :=
  r ← m; match r with Ok a => k a | Err e => mret (Err e) end.
Notation "x ←? m ; k" := (try_bind m (λ x, k)) (at level 20, m at level 100, k at level 200, right associativity).

(** [let _ = m;] *)
Definition ignore {S A} (m : M S A) : M S () := _ ← m; mret ().

(** A [BTreeMap]'s entries, in key order. *)
Definition key_order {V} (a b : string * V) : bool := String.leb a.1 b.1.
Definition btree_entries {V} (m : gmap string V) : list (string * V) := stable_sort key_order (map_to_list m).

(** ** What a computation may do to the state

    [steps R m]: every run of [m] relates its initial and final state by [R].
    For a preorder [R] this composes along the monad. *)

Definition steps {S A} (R : relation S) (m : M S A) : Prop := ∀ s, R s (m s).2.

Section steps.
Context {S : Type} (R : relation S) `{!PreOrder R}.

Lemma steps_ret {A} (a : A) : steps R (mret a).
Proof. intros s. simpl. reflexivity. Qed.

Lemma steps_gets {A} (f : S → A) : steps R (gets f).
Proof. intros s. simpl. reflexivity. Qed.

Lemma steps_bind {A B} (m : M S A) (f : A → M S B) : steps R m → (∀ a, steps R (f a)) → steps R (m ≫= f).
Proof.
  intros Hm Hf s. unfold mbind, M_bind. specialize (Hm s). destruct (m s) as [a s1]. simpl in *.
  etrans; [exact Hm|apply Hf].
Qed.

Lemma steps_try {A B E} (m : M S (result A E)) (f : A → M S (result B E)) :
  steps R m → (∀ a, steps R (f a)) → steps R (try_bind m f).
Proof. intros Hm Hf. apply steps_bind; [done|]. intros [a|e]; [apply Hf|apply steps_ret]. Qed.

Lemma steps_ignore {A} (m : M S A) : steps R m → steps R (ignore m).
Proof. intros Hm. apply steps_bind; [done|]. intros a. apply steps_ret. Qed.

Lemma steps_for_each {A} (f : A → M S ()) l : (∀ x, x ∈ l → steps R (f x)) → steps R (for_each f l).
Proof.
  induction l as [|x l IH]; intros Hf; simpl; [apply steps_ret|].
  apply steps_bind; [apply Hf; by left|]. intros _. apply IH. intros y Hy. apply Hf. by right.
Qed.

Lemma steps_mapM {A B} (f : A → M S B) l : (∀ x, x ∈ l → steps R (f x)) → steps R (mapM f l).
Proof.
  induction l as [|x l IH]; intros Hf; simpl; [apply (steps_ret (A:=list B))|].
  apply steps_bind; [apply Hf; by left|]. intros b. apply steps_bind; [|intros bs; apply steps_ret].
  apply IH. intros y Hy. apply Hf. by right.
Qed.
End steps.

Lemma steps_zoom {S T A} (R : relation S) (getter : S → T) (setter : T → S → S) (m : M T A) :
  (∀ s, R s (setter (m (getter s)).2 s)) → steps R (zoom getter setter m).
Proof. intros H s. specialize (H s). unfold zoom. by destruct (m (getter s)). Qed.

Lemma steps_weaken {S A} (R R' : relation S) (m : M S A) : (∀ s s', R s s' → R' s s') → steps R m → steps R' m.
Proof. intros H Hm s. by apply H. Qed.

Create HintDb steps.
#[export] Hint Resolve steps_ret steps_gets steps_bind steps_try steps_ignore steps_for_each steps_mapM steps_zoom : steps.

#[export] Hint Extern 0 (PreOrder _) => typeclasses eauto : steps.

(** Peels the monad off, branch by branch. *)
Ltac peel := repeat first
  [ progress intros
  | solve [auto with steps]
  | apply steps_bind; [typeclasses eauto| |]
  | apply steps_for_each; [typeclasses eauto|]
  | match goal with |- steps _ (match ?x with _ => _ end) => destruct x end ].

(** Running a bind, a [mapM] and a [for_each]. *)
Lemma bind_run {S A B} (m : M S A) (f : A → M S B) s : (m ≫= f) s = let '(a, s1) := m s in f a s1.
Proof. done. Qed.
Lemma mapM_cons_run {S A B} (f : A → M S B) x l s :
  mapM f (x :: l) s = let '(b, s1) := f x s in let '(bs, s2) := mapM f l s1 in (b :: bs, s2).
Proof. done. Qed.
