(* ===== verification/MinerRegistry.v ===== *)
(** * The miner registry ([src/miner_registry.rs])

    The connected, authorized miners and the capabilities they announced.
    [inner] is the insertion-ordered [IndexMap]: an association list with
    distinct keys whose values are the miners' downstream channels. *)

From S2P Require Export Prelude.

(** A downstream channel ([UnboundedSender<String>]), by its number. *)
Definition chan : Type := N.

Record MinerRegistry := mkRegistry {
  inner : list (string * chan);
  draft_capable : gset string;
  banned : gset string;
  auditor_capable : gset string;
  expert_capable_vram : gmap string N
}.

Record MinerSnapshot := mkSnapshot {
  snap_wallet : string;
  snap_draft_capable : bool;
  snap_auditor_capable : bool;
  snap_expert_capable : bool;
  snap_expert_vram_mb : option N;
  snap_banned : bool
}.

(** [MinerRegistry::new] *)
Definition new_registry : MinerRegistry :=
  {| inner := []; draft_capable := ∅; banned := ∅; auditor_capable := ∅; expert_capable_vram := ∅ |}.

(** ** [IndexMap] operations *)

Definition index_get (l : list (string * chan)) (w : string) : option chan :=
  find_map (λ kv, if bool_decide (kv.1 = w) then Some kv.2 else None) l.
Definition contains_key (l : list (string * chan)) (w : string) : bool :=
  bool_decide (is_Some (index_get l w)).
Definition get_index_of (l : list (string * chan)) (w : string) : option nat :=
  position (λ kv, bool_decide (kv.1 = w)) l.
(** [insert] keeps the position of a key that is present. *)
Definition index_insert (l : list (string * chan)) (w : string) (tx : chan) : list (string * chan) :=
  if contains_key l w
  then (λ kv, if bool_decide (kv.1 = w) then (w, tx) else kv) <$> l
  else l ++ [(w, tx)].
(** [shift_remove] keeps the order of the others. *)
Definition shift_remove (l : list (string * chan)) (w : string) : list (string * chan) :=
  filter (λ kv, kv.1 ≠ w) l.

(** ** The registry's operations *)

Definition ban (w : string) (r : MinerRegistry) : MinerRegistry :=
  {| inner := inner r; draft_capable := draft_capable r; banned := {[w]} ∪ banned r;
     auditor_capable := auditor_capable r; expert_capable_vram := expert_capable_vram r |}.

Definition is_banned (w : string) (r : MinerRegistry) : bool := bool_decide (w ∈ banned r).

Definition register (w : string) (tx : chan) (r : MinerRegistry) : MinerRegistry :=
  {| inner := index_insert (inner r) w tx; draft_capable := draft_capable r; banned := banned r;
     auditor_capable := auditor_capable r; expert_capable_vram := expert_capable_vram r |}.

Definition unregister (w : string) (r : MinerRegistry) : MinerRegistry :=
  {| inner := shift_remove (inner r) w; draft_capable := draft_capable r ∖ {[w]}; banned := banned r;
     auditor_capable := auditor_capable r ∖ {[w]};
     expert_capable_vram := delete w (expert_capable_vram r) |}.

Definition get (w : string) (r : MinerRegistry) : option chan := index_get (inner r) w.

Definition snapshot_all (r : MinerRegistry) : list MinerSnapshot :=
  (λ w, {| snap_wallet := w;
           snap_draft_capable := bool_decide (w ∈ draft_capable r);
           snap_auditor_capable := bool_decide (w ∈ auditor_capable r);
           snap_expert_capable := bool_decide (is_Some (expert_capable_vram r !! w));
           snap_expert_vram_mb := expert_capable_vram r !! w;
           snap_banned := bool_decide (w ∈ banned r) |}) <$> (inner r).*1.

(** The scan [pick_next] and [pick_draft_capable] share: the indices from the
    one after [last], wrapping around once, and the first that passes [ok]. *)
Definition round_robin (l : list (string * chan)) (last : option string) (ok : string → bool) : option string :=
  let start_idx :=
    match last ≫= get_index_of l with
    | Some idx => (idx + 1) `mod` length l
    | None => 0
    end in
  find_map (λ idx, match l !! idx with
                   | Some (w, _) => if ok w then Some w else None
                   | None => None
                   end)
    ((λ offset, (start_idx + offset) `mod` length l) <$> seq 0 (length l)).

Definition pick_next (last : option string) (r : MinerRegistry) : option string :=
  match inner r with
  | [] => None
  | _ => round_robin (inner r) last (λ w, negb (bool_decide (w ∈ banned r)))
  end.

Definition mark_draft_capable (w : string) (r : MinerRegistry) : MinerRegistry :=
  if contains_key (inner r) w then
    {| inner := inner r; draft_capable := {[w]} ∪ draft_capable r; banned := banned r;
       auditor_capable := auditor_capable r; expert_capable_vram := expert_capable_vram r |}
  else r.

Definition pick_draft_capable (last : option string) (r : MinerRegistry) : option string :=
  match inner r with
  | [] => None
  | _ =>
    if bool_decide (draft_capable r = ∅) then None
    else round_robin (inner r) last
           (λ w, bool_decide (w ∈ draft_capable r) && negb (bool_decide (w ∈ banned r)))
  end.

Definition mark_auditor_capable (w : string) (r : MinerRegistry) : MinerRegistry :=
  if contains_key (inner r) w then
    {| inner := inner r; draft_capable := draft_capable r; banned := banned r;
       auditor_capable := {[w]} ∪ auditor_capable r; expert_capable_vram := expert_capable_vram r |}
  else r.

Definition pick_auditor_capable (trusted : list string) (exclude_wallet : string) (r : MinerRegistry) : option string :=
  find_first (λ w, negb (bool_decide (w = exclude_wallet)) && contains_key (inner r) w
                   && bool_decide (w ∈ auditor_capable r) && negb (bool_decide (w ∈ banned r))) trusted.

Definition mark_expert_capable (w : string) (vram_mb : N) (r : MinerRegistry) : MinerRegistry :=
  if contains_key (inner r) w then
    {| inner := inner r; draft_capable := draft_capable r; banned := banned r;
       auditor_capable := auditor_capable r; expert_capable_vram := <[w := vram_mb]> (expert_capable_vram r) |}
  else r.

(** The filter of [pick_expert_hosts_top_n]. *)
Definition expert_eligible (r : MinerRegistry) (min_vram_mb : N) (exclude_wallets : list string)
    (kv : string * N) : bool :=
  (min_vram_mb <=? kv.2)%N && contains_key (inner r) kv.1
  && negb (bool_decide (kv.1 ∈ banned r)) && negb (bool_decide (kv.1 ∈ exclude_wallets)).

(** Its comparator: VRAM descending, then wallet ascending. *)
Definition vram_order (a b : string * N) : bool :=
  (b.2 <? a.2)%N || ((b.2 =? a.2)%N && String.leb a.1 b.1).

Definition pick_expert_hosts_top_n (min_vram_mb : N) (exclude_wallets : list string) (n : nat)
    (r : MinerRegistry) : list string :=
  match n with
  | 0 => []
  | _ =>
    let eligible := filter (λ kv, expert_eligible r min_vram_mb exclude_wallets kv = true)
                      (map_to_list (expert_capable_vram r)) in
    (take n (stable_sort vram_order eligible)).*1
  end.

Definition pick_expert_host (min_vram_mb : N) (exclude_wallets : list string) (r : MinerRegistry) : option string :=
  head (pick_expert_hosts_top_n min_vram_mb exclude_wallets 1 r).

(** ** The registry as a state machine *)

Inductive registry_step : MinerRegistry → MinerRegistry → Prop :=
| rs_ban w r : registry_step r (ban w r)
| rs_register w tx r : registry_step r (register w tx r)
| rs_unregister w r : registry_step r (unregister w r)
| rs_mark_draft w r : registry_step r (mark_draft_capable w r)
| rs_mark_auditor w r : registry_step r (mark_auditor_capable w r)
| rs_mark_expert w vram r : registry_step r (mark_expert_capable w vram r).

(** Every capability on record belongs to a connected wallet, and the
    insertion-ordered map has distinct keys. *)
Record registry_wf (r : MinerRegistry) : Prop := {
  wf_nodup : NoDup (inner r).*1;
  wf_draft : ∀ w, w ∈ draft_capable r → w ∈ (inner r).*1;
  wf_auditor : ∀ w, w ∈ auditor_capable r → w ∈ (inner r).*1;
  wf_expert : ∀ w v, expert_capable_vram r !! w = Some v → w ∈ (inner r).*1
}.

(** The wallets in the order the scan visits them after [last]. *)
Definition rotation (l : list (string * chan)) (last : option string) : list string :=
  match last ≫= get_index_of l with
  | Some idx => drop (S idx) l.*1 ++ take (S idx) l.*1
  | None => l.*1
  end.

(** [k+1] picks in a row, each one starting after the last. *)
Fixpoint pick_sequence (r : MinerRegistry) (last : option string) (k : nat) : list (option string) :=
  match k with
  | 0 => []
  | S k' => let p := pick_next last r in p :: pick_sequence r p k'
  end.

(** ** Lemmas *)

Lemma index_get_Some l w tx : index_get l w = Some tx → (w, tx) ∈ l.
Proof.
  unfold index_get. intros (l1 & [k v] & l2 & -> & Hk & _)%find_map_Some.
  simpl in Hk. case_bool_decide; [|done]. simplify_eq. set_solver.
Qed.

Lemma contains_key_spec l w : contains_key l w = true ↔ w ∈ l.*1.
Proof.
  unfold contains_key. rewrite bool_decide_eq_true. split.
  - intros [tx Htx]. apply index_get_Some in Htx. by apply (list_elem_of_fmap_2 fst) in Htx.
  - intros ([k v] & -> & Hin)%list_elem_of_fmap. simpl.
    destruct (index_get l k) eqn:E; [eauto|].
    unfold index_get in E. rewrite find_map_None, Forall_forall in E.
    specialize (E _ Hin). simpl in E. by rewrite bool_decide_eq_true_2 in E.
Qed.

Lemma get_index_of_Some l w i : get_index_of l w = Some i → l.*1 !! i = Some w.
Proof.
  intros ([k v] & Hl & Hk)%position_Some. simpl in Hk. case_bool_decide; [|done]. subst.
  by rewrite list_lookup_fmap, Hl.
Qed.

Lemma get_index_of_NoDup l w i :
  NoDup l.*1 → l.*1 !! i = Some w → get_index_of l w = Some i.
Proof.
  intros Hnd Hi. destruct (get_index_of l w) as [j|] eqn:E.
  - apply get_index_of_Some in E. f_equal. by eapply NoDup_lookup.
  - exfalso. unfold get_index_of in E. apply position_None in E.
    rewrite list_lookup_fmap in Hi. destruct (l !! i) as [[k v]|] eqn:El; simplify_eq/=.
    rewrite Forall_lookup in E. specialize (E _ _ El). simpl in E.
    by rewrite bool_decide_eq_true_2 in E.
Qed.

Lemma index_insert_keys l w tx :
  (index_insert l w tx).*1 = if contains_key l w then l.*1 else l.*1 ++ [w].
Proof.
  unfold index_insert. destruct (contains_key l w) eqn:E.
  - rewrite <-list_fmap_compose. apply list_fmap_ext. intros i [k v] _. simpl.
    case_bool_decide; naive_solver.
  - by rewrite fmap_app.
Qed.

Lemma shift_remove_keys l w : (shift_remove l w).*1 = filter (λ k, k ≠ w) l.*1.
Proof.
  unfold shift_remove. induction l as [|[k v] l IH]; csimpl; [done|].
  rewrite !filter_cons. simpl. case_decide; csimpl; by rewrite IH.
Qed.

Lemma round_robin_rotation l last ok : round_robin l last ok = find_first ok (rotation l last).
Proof.
  unfold round_robin, rotation, find_first.
  assert (∀ s, s < length l →
    find_map (λ idx, match l !! idx with Some (w, _) => if ok w then Some w else None | None => None end)
      ((λ o, (s + o) `mod` length l) <$> seq 0 (length l))
    = find_map (λ w, if ok w then Some w else None) (drop s l.*1 ++ take s l.*1)) as Hrot.
  { intros s Hs. rewrite find_map_fmap.
    rewrite <-(find_map_fmap (λ o : option (string * chan),
      match o with Some (w, _) => if ok w then Some w else None | None => None end)
      (λ o, l !! ((s + o) `mod` length l))).
    rewrite rotated_lookups by done. rewrite find_map_fmap.
    rewrite <-fmap_drop, <-fmap_take, <-fmap_app, find_map_fmap.
    apply find_map_ext. by intros [w tx]. }
  destruct (last ≫= get_index_of l) as [i|] eqn:E.
  - assert (i < length l) as Hi.
    { destruct last as [w|]; simpl in E; [|done]. apply get_index_of_Some, lookup_lt_Some in E.
      by rewrite length_fmap in E. }
    rewrite Hrot by (apply Nat.mod_upper_bound; lia). f_equal.
    destruct (decide (S i = length l)) as [He|Hne].
    + replace (i + 1) with (length l) by lia. rewrite Nat.Div0.mod_same.
      rewrite He. rewrite drop_0, take_0, app_nil_r.
      rewrite drop_ge by (by rewrite length_fmap). rewrite take_ge by (by rewrite length_fmap). done.
    + rewrite Nat.mod_small by lia. by rewrite Nat.add_1_r.
  - destruct l as [|kv l]; [done|]. rewrite Hrot by (simpl; lia).
    by rewrite drop_0, take_0, app_nil_r.
Qed.

Lemma rotation_perm l last : rotation l last ≡ₚ l.*1.
Proof.
  unfold rotation. destruct (last ≫= get_index_of l); [|done].
  by rewrite Permutation_app_comm, take_drop.
Qed.

Lemma pick_next_eq last r :
  pick_next last r = find_first (λ w, negb (bool_decide (w ∈ banned r))) (rotation (inner r) last).
Proof.
  unfold pick_next. rewrite <-round_robin_rotation. by destruct (inner r).
Qed.

Lemma vram_order_total x y : vram_order x y = true ∨ vram_order y x = true.
Proof.
  unfold vram_order. destruct x as [w1 v1], y as [w2 v2]; simpl.
  destruct (N.ltb_spec v2 v1), (N.ltb_spec v1 v2), (N.eqb_spec v1 v2), (N.eqb_spec v2 v1);
    subst; simpl; auto; try lia.
  apply String.leb_total.
Qed.

Lemma string_leb_trans a b c : String.leb a b = true → String.leb b c = true → String.leb a c = true.
Proof.
  intros H1 H2. apply Is_true_true, (transitivity (R:=String.le) (y:=b)); by apply Is_true_true.
Qed.

Lemma vram_order_trans x y z : vram_order x y = true → vram_order y z = true → vram_order x z = true.
Proof.
  unfold vram_order. destruct x as [w1 v1], y as [w2 v2], z as [w3 v3]; simpl.
  rewrite !orb_true_iff, !andb_true_iff, !N.ltb_lt, !N.eqb_eq.
  intros [H1|[-> H1]] [H2|[-> H2]]; [left; lia..|]. right. split; [done|].
  by eapply string_leb_trans.
Qed.

Lemma vram_order_antisym x y : vram_order x y = true → vram_order y x = true → x = y.
Proof.
  unfold vram_order. destruct x as [w1 v1], y as [w2 v2]; simpl.
  rewrite !orb_true_iff, !andb_true_iff, !N.ltb_lt, !N.eqb_eq.
  intros [H1|[-> H1]] [H2|[Hv H2]]; try lia. f_equal. by apply String.leb_antisym.
Qed.

Lemma expert_eligible_spec r min excl kv :
  expert_eligible r min excl kv = true ↔
  (min ≤ kv.2)%N ∧ kv.1 ∈ (inner r).*1 ∧ (kv.1 ∉ banned r) ∧ kv.1 ∉ excl.
Proof.
  unfold expert_eligible. rewrite !andb_true_iff, !negb_true_iff, N.leb_le, contains_key_spec.
  rewrite !bool_decide_eq_false. tauto.
Qed.

Lemma registry_wf_new : registry_wf new_registry.
Proof. split; simpl; [constructor|set_solver..|]. intros w v. by rewrite lookup_empty. Qed.

Lemma unregister_keys w r k : k ∈ (inner (unregister w r)).*1 ↔ k ≠ w ∧ k ∈ (inner r).*1.
Proof. simpl. rewrite shift_remove_keys. by rewrite list_elem_of_filter. Qed.

Lemma mark_draft_wf w r : registry_wf r → registry_wf (mark_draft_capable w r).
Proof.
  intros [H1 H2 H3 H4]. unfold mark_draft_capable.
  destruct (contains_key (inner r) w) eqn:E; [|done].
  apply contains_key_spec in E. split; simpl; auto. set_solver.
Qed.

Lemma mark_auditor_wf w r : registry_wf r → registry_wf (mark_auditor_capable w r).
Proof.
  intros [H1 H2 H3 H4]. unfold mark_auditor_capable.
  destruct (contains_key (inner r) w) eqn:E; [|done].
  apply contains_key_spec in E. split; simpl; auto. set_solver.
Qed.

Lemma mark_expert_wf w v r : registry_wf r → registry_wf (mark_expert_capable w v r).
Proof.
  intros [H1 H2 H3 H4]. unfold mark_expert_capable.
  destruct (contains_key (inner r) w) eqn:E; [|done].
  apply contains_key_spec in E. split; simpl; auto.
  intros w' v'. rewrite lookup_insert. case_decide; naive_solver.
Qed.

Lemma register_wf w tx r : registry_wf r → registry_wf (register w tx r).
Proof.
  intros [H1 H2 H3 H4]. split; simpl; rewrite index_insert_keys;
    destruct (contains_key (inner r) w) eqn:E; try done;
    try (intros; rewrite elem_of_app; left; eauto).
  apply NoDup_app. split_and!; [done| |apply NoDup_singleton].
  intros x Hx ->%list_elem_of_singleton. apply contains_key_spec in Hx. congruence.
Qed.

Lemma unregister_wf w r : registry_wf r → registry_wf (unregister w r).
Proof.
  intros [H1 H2 H3 H4]. split.
  - simpl. rewrite shift_remove_keys. by apply NoDup_filter.
  - intros k Hk. rewrite unregister_keys. simpl in Hk. set_solver.
  - intros k Hk. rewrite unregister_keys. simpl in Hk. set_solver.
  - intros k v Hk. rewrite unregister_keys. simpl in Hk.
    rewrite lookup_delete in Hk. case_decide; naive_solver.
Qed.

Definition not_banned (r : MinerRegistry) (w : string) : bool := negb (bool_decide (w ∈ banned r)).

Lemma not_banned_true r w : not_banned r w = true ↔ w ∉ banned r.
Proof. unfold not_banned. by rewrite negb_true_iff, bool_decide_eq_false. Qed.

Lemma Forall_not_banned_false r l :
  Forall (λ w, not_banned r w = false) l ↔ Forall (λ w, w ∈ banned r) l.
Proof.
  apply Forall_iff. intros w. unfold not_banned.
  by rewrite negb_false_iff, bool_decide_eq_true.
Qed.

(** ** Properties *)

(** C35. [pick_next] is round-robin: it returns the first wallet that is not
    banned in the insertion order rotated to start just after [last] (from the
    first wallet when [last] is absent or no longer registered), and [None]
    exactly when every registered wallet is banned. *)
Theorem pick_next_round_robin (last : option string) (r : MinerRegistry) :
  (∀ w, pick_next last r = Some w ↔
     ∃ before after, rotation (inner r) last = before ++ w :: after ∧ (w ∉ banned r)
       ∧ Forall (λ k, k ∈ banned r) before)
  ∧ (pick_next last r = None ↔ Forall (λ w, w ∈ banned r) (inner r).*1).
Proof.
  rewrite pick_next_eq. change (λ w, negb _) with (not_banned r). split.
  - intros w. unfold find_first. rewrite find_map_Some. setoid_rewrite <-Forall_not_banned_false.
    split.
    + intros (l1 & x & l2 & H1 & H2 & H3). destruct (not_banned r x) eqn:Hx; [|done].
      injection H2 as ->. apply not_banned_true in Hx. exists l1, l2. split_and!; [done..|].
      eapply Forall_impl; [exact H3|]. intros z. simpl. by destruct (not_banned r z).
    + intros (l1 & l2 & H1 & H2 & H3). apply not_banned_true in H2.
      exists l1, w, l2. rewrite H2. split_and!; [done..|].
      eapply Forall_impl; [exact H3|]. simpl. by intros z ->.
  - rewrite find_first_None, (rotation_perm (inner r) last). apply Forall_not_banned_false.
Qed.

Lemma pick_next_step r i w :
  NoDup (inner r).*1 → banned r = ∅ → (inner r).*1 !! i = Some w →
  pick_next (Some w) r = (inner r).*1 !! ((i + 1) `mod` length (inner r)).
Proof.
  intros Hnd Hb Hi. rewrite pick_next_eq, Hb. set (l := inner r) in *. unfold rotation. simpl.
  rewrite (get_index_of_NoDup _ _ _ Hnd Hi). pose proof (lookup_lt_Some _ _ _ Hi) as Hlt.
  rewrite length_fmap in Hlt.
  assert (∀ k ks, find_first (λ w, negb (bool_decide (w ∈ (∅ : gset string)))) (k :: ks) = Some k) as Hff.
  { intros k ks. rewrite find_first_cons. rewrite bool_decide_eq_false_2 by set_solver. done. }
  destruct (decide (S i = length l)) as [He|Hne].
  - replace (i + 1) with (length l) by lia. rewrite Nat.Div0.mod_same.
    rewrite drop_ge by (rewrite length_fmap; lia). rewrite take_ge by (rewrite length_fmap; lia).
    destruct l.*1 as [|k ks] eqn:El; [done|]. simpl app. by rewrite Hff.
  - rewrite Nat.mod_small, Nat.add_1_r by lia.
    destruct (lookup_lt_is_Some_2 l.*1 (S i)) as [k Hk]; [rewrite length_fmap; lia|].
    rewrite (drop_S _ _ _ Hk), Hk. by rewrite <-app_comm_cons, Hff.
Qed.

Lemma pick_sequence_from r i w k j :
  NoDup (inner r).*1 → banned r = ∅ → (inner r).*1 !! i = Some w → j < k →
  pick_sequence r (Some w) k !! j = Some ((inner r).*1 !! ((i + 1 + j) `mod` length (inner r))).
Proof.
  intros Hnd Hb. revert i w j. induction k as [|k IH]; intros i w j Hi Hj; [lia|].
  pose proof (lookup_lt_Some _ _ _ Hi) as Hlt. rewrite length_fmap in Hlt.
  simpl. rewrite (pick_next_step r i w) by done.
  set (i' := (i + 1) `mod` length (inner r)).
  assert (i' < length (inner r)) as Hi' by (apply Nat.mod_upper_bound; lia).
  destruct (lookup_lt_is_Some_2 (inner r).*1 i') as [w' Hw']; [by rewrite length_fmap|].
  destruct j as [|j]; simpl; [by rewrite Nat.add_0_r|].
  rewrite Hw', (IH i' w') by (done || lia). do 2 f_equal. subst i'.
  replace (i + 1 + S j) with ((i + 1) + (1 + j)) by lia.
  by rewrite <-(Nat.Div0.add_mod_idemp_l (i + 1)), Nat.add_assoc.
Qed.

(** Fairness: with no wallet banned, a run of picks that threads [last]
    from [None] visits the connected wallets cyclically in connection order:
    pick [j] is wallet [j mod n], so any [n] consecutive picks serve each of
    the [n] wallets exactly once. *)
Theorem pick_next_fair (r : MinerRegistry) (k j : nat)
    (Hwf : registry_wf r) (Hb : banned r = ∅) (Hne : inner r ≠ []) (Hj : j < k) :
  pick_sequence r None k !! j = Some ((inner r).*1 !! (j `mod` length (inner r))).
Proof.
  destruct Hwf as [Hnd _ _ _]. destruct k as [|k]; [lia|].
  destruct (lookup_lt_is_Some_2 (inner r).*1 0) as [w Hw].
  { rewrite length_fmap. destruct (inner r); [done|simpl; lia]. }
  assert (pick_next None r = Some w) as Hp.
  { apply pick_next_round_robin. unfold rotation. simpl.
    destruct (inner r).*1 as [|k' ks]; simplify_eq/=. exists [], ks. rewrite Hb. split_and!; [done|set_solver|done]. }
  simpl. rewrite Hp. destruct j as [|j]; [by rewrite Nat.Div0.mod_0_l, Hw|].
  simpl. by rewrite (pick_sequence_from r 0 w) by (done || lia).
Qed.

Definition demo_registry : MinerRegistry :=
  {| inner := [("a", 0%N); ("b", 1%N); ("c", 2%N)]; draft_capable := ∅; banned := ∅;
     auditor_capable := ∅; expert_capable_vram := {["a" := 4000%N; "c" := 24000%N]} |}.

Lemma pick_next_fair_witness :
  pick_sequence demo_registry None 5 !! 4 = Some (Some "b").
Proof.
  apply (pick_next_fair demo_registry 5 4).
  - split; simpl.
    + apply (bool_decide_unpack _). by vm_compute.
    + set_solver.
    + set_solver.
    + intros w v. rewrite lookup_insert. case_decide; [subst; set_solver|].
      rewrite lookup_singleton. case_decide; [subst; set_solver|done].
  - reflexivity.
  - discriminate.
  - lia.
Defined.

(** [pick_expert_hosts_top_n] returns the best hosts: the result is the
    first [n] of the eligible wallets (connected, not banned, not excluded,
    with enough VRAM) by descending VRAM and ascending address, without
    repetition; a wallet that is eligible but left out ranks after every
    wallet returned; and fewer than [n] come back only when there are no more. *)
Theorem pick_expert_hosts_best (min_vram_mb : N) (excl : list string) (n : nat) (r : MinerRegistry) :
  let hosts := pick_expert_hosts_top_n min_vram_mb excl n r in
  let ok w v := expert_capable_vram r !! w = Some v ∧ (min_vram_mb ≤ v)%N ∧ w ∈ (inner r).*1
                ∧ (w ∉ banned r) ∧ w ∉ excl in
  NoDup hosts
  ∧ (∀ w, w ∈ hosts → ∃ v, ok w v)
  ∧ length hosts ≤ n
  ∧ (∀ w v, ok w v → w ∉ hosts →
       length hosts = n ∧ ∀ w' v', w' ∈ hosts → expert_capable_vram r !! w' = Some v' →
                            vram_order (w', v') (w, v) = true).
Proof.
  intros hosts ok.
  destruct n as [|n'].
  { subst hosts. simpl. split_and!; [constructor|set_solver|lia|]. intros. split; [done|]. set_solver. }
  set (n := S n') in *. set (elig := filter (λ kv, expert_eligible r min_vram_mb excl kv = true)
     (map_to_list (expert_capable_vram r))).
  assert (hosts = (take n (stable_sort vram_order elig)).*1) as Hh by reflexivity.
  assert (∀ kv, kv ∈ stable_sort vram_order elig ↔ ok kv.1 kv.2) as Hok.
  { intros [w v]. rewrite stable_sort_perm. unfold elig.
    rewrite list_elem_of_filter, expert_eligible_spec, elem_of_map_to_list. simpl. unfold ok. tauto. }
  assert (NoDup (stable_sort vram_order elig).*1) as Hnd.
  { rewrite stable_sort_perm. unfold elig. eapply sublist_NoDup; [apply (NoDup_fst_map_to_list (expert_capable_vram r))|].
    apply fmap_sublist, sublist_filter. }
  pose proof (stable_sort_sorted vram_order elig vram_order_total) as Hs.
  apply Sorted_StronglySorted in Hs; [|intros ???; apply vram_order_trans].
  rewrite <-(take_drop n (stable_sort vram_order elig)) in Hok, Hnd, Hs.
  set (hd := take n _) in *. set (tl := drop n _) in *.
  rewrite fmap_app in Hnd. apply NoDup_app in Hnd as (Hnd1 & Hdisj & _).
  split_and!.
  - by rewrite Hh.
  - intros w Hw. rewrite Hh in Hw. apply list_elem_of_fmap in Hw as ([k v] & -> & Hin).
    exists v. apply (Hok (k, v)). set_solver.
  - rewrite Hh, length_fmap. unfold hd. rewrite length_take. lia.
  - intros w v Hw Hnot. apply (Hok (w, v)) in Hw. apply elem_of_app in Hw as [Hw|Hw].
    { exfalso. apply Hnot. rewrite Hh. by apply (list_elem_of_fmap_2 fst) in Hw. }
    split.
    + rewrite Hh, length_fmap. unfold hd. rewrite length_take.
      apply Nat.min_l. apply Nat.nlt_ge. intros Hlt. unfold tl in Hw. rewrite drop_ge in Hw by lia. set_solver.
    + intros w' v' Hw' Hv'. rewrite Hh in Hw'. apply list_elem_of_fmap in Hw' as ([k v''] & -> & Hin).
      assert (ok k v'') as (Hk & _) by (apply (Hok (k, v'')); set_solver). simplify_eq/=.
      exact (StronglySorted_app_1_elem_of _ _ _ _ _ Hs Hin Hw).
Qed.

(** In every registry reachable from [new] by any sequence of operations,
    the connected wallets are distinct and every draft, auditor and expert
    capability belongs to a wallet connected now: no dispatch can pick a
    disconnected miner by a stale capability. *)
Theorem registry_reachable_wf (r : MinerRegistry) (Hreach : rtc registry_step new_registry r) :
  registry_wf r.
Proof.
  assert (∀ r0, rtc registry_step r0 r → registry_wf r0 → registry_wf r) as Hgen.
  { clear Hreach. intros r0. induction 1 as [|r1 r2 r3 Hstep _ IH]; [done|]. intros Hwf. apply IH.
    destruct Hstep; [by destruct Hwf|by apply register_wf|by apply unregister_wf|
      by apply mark_draft_wf|by apply mark_auditor_wf|by apply mark_expert_wf]. }
  apply (Hgen new_registry); [done|apply registry_wf_new].
Qed.

Lemma registry_reachable_wf_witness :
  registry_wf (mark_expert_capable "a" 8000 (register "a" 0%N new_registry)).
Proof.
  apply registry_reachable_wf.
  eapply rtc_l; [apply (rs_register "a" 0%N)|]. eapply rtc_l; [apply (rs_mark_expert "a" 8000)|].
  apply rtc_refl.
Defined.
