(* ===== verification/AssignmentTracker.v ===== *)
(** * The assignment tracker ([src/opoi/assignment.rs])

    Which connected miner each pending [request_id] was handed to.  Every
    method is one atomic operation on the shared [DashMap] (the entry API
    holds the shard lock), so concurrent callers are sequences of them. *)

From S2P Require Export Prelude.

Record Assignment := mkAssignment { miner_wallet : string; assigned_at : N }.

Abbreviation tracker := (gmap string Assignment).

(** [AssignmentTracker::try_assign], [now] being [Instant::now()]. *)
Definition try_assign (request_id wallet : string) (now : N) (t : tracker) : bool * tracker :=
  match t !! request_id with
  | Some _ => (false, t)
  | None => (true, <[request_id := {| miner_wallet := wallet; assigned_at := now |}]> t)
  end.

Definition assignee (request_id : string) (t : tracker) : option string :=
  miner_wallet <$> t !! request_id.

Definition remove (request_id : string) (t : tracker) : tracker := delete request_id t.

(** [retain(|_, a| a.miner_wallet != wallet)] *)
Definition release_for_wallet (wallet : string) (t : tracker) : tracker :=
  filter (λ kv, miner_wallet kv.2 ≠ wallet) t.

(** ** Sequences of operations *)

Inductive tracker_op : Type :=
| OpTryAssign (request_id wallet : string) (now : N)
| OpRemove (request_id : string)
| OpRelease (wallet : string).

Definition run_op (o : tracker_op) (t : tracker) : option (string * bool) * tracker :=
  match o with
  | OpTryAssign r w now => let '(b, t') := try_assign r w now t in (Some (r, b), t')
  | OpRemove r => (None, remove r t)
  | OpRelease w => (None, release_for_wallet w t)
  end.

(** The answers of a sequence of operations, with the final state. *)
Fixpoint run_ops (os : list tracker_op) (t : tracker) : list (string * bool) * tracker :=
  match os with
  | [] => ([], t)
  | o :: os' =>
    let '(a, t1) := run_op o t in
    let '(ans, t2) := run_ops os' t1 in
    (option_list a ++ ans, t2)
  end.

(** The operations that may free the claim of [wallet] on [request_id]. *)
Definition frees (request_id wallet : string) (o : tracker_op) : Prop :=
  match o with
  | OpTryAssign _ _ _ => False
  | OpRemove r => r = request_id
  | OpRelease w => w = wallet
  end.

(** ** Lemmas *)

Lemma assignee_release r w t :
  assignee r (release_for_wallet w t) =
  match assignee r t with Some w' => if bool_decide (w' = w) then None else Some w' | None => None end.
Proof.
  unfold assignee, release_for_wallet. rewrite map_lookup_filter.
  destruct (t !! r) as [a|]; simpl; [|done].
  case_bool_decide; case_guard; simplify_eq/=; done.
Qed.

Lemma run_op_keeps_claim o r w t a t' :
  assignee r t = Some w → ¬ frees r w o → run_op o t = (a, t') →
  assignee r t' = Some w ∧ (∀ b, a = Some (r, b) → b = false).
Proof.
  intros Ha Hf Hrun. destruct o as [r' w' now|r'|w']; simpl in *.
  - unfold try_assign in Hrun. destruct (t !! r') eqn:E; simplify_eq; [split; congruence|].
    unfold assignee in *. destruct (decide (r = r')) as [->|Hne]; [by rewrite E in Ha|].
    rewrite lookup_insert_ne by done. split; [done|]. naive_solver.
  - simplify_eq. unfold assignee, remove in *. by rewrite lookup_delete_ne by done.
  - simplify_eq. rewrite assignee_release, Ha, bool_decide_eq_false_2 by done. done.
Qed.

(** ** Properties *)

(** C36. Exclusive claims: once [try_assign] has handed [request_id] to
    [wallet], then under any later sequence of operations of any callers that
    does not remove this request or release this wallet, the assignee stays
    [wallet] and every further [try_assign] of the request is refused. *)
Theorem try_assign_exclusive (request_id wallet : string) (now : N) (t t1 t2 : tracker)
    (os : list tracker_op) (answers : list (string * bool))
    (Hclaim : try_assign request_id wallet now t = (true, t1))
    (Hkeep : Forall (λ o, ¬ frees request_id wallet o) os)
    (Hrun : run_ops os t1 = (answers, t2)) :
  assignee request_id t2 = Some wallet
  ∧ Forall (λ a, a.1 = request_id → a.2 = false) answers.
Proof.
  assert (assignee request_id t1 = Some wallet) as Ha.
  { unfold try_assign in Hclaim. destruct (t !! request_id); simplify_eq.
    unfold assignee. by rewrite lookup_insert_eq. }
  clear Hclaim. revert t1 answers Ha Hrun. induction Hkeep as [|o os Ho _ IH]; intros t1 answers Ha Hrun; simpl in Hrun.
  { by simplify_eq. }
  destruct (run_op o t1) as [a t1'] eqn:Eo, (run_ops os t1') as [ans t2'] eqn:Eos. simplify_eq.
  destruct (run_op_keeps_claim _ _ _ _ _ _ Ha Ho Eo) as [Ha' Hno].
  destruct (IH _ _ Ha' Eos) as [H1 H2]. split; [done|].
  apply Forall_app. split; [|done]. destruct a as [[r b]|]; simpl; [|done].
  constructor; [|done]. simpl. intros ->. by apply Hno.
Qed.

Lemma try_assign_exclusive_witness :
  let t1 := (try_assign "req" "alice" 0 ∅).2 in
  let os := [OpTryAssign "req" "bob" 1; OpRelease "bob"; OpTryAssign "req" "carol" 2] in
  assignee "req" (run_ops os t1).2 = Some "alice"
  ∧ Forall (λ a, a.1 = "req" → a.2 = false) (run_ops os t1).1.
Proof.
  apply (try_assign_exclusive "req" "alice" 0 ∅ (try_assign "req" "alice" 0 ∅).2 _
    [OpTryAssign "req" "bob" 1; OpRelease "bob"; OpTryAssign "req" "carol" 2]).
  - reflexivity.
  - repeat constructor; simpl; congruence.
  - vm_compute. reflexivity.
Defined.

(** Disconnect releases exactly the leaver's claims: a request held by
    [wallet] becomes assignable again (the next [try_assign] succeeds), and the
    claims of every other wallet are untouched. *)
Theorem release_for_wallet_reassignable (wallet r w' : string) (now : N) (t : tracker) :
  (assignee r t = Some wallet → (try_assign r w' now (release_for_wallet wallet t)).1 = true)
  ∧ (∀ w, w ≠ wallet → assignee r t = Some w → assignee r (release_for_wallet wallet t) = Some w).
Proof.
  pose proof (assignee_release r wallet t) as Hrel. split.
  - intros Ha. rewrite Ha, bool_decide_eq_true_2 in Hrel by done.
    unfold try_assign. unfold assignee in Hrel. by destruct (release_for_wallet wallet t !! r).
  - intros w Hne Ha. by rewrite Hrel, Ha, bool_decide_eq_false_2.
Qed.
