(* ===== verification/StakePool.v ===== *)
(** * The stake pool ([src/stake_pool.rs])

    The bridge's stake identities, tried in rotation.  [next] is an
    [AtomicUsize]: on the 64-bit targets the service runs on it wraps at
    [2^64]. *)

From S2P Require Export Prelude.

Record StakePool := mkStakePool { addresses : list string; next : N }.

(** [StakePool::new] panics ([None]) on an empty list. *)
Definition new_stake_pool (addrs : list string) : option StakePool :=
  match addrs with
  | [] => None
  | _ => Some {| addresses := addrs; next := 0 |}
  end.

Definition primary (p : StakePool) : option string := addresses p !! 0.

(** [next.fetch_add(1)] *)
Definition fetch_add (p : StakePool) : N * StakePool :=
  (next p, {| addresses := addresses p; next := wrap64 (next p + 1) |}).

(** The loop of [try_each] over the addresses still to try. *)
Fixpoint try_loop {S T} (f : string → M S (result T AppError)) (order : list string) (last_err : AppError)
    : M S (result (string * T) AppError) :=
  match order with
  | [] => mret (Err last_err)
  | addr :: order' =>
    r ← f addr;
    match r with
    | Ok v => mret (Ok (addr, v))
    | Err e => try_loop f order' e
    end
  end.

(** The order in which one call visits the addresses, from offset [start]. *)
Definition try_order (p : StakePool) (start : nat) : list string :=
  omap (λ i, addresses p !! ((start + i) `mod` length (addresses p))) (seq 0 (length (addresses p))).

Definition try_each {S T} (f : string → M S (result T AppError)) : M (StakePool * S) (result (string * T) AppError) :=
  λ '(p, s),
    let '(n, p') := fetch_add p in
    let start := N.to_nat (n `mod` N.of_nat (length (addresses p))) in
    let '(r, s') := try_loop f (try_order p start) (Rpc "StakePool: no addresses configured") s in
    (r, (p', s')).

(** A call that logs the addresses it was tried with, its answers depending on
    the address and on how many calls came before. *)
Definition logging {T} (answer : nat → string → result T AppError) (addr : string) : M (list string) (result T AppError) :=
  λ log, (answer (length log) addr, log ++ [addr]).

(** ** Lemmas *)

Lemma omap_fmap_Some {A B} (g : A → option B) (l : list A) (ys : list B) :
  g <$> l = Some <$> ys → omap g l = ys.
Proof.
  revert ys. induction l as [|x l IH]; intros [|y ys] H; simplify_eq/=; [done|].
  rewrite H. f_equal. by apply IH.
Qed.

Lemma try_order_eq p start :
  start < length (addresses p) → try_order p start = drop start (addresses p) ++ take start (addresses p).
Proof. intros Hs. apply omap_fmap_Some, rotated_lookups, Hs. Qed.

Lemma try_order_perm p start : start < length (addresses p) → try_order p start ≡ₚ addresses p.
Proof. intros Hs. by rewrite try_order_eq, Permutation_app_comm, take_drop. Qed.

Lemma try_loop_log {T} (answer : nat → string → result T AppError) order e log :
  match try_loop (logging answer) order e log with
  | (Ok (a, v), log') =>
      ∃ before after, order = before ++ a :: after ∧ log' = log ++ before ++ [a]
        ∧ answer (length log + length before) a = Ok v
        ∧ ∀ i b, before !! i = Some b → ∃ e', answer (length log + i) b = Err e'
  | (Err e', log') =>
      log' = log ++ order
      ∧ (∀ i b, order !! i = Some b → ∃ e'', answer (length log + i) b = Err e'')
      ∧ (order = [] → e' = e)
      ∧ (∀ b, last order = Some b → answer (length log + pred (length order)) b = Err e')
  end.
Proof.
  revert e log. induction order as [|a order IH]; intros e log; simpl.
  { rewrite app_nil_r. split_and!; try done. }
  unfold mbind, M_bind, logging at 1. destruct (answer (length log) a) as [v|e1] eqn:Ea.
  - exists [], order. split_and!; [done|done| |done]. by rewrite Nat.add_0_r.
  - specialize (IH e1 (log ++ [a])). rewrite length_app in IH. simpl in IH.
    destruct (try_loop (logging answer) order e1 (log ++ [a])) as [[[a' v]|e'] log'].
    + destruct IH as (before & after & -> & -> & Hok & Herr). exists (a :: before), after.
      split_and!; [done|by rewrite <-!app_assoc|simpl; by rewrite <-Nat.add_assoc in Hok|].
      intros [|i] b; simpl; [intros [= <-]; rewrite Nat.add_0_r; eauto|].
      intros Hb%Herr. by rewrite <-Nat.add_assoc in Hb.
    + destruct IH as (-> & Herr & Hnil & Hlast). split_and!; [by rewrite <-app_assoc| |done|].
      * intros [|i] b; simpl; [intros [= <-]; rewrite Nat.add_0_r; eauto|].
        intros Hb%Herr. by rewrite <-Nat.add_assoc in Hb.
      * intros b Hb. destruct order as [|a2 order]; simpl in *.
        { rewrite (Hnil eq_refl). injection Hb as <-. by rewrite Nat.add_0_r. }
        specialize (Hlast b Hb). by rewrite <-Nat.add_assoc in Hlast.
Qed.

(** ** Properties *)

(** [try_each] visits each pool address at most once, in rotation order
    from the counter, and stops at the first success: on success the calls made
    are exactly the failing addresses before the winner and the winner; on
    failure every address of the pool was tried exactly once, each of them
    failed, and the error returned is the last one. *)
Theorem try_each_visits {T} (p : StakePool) (answer : nat → string → result T AppError) (Hne : addresses p ≠ []) :
  let start := N.to_nat (next p `mod` N.of_nat (length (addresses p))) in
  let order := drop start (addresses p) ++ take start (addresses p) in
  match try_each (logging answer) (p, []) with
  | (Ok (a, v), (_, log)) =>
      ∃ before after, order = before ++ a :: after ∧ log = before ++ [a]
        ∧ answer (length before) a = Ok v
        ∧ ∀ i b, before !! i = Some b → ∃ e', answer i b = Err e'
  | (Err e, (_, log)) =>
      log = order ∧ log ≡ₚ addresses p
      ∧ (∀ i b, log !! i = Some b → ∃ e', answer i b = Err e')
      ∧ (∃ b, last log = Some b ∧ answer (pred (length log)) b = Err e)
  end.
Proof.
  intros start order.
  assert (start < length (addresses p)) as Hstart.
  { unfold start. destruct (addresses p) as [|a l]; [done|].
    pose proof (N.mod_upper_bound (next p) (N.of_nat (length (a :: l)))). simpl in *. lia. }
  unfold try_each. simpl. fold start. rewrite try_order_eq by done. fold order.
  assert (order ≡ₚ addresses p) as Hperm.
  { unfold order. by rewrite Permutation_app_comm, take_drop. }
  pose proof (try_loop_log answer order (Rpc "StakePool: no addresses configured") []) as H.
  destruct (try_loop (logging answer) order _ []) as [[[a v]|e] log]; simpl in *.
  - destruct H as (before & after & H1 & H2 & H3 & H4). exists before, after. done.
  - destruct H as (-> & H2 & _ & H4). split_and!; try done.
    destruct (last order) as [b|] eqn:El; [eauto|].
    apply last_None in El. rewrite El in Hperm. by apply Permutation_nil_l in Hperm.
Qed.

Lemma try_each_visits_witness :
  let p := {| addresses := ["a"; "b"; "c"]; next := 4 |} in
  let answer := λ (n : nat) (x : string), if bool_decide (x = "a") then Ok 7 else Err (Rpc "not eligible") in
  match try_each (logging answer) (p, []) with
  | (Ok (a, v), (_, log)) =>
      ∃ before after, ["b"; "c"; "a"] = before ++ a :: after ∧ log = before ++ [a]
        ∧ answer (length before) a = Ok v
        ∧ ∀ i b, before !! i = Some b → ∃ e', answer i b = Err e'
  | (Err e, (_, log)) =>
      log = ["b"; "c"; "a"] ∧ log ≡ₚ ["a"; "b"; "c"]
      ∧ (∀ i b, log !! i = Some b → ∃ e', answer i b = Err e')
      ∧ (∃ b, last log = Some b ∧ answer (pred (length log)) b = Err e)
  end.
Proof. apply (try_each_visits {| addresses := ["a"; "b"; "c"]; next := 4 |}). discriminate. Defined.
