(* ===== verification/RateLimit.v ===== *)
(** * The per-IP rate limiter of the HTTP API ([src/http/rate_limit.rs])

    A fixed window per client address.  Time is in nanoseconds; the clock is
    an argument of [check].  The request counter is a [u32]. *)

From S2P Require Export Prelude.

(** [std::net::IpAddr], an address being the integer of its octets. *)
Inductive IpAddr : Type :=
| V4 (octets : N)
| V6 (octets : N).

#[export] Instance IpAddr_eq_dec : EqDecision IpAddr.
Proof. solve_decision. Defined.
#[export] Instance IpAddr_countable : Countable IpAddr.
Proof.
  refine (inj_countable' (λ a, match a with V4 x => inl x | V6 x => inr x end)
    (λ s, match s with inl x => V4 x | inr x => V6 x end) _).
  by intros [].
Defined.

Record RateLimiter := mkRateLimiter {
  max_requests : N;
  window : N;
  buckets : gmap IpAddr (N * N)
}.

(** [RateLimiter::new] *)
Definition new_rate_limiter (max win : N) : RateLimiter :=
  {| max_requests := max; window := win; buckets := ∅ |}.

Definition set_bucket (ip : IpAddr) (b : N * N) (r : RateLimiter) : RateLimiter :=
  {| max_requests := max_requests r; window := window r; buckets := <[ip := b]> (buckets r) |}.

(** [RateLimiter::check] at time [now]; [duration_since] saturates at zero. *)
Definition check (ip : IpAddr) (now : N) (r : RateLimiter) : bool * RateLimiter :=
  let entry := default (now, 0%N) (buckets r !! ip) in
  if (window r <=? now - entry.1)%N
  then (true, set_bucket ip (now, 1%N) r)
  else
    let count := wrap32 (entry.2 + 1) in
    ((count <=? max_requests r)%N, set_bucket ip (entry.1, count) r).

(** A sequence of requests, each with its client and time, and the answers. *)
Fixpoint run_checks (calls : list (IpAddr * N)) (r : RateLimiter) : list (IpAddr * N * bool) :=
  match calls with
  | [] => []
  | (ip, now) :: calls' =>
    let '(b, r') := check ip now r in (ip, now, b) :: run_checks calls' r'
  end.

(** The admissions of [ip] in the interval [[t0, t0 + len)]. *)
Definition admitted_in (ip : IpAddr) (t0 len : N) (a : IpAddr * N * bool) : bool :=
  bool_decide (a.1.1 = ip) && (t0 <=? a.1.2)%N && (a.1.2 <? t0 + len)%N && a.2.
Fixpoint admissions (ip : IpAddr) (t0 len : N) (l : list (IpAddr * N * bool)) : N :=
  match l with
  | [] => 0
  | a :: l' => (if admitted_in ip t0 len a then 1 else 0) + admissions ip t0 len l'
  end%N.

(** The calls' times never go back (an [Instant] is monotonic). *)
Definition times_from (t : N) (calls : list (IpAddr * N)) : Prop :=
  Sorted N.le (t :: calls.*2).

(** ** Lemmas *)

Lemma check_config ip now r :
  max_requests (check ip now r).2 = max_requests r ∧ window (check ip now r).2 = window r.
Proof. unfold check. by destruct (_ <=? _)%N. Qed.

Lemma check_other ip ip' now r :
  ip ≠ ip' → buckets (check ip' now r).2 !! ip = buckets r !! ip.
Proof. intros Hne. unfold check. destruct (_ <=? _)%N; simpl; by rewrite lookup_insert_ne. Qed.

Lemma times_from_cons t ip now calls :
  times_from t ((ip, now) :: calls) → (t ≤ now)%N ∧ times_from now calls.
Proof.
  unfold times_from. intros H. apply Sorted_inv in H as [H1 H2]. inversion H2; subst. done.
Qed.

Lemma times_from_weaken t t' calls : (t' ≤ t)%N → times_from t calls → times_from t' calls.
Proof.
  unfold times_from. intros Hle H. apply Sorted_inv in H as [H1 H2]. constructor; [done|].
  inversion H2; subst; constructor. lia.
Qed.

(** One step of [run_checks] seen from [ip]'s bucket. *)
Lemma run_checks_cons ip' now calls r :
  run_checks ((ip', now) :: calls) r
  = (ip', now, (check ip' now r).1) :: run_checks calls (check ip' now r).2.
Proof. simpl. by destruct (check ip' now r). Qed.

Lemma admissions_other ip ip' t0 len now b l :
  ip' ≠ ip → admissions ip t0 len ((ip', now, b) :: l) = admissions ip t0 len l.
Proof. intros Hne. simpl. unfold admitted_in. simpl. by rewrite bool_decide_eq_false_2. Qed.

Lemma admissions_self ip t0 len now b l :
  admissions ip t0 len ((ip, now, b) :: l)
  = ((if (t0 <=? now) && (now <? t0 + len) && b then 1 else 0) + admissions ip t0 len l)%N.
Proof. simpl. unfold admitted_in. simpl. by rewrite bool_decide_eq_true_2. Qed.

(** [check] on [ip]'s own bucket, by cases. *)
Lemma check_bucket ip now r s c :
  buckets r !! ip = Some (s, c) → (c + 1 < u32_modulus)%N →
  ((window r ≤ now - s)%N ∧ (check ip now r).1 = true ∧ buckets (check ip now r).2 !! ip = Some (now, 1%N))
  ∨ ((now - s < window r)%N ∧ (check ip now r).1 = (c + 1 <=? max_requests r)%N
     ∧ buckets (check ip now r).2 !! ip = Some (s, c + 1)%N).
Proof.
  intros Hb Hc. unfold check. rewrite Hb. simpl.
  destruct (N.leb_spec (window r) (now - s)); simpl; rewrite lookup_insert_eq; [by left|right].
  unfold wrap32. by rewrite N.mod_small.
Qed.

Lemma admissions_cons ip t0 len a l :
  admissions ip t0 len (a :: l) = ((if admitted_in ip t0 len a then 1 else 0) + admissions ip t0 len l)%N.
Proof. done. Qed.

(** Nothing is counted once the interval is over. *)
Lemma admissions_after ip t0 len calls : ∀ r t,
  times_from t calls → (t0 + len ≤ t)%N → admissions ip t0 len (run_checks calls r) = 0%N.
Proof.
  induction calls as [|[i n] l IH]; intros r t Ht Hge; [done|].
  apply times_from_cons in Ht as [Hle Ht]. rewrite run_checks_cons, admissions_cons.
  rewrite (IH _ n) by (done || lia). unfold admitted_in. simpl.
  destruct (N.ltb_spec n (t0 + len)); [lia|]. by rewrite andb_false_r.
Qed.

Section bound.
Context (ip : IpAddr) (t0 : N).

(** The bucket's window starts inside the interval: no reset can follow in it. *)
Lemma admissions_late calls : ∀ r s c t,
  buckets r !! ip = Some (s, c) → (t0 ≤ s)%N → (t0 ≤ t)%N → times_from t calls →
  (c + N.of_nat (length calls) < u32_modulus)%N →
  (admissions ip t0 (window r) (run_checks calls r) ≤ max_requests r - c)%N.
Proof.
  induction calls as [|[ip' now] calls IH]; intros r s c t Hb Hs Ht0 Ht Hlen; [simpl; lia|].
  apply times_from_cons in Ht as [Hnow Ht]. rewrite run_checks_cons.
  destruct (check_config ip' now r) as [Hm Hw]. simpl in Hlen.
  destruct (decide (ip' = ip)) as [->|Hne].
  - rewrite admissions_self. destruct (check_bucket ip now r s c Hb) as [(Hge & -> & Hb')|(Hlt & -> & Hb')]; [lia|..].
    + rewrite (admissions_after _ _ _ _ _ now) by (done || lia).
      destruct (N.ltb_spec now (t0 + window r)), (N.leb_spec t0 now); simpl; lia.
    + specialize (IH (check ip now r).2 s (c + 1)%N now). rewrite Hw, Hm in IH.
      specialize (IH Hb' Hs ltac:(lia) Ht ltac:(lia)).
      destruct (N.leb_spec (c + 1) (max_requests r)); [|rewrite andb_false_r; lia].
      destruct (_ && _)%bool; lia.
  - rewrite admissions_other by done. specialize (IH (check ip' now r).2 s c now).
    rewrite Hw, Hm, check_other in IH by done. apply IH; auto; lia.
Qed.

Context (max win : N) (Hmax : (1 ≤ max)%N).

(** The same when the first request of [ip] is still to come. *)
Lemma admissions_fresh_late calls : ∀ r t,
  max_requests r = max → window r = win →
  buckets r !! ip = None → (t0 ≤ t)%N → times_from t calls →
  (N.of_nat (length calls) < u32_modulus)%N →
  (admissions ip t0 win (run_checks calls r) ≤ max)%N.
Proof.
  induction calls as [|[ip' now] calls IH]; intros r t Hmx Hwn Hb Ht0 Ht Hlen; [simpl; lia|].
  apply times_from_cons in Ht as [Hnow Ht]. rewrite run_checks_cons.
  destruct (check_config ip' now r) as [Hm Hw]. simpl in Hlen.
  destruct (decide (ip' = ip)) as [->|Hne].
  - rewrite admissions_self.
    assert (buckets (check ip now r).2 !! ip = Some (now, 1%N)) as Hb'.
    { unfold check. rewrite Hb. simpl. by destruct (_ <=? _)%N; simpl; rewrite lookup_insert_eq. }
    pose proof (admissions_late calls _ _ _ now Hb' ltac:(lia) ltac:(lia) Ht ltac:(lia)) as Hl.
    rewrite Hw, Hm, Hmx, Hwn in Hl. destruct (_ && _)%bool; lia.
  - rewrite admissions_other by done. apply (IH _ now); try congruence; try lia; try done.
    by rewrite check_other.
Qed.

(** The bucket's window started before the interval: at most one reset. *)
Lemma admissions_early calls : ∀ r s c t,
  max_requests r = max → window r = win →
  buckets r !! ip = Some (s, c) → (t0 ≤ t)%N → times_from t calls →
  (c + N.of_nat (length calls) < u32_modulus)%N →
  (admissions ip t0 win (run_checks calls r) ≤ (max - c) + max)%N.
Proof.
  induction calls as [|[ip' now] calls IH]; intros r s c t Hmx Hwn Hb Ht0 Ht Hlen; [simpl; lia|].
  apply times_from_cons in Ht as [Hnow Ht]. rewrite run_checks_cons.
  destruct (check_config ip' now r) as [Hm Hw]. simpl in Hlen.
  destruct (decide (ip' = ip)) as [->|Hne].
  - rewrite admissions_self. destruct (check_bucket ip now r s c Hb) as [(Hge & -> & Hb')|(Hlt & -> & Hb')]; [lia|..].
    + pose proof (admissions_late calls _ _ _ now Hb' ltac:(lia) ltac:(lia) Ht) as Hl.
      rewrite Hw, Hm, Hmx, Hwn in Hl. destruct (decide (c = 0 ∧ calls = [])%N) as [[-> ->]|Hn].
      * simpl. destruct (_ && _)%bool; lia.
      * destruct calls; [simpl; destruct (_ && _)%bool; lia|].
        assert (1 + N.of_nat (length (p :: calls)) < u32_modulus)%N by lia.
        specialize (Hl ltac:(lia)). destruct (_ && _)%bool; lia.
    + specialize (IH (check ip now r).2 s (c + 1)%N now ltac:(congruence) ltac:(congruence) Hb' ltac:(lia) Ht ltac:(lia)).
      rewrite Hmx. destruct (N.leb_spec (c + 1) max); [|rewrite andb_false_r; lia].
      destruct (_ && _)%bool; lia.
  - rewrite admissions_other by done. apply (IH _ s c now); try congruence; try lia; try done.
    by rewrite check_other.
Qed.

Lemma admissions_before calls : ∀ r t c,
  max_requests r = max → window r = win →
  (∀ s' c', buckets r !! ip = Some (s', c') → c' ≤ c)%N → times_from t calls →
  (c + N.of_nat (length calls) < u32_modulus)%N →
  (admissions ip t0 win (run_checks calls r) ≤ 2 * max)%N.
Proof.
  induction calls as [|[ip' now] calls IH]; intros r t c Hmx Hwn Hc Ht Hlen; [simpl; lia|].
  destruct (decide (t0 ≤ now)%N) as [Hge|Hlt].
  { assert (times_from t0 ((ip', now) :: calls)) as Ht'.
    { unfold times_from in *. apply Sorted_inv in Ht as [H1 _]. constructor; [done|]. by constructor. }
    destruct (buckets r !! ip) as [[s' c']|] eqn:Hb.
    - specialize (Hc _ _ eq_refl).
      pose proof (admissions_early _ r s' c' t0 Hmx Hwn Hb ltac:(lia) Ht'). simpl length in *. lia.
    - pose proof (admissions_fresh_late _ r t0 Hmx Hwn Hb ltac:(lia) Ht'). simpl length in *. lia. }
  apply times_from_cons in Ht as [Hnow Ht]. rewrite run_checks_cons, admissions_cons.
  destruct (check_config ip' now r) as [Hm Hw]. simpl in Hlen.
  assert (admitted_in ip t0 win (ip', now, (check ip' now r).1) = false) as ->.
  { unfold admitted_in. simpl. destruct (N.leb_spec t0 now); [lia|]. by rewrite andb_false_r. }
  apply (IH _ now (c + 1)%N); try congruence; try lia; try done.
  intros s' c' Hb. destruct (decide (ip' = ip)) as [->|Hne].
  - destruct (buckets r !! ip) as [[s1 c1]|] eqn:Hb1.
    + specialize (Hc _ _ eq_refl).
      destruct (check_bucket ip now r s1 c1 Hb1) as [(_ & _ & Hb')|(_ & _ & Hb')]; [lia|..];
        rewrite Hb' in Hb; injection Hb; lia.
    + assert (c' = 1%N); [|lia]. revert Hb. unfold check. rewrite Hb1. simpl.
      destruct (_ <=? _)%N; simpl; rewrite lookup_insert_eq; by intros [= _ <-].
  - rewrite check_other in Hb by done. apply Hc in Hb. lia.
Qed.
End bound.

(** ** Properties *)

(** C37. Abuse bound: whatever the clients do, over any interval of one window's
    length at most [2 * max_requests] requests of one address are admitted (two
    fixed windows can overlap it), as long as the run has fewer than [2^32]
    requests, so the [u32] counter does not wrap. *)
Theorem rate_limit_bound (max win t0 t : N) (ip : IpAddr) (calls : list (IpAddr * N))
    (Hmax : (1 ≤ max)%N) (Htimes : times_from t calls)
    (Hlen : (N.of_nat (length calls) < u32_modulus)%N) :
  (admissions ip t0 win (run_checks calls (new_rate_limiter max win)) ≤ 2 * max)%N.
Proof. by apply (admissions_before ip t0 max win Hmax calls (new_rate_limiter max win) t 0%N). Qed.

Lemma rate_limit_bound_witness :
  let calls := [(V4 1, 0); (V4 1, 8); (V4 1, 9); (V4 1, 10); (V4 1, 11); (V4 1, 12)]%N in
  admissions (V4 1) 5 10 (run_checks calls (new_rate_limiter 2 10)) = 3%N
  ∧ (admissions (V4 1) 5 10 (run_checks calls (new_rate_limiter 2 10)) ≤ 2 * 2)%N.
Proof.
  split; [vm_compute; reflexivity|].
  apply (rate_limit_bound 2 10 5 0); [lia| |vm_compute; reflexivity].
  unfold times_from. repeat constructor; simpl; lia.
Defined.
