(* ===== verification/Config.v ===== *)
(** * Configuration ([src/config.rs])

    The fields of [Config] the modelled code reads and the values derived from
    them.  Parsing the command line and the environment is clap's. *)

From Stdlib Require Import SpecFloat Ascii.
From S2P Require Export Prelude.

Record Config := mkConfig {
  listen_addr : string;
  upstream_pool_addr : string;
  csd_rpc_url : string;
  csd_rpc_user : string;
  csd_rpc_pass : string;
  database_url : option string;
  embedded_db_data_dir : string;
  embedded_db_port : N;
  opoi_addresses : string;
  opoi_collateral_txid : string;
  opoi_collateral_vout : N;
  opoi_endpoint : string;
  opoi_model_id : string;
  payout_address : string;
  pool_fee_percent : spec_float;
  min_payout_cs : spec_float;
  http_listen_addr : string;
  opoi_requester_api_key : string;
  poll_interval_ms : N;
  reveal_poll_interval_ms : N;
  renew_interval_ms : N;
  stake_renew_blocks : N;
  payout_interval_ms : N;
  b3lite_receipt_secret : string;
  b3lite_audit_sample_rate : spec_float;
  auditor_cs_miner_bin : string;
  auditor_cache_dir : string;
  b3lite_audit_poll_interval_ms : N;
  auditor_trusted_wallets : string;
  admin_report_url : string;
  admin_report_api_key : string;
  admin_report_pool_id : string;
  admin_report_interval_ms : N
}.

(** ** [str::split(',')] and [str::trim] *)

Definition ascii_list (s : string) : list ascii := String.list_ascii_of_string s.
Definition of_ascii_list (l : list ascii) : string := String.string_of_list_ascii l.

Fixpoint split_on (sep : ascii) (l : list ascii) : list (list ascii) :=
  match l with
  | [] => [[]]
  | c :: l' =>
    match split_on sep l' with
    | [] => [[c]]
    | seg :: segs => if Ascii.eqb c sep then [] :: seg :: segs else (c :: seg) :: segs
    end
  end.

Definition bytes_of (l : list N) : list ascii := ascii_of_N <$> l.

(** The UTF-8 encodings of the characters with the Unicode [White_Space]
    property, which is what [char::is_whitespace] tests. *)
Definition whitespace : list (list ascii) :=
  bytes_of <$> ([[9]; [10]; [11]; [12]; [13]; [32]; [194; 133]; [194; 160]; [225; 154; 128];
    [226; 128; 128]; [226; 128; 129]; [226; 128; 130]; [226; 128; 131]; [226; 128; 132];
    [226; 128; 133]; [226; 128; 134]; [226; 128; 135]; [226; 128; 136]; [226; 128; 137];
    [226; 128; 138]; [226; 128; 168]; [226; 128; 169]; [226; 128; 175]; [226; 129; 159];
    [227; 128; 128]])%N.

Fixpoint strip_prefix (p l : list ascii) : option (list ascii) :=
  match p, l with
  | [], _ => Some l
  | a :: p', b :: l' => if Ascii.eqb a b then strip_prefix p' l' else None
  | _ :: _, [] => None
  end.

(** Drops whitespace characters from the front; [fuel] is the length. *)
Fixpoint trim_front (ws : list (list ascii)) (fuel : nat) (l : list ascii) : list ascii :=
  match fuel with
  | 0 => l
  | S fuel' =>
    match find_map (λ w, strip_prefix w l) ws with
    | Some l' => trim_front ws fuel' l'
    | None => l
    end
  end.

Definition trim_list (l : list ascii) : list ascii :=
  let l1 := trim_front whitespace (length l) l in
  reverse (trim_front (reverse <$> whitespace) (length l1) (reverse l1)).

(** ** The derived values *)

(** The shape [opoi_address_list] and [auditor_trusted_wallet_list] share. *)
Definition comma_list (s : string) : list string :=
  filter (λ x, x ≠ "") ((λ seg, of_ascii_list (trim_list seg)) <$> split_on "," (ascii_list s)).

Definition opoi_address_list (cfg : Config) : list string := comma_list (opoi_addresses cfg).

Definition primary_opoi_address (cfg : Config) : string :=
  match split_on "," (ascii_list (opoi_addresses cfg)) with
  | seg :: _ => of_ascii_list (trim_list seg)
  | [] => ""
  end.

Definition effective_payout_address (cfg : Config) : string :=
  if bool_decide (payout_address cfg = "") then primary_opoi_address cfg else payout_address cfg.

Definition b3lite_enabled (cfg : Config) : bool := negb (bool_decide (b3lite_receipt_secret cfg = "")).

Definition admin_report_enabled (cfg : Config) : bool := negb (bool_decide (admin_report_url cfg = "")).

Definition effective_admin_report_pool_id (cfg : Config) : string :=
  if bool_decide (admin_report_pool_id cfg = "") then effective_payout_address cfg
  else admin_report_pool_id cfg.

Definition auditor_trusted_wallet_list (cfg : Config) : list string := comma_list (auditor_trusted_wallets cfg).

(** Addresses written one after the other, separated by commas. *)
Fixpoint comma_join (l : list string) : list ascii :=
  match l with
  | [] => []
  | [x] => ascii_list x
  | x :: l' => ascii_list x ++ ","%char :: comma_join l'
  end.

(** Printable ASCII without blanks and commas: what a base58 or bech32 address is made of. *)
Definition plain_char (c : ascii) : bool :=
  (32 <? N_of_ascii c)%N && (N_of_ascii c <? 128)%N && negb (Ascii.eqb c ",").
Definition plain (s : string) : Prop := s ≠ "" ∧ Forall (λ c, plain_char c = true) (ascii_list s).

(** A configuration with every option at its default and the required ones empty. *)
Definition default_config : Config := {|
  listen_addr := "0.0.0.0:3532"; upstream_pool_addr := ""; csd_rpc_url := ""; csd_rpc_user := "";
  csd_rpc_pass := ""; database_url := None; embedded_db_data_dir := "./bridge_pgdata";
  embedded_db_port := 5488; opoi_addresses := ""; opoi_collateral_txid := "";
  opoi_collateral_vout := 0; opoi_endpoint := ""; opoi_model_id := ""; payout_address := "";
  pool_fee_percent := S754_zero false; min_payout_cs := S754_finite false 4503599627370496 (-52);
  http_listen_addr := "0.0.0.0:3533"; opoi_requester_api_key := ""; poll_interval_ms := 2000;
  reveal_poll_interval_ms := 15000; renew_interval_ms := 60000; stake_renew_blocks := 100;
  payout_interval_ms := 3600000; b3lite_receipt_secret := "";
  b3lite_audit_sample_rate := SFdiv 53 1024 (S754_finite false 1 0) (S754_finite false 20 0);
  auditor_cs_miner_bin := "cs-miner"; auditor_cache_dir := "./auditor_cache";
  b3lite_audit_poll_interval_ms := 30000; auditor_trusted_wallets := ""; admin_report_url := "";
  admin_report_api_key := ""; admin_report_pool_id := ""; admin_report_interval_ms := 8000 |}%N.

Definition with_addresses (a : string) (c : Config) : Config := {|
  listen_addr := listen_addr c; upstream_pool_addr := upstream_pool_addr c; csd_rpc_url := csd_rpc_url c;
  csd_rpc_user := csd_rpc_user c; csd_rpc_pass := csd_rpc_pass c; database_url := database_url c;
  embedded_db_data_dir := embedded_db_data_dir c; embedded_db_port := embedded_db_port c;
  opoi_addresses := a; opoi_collateral_txid := opoi_collateral_txid c;
  opoi_collateral_vout := opoi_collateral_vout c; opoi_endpoint := opoi_endpoint c;
  opoi_model_id := opoi_model_id c; payout_address := payout_address c;
  pool_fee_percent := pool_fee_percent c; min_payout_cs := min_payout_cs c;
  http_listen_addr := http_listen_addr c; opoi_requester_api_key := opoi_requester_api_key c;
  poll_interval_ms := poll_interval_ms c; reveal_poll_interval_ms := reveal_poll_interval_ms c;
  renew_interval_ms := renew_interval_ms c; stake_renew_blocks := stake_renew_blocks c;
  payout_interval_ms := payout_interval_ms c; b3lite_receipt_secret := b3lite_receipt_secret c;
  b3lite_audit_sample_rate := b3lite_audit_sample_rate c; auditor_cs_miner_bin := auditor_cs_miner_bin c;
  auditor_cache_dir := auditor_cache_dir c;
  b3lite_audit_poll_interval_ms := b3lite_audit_poll_interval_ms c;
  auditor_trusted_wallets := auditor_trusted_wallets c; admin_report_url := admin_report_url c;
  admin_report_api_key := admin_report_api_key c; admin_report_pool_id := admin_report_pool_id c;
  admin_report_interval_ms := admin_report_interval_ms c |}.

(** ** Lemmas *)

Lemma split_on_nonempty sep l : split_on sep l ≠ [].
Proof. induction l as [|c l IH]; simpl; [done|]. destruct (split_on sep l); [done|]. by destruct (Ascii.eqb c sep). Qed.

Lemma split_on_app sep l1 l2 :
  sep ∉ l1 → split_on sep (l1 ++ sep :: l2) = l1 :: split_on sep l2.
Proof.
  induction l1 as [|c l1 IH]; intros Hn; simpl.
  - pose proof (split_on_nonempty sep l2) as Hne. destruct (split_on sep l2); [done|].
    by rewrite Ascii.eqb_refl.
  - rewrite IH by set_solver. destruct (Ascii.eqb_spec c sep) as [->|]; [set_solver|done].
Qed.

Lemma split_on_none sep l : sep ∉ l → split_on sep l = [l].
Proof.
  induction l as [|c l IH]; intros Hn; simpl; [done|].
  rewrite IH by set_solver. destruct (Ascii.eqb_spec c sep) as [->|]; [set_solver|done].
Qed.

Lemma plain_no_comma l : Forall (λ c, plain_char c = true) l → ","%char ∉ l.
Proof. rewrite Forall_forall. intros H Hin. by apply H in Hin. Qed.

(** No whitespace character starts (or, reversed, ends) with a plain byte. *)
Definition heads_not_plain (ws : list (list ascii)) : Prop :=
  Forall (λ w, match w with [] => False | c :: _ => plain_char c = false end) ws.

Lemma whitespace_heads : heads_not_plain whitespace ∧ heads_not_plain (reverse <$> whitespace).
Proof. split; repeat constructor. Qed.

Lemma trim_front_plain ws fuel l :
  heads_not_plain ws → Forall (λ c, plain_char c = true) l → trim_front ws fuel l = l.
Proof.
  intros Hws Hl. destruct fuel as [|fuel]; [done|]. simpl.
  assert (find_map (λ w, strip_prefix w l) ws = None) as ->; [|done].
  apply find_map_None. eapply Forall_impl; [exact Hws|].
  intros [|c w] Hc; [done|]. destruct l as [|c' l]; [done|]. simpl.
  inversion Hl; subst. destruct (Ascii.eqb_spec c c'); congruence.
Qed.

Lemma trim_list_plain l : Forall (λ c, plain_char c = true) l → trim_list l = l.
Proof.
  intros Hl. destruct whitespace_heads as [H1 H2]. unfold trim_list.
  rewrite (trim_front_plain whitespace) by done.
  rewrite (trim_front_plain (reverse <$> whitespace)); [apply reverse_involutive|done|].
  by rewrite Forall_reverse.
Qed.

Lemma of_ascii_ascii x : of_ascii_list (ascii_list x) = x.
Proof. apply String.string_of_list_ascii_of_string. Qed.

Lemma split_comma_join addrs :
  addrs ≠ [] → Forall plain addrs → split_on "," (comma_join addrs) = ascii_list <$> addrs.
Proof.
  intros Hne Hp. induction Hp as [|x l [_ Hc] Hl IH]; [done|]. clear Hne.
  destruct l as [|y l].
  - by apply split_on_none, plain_no_comma.
  - change (comma_join (x :: y :: l)) with (ascii_list x ++ ","%char :: comma_join (y :: l)).
    rewrite split_on_app by (by apply plain_no_comma). by rewrite IH.
Qed.

Lemma trim_segments addrs :
  Forall plain addrs → (λ seg, of_ascii_list (trim_list seg)) <$> (ascii_list <$> addrs) = addrs.
Proof.
  induction 1 as [|x l [_ Hc] Hl IH]; [done|]. csimpl. rewrite IH.
  by rewrite trim_list_plain, of_ascii_ascii.
Qed.

(** ** Properties *)

(** Configured identities: for any non-empty list of printable addresses
    joined by commas, [opoi_address_list] is exactly that list, in order, and
    the primary address (the payout fallback) is its first element, hence the
    first of the pool. *)
Theorem opoi_address_list_join (addrs : list string) (cfg : Config)
    (Hne : addrs ≠ []) (Hplain : Forall plain addrs)
    (Hcfg : opoi_addresses cfg = of_ascii_list (comma_join addrs)) :
  opoi_address_list cfg = addrs
  ∧ head addrs = Some (primary_opoi_address cfg)
  ∧ (payout_address cfg = "" → head (opoi_address_list cfg) = Some (effective_payout_address cfg)).
Proof.
  assert (ascii_list (opoi_addresses cfg) = comma_join addrs) as Ha.
  { rewrite Hcfg. apply String.list_ascii_of_string_of_list_ascii. }
  assert (opoi_address_list cfg = addrs) as Hl.
  { unfold opoi_address_list, comma_list. rewrite Ha, split_comma_join, trim_segments by done.
    apply filter_all. by eapply Forall_impl; [exact Hplain|intros x [Hx _]]. }
  assert (head addrs = Some (primary_opoi_address cfg)) as Hh.
  { unfold primary_opoi_address. rewrite Ha, split_comma_join by done.
    inversion Hplain as [|x l [_ Hc] Hl']; subst; [done|]. simpl.
    by rewrite trim_list_plain, of_ascii_ascii. }
  split_and!; [done..|]. intros Hp. unfold effective_payout_address.
  by rewrite bool_decide_eq_true_2, Hl.
Qed.

Lemma opoi_address_list_join_witness :
  let cfg := with_addresses "csA1,csB2" default_config in
  opoi_address_list cfg = ["csA1"; "csB2"]
  ∧ head ["csA1"; "csB2"] = Some (primary_opoi_address cfg)
  ∧ (payout_address cfg = "" → head (opoi_address_list cfg) = Some (effective_payout_address cfg)).
Proof.
  apply (opoi_address_list_join ["csA1"; "csB2"]); [done| |reflexivity].
  repeat constructor; discriminate.
Defined.

(** With a blank first entry the two disagree: the pool drops it, so its first
    identity is [b], while the payout fallback is the empty address. *)
Lemma primary_blank_first :
  opoi_address_list (with_addresses " ,b" default_config) = ["b"]
  ∧ effective_payout_address (with_addresses " ,b" default_config) = "".
Proof. vm_compute. by split. Qed.
