(* ===== verification/Lines.v ===== *)
(** * Lines of text

    How the standard library and tokio cut a text into lines ([str::lines],
    [AsyncBufReadExt::lines]), and writing lines that read back. *)

From Stdlib Require Import Ascii.
From S2P Require Export Config.

(** [str::lines]: a carriage return before the newline goes with it, and a text
    does not end in an empty line. *)
Definition strip_cr (l : list ascii) : list ascii :=
  match last l with Some c => if Ascii.eqb c "013" then removelast l else l | None => l end.
Fixpoint lines_of (segs : list (list ascii)) : list (list ascii) :=
  match segs with
  | [] => []
  | [seg] => if bool_decide (seg = []) then [] else [seg]
  | seg :: rest => strip_cr seg :: lines_of rest
  end.
Definition str_lines (s : string) : list string := of_ascii_list <$> lines_of (split_on "010" (ascii_list s)).

Definition newline : string := String "010" EmptyString.
Fixpoint unlines (l : list string) : string :=
  match l with [] => "" | x :: rest => x +:+ newline +:+ unlines rest end.

(** What can be a line of a file with Unix line ends. *)
Definition clean (s : string) : Prop := "010"%char ∉ ascii_list s ∧ last (ascii_list s) ≠ Some "013"%char.

Lemma ascii_app a b : ascii_list (a +:+ b) = ascii_list a ++ ascii_list b.
Proof. unfold ascii_list. induction a as [|c a IH]; [done|]. cbn [String.append String.list_ascii_of_string app]. by rewrite <-IH. Qed.
Lemma strip_cr_clean l : last l ≠ Some "013"%char → strip_cr l = l.
Proof. unfold strip_cr. destruct (last l) as [c|]; [|done]. intros Hc. destruct (Ascii.eqb_spec c "013"); [congruence|done]. Qed.
Lemma split_on_elem sep l x : x ∈ split_on sep l → sep ∉ x ∧ ∀ c, c ∈ x → c ∈ l.
Proof.
  revert x. induction l as [|c l IH]; intros x; cbn [split_on]; [rewrite list_elem_of_singleton; intros ->; set_solver|].
  destruct (split_on sep l) as [|seg segs] eqn:Hs; [by destruct (split_on_nonempty sep l)|].
  destruct (Ascii.eqb_spec c sep) as [->|Hne].
  - intros [->|Hx]%elem_of_cons; [set_solver|]. destruct (IH x Hx). set_solver.
  - intros [->|Hx]%elem_of_cons; [|destruct (IH x); set_solver]. destruct (IH seg); [set_solver|]. set_solver.
Qed.
Lemma unlines_split ls : Forall clean ls → split_on "010" (ascii_list (unlines ls)) = (ascii_list <$> ls) ++ [[]].
Proof.
  induction 1 as [|x ls [Hx _] _ IH]; [done|]. cbn [unlines]. rewrite !ascii_app. csimpl. cbn [ascii_list newline].
  change (ascii_list newline) with ["010"%char]. cbn [app]. by rewrite split_on_app, IH.
Qed.
Lemma lines_of_ended segs : lines_of (segs ++ [[]]) = strip_cr <$> segs.
Proof. induction segs as [|seg segs IH]; [done|]. csimpl. rewrite <-IH. by destruct segs. Qed.
Lemma lines_unlines ls : Forall clean ls → str_lines (unlines ls) = ls.
Proof.
  intros Hls. unfold str_lines. rewrite unlines_split, lines_of_ended by done. rewrite <-!list_fmap_compose.
  induction Hls as [|x ls [_ Hx] _ IH]; [done|]. csimpl. rewrite IH. f_equal. by rewrite strip_cr_clean, of_ascii_ascii.
Qed.
Lemma lines_of_elem segs x : x ∈ lines_of segs → x ∈ segs ∨ ∃ seg, seg ∈ segs ∧ x = strip_cr seg.
Proof.
  induction segs as [|seg segs IH]; [by intros ?%not_elem_of_nil|]. cbn [lines_of]. destruct segs as [|seg' segs].
  - case_bool_decide; [by intros ?%not_elem_of_nil|]. intros ->%list_elem_of_singleton. left. set_solver.
  - intros [->|Hx]%elem_of_cons; [right; exists seg; set_solver|]. destruct (IH Hx) as [|(seg0 & H0 & ->)]; [left; set_solver|].
    right. exists seg0. set_solver.
Qed.
Lemma lines_clean s : "013"%char ∉ ascii_list s → Forall clean (str_lines s).
Proof.
  intros Hs. apply Forall_forall. intros l (x & -> & Hx)%list_elem_of_fmap. unfold clean, ascii_list at 1 2, of_ascii_list.
  rewrite String.list_ascii_of_string_of_list_ascii.
  assert (∀ seg, seg ∈ split_on "010" (ascii_list s) → "010"%char ∉ seg ∧ last seg ≠ Some "013"%char) as Hseg.
  { intros seg [Hn Hin]%split_on_elem. split; [done|]. intros Hl%last_Some_elem_of. by apply Hs, Hin. }
  apply lines_of_elem in Hx as [Hx|(seg & Hx & ->)]; [by apply Hseg|]. destruct (Hseg _ Hx) as [H1 H2]. by rewrite strip_cr_clean.
Qed.
Lemma append_assoc (a b c : string) : (a +:+ b) +:+ c = a +:+ b +:+ c.
Proof. induction a as [|x a IH]; [done|]. exact (f_equal (String x) IH). Qed.
