(* ===== verification/Float.v ===== *)
(** * IEEE-754 arithmetic, bit exact

    [f64] and [f32] values are the Standard Library's [spec_float]s, with the
    rounding of the two formats (53/1024 and 24/128), round-to-nearest-even,
    and Rust's saturating casts.  All NaNs are one value: nothing the bridge
    computes with floats looks at a NaN's payload. *)

From Stdlib Require Export SpecFloat.
From Stdlib Require Import ZArith Ascii.
From S2P Require Export Prelude.

Definition f64 : Type := spec_float.
Definition f32 : Type := spec_float.

Definition f64_add : f64 → f64 → f64 := SFadd 53 1024.
Definition f64_sub : f64 → f64 → f64 := SFsub 53 1024.
Definition f64_mul : f64 → f64 → f64 := SFmul 53 1024.
Definition f64_div : f64 → f64 → f64 := SFdiv 53 1024.
Definition f32_add : f32 → f32 → f32 := SFadd 24 128.
Definition f32_mul : f32 → f32 → f32 := SFmul 24 128.

(** [x as f64] for an integer. *)
Definition f64_of_Z (z : Z) : f64 := binary_normalize 53 1024 z 0 false.
Definition f64_of_N (n : N) : f64 := f64_of_Z (Z.of_N n).

(** The [f64] nearest to the decimal literal [num/den], both exact. *)
Definition f64_lit (num den : Z) : f64 := f64_div (f64_of_Z num) (f64_of_Z den).

Definition f64_zero : f64 := S754_zero false.
Definition f64_one : f64 := Eval vm_compute in f64_of_Z 1.
Definition f32_zero : f32 := S754_zero false.
(** [1.0] as an [f32]. *)
Definition f32_one : f32 := Eval vm_compute in binary_normalize 24 128 1 0 false.

(** IEEE comparisons: false on a NaN. *)
Definition f_lt (x y : spec_float) : bool := SFltb x y.
Definition f_le (x y : spec_float) : bool := SFleb x y.

(** [x as f32] for an [f64]. *)
Definition f32_of_f64 (x : f64) : f32 :=
  match x with
  | S754_finite s m e => binary_normalize 24 128 (cond_Zopp s (Zpos m)) e s
  | _ => x
  end.

(** [x as f64] for an [f32] is exact: the format's larger exponent range only
    changes which mantissa represents the value. *)
Definition f64_of_f32 (x : f32) : f64 :=
  match x with
  | S754_finite s m e => binary_normalize 53 1024 (cond_Zopp s (Zpos m)) e s
  | _ => x
  end.

(** The integer part of a finite value's magnitude. *)
Definition trunc_mag (m : positive) (e : Z) : N := Z.to_N (Z.shiftl (Zpos m) e).

(** [x as u64]: truncating, saturating, 0 for a NaN. *)
Definition u64_of_f64 (x : f64) : N :=
  match x with
  | S754_finite false m e => N.min (trunc_mag m e) u64_max
  | S754_infinity false => u64_max
  | _ => 0%N
  end.

#[export] Instance spec_float_eq_dec : EqDecision spec_float.
Proof. solve_decision. Defined.

(** ** Fixed-point rendering: [format!("{:.8}", x)]

    Exact decimal expansion rounded to 8 places, ties to even. *)

(** [num/den] rounded to the nearest integer, ties to even. *)
Definition round_div (num den : N) : N :=
  let q := (num / den)%N in
  let r := (num `mod` den)%N in
  match (2 * r ?= den)%N with
  | Lt => q
  | Gt => (q + 1)%N
  | Eq => if N.even q then q else (q + 1)%N
  end.

(** [k] decimal digits, most significant first. *)
Fixpoint fixed_digits (k : nat) (n : N) : string :=
  match k with
  | 0 => ""
  | S k' =>
    String (Ascii.ascii_of_N (48 + (n / 10 ^ N.of_nat k') `mod` 10)) (fixed_digits k' n)
  end.

(** The magnitude [m * 2^e] in units of [10^-8]. *)
Definition units8 (m : positive) (e : Z) : N :=
  match e with
  | Zneg p => round_div (Npos m * 10 ^ 8) (2 ^ Npos p)
  | _ => (Npos m * 2 ^ Z.to_N e * 10 ^ 8)%N
  end.

Definition render_units8 (n : N) : string :=
  pretty (n / 10 ^ 8)%N +:+ "." +:+ fixed_digits 8 (n `mod` 10 ^ 8).

Definition format_fixed8 (x : f64) : string :=
  match x with
  | S754_nan => "NaN"
  | S754_infinity s => if s then "-inf" else "inf"
  | S754_zero s => (if s then "-" else "") +:+ render_units8 0
  | S754_finite s m e => (if s then "-" else "") +:+ render_units8 (units8 m e)
  end.

(** Reading a decimal numeral back, its point ignored. *)
Definition digit_value (c : Ascii.ascii) : N := (Ascii.N_of_ascii c - 48)%N.
Fixpoint read_digits (acc : N) (s : string) : N :=
  match s with
  | EmptyString => acc
  | String c s' => if Ascii.eqb c "."%char then read_digits acc s' else read_digits (acc * 10 + digit_value c) s'
  end.

(** ** Lemmas *)

Lemma round_div_half (num den : N) :
  (0 < den)%N → (2 * num ≤ 2 * (round_div num den * den) + den ∧ 2 * (round_div num den * den) ≤ 2 * num + den)%N.
Proof.
  intros Hd. unfold round_div.
  pose proof (N.div_mod num den ltac:(lia)) as Hdm. pose proof (N.mod_upper_bound num den ltac:(lia)).
  generalize dependent (num / den)%N. generalize dependent (num `mod` den)%N. intros r Hr q Hq.
  destruct (N.compare_spec (2 * r) den); [destruct (N.even q)|..]; nia.
Qed.

Lemma read_digits_app acc s1 s2 : read_digits acc (s1 +:+ s2) = read_digits (read_digits acc s1) s2.
Proof. revert acc. induction s1 as [|c s1 IH]; intros acc; simpl; [done|]. by destruct (Ascii.eqb c _). Qed.

Lemma read_digits_digit acc d s :
  (d < 10)%N → read_digits acc (String (Ascii.ascii_of_N (48 + d)) s) = read_digits (acc * 10 + d) s.
Proof.
  intros Hd. assert (d = 0 ∨ d = 1 ∨ d = 2 ∨ d = 3 ∨ d = 4 ∨ d = 5 ∨ d = 6 ∨ d = 7 ∨ d = 8 ∨ d = 9)%N as H by lia.
  repeat (destruct H as [->|H]; [reflexivity|]). by subst.
Qed.

Lemma pretty_N_char_digit d : (d < 10)%N → pretty_N_char d = Ascii.ascii_of_N (48 + d).
Proof.
  intros Hd. assert (d = 0 ∨ d = 1 ∨ d = 2 ∨ d = 3 ∨ d = 4 ∨ d = 5 ∨ d = 6 ∨ d = 7 ∨ d = 8 ∨ d = 9)%N as H by lia.
  repeat (destruct H as [->|H]; [reflexivity|]). by subst.
Qed.

Lemma read_digits_go x s : read_digits 0 (pretty_N_go x s) = read_digits x s.
Proof.
  revert s. induction (N.lt_wf_0 x) as [x _ IH]; intros s.
  assert (x = 0 ∨ 0 < x)%N as [->|Hx] by lia; [by rewrite pretty_N_go_0|].
  rewrite pretty_N_go_step by done. rewrite IH by (by apply N.div_lt).
  pose proof (N.mod_upper_bound x 10 ltac:(lia)).
  rewrite pretty_N_char_digit, read_digits_digit by done.
  f_equal. pose proof (N.div_mod x 10 ltac:(lia)). lia.
Qed.

Lemma read_digits_pretty (n : N) : read_digits 0 (pretty n) = n.
Proof. unfold pretty, pretty_N. case_decide; [by subst|]. by rewrite read_digits_go. Qed.

Lemma read_digits_fixed k acc n :
  read_digits acc (fixed_digits k n) = (acc * 10 ^ N.of_nat k + n `mod` 10 ^ N.of_nat k)%N.
Proof.
  revert acc. induction k as [|k IH]; intros acc.
  { simpl. rewrite N.mod_1_r. lia. }
  cbn [fixed_digits]. rewrite read_digits_digit by (apply N.mod_upper_bound; lia).
  rewrite IH, Nat2N.inj_succ, N.pow_succ_r'.
  rewrite (N.mul_comm 10), N.Div0.mod_mul_r. lia.
Qed.

Lemma fixed_digits_length k n : String.length (fixed_digits k n) = k.
Proof. induction k as [|k IH]; simpl; [done|]. by rewrite IH. Qed.

Lemma read_render n : read_digits 0 (render_units8 n) = n.
Proof.
  unfold render_units8. rewrite !read_digits_app, read_digits_pretty.
  change (read_digits (n / 10 ^ 8) ".") with (n / 10 ^ 8)%N.
  rewrite read_digits_fixed. change (N.of_nat 8) with 8%N.
  rewrite N.Div0.mod_mod. pose proof (N.div_mod n (10 ^ 8) ltac:(lia)). lia.
Qed.

(** The rendered units are the value times [10^8] to within half a unit:
    scaled by the denominator [2^(-e)] when the exponent is negative. *)
Lemma units8_half m e :
  let den := (2 ^ Z.to_N (- e))%N in
  let num := (Npos m * 2 ^ Z.to_N e * 10 ^ 8)%N in
  (2 * num ≤ 2 * (units8 m e * den) + den ∧ 2 * (units8 m e * den) ≤ 2 * num + den)%N.
Proof.
  unfold units8. destruct e as [|p|p].
  - change (2 ^ Z.to_N (- 0))%N with 1%N. lia.
  - change (2 ^ Z.to_N (- Zpos p))%N with 1%N. lia.
  - change (2 ^ Z.to_N (Zneg p))%N with 1%N. rewrite N.mul_1_r. apply round_div_half.
    pose proof (N.pow_nonzero 2 (Npos p)). simpl Z.to_N. lia.
Qed.
