(* ===== verification/Json.v ===== *)
(** * JSON values

    The [serde_json::Value] tree the bridge builds and inspects, and the
    decoding of a value into a struct that [#[derive(Deserialize)]] performs.
    Turning text into a tree and back is the serde_json crate's. *)

From S2P Require Export Prelude Float.

Inductive Num : Type :=
| PosInt (n : N)
| NegInt (z : Z)
| Flt (x : f64).

Inductive Value : Type :=
| Null
| Bool (b : bool)
| Number (n : Num)
| Str (s : string)
| Array (l : list Value)
| Object (fs : list (string * Value)).

(** ** Inspection *)

(** [v.get("key")]: only objects have keys. *)
Definition get_key (key : string) (v : Value) : option Value :=
  match v with
  | Object fs => find_map (λ kv, if bool_decide (kv.1 = key) then Some kv.2 else None) fs
  | _ => None
  end.

(** [v.get(i)] *)
Definition get_index (i : nat) (v : Value) : option Value :=
  match v with Array l => l !! i | _ => None end.

Definition as_str (v : Value) : option string := match v with Str s => Some s | _ => None end.
Definition as_bool (v : Value) : option bool := match v with Bool b => Some b | _ => None end.
Definition as_array (v : Value) : option (list Value) := match v with Array l => Some l | _ => None end.
Definition as_u64 (v : Value) : option N := match v with Number (PosInt n) => Some n | _ => None end.
Definition as_i64 (v : Value) : option Z :=
  match v with
  | Number (PosInt n) => if (n <? 2 ^ 63)%N then Some (Z.of_N n) else None
  | Number (NegInt z) => Some z
  | _ => None
  end.

(** ** Decoding *)

(** What a struct decoder reads from: an object, by name, or an array, by
    position (the derived [visit_map] and [visit_seq]). *)
Inductive fields : Type :=
| ByName (fs : list (string * Value))
| ByPos (l : list Value).

Definition of_string (v : Value) : option string := as_str v.
Definition of_bool (v : Value) : option bool := as_bool v.
Definition of_uint (bits : N) (v : Value) : option N :=
  match v with Number (PosInt n) => if (n <? 2 ^ bits)%N then Some n else None | _ => None end.
Definition of_u32 : Value → option N := of_uint 32.
Definition of_usize : Value → option N := of_uint 64.
Definition of_f64 (v : Value) : option f64 :=
  match v with
  | Number (PosInt n) => Some (f64_of_N n)
  | Number (NegInt z) => Some (f64_of_Z z)
  | Number (Flt x) => Some x
  | _ => None
  end.
Definition of_f32 (v : Value) : option f32 := f32_of_f64 <$> of_f64 v.
Definition of_list {A} (f : Value → option A) (v : Value) : option (list A) :=
  match v with Array l => mapM f l | _ => None end.
(** [Option<T>]: null is [None]. *)
Definition of_option {A} (f : Value → option A) (v : Value) : option (option A) :=
  match v with Null => Some None | _ => Some <$> f v end.

(** One field of a struct; [default] is what [#[serde(default)]] gives when it
    is missing. *)
Definition field {A} (name : string) (dflt : option A) (f : Value → option A) (src : fields) : option (A * fields) :=
  match src with
  | ByName fs =>
    match get_key name (Object fs) with
    | Some v => x ← f v; Some (x, src)
    | None => x ← dflt; Some (x, src)
    end
  | ByPos [] => x ← dflt; Some (x, src)
  | ByPos (v :: l) => x ← f v; Some (x, ByPos l)
  end.

(** A struct from a value: the reader must have consumed the whole array. *)
Definition of_struct {A} (read : fields → option (A * fields)) (v : Value) : option A :=
  match v with
  | Object fs => '(x, _) ← read (ByName fs); Some x
  | Array l => '(x, rest) ← read (ByPos l); match rest with ByPos [] => Some x | _ => None end
  | _ => None
  end.

(** ** Encoding *)

Definition u (n : N) : Value := Number (PosInt n).
Definition i (z : Z) : Value := if (0 <=? z)%Z then Number (PosInt (Z.to_N z)) else Number (NegInt z).
(** A float that is not finite is written as null. *)
Definition fl (x : f64) : Value :=
  match x with S754_nan | S754_infinity _ => Null | _ => Number (Flt x) end.
(** [skip_serializing_if = "Option::is_none"] *)
Definition opt_field {A} (name : string) (enc : A → Value) (o : option A) : list (string * Value) :=
  match o with Some x => [(name, enc x)] | None => [] end.

(** ** Lemmas *)

Lemma of_uint_u bits n : (n < 2 ^ bits)%N → of_uint bits (u n) = Some n.
Proof. intros H. unfold of_uint, u. by destruct (N.ltb_spec n (2 ^ bits)); [|lia]. Qed.

Lemma of_list_enc {A} (f : Value → option A) (enc : A → Value) l :
  Forall (λ x, f (enc x) = Some x) l → of_list f (Array (enc <$> l)) = Some l.
Proof.
  intros H. apply mapM_Some_2, Forall2_fmap_l, Forall_Forall2_diag, H.
Qed.

Lemma of_option_enc {A} (f : Value → option A) v x :
  v ≠ Null → f v = Some x → of_option f v = Some (Some x).
Proof. intros Hv Hf. unfold of_option. rewrite Hf. by destruct v. Qed.
