(* ===== verification/Bytes.v ===== *)
(** * Bytes: little-endian integers, and the hex and hash crates

    A byte is an [ascii], a byte vector a list of them, a [String]'s bytes are
    its characters.  The hex, sha2 and hmac crates are outside the repository:
    [Crypto] is what the bridge uses of them, with the documented facts it
    relies on; [real_hex] shows the laws hold of an actual hex codec. *)

From S2P Require Export Prelude.
From Stdlib Require Export Ascii.

Definition bytes : Type := list ascii.

Definition as_bytes (s : string) : bytes := String.list_ascii_of_string s.
Definition from_bytes (b : bytes) : string := String.string_of_list_ascii b.

(** [x.to_le_bytes()] of a [k]-byte integer. *)
Fixpoint le_bytes (k : nat) (n : N) : bytes :=
  match k with
  | 0 => []
  | S k' => ascii_of_N (n `mod` 256) :: le_bytes k' (n / 256)
  end.

(** [from_le_bytes] *)
Fixpoint le_value (b : bytes) : N :=
  match b with
  | [] => 0
  | c :: b' => N_of_ascii c + 256 * le_value b'
  end.

(** [from_be_bytes] *)
Definition be_value (b : bytes) : N := le_value (reverse b).

Definition u32_le : N → bytes := le_bytes 4.
Definition u64_le : N → bytes := le_bytes 8.

(** [s.eq_ignore_ascii_case(t)] *)
Definition to_lower (c : ascii) : ascii :=
  let n := N_of_ascii c in if (65 <=? n)%N && (n <=? 90)%N then ascii_of_N (n + 32) else c.
Definition to_ascii_lowercase (s : string) : string := from_bytes (to_lower <$> as_bytes s).
Definition eq_ignore_ascii_case (s t : string) : bool :=
  bool_decide (to_ascii_lowercase s = to_ascii_lowercase t).

(** [0-9a-f] *)
Definition hex_char (c : ascii) : bool :=
  let n := N_of_ascii c in ((48 <=? n) && (n <=? 57) || (97 <=? n) && (n <=? 102))%N.

Class Crypto := {
  hex_encode : bytes → string;
  hex_decode : string → option bytes;
  sha256 : bytes → bytes;
  hmac_sha256 : bytes → bytes → bytes;
  hex_decode_encode : ∀ b, hex_decode (hex_encode b) = Some b;
  hex_encode_lower : ∀ b, to_ascii_lowercase (hex_encode b) = hex_encode b;
  hex_encode_digits : ∀ b, length (as_bytes (hex_encode b)) = 2 * length b ∧ Forall (λ c, hex_char c = true) (as_bytes (hex_encode b));
  sha256_length : ∀ b, length (sha256 b) = 32
}.

(** ** UTF-8 *)

(** [String::from_utf8_lossy]: every maximal ill-formed part of a character
    becomes U+FFFD. *)
Definition replacement : bytes := ascii_of_N <$> [239; 191; 189]%N.
Definition in_range (lo hi : N) (c : ascii) : bool := (lo <=? N_of_ascii c)%N && (N_of_ascii c <=? hi)%N.
(** The admissible second bytes after a three- or four-byte lead. *)
Definition second_ok (lead c : ascii) : bool :=
  let l := N_of_ascii lead in
  if (l =? 224)%N then in_range 160 191 c
  else if (l =? 237)%N then in_range 128 159 c
  else if (l =? 240)%N then in_range 144 191 c
  else if (l =? 244)%N then in_range 128 143 c
  else in_range 128 191 c.
Fixpoint utf8_lossy (b : bytes) : bytes :=
  match b with
  | [] => []
  | c :: b1 =>
    if in_range 0 127 c then c :: utf8_lossy b1
    else if in_range 194 223 c then
      match b1 with
      | c2 :: b2 => if in_range 128 191 c2 then c :: c2 :: utf8_lossy b2 else replacement ++ utf8_lossy b1
      | [] => replacement
      end
    else if in_range 224 239 c then
      match b1 with
      | c2 :: b2 =>
        if second_ok c c2 then
          match b2 with
          | c3 :: b3 => if in_range 128 191 c3 then c :: c2 :: c3 :: utf8_lossy b3 else replacement ++ utf8_lossy b2
          | [] => replacement
          end
        else replacement ++ utf8_lossy b1
      | [] => replacement
      end
    else if in_range 240 244 c then
      match b1 with
      | c2 :: b2 =>
        if second_ok c c2 then
          match b2 with
          | c3 :: b3 =>
            if in_range 128 191 c3 then
              match b3 with
              | c4 :: b4 =>
                if in_range 128 191 c4 then c :: c2 :: c3 :: c4 :: utf8_lossy b4 else replacement ++ utf8_lossy b3
              | [] => replacement
              end
            else replacement ++ utf8_lossy b2
          | [] => replacement
          end
        else replacement ++ utf8_lossy b1
      | [] => replacement
      end
    else replacement ++ utf8_lossy b1
  end.

(** [String::from_utf8]: the lossy decoding changes exactly the ill-formed parts. *)
Definition from_utf8 (b : bytes) : option string := if bool_decide (utf8_lossy b = b) then Some (from_bytes b) else None.

(** ** A codec that satisfies the hex laws *)

Definition hex_digit (n : N) : ascii := ascii_of_N (if (n <? 10)%N then 48 + n else 87 + n).
Definition hex_value (c : ascii) : option N :=
  let n := N_of_ascii c in
  if (48 <=? n)%N && (n <=? 57)%N then Some (n - 48)%N
  else if (97 <=? n)%N && (n <=? 102)%N then Some (n - 87)%N
  else if (65 <=? n)%N && (n <=? 70)%N then Some (n - 55)%N
  else None.

Fixpoint real_hex_encode (b : bytes) : string :=
  match b with
  | [] => ""
  | c :: b' => String (hex_digit (N_of_ascii c / 16)) (String (hex_digit (N_of_ascii c `mod` 16)) (real_hex_encode b'))
  end.
Fixpoint real_hex_decode (s : string) : option bytes :=
  match s with
  | EmptyString => Some []
  | String a (String b s') =>
    x ← hex_value a;
    y ← hex_value b;
    rest ← real_hex_decode s';
    Some (ascii_of_N (16 * x + y) :: rest)
  | String _ EmptyString => None
  end.

(** Padding or cutting to 32 bytes stands in for the hash functions. *)
Definition pad32 (b : bytes) : bytes := take 32 (b ++ replicate 32 Ascii.zero).

(** ** Lemmas *)

Lemma utf8_lossy_ascii b : Forall (λ c, in_range 0 127 c = true) b → utf8_lossy b = b.
Proof. induction 1 as [|c b Hc _ IH]; [done|]. cbn [utf8_lossy]. by rewrite Hc, IH. Qed.

Lemma N_of_ascii_lt c : (N_of_ascii c < 256)%N.
Proof. apply N_ascii_bounded. Qed.

Lemma le_bytes_length k n : length (le_bytes k n) = k.
Proof. revert n. induction k as [|k IH]; intros n; simpl; [done|]. by rewrite IH. Qed.

Lemma le_value_bytes k n : le_value (le_bytes k n) = (n `mod` 256 ^ N.of_nat k)%N.
Proof.
  revert n. induction k as [|k IH]; intros n.
  - simpl. by rewrite N.mod_1_r.
  - cbn [le_bytes le_value]. rewrite IH, N_ascii_embedding by (apply N.mod_upper_bound; lia).
    rewrite Nat2N.inj_succ, N.pow_succ_r'. by rewrite N.Div0.mod_mul_r.
Qed.

Lemma le_value_bytes_small k n : (n < 256 ^ N.of_nat k)%N → le_value (le_bytes k n) = n.
Proof. intros H. rewrite le_value_bytes. by apply N.mod_small. Qed.

Lemma le_bytes_value b : le_bytes (length b) (le_value b) = b.
Proof.
  induction b as [|c b IH]; [done|]. cbn [length le_bytes le_value]. pose proof (N_of_ascii_lt c).
  f_equal.
  - rewrite (N.mul_comm 256), N.Div0.mod_add, N.mod_small by done. apply ascii_N_embedding.
  - rewrite (N.mul_comm 256), N.div_add, N.div_small by (done || lia). apply IH.
Qed.

Lemma le_value_lt b : (le_value b < 256 ^ N.of_nat (length b))%N.
Proof.
  induction b as [|c b IH]; [cbn; lia|]. cbn [length le_value]. rewrite Nat2N.inj_succ, N.pow_succ_r'.
  pose proof (N_of_ascii_lt c). lia.
Qed.

Lemma le_bytes_inj k n m :
  (n < 256 ^ N.of_nat k)%N → (m < 256 ^ N.of_nat k)%N → le_bytes k n = le_bytes k m → n = m.
Proof. intros Hn Hm H. by rewrite <-(le_value_bytes_small k n), <-(le_value_bytes_small k m), H. Qed.

Lemma as_bytes_inj s t : as_bytes s = as_bytes t → s = t.
Proof.
  intros H. rewrite <-(String.string_of_list_ascii_of_string s), <-(String.string_of_list_ascii_of_string t).
  unfold as_bytes in H. by rewrite H.
Qed.

Lemma eq_ignore_ascii_case_refl s : eq_ignore_ascii_case s s = true.
Proof. by apply bool_decide_eq_true_2. Qed.

(** Equality up to case of two encodings is equality of the bytes. *)
Lemma hex_encode_eq_nocase `{Crypto} a b : eq_ignore_ascii_case (hex_encode a) (hex_encode b) = true → a = b.
Proof.
  unfold eq_ignore_ascii_case. rewrite bool_decide_eq_true, !hex_encode_lower. intros He.
  apply (f_equal hex_decode) in He. rewrite !hex_decode_encode in He. congruence.
Qed.

Lemma nibbles c : ∀ x, N_of_ascii c = x → (x / 16 < 16 ∧ x `mod` 16 < 16 ∧ 16 * (x / 16) + x `mod` 16 = x)%N.
Proof.
  intros x <-. pose proof (N_of_ascii_lt c). split_and!.
  - apply N.Div0.div_lt_upper_bound. lia.
  - apply N.mod_upper_bound. lia.
  - symmetry. apply N.div_mod. lia.
Qed.

Lemma hex_digit_value n : (n < 16)%N → hex_value (hex_digit n) = Some n ∧ to_lower (hex_digit n) = hex_digit n.
Proof.
  intros H. assert (n = 0 ∨ n = 1 ∨ n = 2 ∨ n = 3 ∨ n = 4 ∨ n = 5 ∨ n = 6 ∨ n = 7 ∨ n = 8 ∨ n = 9
    ∨ n = 10 ∨ n = 11 ∨ n = 12 ∨ n = 13 ∨ n = 14 ∨ n = 15)%N as Hn by lia.
  repeat (destruct Hn as [->|Hn]; [by split|]). subst. by split.
Qed.

Lemma real_hex_round b : real_hex_decode (real_hex_encode b) = Some b.
Proof.
  induction b as [|c b IH]; [done|]. cbn [real_hex_encode real_hex_decode].
  destruct (nibbles c _ eq_refl) as (H1 & H2 & H3).
  destruct (hex_digit_value _ H1) as [-> _], (hex_digit_value _ H2) as [-> _]. simpl. rewrite IH. simpl.
  by rewrite H3, ascii_N_embedding.
Qed.

Lemma real_hex_lower b : to_ascii_lowercase (real_hex_encode b) = real_hex_encode b.
Proof.
  induction b as [|c b IH]; [done|]. destruct (nibbles c _ eq_refl) as (H1 & H2 & _).
  unfold to_ascii_lowercase in *. cbn [real_hex_encode as_bytes String.list_ascii_of_string]. csimpl.
  destruct (hex_digit_value _ H1) as [_ ->], (hex_digit_value _ H2) as [_ ->].
  cbn [from_bytes String.string_of_list_ascii]. do 2 f_equal. exact IH.
Qed.

Lemma hex_digit_char n : (n < 16)%N → hex_char (hex_digit n) = true.
Proof.
  intros H. assert (n = 0 ∨ n = 1 ∨ n = 2 ∨ n = 3 ∨ n = 4 ∨ n = 5 ∨ n = 6 ∨ n = 7 ∨ n = 8 ∨ n = 9
    ∨ n = 10 ∨ n = 11 ∨ n = 12 ∨ n = 13 ∨ n = 14 ∨ n = 15)%N as Hn by lia.
  repeat (destruct Hn as [->|Hn]; [done|]). by subst.
Qed.
Lemma real_hex_digits b :
  length (as_bytes (real_hex_encode b)) = 2 * length b ∧ Forall (λ c, hex_char c = true) (as_bytes (real_hex_encode b)).
Proof.
  unfold as_bytes. induction b as [|c b [IHl IHf]]; [by split|]. destruct (nibbles c _ eq_refl) as (H1 & H2 & _).
  cbn [real_hex_encode String.list_ascii_of_string length]. split; [cbn [length] in *; lia|].
  repeat constructor; [by apply hex_digit_char..|done].
Qed.

Lemma pad32_length b : length (pad32 b) = 32.
Proof. unfold pad32. rewrite length_take, length_app, length_replicate. lia. Qed.

(** Concrete crates for the witnesses. *)
Definition toy_crypto : Crypto := {|
  hex_encode := real_hex_encode; hex_decode := real_hex_decode; sha256 := pad32;
  hmac_sha256 := λ k m, pad32 (m ++ k);
  hex_decode_encode := real_hex_round; hex_encode_lower := real_hex_lower; hex_encode_digits := real_hex_digits;
  sha256_length := pad32_length |}.
