(* ===== verification/Wire.v ===== *)
(** * The OPoI messages of the stratum connection ([src/opoi/wire.rs])

    The structs as records (field prefixes keep the names apart), the JSON the
    [build_*_line] functions put on the wire and the decoding of the miners'
    replies.  A line queued for a miner is kept as the message it encodes
    ([down_msg]); [line_value] is the JSON that is printed. *)

From S2P Require Export Json.

(** ** Messages pushed to miners *)

Record OpoiAssign := mkOpoiAssign {
  oa_request_id : string;
  oa_model : string;
  oa_prompt_hex : string;
  oa_max_tokens : N;
  oa_task_type : option string;
  oa_task_class : option string
}.

Inductive ShardInputWire : Type :=
| Prompt (prompt_hex : string)
| NextTokenId (token_id : N)
| TokenIds (token_ids : list N)
| Tensor (shape : list N) (data_hex : string).

Record OpoiShardAssign := mkOpoiShardAssign {
  sa_request_id : string;
  sa_model_id : string;
  sa_shard_index : N;
  sa_layer_start : N;
  sa_layer_end : N;
  sa_total_layers : N;
  sa_token_index : N;
  sa_max_tokens : N;
  sa_input : ShardInputWire;
  sa_model_gguf_url : string;
  sa_model_gguf_sha256 : string;
  sa_model_tokenizer_url : option string;
  sa_model_tokenizer_sha256 : option string;
  sa_moe_layer_step : option N
}.

Inductive DraftInputWire : Type :=
| DraftPrompt (prompt_hex : string)
| DraftNextTokenId (token_id : N).

Record OpoiDraftGenerate := mkOpoiDraftGenerate {
  dg_request_id : string;
  dg_model_id : string;
  dg_total_layers : N;
  dg_k : N;
  dg_input : DraftInputWire;
  dg_model_gguf_url : string;
  dg_model_gguf_sha256 : string;
  dg_model_tokenizer_url : option string;
  dg_model_tokenizer_sha256 : option string
}.

Record OpoiKvRollback := mkOpoiKvRollback {
  kr_request_id : string;
  kr_shard_index : N;
  kr_keep_until_pos : N;
  kr_finalize : bool
}.

Record OpoiAuditAssign := mkOpoiAuditAssign {
  aa_request_id : string;
  aa_model_id : string;
  aa_gguf_url : string;
  aa_gguf_sha256 : string;
  aa_tokenizer_url : string;
  aa_tokenizer_sha256 : string;
  aa_prompt_hex : string;
  aa_committed_token_ids : list N;
  aa_total_layers : N
}.

Inductive ExpertInputWire : Type :=
| ExpertTensor (shape : list N) (data_hex : string).

Record OpoiExpertAssign := mkOpoiExpertAssign {
  ea_request_id : string;
  ea_model_id : string;
  ea_layer_start : N;
  ea_layer_end : N;
  ea_layer_idx : N;
  ea_expert_id : N;
  ea_token_index : N;
  ea_input : ExpertInputWire;
  ea_input_hash : string;
  ea_model_gguf_url : string;
  ea_model_gguf_sha256 : string
}.

(** ** Messages received from miners *)

Record OpoiSubmitResultParams := mkOpoiSubmitResultParams {
  sr_request_id : string;
  sr_response_hash : string;
  sr_response_hex : string;
  sr_token_count : N
}.

Record RouterExpertChoice := mkRouterExpertChoice { rc_expert_id : N; rc_weight : f32 }.

Record ShardOutputWire := mkShardOutputWire { so_shape : list N; so_data_hex : string }.

Record OpoiShardResult := mkOpoiShardResult {
  res_request_id : string;
  res_shard_index : N;
  res_token_index : N;
  res_output_hash : string;
  res_output : ShardOutputWire;
  res_next_token_id : option N;
  res_next_token_ids : option (list N);
  res_router_selection : option (list (list RouterExpertChoice));
  res_moe_layer_step : option N
}.

Record OpoiDraftResult := mkOpoiDraftResult { dr_request_id : string; dr_draft_token_ids : list N }.

Record OpoiKvRollbackAck := mkOpoiKvRollbackAck {
  ka_request_id : string;
  ka_shard_index : N;
  ka_ok : bool;
  ka_finalized_hash : option string
}.

Record AuditPositionWire := mkAuditPositionWire {
  ap_step : N;
  ap_committed_token_id : N;
  ap_auditor_token_id : N;
  ap_admissible : bool
}.

Record OpoiAuditResult := mkOpoiAuditResult { ar_request_id : string; ar_positions : list AuditPositionWire }.

Record ExpertOutputWire := mkExpertOutputWire { eo_shape : list N; eo_data_hex : string }.

Record OpoiExpertResult := mkOpoiExpertResult {
  er_request_id : string;
  er_layer_start : N;
  er_layer_end : N;
  er_layer_idx : N;
  er_expert_id : N;
  er_token_index : N;
  er_output_hash : string;
  er_output : ExpertOutputWire
}.

Definition DRAFT_SESSION_SHARD_INDEX : N := u32_max.

(** A line queued for a downstream connection. *)
Inductive down_msg : Type :=
| MAssign (a : OpoiAssign)
| MShardAssign (a : OpoiShardAssign)
| MDraftGenerate (a : OpoiDraftGenerate)
| MKvRollback (a : OpoiKvRollback)
| MAuditAssign (a : OpoiAuditAssign)
| MExpertAssign (a : OpoiExpertAssign)
| MReply (v : Value)
| MRelay (line : string).

(** ** What is written *)

(** Every push has the same envelope. *)
Definition push_line (method : string) (params : Value) : Value :=
  Object [("jsonrpc", Str "2.0"); ("method", Str method); ("params", Array [params]); ("id", Null)].

Definition tensor_fields (shape : list N) (data_hex : string) : list (string * Value) :=
  [("shape", Array (u <$> shape)); ("data_hex", Str data_hex)].

(** [#[serde(tag = "kind")]] *)
Definition shard_input_value (inp : ShardInputWire) : Value :=
  match inp with
  | Prompt p => Object [("kind", Str "Prompt"); ("prompt_hex", Str p)]
  | NextTokenId t => Object [("kind", Str "NextTokenId"); ("token_id", u t)]
  | TokenIds ts => Object [("kind", Str "TokenIds"); ("token_ids", Array (u <$> ts))]
  | Tensor shape d => Object (("kind", Str "Tensor") :: tensor_fields shape d)
  end.

Definition draft_input_value (inp : DraftInputWire) : Value :=
  match inp with
  | DraftPrompt p => Object [("kind", Str "Prompt"); ("prompt_hex", Str p)]
  | DraftNextTokenId t => Object [("kind", Str "NextTokenId"); ("token_id", u t)]
  end.

Definition expert_input_value (inp : ExpertInputWire) : Value :=
  match inp with ExpertTensor shape d => Object (("kind", Str "Tensor") :: tensor_fields shape d) end.

Definition build_assign_line (a : OpoiAssign) : Value :=
  push_line "opoi.assign" (Object (
    [("request_id", Str (oa_request_id a)); ("model", Str (oa_model a));
     ("prompt_hex", Str (oa_prompt_hex a)); ("max_tokens", u (oa_max_tokens a))]
    ++ opt_field "task_type" Str (oa_task_type a) ++ opt_field "task_class" Str (oa_task_class a))).

Definition build_shard_assign_line (a : OpoiShardAssign) : Value :=
  push_line "opoi.shard_assign" (Object (
    [("request_id", Str (sa_request_id a)); ("model_id", Str (sa_model_id a));
     ("shard_index", u (sa_shard_index a)); ("layer_start", u (sa_layer_start a));
     ("layer_end", u (sa_layer_end a)); ("total_layers", u (sa_total_layers a));
     ("token_index", u (sa_token_index a)); ("max_tokens", u (sa_max_tokens a));
     ("input", shard_input_value (sa_input a)); ("model_gguf_url", Str (sa_model_gguf_url a));
     ("model_gguf_sha256", Str (sa_model_gguf_sha256 a))]
    ++ opt_field "model_tokenizer_url" Str (sa_model_tokenizer_url a)
    ++ opt_field "model_tokenizer_sha256" Str (sa_model_tokenizer_sha256 a)
    ++ opt_field "moe_layer_step" u (sa_moe_layer_step a))).

Definition build_draft_generate_line (a : OpoiDraftGenerate) : Value :=
  push_line "opoi.draft_generate" (Object (
    [("request_id", Str (dg_request_id a)); ("model_id", Str (dg_model_id a));
     ("total_layers", u (dg_total_layers a)); ("k", u (dg_k a)); ("input", draft_input_value (dg_input a));
     ("model_gguf_url", Str (dg_model_gguf_url a)); ("model_gguf_sha256", Str (dg_model_gguf_sha256 a))]
    ++ opt_field "model_tokenizer_url" Str (dg_model_tokenizer_url a)
    ++ opt_field "model_tokenizer_sha256" Str (dg_model_tokenizer_sha256 a))).

Definition build_kv_rollback_line (a : OpoiKvRollback) : Value :=
  push_line "opoi.kv_rollback" (Object
    [("request_id", Str (kr_request_id a)); ("shard_index", u (kr_shard_index a));
     ("keep_until_pos", u (kr_keep_until_pos a)); ("finalize", Bool (kr_finalize a))]).

Definition build_audit_assign_line (a : OpoiAuditAssign) : Value :=
  push_line "opoi.audit_assign" (Object
    [("request_id", Str (aa_request_id a)); ("model_id", Str (aa_model_id a));
     ("gguf_url", Str (aa_gguf_url a)); ("gguf_sha256", Str (aa_gguf_sha256 a));
     ("tokenizer_url", Str (aa_tokenizer_url a)); ("tokenizer_sha256", Str (aa_tokenizer_sha256 a));
     ("prompt_hex", Str (aa_prompt_hex a)); ("committed_token_ids", Array (u <$> aa_committed_token_ids a));
     ("total_layers", u (aa_total_layers a))]).

Definition build_expert_assign_line (a : OpoiExpertAssign) : Value :=
  push_line "opoi.expert_assign" (Object
    [("request_id", Str (ea_request_id a)); ("model_id", Str (ea_model_id a));
     ("layer_start", u (ea_layer_start a)); ("layer_end", u (ea_layer_end a)); ("layer_idx", u (ea_layer_idx a));
     ("expert_id", u (ea_expert_id a)); ("token_index", u (ea_token_index a));
     ("input", expert_input_value (ea_input a)); ("input_hash", Str (ea_input_hash a));
     ("model_gguf_url", Str (ea_model_gguf_url a)); ("model_gguf_sha256", Str (ea_model_gguf_sha256 a))]).

(** The replies: [{"jsonrpc", "id", "result", "error"}]. *)
Definition reply (id result error : Value) : Value :=
  Object [("jsonrpc", Str "2.0"); ("id", id); ("result", result); ("error", error)].

Definition error_triple (t : N * string) : Value := Array [u t.1; Str t.2; Null].

Definition build_submit_result_ack (id : Value) (submission_id : Z) : Value :=
  reply id (Object [("accepted", Bool true); ("submission_id", i submission_id)]) Null.
Definition build_submit_result_error (id err : Value) : Value := reply id Null err.
Definition build_shard_result_ack (id : Value) : Value := reply id (Object [("accepted", Bool true)]) Null.
Definition build_shard_result_error (id err : Value) : Value := reply id Null err.
Definition build_audit_result_ack (id : Value) : Value := reply id (Object [("accepted", Bool true)]) Null.
Definition build_audit_result_error (id err : Value) : Value := reply id Null err.
Definition build_expert_result_ack (id : Value) : Value := reply id (Object [("accepted", Bool true)]) Null.
Definition build_expert_result_error (id err : Value) : Value := reply id Null err.

(** The JSON of a queued line; a relayed line is forwarded as it came. *)
Definition line_value (m : down_msg) : option Value :=
  match m with
  | MAssign a => Some (build_assign_line a)
  | MShardAssign a => Some (build_shard_assign_line a)
  | MDraftGenerate a => Some (build_draft_generate_line a)
  | MKvRollback a => Some (build_kv_rollback_line a)
  | MAuditAssign a => Some (build_audit_assign_line a)
  | MExpertAssign a => Some (build_expert_assign_line a)
  | MReply v => Some v
  | MRelay _ => None
  end.

(** ** What is read: [serde_json::from_value] of each reply *)

Definition read_submit_result (s : fields) : option (OpoiSubmitResultParams * fields) :=
  '(a, s) ← field "request_id" None of_string s;
  '(b, s) ← field "response_hash" None of_string s;
  '(c, s) ← field "response_hex" None of_string s;
  '(d, s) ← field "token_count" (Some 0%N) of_u32 s;
  Some (mkOpoiSubmitResultParams a b c d, s).
Definition parse_submit_result : Value → option OpoiSubmitResultParams := of_struct read_submit_result.

Definition read_router_choice (s : fields) : option (RouterExpertChoice * fields) :=
  '(a, s) ← field "expert_id" None of_u32 s;
  '(b, s) ← field "weight" None of_f32 s;
  Some (mkRouterExpertChoice a b, s).
Definition parse_router_choice : Value → option RouterExpertChoice := of_struct read_router_choice.

Definition read_shard_output (s : fields) : option (ShardOutputWire * fields) :=
  '(a, s) ← field "shape" None (of_list of_usize) s;
  '(b, s) ← field "data_hex" None of_string s;
  Some (mkShardOutputWire a b, s).
Definition parse_shard_output : Value → option ShardOutputWire := of_struct read_shard_output.

Definition read_shard_result (s : fields) : option (OpoiShardResult * fields) :=
  '(a, s) ← field "request_id" None of_string s;
  '(b, s) ← field "shard_index" None of_u32 s;
  '(c, s) ← field "token_index" None of_u32 s;
  '(d, s) ← field "output_hash" None of_string s;
  '(e, s) ← field "output" None parse_shard_output s;
  '(f, s) ← field "next_token_id" (Some None) (of_option of_u32) s;
  '(g, s) ← field "next_token_ids" (Some None) (of_option (of_list of_u32)) s;
  '(h, s) ← field "router_selection" (Some None) (of_option (of_list (of_list parse_router_choice))) s;
  '(k, s) ← field "moe_layer_step" (Some None) (of_option of_u32) s;
  Some (mkOpoiShardResult a b c d e f g h k, s).
Definition parse_shard_result : Value → option OpoiShardResult := of_struct read_shard_result.

Definition read_draft_result (s : fields) : option (OpoiDraftResult * fields) :=
  '(a, s) ← field "request_id" None of_string s;
  '(b, s) ← field "draft_token_ids" None (of_list of_u32) s;
  Some (mkOpoiDraftResult a b, s).
Definition parse_draft_result : Value → option OpoiDraftResult := of_struct read_draft_result.

Definition read_kv_rollback_ack (s : fields) : option (OpoiKvRollbackAck * fields) :=
  '(a, s) ← field "request_id" None of_string s;
  '(b, s) ← field "shard_index" None of_u32 s;
  '(c, s) ← field "ok" None of_bool s;
  '(d, s) ← field "finalized_hash" (Some None) (of_option of_string) s;
  Some (mkOpoiKvRollbackAck a b c d, s).
Definition parse_kv_rollback_ack : Value → option OpoiKvRollbackAck := of_struct read_kv_rollback_ack.

Definition read_audit_position (s : fields) : option (AuditPositionWire * fields) :=
  '(a, s) ← field "step" None of_usize s;
  '(b, s) ← field "committed_token_id" None of_u32 s;
  '(c, s) ← field "auditor_token_id" None of_u32 s;
  '(d, s) ← field "admissible" None of_bool s;
  Some (mkAuditPositionWire a b c d, s).
Definition parse_audit_position : Value → option AuditPositionWire := of_struct read_audit_position.

Definition read_audit_result (s : fields) : option (OpoiAuditResult * fields) :=
  '(a, s) ← field "request_id" None of_string s;
  '(b, s) ← field "positions" None (of_list parse_audit_position) s;
  Some (mkOpoiAuditResult a b, s).
Definition parse_audit_result : Value → option OpoiAuditResult := of_struct read_audit_result.

Definition read_expert_output (s : fields) : option (ExpertOutputWire * fields) :=
  '(a, s) ← field "shape" None (of_list of_usize) s;
  '(b, s) ← field "data_hex" None of_string s;
  Some (mkExpertOutputWire a b, s).
Definition parse_expert_output : Value → option ExpertOutputWire := of_struct read_expert_output.

Definition read_expert_result (s : fields) : option (OpoiExpertResult * fields) :=
  '(a, s) ← field "request_id" None of_string s;
  '(b, s) ← field "layer_start" None of_u32 s;
  '(c, s) ← field "layer_end" None of_u32 s;
  '(d, s) ← field "layer_idx" None of_u32 s;
  '(e, s) ← field "expert_id" None of_u32 s;
  '(f, s) ← field "token_index" None of_u32 s;
  '(g, s) ← field "output_hash" None of_string s;
  '(h, s) ← field "output" None parse_expert_output s;
  Some (mkOpoiExpertResult a b c d e f g h, s).
Definition parse_expert_result : Value → option OpoiExpertResult := of_struct read_expert_result.

(** ** The replies as their derived [Serialize] writes them *)

Definition router_choice_value (c : RouterExpertChoice) : Value :=
  Object [("expert_id", u (rc_expert_id c)); ("weight", fl (f64_of_f32 (rc_weight c)))].
Definition shard_output_value (o : ShardOutputWire) : Value := Object (tensor_fields (so_shape o) (so_data_hex o)).
Definition u_list (l : list N) : Value := Array (u <$> l).
Definition router_value (l : list (list RouterExpertChoice)) : Value :=
  Array ((λ layer, Array (router_choice_value <$> layer)) <$> l).
Definition shard_result_value (r : OpoiShardResult) : Value :=
  Object (
    [("request_id", Str (res_request_id r)); ("shard_index", u (res_shard_index r));
     ("token_index", u (res_token_index r)); ("output_hash", Str (res_output_hash r));
     ("output", shard_output_value (res_output r))]
    ++ opt_field "next_token_id" u (res_next_token_id r)
    ++ opt_field "next_token_ids" u_list (res_next_token_ids r)
    ++ opt_field "router_selection" router_value (res_router_selection r)
    ++ opt_field "moe_layer_step" u (res_moe_layer_step r)).

(** The values a [u32]/[usize]/finite [f32] field of a reply can hold. *)
Definition is_u32 (n : N) : Prop := (n < 2 ^ 32)%N.
Definition is_usize (n : N) : Prop := (n < 2 ^ 64)%N.
(** A finite [f32]: written as a number and unchanged by the trip through [f64]. *)
Definition is_f32 (x : f32) : Prop := fl (f64_of_f32 x) = Number (Flt (f64_of_f32 x)) ∧ f32_of_f64 (f64_of_f32 x) = x.
Definition router_choice_ok (c : RouterExpertChoice) : Prop := is_u32 (rc_expert_id c) ∧ is_f32 (rc_weight c).
Record shard_result_ok (r : OpoiShardResult) : Prop := {
  ok_shard_index : is_u32 (res_shard_index r);
  ok_token_index : is_u32 (res_token_index r);
  ok_shape : Forall is_usize (so_shape (res_output r));
  ok_next : from_option is_u32 True (res_next_token_id r);
  ok_nexts : from_option (Forall is_u32) True (res_next_token_ids r);
  ok_router : from_option (Forall (Forall router_choice_ok)) True (res_router_selection r);
  ok_step : from_option is_u32 True (res_moe_layer_step r)
}.

(** ** Lemmas *)

Lemma field_found {A} name dflt (f : Value → option A) fs v x :
  get_key name (Object fs) = Some v → f v = Some x →
  field name dflt f (ByName fs) = Some (x, ByName fs).
Proof. intros Hg Hf. unfold field. rewrite Hg. simpl. by rewrite Hf. Qed.

Lemma field_missing {A} name (d : A) (f : Value → option A) fs :
  get_key name (Object fs) = None → field name (Some d) f (ByName fs) = Some (d, ByName fs).
Proof. intros Hg. unfold field. by rewrite Hg. Qed.

(** Keys: looking one up skips the entries of other keys. *)
Lemma get_key_cons name k v fs :
  get_key name (Object ((k, v) :: fs)) = if bool_decide (k = name) then Some v else get_key name (Object fs).
Proof. simpl. by case_bool_decide. Qed.

Lemma get_key_opt {A} name k (enc : A → Value) o fs :
  get_key name (Object (opt_field k enc o ++ fs))
  = match o with
    | Some x => if bool_decide (k = name) then Some (enc x) else get_key name (Object fs)
    | None => get_key name (Object fs)
    end.
Proof. destruct o; [apply get_key_cons|done]. Qed.

(** An optional field is read back, whether it was written or skipped. *)
Lemma field_opt {A} name (enc : A → Value) (f : Value → option A) (o : option A) fs :
  get_key name (Object fs) = enc <$> o →
  from_option (λ x, enc x ≠ Null ∧ f (enc x) = Some x) True o →
  field name (Some None) (of_option f) (ByName fs) = Some (o, ByName fs).
Proof.
  intros Hg Ho. destruct o as [x|].
  - destruct Ho as [Hn Hf]. apply (field_found _ _ _ _ (enc x)); [exact Hg|]. by apply of_option_enc.
  - by apply field_missing.
Qed.

Lemma parse_router_choice_value c : router_choice_ok c → parse_router_choice (router_choice_value c) = Some c.
Proof.
  destruct c as [e w]. intros [He [Hw1 Hw2]]. cbn [rc_expert_id rc_weight] in *.
  unfold parse_router_choice, of_struct, router_choice_value, read_router_choice. cbn [rc_expert_id rc_weight].
  rewrite (field_found "expert_id" None of_u32 _ (u e) e) by (done || by apply of_uint_u). cbn [mbind option_bind].
  rewrite (field_found "weight" None of_f32 _ (fl (f64_of_f32 w)) w); [done|done|].
  rewrite Hw1. unfold of_f32. cbn. by rewrite Hw2.
Qed.

Lemma parse_shard_output_value o : Forall is_usize (so_shape o) → parse_shard_output (shard_output_value o) = Some o.
Proof.
  destruct o as [sh d]. intros Hs. unfold parse_shard_output, of_struct, shard_output_value, read_shard_output.
  cbn [so_shape so_data_hex] in *.
  rewrite (field_found "shape" None (of_list of_usize) _ (Array (u <$> sh)) sh); [cbn [mbind option_bind]|done|].
  - by rewrite (field_found "data_hex" None of_string _ (Str d) d).
  - apply of_list_enc. eapply Forall_impl; [exact Hs|]. intros x. apply of_uint_u.
Qed.

Lemma of_list_u32 l : Forall is_u32 l → of_list of_u32 (u_list l) = Some l.
Proof. intros H. apply of_list_enc. eapply Forall_impl; [exact H|]. intros x. apply of_uint_u. Qed.

Lemma of_router l :
  Forall (Forall router_choice_ok) l → of_list (of_list parse_router_choice) (router_value l) = Some l.
Proof.
  intros H. apply of_list_enc. eapply Forall_impl; [exact H|]. intros layer Hl.
  apply of_list_enc. eapply Forall_impl; [exact Hl|]. apply parse_router_choice_value.
Qed.

(** ** Properties *)

(** A shard result survives the wire: whatever a miner puts in
    [OpoiShardResult] (every optional field present or not, integers in their
    range, finite weights), the bridge decodes exactly that record. *)
Theorem shard_result_roundtrip (r : OpoiShardResult) (Hok : shard_result_ok r) :
  parse_shard_result (shard_result_value r) = Some r.
Proof.
  destruct r as [rid si ti oh out nt nts rs st], Hok as [H1 H2 H3 H4 H5 H6 H7]; simpl in *.
  unfold parse_shard_result, of_struct, shard_result_value.
  cbn [res_request_id res_shard_index res_token_index res_output_hash res_output res_next_token_id
       res_next_token_ids res_router_selection res_moe_layer_step].
  match goal with |- context [ByName ?l] => set (fs := l) end. unfold read_shard_result.
  rewrite (field_found "request_id" None of_string fs (Str rid) rid) by done. cbn [mbind option_bind].
  rewrite (field_found "shard_index" None of_u32 fs (u si) si) by (done || by apply of_uint_u). cbn [mbind option_bind].
  rewrite (field_found "token_index" None of_u32 fs (u ti) ti) by (done || by apply of_uint_u). cbn [mbind option_bind].
  rewrite (field_found "output_hash" None of_string fs (Str oh) oh) by done. cbn [mbind option_bind].
  rewrite (field_found "output" None parse_shard_output fs (shard_output_value out) out)
    by (done || by apply parse_shard_output_value). cbn [mbind option_bind].
  rewrite (field_opt "next_token_id" u of_u32 nt fs);
    [cbn [mbind option_bind]|by destruct nt, nts, rs, st|destruct nt; [split; [done|by apply of_uint_u]|done]].
  rewrite (field_opt "next_token_ids" u_list (of_list of_u32) nts fs);
    [cbn [mbind option_bind]|by destruct nt, nts, rs, st|destruct nts; [split; [done|by apply of_list_u32]|done]].
  rewrite (field_opt "router_selection" router_value _ rs fs);
    [cbn [mbind option_bind]|by destruct nt, nts, rs, st|destruct rs; [split; [done|by apply of_router]|done]].
  rewrite (field_opt "moe_layer_step" u of_u32 st fs);
    [done|by destruct nt, nts, rs, st|destruct st; [split; [done|by apply of_uint_u]|done]].
Qed.

Lemma shard_result_roundtrip_witness :
  let r := mkOpoiShardResult "req" 1 0 "aa" (mkShardOutputWire [1; 2]%N "00") (Some 7%N) None
             (Some [[mkRouterExpertChoice 3 f32_one]]) (Some 4%N) in
  parse_shard_result (shard_result_value r) = Some r.
Proof.
  apply shard_result_roundtrip. split; simpl.
  - vm_compute; exact eq_refl.
  - vm_compute; exact eq_refl.
  - repeat (apply Forall_cons; split; [vm_compute; exact eq_refl|]). constructor.
  - vm_compute; exact eq_refl.
  - exact I.
  - apply Forall_cons; split; [|constructor]. apply Forall_cons; split; [|constructor].
    split; [|split]; vm_compute; exact eq_refl.
  - vm_compute; exact eq_refl.
Defined.
