(* ===== verification/CsdClient.v ===== *)
(** * The client of the csd daemon ([src/rpc/csd_client.rs], [src/rpc/types.rs])

    The daemon and the transport are outside the repository: [Csd] is what
    they answer to the [n]-th request of a run.  The client's own work, the
    envelope, the errors and the decoding, is modelled; every request sent is
    kept in a log, newest last, which is also the state of the monad. *)

From S2P Require Export Json.

(** ** The environment *)

(** The outcome of one HTTP POST. *)
Inductive http_outcome : Type :=
| SendFailed (e : string)
| BodyUnreadable (e : string)
| Body (v : Value).

Class Csd := {
  csd_post : nat → string → Value → http_outcome;
  (** The text serde_json prints for a value, and for a decoding failure. *)
  print_json : Value → string;
  decode_error : Value → string
}.

(** A request that was sent: its method and parameters. *)
Definition csd_call : Type := string * Value.
Abbreviation csd_log := (list csd_call).

(** ** Response types *)

Record OpoiStake := mkOpoiStake {
  stake_miner_address : string;
  stake_status : string;
  stake_last_renewal_height : option N;
  stake_canary_strikes : N
}.

Record StakeOpoiResult := mkStakeOpoiResult { so_txid : string; so_miner_address : string; so_amount : f64 }.

Record OpoiRequest := mkOpoiRequest {
  rq_request_id : string;
  rq_model : string;
  rq_prompt_hash : string;
  rq_max_tokens : N;
  rq_payment : f64;
  rq_fee_per_token : f64;
  rq_task_type : option string;
  rq_task_class : option string
}.

Record CommitResult := mkCommitResult {
  cr_txid : string;
  cr_nonce_hex : string;
  cr_commit_window_closes_at_height : N
}.

Record ModelManifest := mkModelManifest {
  mm_model_id : string;
  mm_arch_type : string;
  mm_num_layers : N;
  mm_backbone_pom_root : string;
  mm_status : string
}.

Record ShardDescriptor := mkShardDescriptor {
  sd_shard_index : N;
  sd_shard_type : string;
  sd_layer_start : option N;
  sd_layer_end : option N;
  sd_expert_id : option N
}.

Record ModelGraph := mkModelGraph {
  mg_model_id : string;
  mg_shard_topology_hash : string;
  mg_shards : list ShardDescriptor
}.

Record ClaimResult := mkClaimResult { cl_txid : string; cl_request_id : string; cl_miner_address : string }.

Record ShardResultTxRes := mkShardResultTxRes {
  st_txid : string;
  st_request_id : string;
  st_shard_index : N;
  st_miner_address : string
}.

Record UnspentOutput := mkUnspentOutput {
  uo_txid : string;
  uo_vout : N;
  uo_address : string;
  uo_amount : f64;
  uo_confirmations : N
}.

(** ** Their decoding *)

Definition of_u64 : Value → option N := of_uint 64.

Definition parse_blocks : Value → option N :=
  of_struct (λ s, '(a, s) ← field "blocks" None of_u64 s; Some (a, s)).
Definition parse_txid : Value → option string :=
  of_struct (λ s, '(a, s) ← field "txid" None of_string s; Some (a, s)).
Definition parse_stake : Value → option OpoiStake := of_struct (λ s,
  '(a, s) ← field "miner_address" None of_string s;
  '(b, s) ← field "status" None of_string s;
  '(c, s) ← field "last_renewal_height" (Some None) (of_option of_u64) s;
  '(d, s) ← field "canary_strikes" (Some 0%N) of_u32 s;
  Some (mkOpoiStake a b c d, s)).
Definition parse_stake_result : Value → option StakeOpoiResult := of_struct (λ s,
  '(a, s) ← field "txid" None of_string s;
  '(b, s) ← field "miner_address" None of_string s;
  '(c, s) ← field "amount" None of_f64 s;
  Some (mkStakeOpoiResult a b c, s)).
Definition parse_request : Value → option OpoiRequest := of_struct (λ s,
  '(a, s) ← field "request_id" None of_string s;
  '(b, s) ← field "model" None of_string s;
  '(c, s) ← field "prompt_hash" None of_string s;
  '(d, s) ← field "max_tokens" None of_u32 s;
  '(e, s) ← field "payment" (Some f64_zero) of_f64 s;
  '(f, s) ← field "fee_per_token" (Some f64_zero) of_f64 s;
  '(g, s) ← field "task_type" (Some None) (of_option of_string) s;
  '(h, s) ← field "task_class" (Some None) (of_option of_string) s;
  Some (mkOpoiRequest a b c d e f g h, s)).
Definition parse_commit : Value → option CommitResult := of_struct (λ s,
  '(a, s) ← field "txid" None of_string s;
  '(b, s) ← field "nonce_hex" None of_string s;
  '(c, s) ← field "commit_window_closes_at_height" None of_u64 s;
  Some (mkCommitResult a b c, s)).
Definition parse_manifest : Value → option ModelManifest := of_struct (λ s,
  '(a, s) ← field "model_id" None of_string s;
  '(b, s) ← field "arch_type" None of_string s;
  '(c, s) ← field "num_layers" None of_u32 s;
  '(d, s) ← field "backbone_pom_root" None of_string s;
  '(e, s) ← field "status" None of_string s;
  Some (mkModelManifest a b c d e, s)).
Definition parse_descriptor : Value → option ShardDescriptor := of_struct (λ s,
  '(a, s) ← field "shard_index" None of_u32 s;
  '(b, s) ← field "shard_type" None of_string s;
  '(c, s) ← field "layer_start" (Some None) (of_option of_u32) s;
  '(d, s) ← field "layer_end" (Some None) (of_option of_u32) s;
  '(e, s) ← field "expert_id" (Some None) (of_option of_u32) s;
  Some (mkShardDescriptor a b c d e, s)).
Definition parse_graph : Value → option ModelGraph := of_struct (λ s,
  '(a, s) ← field "model_id" None of_string s;
  '(b, s) ← field "shard_topology_hash" None of_string s;
  '(c, s) ← field "shards" None (of_list parse_descriptor) s;
  Some (mkModelGraph a b c, s)).
Definition parse_claim : Value → option ClaimResult := of_struct (λ s,
  '(a, s) ← field "txid" None of_string s;
  '(b, s) ← field "request_id" None of_string s;
  '(c, s) ← field "miner_address" None of_string s;
  Some (mkClaimResult a b c, s)).
Definition parse_shard_tx : Value → option ShardResultTxRes := of_struct (λ s,
  '(a, s) ← field "txid" None of_string s;
  '(b, s) ← field "request_id" None of_string s;
  '(c, s) ← field "shard_index" None of_u32 s;
  '(d, s) ← field "miner_address" None of_string s;
  Some (mkShardResultTxRes a b c d, s)).
Definition parse_unspent : Value → option UnspentOutput := of_struct (λ s,
  '(a, s) ← field "txid" None of_string s;
  '(b, s) ← field "vout" None of_u32 s;
  '(c, s) ← field "address" (Some "") of_string s;
  '(d, s) ← field "amount" None of_f64 s;
  '(e, s) ← field "confirmations" None of_u64 s;
  Some (mkUnspentOutput a b c d e, s)).

(** ** Requests *)

Section client.
Context `{Csd}.

(** What a response body means for a caller that expects a [T]. *)
Definition decode_response {T} (method : string) (parse : Value → option T) (o : http_outcome) : result T AppError :=
  match o with
  | SendFailed e => Err (Rpc (method +:+ ": request failed: " +:+ e))
  | BodyUnreadable e => Err (Rpc (method +:+ ": failed to parse response body: " +:+ e))
  | Body body =>
    let decode :=
      let result := default Null (get_key "result" body) in
      match parse result with
      | Some x => Ok x
      | None => Err (Rpc (method +:+ ": failed to deserialize result: " +:+ decode_error result))
      end in
    match get_key "error" body with
    | Some Null | None => decode
    | Some err => Err (Rpc (method +:+ ": " +:+ print_json err))
    end
  end.

(** [CsdRpcClient::call] *)
Definition call {T} (method : string) (params : Value) (parse : Value → option T) : M csd_log (result T AppError) :=
  λ log, (decode_response method parse (csd_post (length log) method params), log ++ [(method, params)]).

Definition get_chain_height : M csd_log (result N AppError) := call "getinfo" (Array []) parse_blocks.

Definition get_opoi_stake (miner_address : string) : M csd_log (result (option OpoiStake) AppError) :=
  r ← call "getopoistake" (Array [Str miner_address]) parse_stake;
  mret match r with
       | Ok stake => Ok (Some stake)
       | Err (Rpc _) => Ok None
       | Err e => Err e
       end.

Definition stake_opoi (miner_address collateral_txid : string) (collateral_vout : N) (endpoint model_id : string)
    : M csd_log (result StakeOpoiResult AppError) :=
  call "stakeopoi" (Array [Str miner_address; Str collateral_txid; u collateral_vout; Array []; Str endpoint;
                           Str model_id; u 0]) parse_stake_result.

Definition renew_opoi_stake (miner_address : string) : M csd_log (result string AppError) :=
  call "renewopoistake" (Array [Str miner_address]) parse_txid.

Definition list_pending_requests : M csd_log (result (list OpoiRequest) AppError) :=
  call "listopoirequests" (Array [Str "PENDING"]) (of_list parse_request).

Definition get_request (request_id : string) : M csd_log (result OpoiRequest AppError) :=
  call "getopoirequest" (Array [Str request_id]) parse_request.

Definition submit_response_commit (request_id response_hash_hex miner_address : string) (token_count : N)
    : M csd_log (result CommitResult AppError) :=
  call "submitopoiresponsecommit"
    (Array [Str request_id; Str response_hash_hex; Str miner_address; Str ""; u token_count]) parse_commit.

Definition submit_response_reveal (request_id response_hash_hex miner_address : string) (token_count : N)
    (nonce_hex : string) : M csd_log (result string AppError) :=
  call "submitopoiresponse"
    (Array [Str request_id; Str response_hash_hex; Str miner_address; Str ""; u token_count; Str nonce_hex]) parse_txid.

Definition submit_content (request_id kind content_hex : string) : M csd_log (result () AppError) :=
  call "submitopoicontent" (Array [Str request_id; Str kind; Str content_hex]) (λ _, Some ()).

Definition get_model_manifest (model_id : string) : M csd_log (result ModelManifest AppError) :=
  call "getmodelmanifest" (Array [Str model_id]) parse_manifest.

Definition get_model_graph (model_id : string) : M csd_log (result ModelGraph AppError) :=
  call "getmodelgraph" (Array [Str model_id]) parse_graph.

Definition claim_coordinator (request_id miner_address : string) : M csd_log (result ClaimResult AppError) :=
  call "claimcoordinator" (Array [Str request_id; Str miner_address]) parse_claim.

Definition submit_shard_result (request_id : string) (shard_index : N) (miner_address boundary_output_hash_hex : string)
    (token_count : N) : M csd_log (result ShardResultTxRes AppError) :=
  call "submitshardresult"
    (Array [Str request_id; u shard_index; Str miner_address; Str boundary_output_hash_hex; Str ""; u token_count])
    parse_shard_tx.

Definition list_unspent : M csd_log (result (list UnspentOutput) AppError) :=
  call "listunspent" (Array []) (of_list parse_unspent).

(** [format_amounts]: the [BTreeMap] as its entries in key order. *)
Definition format_amounts (amounts : list (string * f64)) : list (string * string) :=
  (λ '(wallet, amount), (wallet, format_fixed8 amount)) <$> amounts.

Definition send_many (from_account_or_empty : string) (amounts : list (string * f64)) : M csd_log (result string AppError) :=
  call "sendmany"
    (Array [Str from_account_or_empty; Object ((λ '(w, a), (w, Str a)) <$> format_amounts amounts)])
    of_string.
End client.

(** ** Properties *)

(** What the daemon is asked to pay: for a positive finite amount
    [m * 2^e], [format_amounts] writes a numeral with exactly 8 digits after
    the point, and the number written, in units of [10^-8], is the amount to
    within half a unit. *)
Theorem format_amounts_exact (wallet : string) (m : positive) (e : Z) (rest : list (string * f64)) :
  ∃ whole frac,
    head (format_amounts ((wallet, S754_finite false m e) :: rest)) = Some (wallet, whole +:+ "." +:+ frac)
    ∧ String.length frac = 8
    ∧ (let written := read_digits 0 (whole +:+ "." +:+ frac) in
       let den := (2 ^ Z.to_N (- e))%N in
       let num := (Npos m * 2 ^ Z.to_N e * 10 ^ 8)%N in
       2 * num ≤ 2 * (written * den) + den ∧ 2 * (written * den) ≤ 2 * num + den)%N.
Proof.
  exists (pretty (units8 m e / 10 ^ 8)%N), (fixed_digits 8 (units8 m e `mod` 10 ^ 8)%N).
  split_and!; [done|apply fixed_digits_length|].
  fold (render_units8 (units8 m e)). rewrite read_render. apply units8_half.
Qed.
