(* ===== verification/Db.v ===== *)
(** * The database ([src/db/repo.rs], [src/db/models.rs], the tables of [migrations/])

    The tables as lists of rows and one operation per function of [repo.rs],
    each a single SQL statement: it applies as a whole or not at all, and the
    server enforces the column types and unique indexes of the migrations.
    The server and the connection are outside the repository: every statement
    may fail ([faults], one entry per statement), before it applied or after,
    and a [SELECT] without [ORDER BY] returns its rows in any order. *)

From S2P Require Export Float.

(** ** Rows *)

Inductive SubmissionStatus : Type := Received | Committed | Revealed | Published | Failed.

#[export] Instance SubmissionStatus_eq_dec : EqDecision SubmissionStatus.
Proof. solve_decision. Defined.

Definition status_as_str (s : SubmissionStatus) : string :=
  match s with
  | Received => "RECEIVED"
  | Committed => "COMMITTED"
  | Revealed => "REVEALED"
  | Published => "PUBLISHED"
  | Failed => "FAILED"
  end.

(** [from_str] panics ([None]) on any other text. *)
Definition status_from_str (s : string) : option SubmissionStatus :=
  if bool_decide (s = "RECEIVED") then Some Received
  else if bool_decide (s = "COMMITTED") then Some Committed
  else if bool_decide (s = "REVEALED") then Some Revealed
  else if bool_decide (s = "PUBLISHED") then Some Published
  else if bool_decide (s = "FAILED") then Some Failed
  else None.

Record Submission := mkSubmission {
  s_id : N;
  s_miner_wallet : string;
  s_request_id : string;
  s_model : option string;
  s_prompt_hash : option string;
  s_payment_base : option f64;
  s_fee_per_token : option f64;
  s_response_hash : string;
  s_response_hex : option string;
  s_token_count : Z;
  s_status : SubmissionStatus;
  s_fail_reason : option string;
  s_commit_txid : option string;
  s_commit_nonce_hex : option string;
  s_commit_window_closes_at_height : option Z;
  s_reveal_txid : option string;
  s_content_published : bool;
  s_reward_amount : option f64;
  s_paid : bool;
  s_payout_txid : option string;
  s_created_at : N;
  s_updated_at : N
}.

Inductive AttemptStatus : Type := AttCommitted | AttRevealed | AttFailed.

#[export] Instance AttemptStatus_eq_dec : EqDecision AttemptStatus.
Proof. solve_decision. Defined.

(** A row of [opoi_commit_attempts]. *)
Record CommitAttempt := mkCommitAttempt {
  a_id : N;
  a_submission_id : N;
  a_opoi_address : string;
  a_status : AttemptStatus;
  a_commit_txid : option string;
  a_commit_nonce_hex : option string;
  a_commit_window_closes_at_height : option Z;
  a_reveal_txid : option string;
  a_fail_reason : option string
}.

Record RevealCandidate := mkRevealCandidate {
  c_attempt_id : N;
  c_submission_id : N;
  c_opoi_address : string;
  c_nonce_hex : string;
  c_request_id : string;
  c_response_hash : string;
  c_token_count : Z
}.

Record B3LiteReceipt := mkB3LiteReceipt {
  b_id : N;
  b_request_id : string;
  b_miner_wallet : string;
  b_model_id : string;
  b_gguf_sha256 : string;
  b_prompt_hash : option string;
  b_prompt_hex : string;
  b_response_hash : string;
  b_generated_token_ids_hex : string;
  b_total_layers : Z;
  b_signature_hex : string;
  b_sampled : bool;
  b_audit_status : string;
  b_audit_detail : option string;
  b_created_at : N;
  b_audited_at : option N
}.

(** A row of [b3lite_consequences]. *)
Record Consequence := mkConsequence {
  q_id : N;
  q_receipt_id : N;
  q_miner_wallet : string;
  q_request_id : string;
  q_action : string;
  q_reason : string
}.

(** What the server does to one statement. *)
Inductive fault : Type :=
| NoFault
| FailsBefore (msg : string)
| FailsAfter (msg : string).

(** The tables' serial ids are drawn from one counter: only that they are
    fresh matters. *)
Record Database := mkDatabase {
  submissions : list Submission;
  attempts : list CommitAttempt;
  receipts : list B3LiteReceipt;
  consequences : list Consequence;
  stake_events : list (string * option string * string);
  next_id : N;
  clock : N;
  faults : list fault
}.

Definition empty_db (fs : list fault) : Database :=
  {| submissions := []; attempts := []; receipts := []; consequences := []; stake_events := [];
     next_id := 1; clock := 0; faults := fs |}.

(** The order in which a query's rows come back. *)
Class RowOrder := {
  row_order : ∀ {A : Type}, list A → list A;
  row_order_perm : ∀ {A : Type} (l : list A), row_order l ≡ₚ l
}.

(** ** Column types *)

(** The characters of a UTF-8 string: a continuation byte belongs to the
    character before it. *)
Definition continuation (c : Ascii.ascii) : bool :=
  let n := Ascii.N_of_ascii c in (128 <=? n)%N && (n <? 192)%N.

(** [s.chars().take(n)] and the rest. *)
Fixpoint take_chars (n : nat) (s : string) : string * string :=
  match s with
  | EmptyString => ("", "")
  | String c s' =>
    if continuation c then let '(t, r) := take_chars n s' in (String c t, r)
    else match n with
         | 0 => ("", s)
         | S n' => let '(t, r) := take_chars n' s' in (String c t, r)
         end
  end.

Fixpoint forall_chars (p : Ascii.ascii → bool) (s : string) : bool :=
  match s with EmptyString => true | String c s' => p c && forall_chars p s' end.

(** A [TEXT] value cannot hold a NUL byte; a [VARCHAR(n)] value has at most
    [n] characters, spaces beyond them being cut. *)
Definition text (s : string) : option string :=
  if forall_chars (λ c, negb (Ascii.eqb c Ascii.zero)) s then Some s else None.
Definition varchar (n : nat) (s : string) : option string :=
  s ← text s;
  let '(t, r) := take_chars n s in
  if forall_chars (λ c, Ascii.eqb c Ascii.Space) r then Some t else None.
Definition nullable (col : string → option string) (o : option string) : option (option string) :=
  match o with Some s => Some <$> col s | None => Some None end.

(** [reason.chars().take(2000)] *)
Definition truncate_reason (reason : string) : string := (take_chars 2000 reason).1.

(** ** Statements *)

Definition pop_fault (d : Database) : fault * Database :=
  match faults d with
  | [] => (NoFault, d)
  | f :: fs => (f, d <| faults := fs |>)
  end.

(** One statement: [op] is [None] when the server rejects it (a value that
    does not fit, a unique index). *)
Definition exec {A} (op : Database → option (A * Database)) : M Database (result A AppError) :=
  λ d,
    let '(f, d1) := pop_fault d in
    match f, op d1 with
    | FailsBefore msg, _ => (Err (DbError msg), d1)
    | _, None => (Err (DbError "constraint violation"), d1)
    | NoFault, Some (a, d2) => (Ok a, d2)
    | FailsAfter msg, Some (_, d2) => (Err (DbError msg), d2)
    end.

Definition active (s : Submission) : bool := negb (bool_decide (s_status s = Failed)).

(** [uq_opoi_submissions_active_request] *)
Fixpoint unique_active (l : list Submission) : bool :=
  match l with
  | [] => true
  | s :: l' =>
    (negb (active s) || forallb (λ s', negb (active s' && bool_decide (s_request_id s' = s_request_id s))) l')
    && unique_active l'
  end.

Definition store_submissions (l : list Submission) (d : Database) : option (() * Database) :=
  if unique_active l then Some ((), d <| submissions := l |>) else None.

(** [UPDATE opoi_submissions SET ... WHERE id = $n] *)
Definition update_submission (id : N) (f : Submission → Submission) (d : Database) : option (() * Database) :=
  store_submissions ((λ s, if bool_decide (s_id s = id) then f s else s) <$> submissions d) d.

Definition select {A} (q : Database → list A) `{RowOrder} : M Database (result (list A) AppError) :=
  exec (λ d, Some (row_order (q d), d)).

Definition create_submission (miner_wallet request_id : string) (model prompt_hash : option string)
    (payment_base fee_per_token : option f64) (response_hash response_hex : string) (token_count : Z)
    : M Database (result N AppError) :=
  exec (λ d,
    w ← text miner_wallet;
    r ← varchar 64 request_id;
    m ← nullable (varchar 128) model;
    p ← nullable (varchar 64) prompt_hash;
    h ← varchar 64 response_hash;
    x ← text response_hex;
    let row := {| s_id := next_id d; s_miner_wallet := w; s_request_id := r; s_model := m; s_prompt_hash := p;
                  s_payment_base := payment_base; s_fee_per_token := fee_per_token; s_response_hash := h;
                  s_response_hex := Some x; s_token_count := token_count; s_status := Received;
                  s_fail_reason := None; s_commit_txid := None; s_commit_nonce_hex := None;
                  s_commit_window_closes_at_height := None; s_reveal_txid := None;
                  s_content_published := false; s_reward_amount := None; s_paid := false;
                  s_payout_txid := None; s_created_at := clock d; s_updated_at := clock d |} in
    '(_, d') ← store_submissions (submissions d ++ [row]) d;
    Some (next_id d, d' <| next_id := (next_id d + 1)%N |>)).

Definition find_active_by_request_id (request_id : string) : M Database (result (option Submission) AppError) :=
  exec (λ d, _ ← text request_id;
    Some (find_first (λ s, bool_decide (s_request_id s = request_id) && active s) (submissions d), d)).

Definition mark_committed (id : N) (commit_txid nonce_hex : string) (closes_at_height : Z) : M Database (result () AppError) :=
  exec (λ d,
    tx ← varchar 128 commit_txid;
    nonce ← varchar 128 nonce_hex;
    update_submission id (λ s, s <| s_status := Committed |> <| s_commit_txid := Some tx |>
      <| s_commit_nonce_hex := Some nonce |> <| s_commit_window_closes_at_height := Some closes_at_height |>
      <| s_updated_at := clock d |>) d).

Definition mark_revealed (id : N) (reveal_txid : string) : M Database (result () AppError) :=
  exec (λ d,
    tx ← varchar 128 reveal_txid;
    update_submission id (λ s, s <| s_status := Revealed |> <| s_reveal_txid := Some tx |>
      <| s_updated_at := clock d |>) d).

Definition mark_published (id : N) (reward_amount : f64) : M Database (result () AppError) :=
  exec (λ d,
    update_submission id (λ s, s <| s_status := Published |> <| s_content_published := true |>
      <| s_reward_amount := Some reward_amount |> <| s_updated_at := clock d |>) d).

Definition mark_failed (id : N) (reason : string) : M Database (result () AppError) :=
  exec (λ d,
    r ← text (truncate_reason reason);
    update_submission id (λ s, s <| s_status := Failed |> <| s_fail_reason := Some r |>
      <| s_updated_at := clock d |>) d).

Section queries.
Context `{RowOrder}.

Definition list_received : M Database (result (list Submission) AppError) :=
  select (λ d, filter (λ s, s_status s = Received) (submissions d)).
Definition list_committed : M Database (result (list Submission) AppError) :=
  select (λ d, filter (λ s, s_status s = Committed) (submissions d)).
Definition list_revealed_unpublished : M Database (result (list Submission) AppError) :=
  select (λ d, filter (λ s, s_status s = Revealed ∧ s_content_published s = false) (submissions d)).

(** The [request_id]s under a [WITHHOLD_PAY] consequence. *)
Definition withheld (d : Database) : list string :=
  q_request_id <$> filter (λ q, q_action q = "WITHHOLD_PAY") (consequences d).

Definition list_unpaid_published : M Database (result (list Submission) AppError) :=
  select (λ d, filter (λ s, s_status s = Published ∧ s_paid s = false ∧ s_request_id s ∉ withheld d) (submissions d)).

(** [SUM] skips the NULLs; [HAVING SUM > 0] drops a group of NULLs only. *)
Definition unpaid_balance_by_wallet : M Database (result (list (string * f64)) AppError) :=
  select (λ d,
    let rows := filter (λ s, s_status s = Published ∧ s_paid s = false) (submissions d) in
    omap (λ w,
      match omap s_reward_amount (row_order (filter (λ s, s_miner_wallet s = w) rows)) with
      | [] => None
      | r :: rs => let total := fold_left f64_add rs r in
                   if f_lt f64_zero total then Some (w, total) else None
      end) (remove_dups (s_miner_wallet <$> rows))).

(** The committed attempts whose window has closed, of answers still committed. *)
Definition candidates_at (height : Z) (d : Database) : list RevealCandidate :=
  a ← attempts d;
  s ← filter (λ s, s_id s = a_submission_id a) (submissions d);
  match a_status a, a_commit_window_closes_at_height a, s_status s with
  | AttCommitted, Some h, Committed =>
    if (h <=? height)%Z then
      [{| c_attempt_id := a_id a; c_submission_id := a_submission_id a; c_opoi_address := a_opoi_address a;
          c_nonce_hex := default "" (a_commit_nonce_hex a); c_request_id := s_request_id s;
          c_response_hash := s_response_hash s; c_token_count := s_token_count s |}]
    else []
  | _, _, _ => []
  end.
Definition list_reveal_ready_candidates (height : Z) : M Database (result (list RevealCandidate) AppError) :=
  select (candidates_at height).

Definition list_pending_b3lite_audits : M Database (result (list B3LiteReceipt) AppError) :=
  select (λ d, filter (λ b, b_sampled b = true ∧ b_audit_status b = "PENDING") (receipts d)).

Definition list_ejected_wallets : M Database (result (list string) AppError) :=
  select (λ d, remove_dups (q_miner_wallet <$> filter (λ q, q_action q = "EJECTED") (consequences d))).
End queries.

Definition mark_paid (request_ids : list string) (payout_txid : string) : M Database (result () AppError) :=
  exec (λ d,
    tx ← varchar 128 payout_txid;
    _ ← mapM text request_ids;
    store_submissions ((λ s, if bool_decide (s_request_id s ∈ request_ids)
                             then s <| s_paid := true |> <| s_payout_txid := Some tx |> <| s_updated_at := clock d |>
                             else s) <$> submissions d) d).

(** [INSERT ... ON CONFLICT (submission_id, opoi_address) DO UPDATE]; the
    foreign key needs the submission to exist. *)
Definition upsert_attempt (submission_id : N) (addr : string) (new : N → CommitAttempt)
    (upd : CommitAttempt → CommitAttempt) (d : Database) : option (() * Database) :=
  if bool_decide (submission_id ∈ s_id <$> submissions d) then
    let same := λ a, bool_decide (a_submission_id a = submission_id ∧ a_opoi_address a = addr) in
    if existsb same (attempts d)
    then Some ((), d <| attempts := (λ a, if same a then upd a else a) <$> attempts d |>)
    else Some ((), d <| attempts := attempts d ++ [new (next_id d)] |> <| next_id := (next_id d + 1)%N |>)
  else None.

Definition upsert_commit_attempt_success (submission_id : N) (opoi_address commit_txid nonce_hex : string)
    (closes_at_height : Z) : M Database (result () AppError) :=
  exec (λ d,
    addr ← text opoi_address;
    tx ← varchar 128 commit_txid;
    nonce ← varchar 128 nonce_hex;
    upsert_attempt submission_id addr
      (λ id, {| a_id := id; a_submission_id := submission_id; a_opoi_address := addr; a_status := AttCommitted;
                a_commit_txid := Some tx; a_commit_nonce_hex := Some nonce;
                a_commit_window_closes_at_height := Some closes_at_height; a_reveal_txid := None;
                a_fail_reason := None |})
      (λ a, a <| a_status := AttCommitted |> <| a_commit_txid := Some tx |> <| a_commit_nonce_hex := Some nonce |>
              <| a_commit_window_closes_at_height := Some closes_at_height |> <| a_fail_reason := None |>) d).

Definition upsert_commit_attempt_failure (submission_id : N) (opoi_address reason : string) : M Database (result () AppError) :=
  exec (λ d,
    addr ← text opoi_address;
    r ← text (truncate_reason reason);
    upsert_attempt submission_id addr
      (λ id, {| a_id := id; a_submission_id := submission_id; a_opoi_address := addr; a_status := AttFailed;
                a_commit_txid := None; a_commit_nonce_hex := None; a_commit_window_closes_at_height := None;
                a_reveal_txid := None; a_fail_reason := Some r |})
      (λ a, a <| a_status := AttFailed |> <| a_fail_reason := Some r |>) d).

Definition mark_attempt_revealed (attempt_id : N) (reveal_txid : string) : M Database (result () AppError) :=
  exec (λ d,
    tx ← varchar 128 reveal_txid;
    Some ((), d <| attempts := (λ a, if bool_decide (a_id a = attempt_id)
                                     then a <| a_status := AttRevealed |> <| a_reveal_txid := Some tx |>
                                     else a) <$> attempts d |>)).

Definition create_b3lite_receipt (request_id miner_wallet model_id gguf_sha256 : string) (prompt_hash : option string)
    (prompt_hex response_hash generated_token_ids_hex : string) (total_layers : Z) (signature_hex : string)
    (sampled : bool) : M Database (result N AppError) :=
  let audit_status := if sampled then "PENDING" else "NONE" in
  exec (λ d,
    r ← varchar 64 request_id;
    w ← text miner_wallet;
    m ← varchar 128 model_id;
    g ← varchar 64 gguf_sha256;
    p ← nullable (varchar 64) prompt_hash;
    x ← text prompt_hex;
    h ← varchar 64 response_hash;
    t ← text generated_token_ids_hex;
    sg ← text signature_hex;
    let row := {| b_id := next_id d; b_request_id := r; b_miner_wallet := w; b_model_id := m; b_gguf_sha256 := g;
                  b_prompt_hash := p; b_prompt_hex := x; b_response_hash := h; b_generated_token_ids_hex := t;
                  b_total_layers := total_layers; b_signature_hex := sg; b_sampled := sampled;
                  b_audit_status := audit_status; b_audit_detail := None; b_created_at := clock d;
                  b_audited_at := None |} in
    Some (next_id d, d <| receipts := receipts d ++ [row] |> <| next_id := (next_id d + 1)%N |>)).

Definition mark_b3lite_audit_result (receipt_id : N) (status detail : string) : M Database (result () AppError) :=
  exec (λ d,
    st ← varchar 16 status;
    dt ← text detail;
    Some ((), d <| receipts := (λ b, if bool_decide (b_id b = receipt_id)
                                     then b <| b_audit_status := st |> <| b_audit_detail := Some dt |>
                                            <| b_audited_at := Some (clock d) |>
                                     else b) <$> receipts d |>)).

Definition insert_b3lite_consequence (receipt_id : N) (miner_wallet request_id action reason : string)
    : M Database (result () AppError) :=
  exec (λ d,
    w ← text miner_wallet;
    r ← varchar 64 request_id;
    a ← varchar 24 action;
    x ← text reason;
    if bool_decide (receipt_id ∈ b_id <$> receipts d) then
      Some ((), d <| consequences := consequences d ++
                  [{| q_id := next_id d; q_receipt_id := receipt_id; q_miner_wallet := w; q_request_id := r;
                      q_action := a; q_reason := x |}] |> <| next_id := (next_id d + 1)%N |>)
    else None).

Definition count_withhold_consequences (miner_wallet : string) : M Database (result Z AppError) :=
  exec (λ d, _ ← text miner_wallet;
    Some (Z.of_nat (length (filter (λ q, q_miner_wallet q = miner_wallet ∧ q_action q = "WITHHOLD_PAY") (consequences d))), d)).

Definition log_stake_event (event_type : string) (txid : option string) (detail : string) : M Database (result () AppError) :=
  exec (λ d,
    e ← varchar 16 event_type;
    t ← nullable (varchar 128) txid;
    x ← text detail;
    Some ((), d <| stake_events := stake_events d ++ [(e, t, x)] |>)).

(** ** The reachable databases *)

(** Any write of the repository, with any arguments; time may pass. *)
Inductive db_step : Database → Database → Prop :=
| st_create w r m p pb fee h x tc d : db_step d (create_submission w r m p pb fee h x tc d).2
| st_committed id tx nonce hgt d : db_step d (mark_committed id tx nonce hgt d).2
| st_revealed id tx d : db_step d (mark_revealed id tx d).2
| st_published id rew d : db_step d (mark_published id rew d).2
| st_failed id reason d : db_step d (mark_failed id reason d).2
| st_paid ids tx d : db_step d (mark_paid ids tx d).2
| st_attempt_ok sid addr tx nonce hgt d : db_step d (upsert_commit_attempt_success sid addr tx nonce hgt d).2
| st_attempt_err sid addr reason d : db_step d (upsert_commit_attempt_failure sid addr reason d).2
| st_attempt_revealed aid tx d : db_step d (mark_attempt_revealed aid tx d).2
| st_receipt r w m g p x h t l sg sm d : db_step d (create_b3lite_receipt r w m g p x h t l sg sm d).2
| st_audit id st dt d : db_step d (mark_b3lite_audit_result id st dt d).2
| st_consequence id w r a x d : db_step d (insert_b3lite_consequence id w r a x d).2
| st_event e t x d : db_step d (log_stake_event e t x d).2
| st_time t d : db_step d (d <| clock := t |>).

(** What the schema promises: serial ids are distinct and below the counter,
    no two live submissions answer one request, one attempt per submission and
    address, and no dangling reference. *)
Record db_wf (d : Database) : Prop := {
  wf_unique : unique_active (submissions d) = true;
  wf_ids : NoDup (s_id <$> submissions d);
  wf_fresh : Forall (λ s, (s_id s < next_id d)%N) (submissions d);
  wf_attempts : NoDup ((λ a, (a_submission_id a, a_opoi_address a)) <$> attempts d);
  wf_attempt_fk : Forall (λ a, a_submission_id a ∈ s_id <$> submissions d) (attempts d);
  wf_consequence_fk : Forall (λ q, q_receipt_id q ∈ b_id <$> receipts d) (consequences d)
}.

(** ** Lemmas *)

Lemma exec_outcome {A} (op : Database → option (A * Database)) d :
  ∃ fs, let d1 := d <| faults := fs |> in
    ((exec op d).2 = d1 ∨ ∃ a, op d1 = Some (a, (exec op d).2))
    ∧ (∀ a, (exec op d).1 = Ok a → op d1 = Some (a, (exec op d).2)).
Proof.
  unfold exec, pop_fault. destruct (faults d) as [|f fs] eqn:Hf.
  - exists []. assert (d <| faults := [] |> = d) as -> by (destruct d; simpl in *; by subst).
    destruct (op d) as [[a d2]|]; simpl; (split; [eauto|intros ? [= ->]; try done]).
  - exists fs. cbv zeta. generalize (d <| faults := fs |>). intros d1.
    destruct f; destruct (op d1) as [[a d2]|]; simpl; (split; [eauto|intros ? [= ->]; try done]).
Qed.

Lemma exec_preserves {A} (I : Database → Prop) (op : Database → option (A * Database)) d :
  (∀ d fs, I d → I (d <| faults := fs |>)) →
  (∀ d1 a d', I d1 → op d1 = Some (a, d') → I d') →
  I d → I (exec op d).2.
Proof.
  intros Hf Hop Hd. destruct (exec_outcome op d) as (fs & [Hd'|[a Ha]] & _); [rewrite Hd'; auto|eauto].
Qed.

(** A query changes nothing but the fault stream, and a successful one returns
    the queried rows. *)
Lemma select_outcome {A} `{RowOrder} (q : Database → list A) d :
  ∃ fs, (select q d).2 = d <| faults := fs |>
    ∧ ∀ l, (select q d).1 = Ok l → l ≡ₚ q (d <| faults := fs |>).
Proof.
  unfold select. destruct (exec_outcome (λ d, Some (row_order (q d), d)) d) as (fs & Hst & Hok).
  exists fs. destruct Hst as [Hst|[a [= _ Hst]]]; (split; [done|]);
    intros l Hl; apply Hok in Hl; injection Hl as <- _; apply row_order_perm.
Qed.

Lemma exec_no_faults {A} (op : Database → option (A * Database)) d :
  faults d = [] →
  exec op d = match op d with Some (a, d') => (Ok a, d') | None => (Err (DbError "constraint violation"), d) end.
Proof. intros H. unfold exec, pop_fault. rewrite H. by destruct (op d) as [[]|]. Qed.

(** Text columns. *)
Lemma forall_chars_app p a b : forall_chars p (a +:+ b) = forall_chars p a && forall_chars p b.
Proof. induction a as [|c a IH]; [done|]. cbn. rewrite <-andb_assoc, <-IH. done. Qed.
Lemma text_app a b : text a = Some a → text b = Some b → text (a +:+ b) = Some (a +:+ b).
Proof.
  unfold text. rewrite forall_chars_app. destruct (forall_chars _ a); [|done]. by destruct (forall_chars _ b).
Qed.
Lemma varchar_text n s t : varchar n s = Some t → text s = Some s.
Proof. unfold varchar, text. by destruct (forall_chars _ s). Qed.
Lemma text_pretty_N_go x : ∀ s, text s = Some s → text (pretty_N_go x s) = Some (pretty_N_go x s).
Proof.
  induction (N.lt_wf_0 x) as [x _ IH]. intros s Hs. destruct (decide (x = 0)%N) as [->|Hx]; [by rewrite pretty_N_go_0|].
  rewrite pretty_N_go_step by lia. apply IH; [apply N.div_lt; lia|].
  apply (text_app (String (pretty_N_char (x `mod` 10)) "") s); [|done]. unfold pretty_N_char. by destruct_matches.
Qed.
Lemma text_pretty_Z (z : Z) : text (pretty z) = Some (pretty z).
Proof.
  assert (Hn : ∀ n : N, text (pretty n) = Some (pretty n)).
  { intros n. unfold pretty, pretty_N. case_decide; [done|]. by apply text_pretty_N_go. }
  unfold pretty, pretty_Z. destruct z; [done|apply Hn|]. apply (text_app "-"); [done|apply Hn].
Qed.

Lemma unique_active_spec l :
  unique_active l = true ↔
  ∀ i j s1 s2, l !! i = Some s1 → l !! j = Some s2 → active s1 = true → active s2 = true →
    s_request_id s1 = s_request_id s2 → i = j.
Proof.
  induction l as [|s l IH]; simpl; [naive_solver|]. rewrite andb_true_iff, orb_true_iff, negb_true_iff, forallb_forall, IH.
  split.
  - intros [H1 H2] i j s1 s2 Hi Hj Ha1 Ha2 Hr.
    assert (∀ k s', l !! k = Some s' → active s = true → active s' = true → s_request_id s' ≠ s_request_id s) as Hno.
    { intros k s' Hk Ha Ha' Heq. destruct H1 as [H1|H1]; [congruence|].
      specialize (H1 s'). rewrite Ha', Heq, bool_decide_eq_true_2 in H1 by done.
      assert (negb (true && true) = true); [|done]. apply H1. apply list_elem_of_In. by eapply list_elem_of_lookup_2. }
    destruct i as [|i], j as [|j]; simpl in *; simplify_eq; [done| | |].
    + destruct (Hno j s2); auto.
    + destruct (Hno i s1); auto.
    + f_equal. eauto.
  - intros H. split.
    + destruct (active s) eqn:Ha; [right|by left]. intros s' Hin%list_elem_of_In.
      apply list_elem_of_lookup_1 in Hin as [k Hk]. apply negb_true_iff, andb_false_iff.
      destruct (active s') eqn:Ha'; [right|by left]. apply bool_decide_eq_false. intros Heq.
      specialize (H 0 (S k) s s' eq_refl Hk Ha Ha' (eq_sym Heq)). done.
    + intros i j s1 s2 Hi Hj H1 H2 H3. specialize (H (S i) (S j) s1 s2 Hi Hj H1 H2 H3). congruence.
Qed.

Lemma store_Some l d r :
  store_submissions l d = Some r → unique_active l = true ∧ r = ((), d <| submissions := l |>).
Proof. unfold store_submissions. destruct (unique_active l); naive_solver. Qed.

(** Rewriting rows without touching their ids keeps everything the schema promises. *)
Lemma db_wf_store d (f : Submission → Submission) l r :
  db_wf d → (∀ s, s_id (f s) = s_id s) → l = f <$> submissions d →
  store_submissions l d = Some r → db_wf r.2.
Proof.
  intros [H1 H2 H3 H4 H5 H6] Hid -> [Hu ->]%store_Some. 
  assert (s_id <$> (f <$> submissions d) = s_id <$> submissions d) as Hids.
  { rewrite <-list_fmap_compose. apply list_fmap_ext. intros. apply Hid. }
  split; simpl; try done.
  - change (NoDup (s_id <$> (f <$> submissions d))). by rewrite Hids.
  - apply Forall_fmap. eapply Forall_impl; [exact H3|]. intros s Hs. simpl. by rewrite Hid.
  - change (Forall (λ a, a_submission_id a ∈ s_id <$> (f <$> submissions d)) (attempts d)). by rewrite Hids.
Qed.

Lemma db_wf_same d d' :
  submissions d' = submissions d → attempts d' = attempts d → receipts d' = receipts d →
  consequences d' = consequences d → (next_id d ≤ next_id d')%N → db_wf d → db_wf d'.
Proof.
  intros E1 E2 E3 E4 Hle [H1 H2 H3 H4 H5 H6]. split; rewrite ?E1, ?E2, ?E3, ?E4; try done.
  eapply Forall_impl; [exact H3|]. simpl. lia.
Qed.

Lemma db_wf_empty fs : db_wf (empty_db fs).
Proof. split; constructor. Qed.
Lemma db_wf_faults d fs : db_wf d → db_wf (d <| faults := fs |>).
Proof. by apply db_wf_same. Qed.

Lemma db_wf_update id f d r :
  db_wf d → (∀ s, s_id (f s) = s_id s) → update_submission id f d = Some r → db_wf r.2.
Proof.
  intros Hwf Hid. unfold update_submission. eapply db_wf_store; [done| |done].
  intros s. simpl. by case_bool_decide.
Qed.

Lemma db_wf_upsert sid addr new upd d r :
  db_wf d → (∀ i, a_submission_id (new i) = sid ∧ a_opoi_address (new i) = addr) →
  (∀ a, a_submission_id (upd a) = a_submission_id a ∧ a_opoi_address (upd a) = a_opoi_address a) →
  upsert_attempt sid addr new upd d = Some r → db_wf r.2.
Proof.
  intros [H1 H2 H3 H4 H5 H6] Hnew Hupd. unfold upsert_attempt.
  case_bool_decide as Hin; [|done].
  set (same := λ a, bool_decide (a_submission_id a = sid ∧ a_opoi_address a = addr)).
  destruct (existsb same (attempts d)) eqn:Hex; intros [= <-].
  - split; try done.
    + change (NoDup ((λ a, (a_submission_id a, a_opoi_address a)) <$> ((λ a, if same a then upd a else a) <$> attempts d))).
      rewrite <-list_fmap_compose. erewrite list_fmap_ext; [exact H4|].
      intros i a _. simpl. destruct (same a); [|done]. by destruct (Hupd a) as [-> ->].
    + change (Forall (λ a, a_submission_id a ∈ s_id <$> submissions d) ((λ a, if same a then upd a else a) <$> attempts d)).
      apply Forall_fmap. eapply Forall_impl; [exact H5|]. intros a Ha. simpl.
      destruct (same a); [|done]. by destruct (Hupd a) as [-> _].
  - destruct (Hnew (next_id d)) as [Hn1 Hn2]. split; try done.
    + eapply Forall_impl; [exact H3|]. intros s Hs. cbv beta in Hs. change (s_id s < next_id d + 1)%N. lia.
    + change (NoDup ((λ a, (a_submission_id a, a_opoi_address a)) <$> (attempts d ++ [new (next_id d)]))).
      rewrite fmap_app. apply NoDup_app. split_and!; [done| |apply NoDup_singleton].
      intros p (a & -> & Ha)%list_elem_of_fmap. simpl. rewrite Hn1, Hn2.
      intros [= Ha1 Ha2]%list_elem_of_singleton.
      assert (existsb same (attempts d) = true); [|congruence].
      apply existsb_exists. exists a. split; [by apply list_elem_of_In|]. by apply bool_decide_eq_true_2.
    + change (Forall (λ a, a_submission_id a ∈ s_id <$> submissions d) (attempts d ++ [new (next_id d)])).
      apply Forall_app. split; [done|]. constructor; [|constructor]. by rewrite Hn1.
Qed.

Lemma bind_Some {A B} (o : option A) (f : A → option B) b : o ≫= f = Some b → ∃ a, o = Some a ∧ f a = Some b.
Proof. destruct o; simpl; eauto; done. Qed.

(** Strips the argument checks off a statement that succeeded. *)
Ltac strip_checks H :=
  repeat (apply bind_Some in H as (? & ? & H); cbv beta in H).

Lemma db_wf_insert row d d1 :
  db_wf d → s_id row = next_id d → store_submissions (submissions d ++ [row]) d = Some ((), d1) →
  db_wf (d1 <| next_id := (next_id d + 1)%N |>).
Proof.
  intros [H1 H2 H3 H4 H5 H6] Hid [Hu [= ->]]%store_Some. split; try done.
  - change (NoDup (s_id <$> (submissions d ++ [row]))).
    rewrite fmap_app. apply NoDup_app. split_and!; [done| |apply NoDup_singleton].
    intros i (s & -> & Hs)%list_elem_of_fmap Hi%list_elem_of_singleton.
    rewrite Forall_forall in H3. specialize (H3 _ Hs). cbv beta in H3. lia.
  - change (Forall (λ s, (s_id s < next_id d + 1)%N) (submissions d ++ [row])).
    apply Forall_app. split; [|repeat constructor; lia].
    eapply Forall_impl; [exact H3|]. intros s Hs. cbv beta in Hs. lia.
  - change (Forall (λ a, a_submission_id a ∈ s_id <$> (submissions d ++ [row])) (attempts d)).
    eapply Forall_impl; [exact H5|]. intros a Ha. rewrite fmap_app. set_solver.
Qed.

Lemma db_wf_create w r m p pb fee h x tc d : db_wf d → db_wf (create_submission w r m p pb fee h x tc d).2.
Proof.
  unfold create_submission. apply exec_preserves; [intros; by apply db_wf_faults|].
  intros d1 id d' Hwf Hop. strip_checks Hop. destruct x6 as [[] d2].
  assert (d' = d2 <| next_id := (next_id d1 + 1)%N |>) as -> by congruence.
  eapply (db_wf_insert _ d1); [exact Hwf| |eassumption]. reflexivity.
Qed.

Lemma db_wf_attempts_map d (f : CommitAttempt → CommitAttempt) :
  db_wf d → (∀ a, a_submission_id (f a) = a_submission_id a ∧ a_opoi_address (f a) = a_opoi_address a) →
  db_wf (d <| attempts := f <$> attempts d |>).
Proof.
  intros [H1 H2 H3 H4 H5 H6] Hf. split; try done.
  - change (NoDup ((λ a, (a_submission_id a, a_opoi_address a)) <$> (f <$> attempts d))).
    rewrite <-list_fmap_compose. erewrite list_fmap_ext; [exact H4|].
    intros i a _. simpl. by destruct (Hf a) as [-> ->].
  - change (Forall (λ a, a_submission_id a ∈ s_id <$> submissions d) (f <$> attempts d)).
    apply Forall_fmap. eapply Forall_impl; [exact H5|]. intros a Ha. simpl. by destruct (Hf a) as [-> _].
Qed.

Lemma db_wf_receipts d l n :
  db_wf d → (∀ i, i ∈ b_id <$> receipts d → i ∈ b_id <$> l) → (next_id d ≤ n)%N →
  db_wf (d <| receipts := l |> <| next_id := n |>).
Proof.
  intros [H1 H2 H3 H4 H5 H6] Hl Hn. split; try done.
  - change (Forall (λ s, (s_id s < n)%N) (submissions d)).
    eapply Forall_impl; [exact H3|]. intros s Hs. cbv beta in Hs. lia.
  - change (Forall (λ q, q_receipt_id q ∈ b_id <$> l) (consequences d)).
    eapply Forall_impl; [exact H6|]. intros q Hq. by apply Hl.
Qed.

Lemma db_wf_consequence d q :
  db_wf d → q_receipt_id q ∈ b_id <$> receipts d →
  db_wf (d <| consequences := consequences d ++ [q] |> <| next_id := (next_id d + 1)%N |>).
Proof.
  intros [H1 H2 H3 H4 H5 H6] Hq. split; try done.
  - change (Forall (λ s, (s_id s < next_id d + 1)%N) (submissions d)).
    eapply Forall_impl; [exact H3|]. intros s Hs. cbv beta in Hs. lia.
  - change (Forall (λ q, q_receipt_id q ∈ b_id <$> receipts d) (consequences d ++ [q])).
    apply Forall_app. split; [done|]. by constructor.
Qed.

Lemma db_step_wf d d' : db_step d d' → db_wf d → db_wf d'.
Proof.
  destruct 1; [by apply db_wf_create|..|by apply db_wf_same];
    unfold mark_committed, mark_revealed, mark_published, mark_failed, mark_paid, upsert_commit_attempt_success,
      upsert_commit_attempt_failure, mark_attempt_revealed, create_b3lite_receipt, mark_b3lite_audit_result,
      insert_b3lite_consequence, log_stake_event;
    (apply exec_preserves; [intros; by apply db_wf_faults|]);
    intros d1 a' d' Hwf Hop; strip_checks Hop; change (db_wf (a', d').2).
  1-4: eapply (db_wf_update _ _ _ _ Hwf); [|exact Hop]; done.
  - eapply (db_wf_store _ _ _ _ Hwf); [|done|exact Hop]. intros s. simpl. by case_bool_decide.
  - eapply (db_wf_upsert _ _ _ _ _ _ Hwf); [..|exact Hop]; done.
  - eapply (db_wf_upsert _ _ _ _ _ _ Hwf); [..|exact Hop]; done.
  - apply Some_inj, pair_inj in Hop as [_ <-]. apply db_wf_attempts_map; [done|].
    intros a. simpl. by case_bool_decide.
  - apply Some_inj, pair_inj in Hop as [_ <-]. apply db_wf_receipts; [done| |lia].
    intros i. rewrite fmap_app. set_solver.
  - apply Some_inj, pair_inj in Hop as [_ <-]. 
    apply (db_wf_receipts d1 _ (next_id d1)); [done| |lia].
    intros i. rewrite <-list_fmap_compose. erewrite (list_fmap_ext (b_id ∘ _)); [done|].
    intros j b _. simpl. by case_bool_decide.
  - case_bool_decide; [|done]. apply Some_inj, pair_inj in Hop as [_ <-]. by apply db_wf_consequence.
  - apply Some_inj, pair_inj in Hop as [_ <-]. by apply (db_wf_same d1).
Qed.

(** The consequences of the past are never revoked. *)
Definition kept_consequences (d d' : Database) : Prop := ∃ l, consequences d' = consequences d ++ l.

Lemma kept_trans d1 d2 d3 : kept_consequences d1 d2 → kept_consequences d2 d3 → kept_consequences d1 d3.
Proof. intros [l1 H1] [l2 H2]. exists (l1 ++ l2). by rewrite H2, H1, <-app_assoc. Qed.
Lemma kept_same d d' : consequences d' = consequences d → kept_consequences d d'.
Proof. intros H. exists []. by rewrite app_nil_r. Qed.
Lemma kept_exec {A} (op : Database → option (A * Database)) d :
  (∀ d1 a d', op d1 = Some (a, d') → kept_consequences d1 d') → kept_consequences d (exec op d).2.
Proof.
  intros Hop. apply (exec_preserves (kept_consequences d)); [done| |by apply kept_same].
  intros d1 a d' Hd Ho. eapply kept_trans; [exact Hd|by eapply Hop].
Qed.
Lemma kept_store l d r : store_submissions l d = Some r → kept_consequences d r.2.
Proof. intros [_ ->]%store_Some. by apply kept_same. Qed.
Lemma kept_upsert sid addr new upd d r : upsert_attempt sid addr new upd d = Some r → kept_consequences d r.2.
Proof.
  unfold upsert_attempt. destruct (bool_decide _); [|done]. destruct (existsb _ _); intros [= <-]; by apply kept_same.
Qed.

Lemma db_step_keeps d d' : db_step d d' → kept_consequences d d'.
Proof.
  destruct 1; [apply kept_exec|..|by apply kept_same];
    unfold mark_committed, mark_revealed, mark_published, mark_failed, mark_paid, upsert_commit_attempt_success,
      upsert_commit_attempt_failure, mark_attempt_revealed, create_b3lite_receipt, mark_b3lite_audit_result,
      insert_b3lite_consequence, log_stake_event;
    try apply kept_exec; intros d1 a' d' Hop; strip_checks Hop; change (kept_consequences d1 (a', d').2).
  all: try (by eapply kept_store).
  all: try (by eapply kept_upsert).
  - destruct x6 as [[] d2]. match goal with Hs : store_submissions _ _ = _ |- _ => apply kept_store in Hs as [l Hl] end.
    exists l. injection Hop as _ <-. exact Hl.
  - injection Hop as <- <-. by apply kept_same.
  - injection Hop as <- <-. by apply kept_same.
  - injection Hop as <- <-. by apply kept_same.
  - case_bool_decide; [|done]. injection Hop as <- <-. by eexists.
  - injection Hop as <- <-. by apply kept_same.
Qed.

Lemma unique_active_snoc l s :
  unique_active l = true → active s = true →
  unique_active (l ++ [s])
  = match find_first (λ s', bool_decide (s_request_id s' = s_request_id s) && active s') l with
    | Some _ => false | None => true end.
Proof.
  intros Hu Ha. destruct (find_first _ l) as [s'|] eqn:Hf.
  - apply find_first_Some in Hf as [[i Hi]%list_elem_of_lookup_1 [Hr Ha']%andb_true_iff].
    apply bool_decide_eq_true in Hr. apply not_true_iff_false. intros Hu'.
    rewrite unique_active_spec in Hu'.
    assert (i = length l); [|apply lookup_lt_Some in Hi; lia].
    apply (Hu' i (length l) s' s); auto.
    + rewrite lookup_app_l by (by eapply lookup_lt_Some). done.
    + by rewrite lookup_app_r, Nat.sub_diag by lia.
  - apply find_first_None in Hf. rewrite Forall_lookup in Hf.
    apply unique_active_spec. intros i j s1 s2 Hi Hj H1 H2 Hr. rewrite unique_active_spec in Hu.
    assert (∀ k s', l !! k = Some s' → active s' = true → s_request_id s' ≠ s_request_id s) as Hno.
    { intros k s' Hk Hs' Heq. specialize (Hf _ _ Hk). cbv beta in Hf.
      rewrite bool_decide_eq_true_2, Hs' in Hf; done. }
    rewrite lookup_app_Some in Hi, Hj.
    destruct Hi as [Hi|[Hi1 Hi]], Hj as [Hj|[Hj1 Hj]].
    + eauto.
    + apply list_lookup_singleton_Some in Hj as [? <-]. by destruct (Hno i s1).
    + apply list_lookup_singleton_Some in Hi as [? <-]. by destruct (Hno j s2).
    + apply list_lookup_singleton_Some in Hi as [? <-], Hj as [? <-]. lia.
Qed.

Lemma find_first_snoc {A} (p : A → bool) l x :
  find_first p l = None → find_first p (l ++ [x]) = if p x then Some x else None.
Proof. unfold find_first. intros H. rewrite find_map_app, H. simpl. by destruct (p x). Qed.

(** ** Properties *)

(** In every database the repository's writes can produce, with any
    arguments, interleaving and server failures (before or after the statement
    applied), no two live submissions answer the same request, ids are distinct,
    each submission has one commit attempt per address and no reference dangles. *)
Theorem db_reachable_wf (fs : list fault) (d : Database) (Hreach : rtc db_step (empty_db fs) d) : db_wf d.
Proof.
  pose proof (db_wf_empty fs) as Hwf.
  revert Hwf. generalize dependent (empty_db fs). intros d0 Hreach.
  induction Hreach as [|d1 d2 d3 Hstep _ IH]; [done|]. intros Hwf. by apply IH, (db_step_wf d1).
Qed.

Lemma db_reachable_wf_witness :
  db_wf (create_submission "w" "r" None None None None "h" "00" 1 (empty_db [FailsAfter "lost"])).2.
Proof. apply (db_reachable_wf [FailsAfter "lost"]). apply rtc_once, st_create. Defined.


