(* ===== verification/Ledger.v ===== *)
(** * The ledger of answers

    What the table of submissions promises, as a state machine of its own: an
    answer is recorded once per request, committed or given up, revealed,
    published and paid, in that order and each at most once.  The database
    implements it as long as every statement is issued by the one handler that
    is entitled to it; a [token] is that entitlement, the knowledge that a row
    is in a given status and that nobody else will move it. *)

From S2P Require Export Db.

(** ** The abstract machine *)

(** What may happen to one row. *)
Inductive row_step (s : Submission) : Submission → Prop :=
| row_commit tx nonce height now : s_status s = Received →
    row_step s (s <| s_status := Committed |> <| s_commit_txid := Some tx |> <| s_commit_nonce_hex := Some nonce |>
                  <| s_commit_window_closes_at_height := Some height |> <| s_updated_at := now |>)
| row_give_up reason now : s_status s = Received →
    row_step s (s <| s_status := Failed |> <| s_fail_reason := Some reason |> <| s_updated_at := now |>)
| row_reveal tx now : s_status s = Committed →
    row_step s (s <| s_status := Revealed |> <| s_reveal_txid := Some tx |> <| s_updated_at := now |>)
| row_publish reward now : s_status s = Revealed →
    row_step s (s <| s_status := Published |> <| s_content_published := true |> <| s_reward_amount := Some reward |>
                  <| s_updated_at := now |>)
| row_pay tx now : s_paid s = false → s_status s = Published ∨ s_status s = Failed →
    row_step s (s <| s_paid := true |> <| s_payout_txid := Some tx |> <| s_updated_at := now |>).

(** What a new row looks like. *)
Record fresh_row (s : Submission) : Prop := {
  fr_status : s_status s = Received;
  fr_fail : s_fail_reason s = None;
  fr_commit : s_commit_txid s = None;
  fr_reveal : s_reveal_txid s = None;
  fr_published : s_content_published s = false;
  fr_reward : s_reward_amount s = None;
  fr_paid : s_paid s = false;
  fr_payout : s_payout_txid s = None
}.

(** A row is added at the end, under a new id and for a request that no live
    row answers; or one row takes a step. *)
Inductive ledger_step : relation (list Submission) :=
| ledger_record l s : fresh_row s → s_id s ∉ s_id <$> l →
    Forall (λ s', active s' = true → s_request_id s' ≠ s_request_id s) l → ledger_step l (l ++ [s])
| ledger_row l1 s s' l2 : row_step s s' → ledger_step (l1 ++ s :: l2) (l1 ++ s' :: l2).

(** The row is at its end. *)
Definition settled_row (s : Submission) : Prop := s_status s = Published ∧ s_paid s = true.

(** ** The implementation's invariant *)

(** A paid request has a published and paid answer. *)
Definition paid_ok (d : Database) : Prop :=
  Forall (λ s, s_paid s = true → Exists (λ s', s_request_id s' = s_request_id s ∧ settled_row s') (submissions d)) (submissions d).

(** A row's id and the status it is known to have. *)
Definition token : Type := N * SubmissionStatus.
Definition holds (d : Database) (t : token) : Prop :=
  (t.1 < next_id d)%N ∧ Forall (λ s, s_id s = t.1 → s_status s = t.2) (submissions d).

Record ledger_ok (d : Database) (ts : list token) : Prop := {
  lk_wf : db_wf d;
  lk_paid : paid_ok d;
  lk_distinct : NoDup ts.*1;
  lk_holds : Forall (holds d) ts
}.

(** From [d] to [d'] the ledger moved, and the tokens [ts] became [ts']. *)
Definition flow (d : Database) (ts : list token) (d' : Database) (ts' : list token) : Prop :=
  ledger_ok d ts → ledger_ok d' ts' ∧ rtc ledger_step (submissions d) (submissions d').

(** ** The abstract machine's properties *)

Lemma row_step_identity s s' : row_step s s' →
  s_id s' = s_id s ∧ s_miner_wallet s' = s_miner_wallet s ∧ s_request_id s' = s_request_id s
  ∧ s_response_hash s' = s_response_hash s ∧ s_response_hex s' = s_response_hex s ∧ s_token_count s' = s_token_count s
  ∧ s_created_at s' = s_created_at s.
Proof. by destruct 1. Qed.

Lemma settled_final s s' : settled_row s → ¬ row_step s s'.
Proof. intros [H1 H2] Hs. destruct Hs; destruct_or?; congruence. Qed.

Lemma settled_kept l l' s : rtc ledger_step l l' → settled_row s → s ∈ l → s ∈ l'.
Proof.
  intros Hl Hs. induction Hl as [|l1 l2 l3 H12 _ IH]; [done|]. intros Hin. apply IH. clear IH.
  destruct H12 as [l s1 _ _ _|la s1 s2 lb H12]; [set_solver|].
  apply elem_of_app in Hin as [Hin|[->|Hin]%elem_of_cons]; [set_solver| |set_solver].
  by destruct (settled_final _ _ Hs H12).
Qed.

(** Every row of the past has its successor, which is the same answer. *)
Lemma ledger_history l l' i s : rtc ledger_step l l' → l !! i = Some s → ∃ s', l' !! i = Some s' ∧ rtc row_step s s'.
Proof.
  intros Hl. revert s. induction Hl as [l|l1 l2 l3 H12 _ IH]; intros s Hi; [by exists s|].
  assert (∃ s1, l2 !! i = Some s1 ∧ rtc row_step s s1) as (s1 & H1 & Hr).
  { destruct H12 as [l s0 _ _ _|la s1 s2 lb H12]; [exists s; split; [by apply lookup_app_l_Some|done]|].
    destruct (decide (i = length la)) as [->|Hne].
    - rewrite list_lookup_middle in Hi by done. injection Hi as <-. exists s2. split; [by apply list_lookup_middle|by apply rtc_once].
    - exists s. split; [|done]. rewrite <-Hi. destruct (decide (i < length la)) as [Hlt|Hge].
      + by rewrite !lookup_app_l by done.
      + rewrite !lookup_app_r by lia. by destruct (i - length la) eqn:E; [lia|]. }
  destruct (IH s1 H1) as (s' & Hs' & Hr'). exists s'. split; [done|by etrans].
Qed.

(** The fields of an answer never change, and what is paid stays paid. *)
Lemma rows_identity s s' : rtc row_step s s' →
  s_id s' = s_id s ∧ s_miner_wallet s' = s_miner_wallet s ∧ s_request_id s' = s_request_id s
  ∧ s_response_hash s' = s_response_hash s ∧ s_response_hex s' = s_response_hex s ∧ s_token_count s' = s_token_count s
  ∧ s_created_at s' = s_created_at s.
Proof.
  induction 1 as [|s1 s2 s3 H12%row_step_identity _ IH]; [done|].
  destruct_and!. repeat match goal with H : _ s3 = _ s2 |- _ => rewrite H; clear H end. by split_and!.
Qed.

Lemma rows_paid s s' : rtc row_step s s' → s_paid s = true → s_paid s' = true.
Proof. induction 1 as [|s1 s2 s3 H12 _ IH]; [done|]. intros Hp. apply IH. by destruct H12. Qed.
Lemma settled_rows s s' : settled_row s → rtc row_step s s' → s' = s.
Proof. intros Hs [->|(y & H12 & _)]%rtc_inv; [done|]. by destruct (settled_final _ _ Hs H12). Qed.

(** A pointwise rewriting of which every change is a step. *)
Lemma ledger_fmap (f : Submission → Submission) l : Forall (λ s, f s = s ∨ row_step s (f s)) l → rtc ledger_step l (f <$> l).
Proof.
  intros Hl. enough (∀ pre, rtc ledger_step (pre ++ l) (pre ++ (f <$> l))) as Hg by apply (Hg []).
  induction Hl as [|s l Hs _ IH]; intros pre; [done|]. csimpl.
  trans (pre ++ f s :: l).
  - destruct Hs as [->|Hs]; [done|]. apply rtc_once. by constructor.
  - specialize (IH (pre ++ [f s])). by rewrite <-!app_assoc in IH.
Qed.

(** ** Composing flows *)

Lemma flow_refl d ts : flow d ts d ts.
Proof. by intros Hd. Qed.
Lemma flow_trans d1 ts1 d2 ts2 d3 ts3 : flow d1 ts1 d2 ts2 → flow d2 ts2 d3 ts3 → flow d1 ts1 d3 ts3.
Proof. intros H12 H23 H1. destruct (H12 H1) as [H2 Hs]. destruct (H23 H2) as [H3 Hs']. split; [done|by etrans]. Qed.

Lemma ledger_ok_sub d ts ts' : ts' ⊆+ ts → ledger_ok d ts → ledger_ok d ts'.
Proof.
  intros Hsub [H1 H2 H3 H4]. split; [done..| |].
  - apply submseteq_Permutation in Hsub as [ts0 Hp]. rewrite Hp, fmap_app in H3. by apply NoDup_app in H3 as [? _].
  - rewrite Forall_forall in *. intros t Ht. apply H4. by eapply elem_of_submseteq.
Qed.
(** Tokens may be reordered and dropped. *)
Lemma flow_drop d ts ts' : ts' ⊆+ ts → flow d ts d ts'.
Proof. intros Hsub Hd. split; [by eapply ledger_ok_sub|done]. Qed.

(** Whatever leaves the submissions as they are. *)
Lemma holds_same d d' t : submissions d' = submissions d → (next_id d ≤ next_id d')%N → holds d t → holds d' t.
Proof. unfold holds. intros -> Hn [H1 H2]. split; [lia|done]. Qed.
Lemma flow_same d d' ts : (db_wf d → db_wf d') → submissions d' = submissions d → (next_id d ≤ next_id d')%N → flow d ts d' ts.
Proof.
  intros Hwf Hs Hn [H1 H2 H3 H4]. split; [|by rewrite Hs]. split; [auto|unfold paid_ok; by rewrite Hs|done|].
  eapply Forall_impl; [exact H4|]. intros t. by apply holds_same.
Qed.
Lemma flow_faults d ts fs : flow d ts (d <| faults := fs |>) ts.
Proof. apply flow_same; [by apply db_wf_faults|done..]. Qed.

(** ** The statements *)

Lemma flow_exec {A} (op : Database → option (A * Database)) d ts ts' :
  ts' ⊆+ ts → (∀ fs a d', let d1 := d <| faults := fs |> in op d1 = Some (a, d') → flow d1 ts d' ts') →
  flow d ts (exec op d).2 ts'.
Proof.
  intros Hsub Hop. destruct (exec_outcome op d) as (fs & Hst & _). eapply flow_trans; [apply (flow_faults d ts fs)|].
  destruct Hst as [->|[a Ha]]; [by apply flow_drop|by eapply Hop].
Qed.

(** A statement on the submissions in general: what it must do to the rows. *)
Lemma flow_store d ts ts' (f : Submission → Submission) r :
  store_submissions (f <$> submissions d) d = Some r → (∀ s, s_id (f s) = s_id s) → ts' ⊆+ ts →
  (ledger_ok d ts → Forall (λ s, f s = s ∨ row_step s (f s)) (submissions d)
     ∧ paid_ok (d <| submissions := f <$> submissions d |>)
     ∧ Forall (λ t, Forall (λ s, s_id s = t.1 → s_status (f s) = s_status s) (submissions d)) ts') →
  flow d ts r.2 ts'.
Proof.
  intros Hst Hid Hsub Hrows Hd. destruct (Hrows Hd) as (Hsteps & Hpaid & Hts). pose proof (ledger_ok_sub _ _ _ Hsub Hd) as [_ _ Hn Hh].
  pose proof (db_wf_store d f _ r (lk_wf _ _ Hd) Hid eq_refl Hst) as Hwf. apply store_Some in Hst as [_ ->].
  split; [split; [done..|]|by apply ledger_fmap].
  rewrite Forall_forall in *. intros t Ht. destruct (Hh t Ht) as [Hlt Hrow]. split; [done|].
  specialize (Hts t Ht). rewrite Forall_forall in *. intros s' Hs'%list_elem_of_fmap. destruct Hs' as (s & -> & Hs).
  rewrite Hid. intros E. rewrite (Hts s Hs E). by apply Hrow.
Qed.

(** The owner of a row moves it. *)
Lemma flow_advance d id st ts (f : Submission → Submission) r :
  update_submission id f d = Some r → st ≠ Published →
  (∀ s, s_status s = st → row_step s (f s)) →
  (∀ s, s_id (f s) = s_id s ∧ s_paid (f s) = s_paid s ∧ s_request_id (f s) = s_request_id s) →
  flow d ((id, st) :: ts) r.2 ts.
Proof.
  unfold update_submission. intros Hop Hst Hstep Hf. set (g := λ s, _) in Hop.
  assert (∀ s, s_id (g s) = s_id s ∧ s_paid (g s) = s_paid s ∧ s_request_id (g s) = s_request_id s) as Hg.
  { intros s. unfold g. by case_bool_decide; [apply Hf|]. }
  eapply flow_store; [exact Hop|apply Hg|by apply submseteq_cons|]. intros [_ Hp Hn Hh].
  apply Forall_cons in Hh as [[_ Hh] _]. cbn in Hn, Hh. apply NoDup_cons in Hn as [Hn _]. split_and!.
  - eapply Forall_impl; [exact Hh|]. intros s Hs. unfold g. case_bool_decide; [right; auto|by left].
  - unfold paid_ok in *. apply Forall_fmap. rewrite Forall_forall in *. intros s Hs. cbn. destruct (Hg s) as (_ & -> & ->). intros Hpd.
    specialize (Hp s Hs Hpd). rewrite Exists_exists in Hp. destruct Hp as (s' & Hs' & Hr & Hset). apply Exists_exists.
    exists s'. split; [|done]. apply list_elem_of_fmap. exists s'. split; [|done]. unfold g. case_bool_decide as E; [|done].
    destruct Hset as [Hpub _]. specialize (Hh s' Hs' E). congruence.
  - apply Forall_forall. intros t Ht. apply Forall_forall. intros s _ E. unfold g. case_bool_decide as E'; [|done].
    destruct Hn. apply list_elem_of_fmap. exists t. split; [congruence|done].
Qed.

#[local] Ltac advances :=
  apply flow_exec; [by apply submseteq_cons|]; intros fs a d' d1 Hop; strip_checks Hop;
  eapply (flow_advance _ _ _ _ _ (_, _) Hop); [done| |done]; intros s Hs; by constructor.

Lemma flow_committed id tx nonce h d ts : flow d ((id, Received) :: ts) (mark_committed id tx nonce h d).2 ts.
Proof. advances. Qed.
Lemma flow_failed id reason d ts : flow d ((id, Received) :: ts) (mark_failed id reason d).2 ts.
Proof. advances. Qed.
Lemma flow_revealed id tx d ts : flow d ((id, Committed) :: ts) (mark_revealed id tx d).2 ts.
Proof. advances. Qed.
Lemma flow_published id reward d ts : flow d ((id, Revealed) :: ts) (mark_published id reward d).2 ts.
Proof. advances. Qed.

Lemma flow_record row d d1 ts : fresh_row row → s_id row = next_id d →
  store_submissions (submissions d ++ [row]) d = Some ((), d1) →
  flow d ts (d1 <| next_id := (next_id d + 1)%N |>) ((next_id d, Received) :: ts).
Proof.
  intros Hfresh Hid Hst Hd. pose proof (db_wf_insert row d d1 (lk_wf _ _ Hd) Hid Hst) as Hwf.
  apply store_Some in Hst as [Hu [= ->]]. destruct Hd as [Hw Hp Hn Hh]. pose proof (wf_fresh _ Hw) as Hlt.
  rewrite Forall_forall in Hlt. set (d' := _ <| next_id := _ |>) in *.
  assert (submissions d' = submissions d ++ [row]) as Es by done. assert (next_id d' = next_id d + 1)%N as En by done.
  clearbody d'. split; [split; [done|..]|]; unfold paid_ok, holds in *; rewrite ?Es, ?En.
  - apply Forall_app. split; [|repeat constructor; by rewrite (fr_paid _ Hfresh)]. eapply Forall_impl; [exact Hp|].
    intros s Hs Hpd. apply Exists_app. left. by apply Hs.
  - apply NoDup_cons. split; [|done]. intros (t & E & Ht)%list_elem_of_fmap. rewrite Forall_forall in Hh.
    destruct (Hh t Ht) as [Hl _]. cbn in E. lia.
  - constructor; [|eapply Forall_impl; [exact Hh|]]; cbn.
    + split; [lia|]. apply Forall_app. split; [|repeat constructor; by rewrite (fr_status _ Hfresh)].
      apply Forall_forall. intros s Hs E. specialize (Hlt s Hs). lia.
    + intros t [Hl Ht]. split; [lia|]. apply Forall_app. split; [exact Ht|]. repeat constructor. lia.
  - apply rtc_once. constructor; [done| |].
    + intros (s & E & Hs)%list_elem_of_fmap. specialize (Hlt s Hs). lia.
    + apply Forall_forall. intros s Hs Ha E. rewrite unique_active_spec in Hu. apply list_elem_of_lookup_1 in Hs as [i Hi].
      assert (i = length (submissions d)); [|apply lookup_lt_Some in Hi; lia].
      apply (Hu i (length (submissions d)) s row); [by apply lookup_app_l_Some|by apply list_lookup_middle|done| |done].
      unfold active. by rewrite (fr_status _ Hfresh).
Qed.

(** A recorded answer comes with the token of its row. *)
Lemma flow_created w r m p pb fee h x tc d ts :
  let '(res, d') := create_submission w r m p pb fee h x tc d in
  flow d ts d' (match res with Ok id => (id, Received) :: ts | Err _ => ts end).
Proof.
  unfold create_submission. set (op := λ d, _). destruct (exec_outcome op d) as (fs & Hst & Hok).
  assert (∀ id d1 d', op d1 = Some (id, d') → flow d1 ts d' ((id, Received) :: ts)) as Hop.
  { clear. intros id d1 d' Hop. unfold op in Hop. strip_checks Hop. destruct x6 as [[] d2].
    apply Some_inj, pair_inj in Hop as [<- <-]. eapply flow_record; [|..|eassumption]; [by split|done]. }
  destruct (exec op d) as [res d'] eqn:He. cbn in Hst, Hok. eapply flow_trans; [apply (flow_faults d ts fs)|].
  destruct res as [id|e]; [by apply Hop, Hok|].
  destruct Hst as [->|[id Hid]]; [apply flow_refl|]. eapply flow_trans; [by apply Hop|]. apply flow_drop. by apply submseteq_cons.
Qed.

(** A batch settles requests that have a published, unpaid answer. *)
Lemma unique_active_eq l s1 s2 : unique_active l = true → s1 ∈ l → s2 ∈ l → active s1 = true → active s2 = true →
  s_request_id s1 = s_request_id s2 → s1 = s2.
Proof.
  intros Hu [i Hi]%list_elem_of_lookup_1 [j Hj]%list_elem_of_lookup_1 Ha1 Ha2 E. rewrite unique_active_spec in Hu.
  assert (i = j) by by apply (Hu i j s1 s2). congruence.
Qed.
Lemma active_spec s : active s = true ↔ s_status s ≠ Failed.
Proof. unfold active. rewrite negb_true_iff. apply bool_decide_eq_false. Qed.

Lemma flow_paid ids tx d ts :
  (∀ r, r ∈ ids → Exists (λ u, s_request_id u = r ∧ s_status u = Published ∧ s_paid u = false) (submissions d)) →
  flow d ts (mark_paid ids tx d).2 ts.
Proof.
  intros Hids. apply flow_exec; [done|]. intros fs a d' d1 Hop. strip_checks Hop.
  eapply (flow_store _ _ _ _ (_, _)); [exact Hop|intros s; cbn; by case_bool_decide|done|].
  intros [Hw Hp _ _]. change (submissions d1) with (submissions d) in *. pose proof (wf_unique _ Hw) as Hu. clear Hop.
  unfold paid_ok in Hp. rewrite Forall_forall in Hp. setoid_rewrite Exists_exists in Hids. setoid_rewrite Exists_exists in Hp.
  split_and!.
  - apply Forall_forall. intros s Hs. case_bool_decide as Hr; [right|by left].
    destruct (Hids _ Hr) as (v & Hv & Ev & Sv & Pv). assert (active v = true) as Hav by (apply active_spec; congruence).
    constructor.
    + destruct (s_paid s) eqn:Hpd; [|done]. destruct (Hp s Hs Hpd) as (s' & Hs' & E' & [S' P']).
      assert (v = s'); [|congruence]. apply (unique_active_eq (submissions d)); try done; [apply active_spec; congruence|congruence].
    + destruct (decide (s_status s = Failed)) as [|Hf]; [by right|left].
      rewrite (unique_active_eq (submissions d) s v); try done. by apply active_spec.
  - unfold paid_ok. apply Forall_fmap, Forall_forall. intros s Hs Hpd. apply Exists_fmap, Exists_exists. cbn in *.
    assert (s_request_id s ∈ ids ∨ (s_request_id s ∉ ids ∧ s_paid s = true)) as [Hr|[Hr Hps]].
    { case_bool_decide; [by left|by right]. }
    + destruct (Hids _ Hr) as (v & Hv & Ev & Sv & Pv). exists v. split; [done|]. cbn. rewrite (bool_decide_true (s_request_id v ∈ ids)) by congruence.
      by case_bool_decide.
    + destruct (Hp s Hs Hps) as (s' & Hs' & E' & Hset). exists s'. split; [done|]. cbn.
      rewrite !bool_decide_false by congruence. done.
  - apply Forall_forall. intros t _. apply Forall_forall. intros s _ _. by case_bool_decide.
Qed.

(** A settled request is not listed for payout. *)
Lemma settled_unlisted `{RowOrder} d s rows : db_wf d → s ∈ submissions d → settled_row s →
  (list_unpaid_published d).1 = Ok rows → Forall (λ u, s_request_id u ≠ s_request_id s) rows.
Proof.
  intros Hw Hs [Hst Hpd] Hrows. unfold list_unpaid_published in Hrows.
  match type of Hrows with context [select ?q d] => destruct (select_outcome q d) as (fs & _ & Hok) end.
  rewrite (Hok _ Hrows). apply Forall_forall. intros u [(Su & Pu & _) Hu]%list_elem_of_filter E.
  assert (u = s); [|congruence]. apply (unique_active_eq (submissions d)); [apply Hw|done..| | |done]; apply active_spec; congruence.
Qed.
