(* ===== verification/Columns.v ===== *)
(** * What no statement changes

    Apart from a payout, a statement never touches whose an answer is nor
    whether it is paid: it only appends unpaid answers ([grows]).  What the
    engines may append is limited by whoever asks ([W]). *)

From S2P Require Export Ledger.

(** Whose answers a database holds and which are paid, oldest first. *)
Definition wallets (d : Database) : list string := s_miner_wallet <$> submissions d.
Definition paid_flags (d : Database) : list bool := s_paid <$> submissions d.

Section grows.
Variable W : string → Prop.

Definition grows (d d' : Database) : Prop :=
  ∃ new, wallets d' = wallets d ++ new ∧ paid_flags d' = paid_flags d ++ replicate (length new) false ∧ Forall W new.

Lemma grows_same d d' : submissions d' = submissions d → grows d d'.
Proof. intros E. exists []. unfold wallets, paid_flags. rewrite E. cbn. by rewrite !app_nil_r. Qed.
#[export] Instance grows_preorder : PreOrder grows.
Proof.
  split; [intros d; by apply grows_same|]. intros x y z (a & Ea & Fa & Ha) (b & Eb & Fb & Hb). exists (a ++ b).
  rewrite Eb, Ea, Fb, Fa, length_app, replicate_add, <-!app_assoc. split_and!; [done..|]. by apply Forall_app.
Qed.

Lemma grows_exec {A} (op : Database → option (A * Database)) :
  (∀ d a d', op d = Some (a, d') → grows d d') → steps grows (exec op).
Proof.
  intros Hop d. destruct (exec_outcome op d) as (fs & Hst & _). destruct (exec op d) as [r d']. cbn [snd] in *.
  destruct Hst as [->|[a Ha]]; [by apply grows_same|]. by apply Hop in Ha.
Qed.
Lemma grows_map (f : Submission → Submission) d r : store_submissions (f <$> submissions d) d = Some r →
  (∀ s, s_miner_wallet (f s) = s_miner_wallet s ∧ s_paid (f s) = s_paid s) → grows d r.2.
Proof.
  intros [_ ->]%store_Some Hf. exists []. split_and!; [| |done]; cbn [length replicate]; rewrite app_nil_r.
  - change (s_miner_wallet <$> (f <$> submissions d) = s_miner_wallet <$> submissions d).
    rewrite <-list_fmap_compose. apply list_fmap_ext. intros i s _. apply Hf.
  - change (s_paid <$> (f <$> submissions d) = s_paid <$> submissions d).
    rewrite <-list_fmap_compose. apply list_fmap_ext. intros i s _. apply Hf.
Qed.

#[local] Ltac rows_kept := apply grows_exec; intros ? ? ? Hop; strip_checks Hop;
  first [ eapply (grows_map _ _ (_, _)); [exact Hop|]; intros s; cbn; by case_bool_decide
        | unfold upsert_attempt in Hop; repeat case_bool_decide; repeat case_match; simplify_eq/=; by apply grows_same ].
Lemma select_grows {A} `{RowOrder} (q : Database → list A) : steps grows (select q).
Proof. rows_kept. Qed.
Lemma find_grows id : steps grows (find_active_by_request_id id).
Proof. rows_kept. Qed.
Lemma committed_grows id tx nonce h : steps grows (mark_committed id tx nonce h).
Proof. rows_kept. Qed.
Lemma revealed_grows id tx : steps grows (mark_revealed id tx).
Proof. rows_kept. Qed.
Lemma published_grows id rew : steps grows (mark_published id rew).
Proof. rows_kept. Qed.
Lemma failed_grows id reason : steps grows (mark_failed id reason).
Proof. rows_kept. Qed.
Lemma attempt_ok_grows sid addr tx nonce hgt : steps grows (upsert_commit_attempt_success sid addr tx nonce hgt).
Proof. rows_kept. Qed.
Lemma attempt_err_grows sid addr reason : steps grows (upsert_commit_attempt_failure sid addr reason).
Proof. rows_kept. Qed.
Lemma attempt_revealed_grows aid tx : steps grows (mark_attempt_revealed aid tx).
Proof. rows_kept. Qed.
Lemma receipt_grows r w m g p x h t l sg sm : steps grows (create_b3lite_receipt r w m g p x h t l sg sm).
Proof. rows_kept. Qed.
Lemma audit_grows id st dt : steps grows (mark_b3lite_audit_result id st dt).
Proof. rows_kept. Qed.
Lemma consequence_grows id w r a x : steps grows (insert_b3lite_consequence id w r a x).
Proof. rows_kept. Qed.
Lemma count_grows w : steps grows (count_withhold_consequences w).
Proof. rows_kept. Qed.
Lemma event_grows e t x : steps grows (log_stake_event e t x).
Proof. rows_kept. Qed.
Lemma created_grows w r m p pb fee h x tc : W w → steps grows (create_submission w r m p pb fee h x tc).
Proof.
  intros Hw. apply grows_exec. intros d a d' Hop. strip_checks Hop. destruct x6 as [[] d2].
  apply Some_inj, pair_inj in Hop as [_ <-]. match goal with H : store_submissions _ _ = _ |- _ => apply store_Some in H as [_ [= ->]] end.
  match goal with H : text w = Some ?t |- _ => assert (t = w) as -> by (unfold text in H; case_match; congruence) end.
  exists [w]. split_and!; [exact (fmap_app s_miner_wallet (submissions d) [_])|exact (fmap_app s_paid (submissions d) [_])|by repeat constructor].
Qed.
End grows.

Create HintDb kept.
#[export] Hint Resolve find_grows committed_grows revealed_grows published_grows failed_grows attempt_ok_grows attempt_err_grows
  attempt_revealed_grows receipt_grows audit_grows consequence_grows count_grows event_grows created_grows : kept.
#[export] Hint Extern 1 (steps (grows _) ?m) => (let h := get_head m in unfold h; apply select_grows) : kept.
