(* ===== verification/World.v ===== *)
(** * The world the components share

    What every handler can reach: the csd client's log, the database, the
    miner registry and the downstream channels.  A channel accepts a line
    while its session is open; what was accepted is logged, oldest first. *)

From S2P Require Export Wire CsdClient Db MinerRegistry.

Record Net := mkNet { open_chans : gset chan; sent : list (chan * down_msg) }.

(** [tx.send(line)]: false when the receiver is gone. *)
Definition net_send (tx : chan) (m : down_msg) : M Net bool :=
  λ n, if bool_decide (tx ∈ open_chans n) then (true, n <| sent := sent n ++ [(tx, m)] |>) else (false, n).

Record World := mkWorld {
  w_csd : csd_log;
  w_db : Database;
  w_reg : MinerRegistry;
  w_net : Net
}.

Definition csd {A} (m : M csd_log A) : M World A := zoom w_csd (λ x w, w <| w_csd := x |>) m.
Definition db {A} (m : M Database A) : M World A := zoom w_db (λ x w, w <| w_db := x |>) m.
Definition net {A} (m : M Net A) : M World A := zoom w_net (λ x w, w <| w_net := x |>) m.
Definition reg (f : MinerRegistry → MinerRegistry) : M World () := modify (λ w, w <| w_reg := f (w_reg w) |>).

(** [registry.get(wallet)] then [tx.send(line)]: false when the wallet is not
    connected or its connection just closed. *)
Definition send_to (wallet : string) (m : down_msg) : M World bool :=
  tx ← gets (λ w, MinerRegistry.get wallet (w_reg w));
  match tx with
  | Some tx => net (net_send tx m)
  | None => mret false
  end.

(** ** A component's state next to the world *)

Definition in_world {E A} (m : M World A) : M (World * E) A := λ s, let '(a, w) := m s.1 in (a, (w, s.2)).
Definition own {E} (f : E → E) : M (World * E) () := λ s, ((), (s.1, f s.2)).
Definition own_gets {E A} (f : E → A) : M (World * E) A := λ s, (f s.2, s).

(** ** Sample environments, for the witnesses *)

(** A daemon that accepts everything, a server that keeps table order. *)
Definition yes_csd : Csd := {|
  csd_post := λ _ _ _, Body (Object [("result", Str "tx"); ("error", Null)]);
  print_json := λ _, ""; decode_error := λ _, "" |}.
Definition table_order : RowOrder := {| row_order := λ A l, l; row_order_perm := λ A l, reflexivity l |}.
