(* ===== verification/B3Lite.v ===== *)
(** * B3-lite receipts ([src/opoi/b3lite.rs])

    The signed record of what was served to whom, and the deterministic draw
    that decides which receipts are audited. *)

From S2P Require Export Bytes Float Config.

Record B3LiteConfig := mkB3LiteConfig { secret : bytes; sample_rate : f64 }.

Definition from_config (cfg : Config) : option B3LiteConfig :=
  if negb (b3lite_enabled cfg) then None
  else Some {| secret := as_bytes (b3lite_receipt_secret cfg); sample_rate := b3lite_audit_sample_rate cfg |}.

Record ReceiptFields := mkReceiptFields {
  rf_request_id : string;
  rf_miner_wallet : string;
  rf_model_id : string;
  rf_gguf_sha256 : string;
  rf_response_hash : string;
  rf_generated_token_ids : list N
}.

(** One length-prefixed string: [s.len() as u32] wraps. *)
Definition prefixed (s : string) : bytes :=
  u32_le (wrap32 (N.of_nat (length (as_bytes s)))) ++ as_bytes s.

Definition canonical_bytes (f : ReceiptFields) : bytes :=
  (s ← [rf_request_id f; rf_miner_wallet f; rf_model_id f; rf_gguf_sha256 f; rf_response_hash f]; prefixed s)
  ++ u32_le (wrap32 (N.of_nat (length (rf_generated_token_ids f))))
  ++ (id ← rf_generated_token_ids f; u32_le id).

Section receipts.
Context `{Crypto}.

Definition sign_receipt (key : bytes) (f : ReceiptFields) : string :=
  hex_encode (hmac_sha256 key (canonical_bytes f)).

Definition verify_receipt (key : bytes) (f : ReceiptFields) (signature_hex : string) : bool :=
  eq_ignore_ascii_case (sign_receipt key f) signature_hex.

Definition should_sample (signature_hex : string) (rate : f64) : bool :=
  if f_le rate f64_zero then false
  else if f_le f64_one rate then true
  else
    let digest := sha256 (as_bytes signature_hex) in
    let value := be_value (take 8 digest) in
    let threshold := u64_of_f64 (f64_mul rate (f64_of_N u64_max)) in
    (value <? threshold)%N.
End receipts.

(** Every length fits its [u32] prefix, every token id is a [u32]. *)
Definition receipt_ok (f : ReceiptFields) : Prop :=
  Forall (λ s, (N.of_nat (length (as_bytes s)) < u32_modulus)%N)
    [rf_request_id f; rf_miner_wallet f; rf_model_id f; rf_gguf_sha256 f; rf_response_hash f]
  ∧ (N.of_nat (length (rf_generated_token_ids f)) < u32_modulus)%N
  ∧ Forall (λ id, (id < u32_modulus)%N) (rf_generated_token_ids f).

(** ** Lemmas *)

Lemma u32_le_inj n m : (n < u32_modulus)%N → (m < u32_modulus)%N → u32_le n = u32_le m → n = m.
Proof. apply (le_bytes_inj 4). Qed.

(** A length-prefixed string can be cut off the front in one way only. *)
Lemma prefixed_inj s t r1 r2 :
  (N.of_nat (length (as_bytes s)) < u32_modulus)%N → (N.of_nat (length (as_bytes t)) < u32_modulus)%N →
  prefixed s ++ r1 = prefixed t ++ r2 → s = t ∧ r1 = r2.
Proof.
  unfold prefixed, wrap32. intros Hs Ht. rewrite !N.mod_small, <-!app_assoc by done. intros He.
  apply app_inj_1 in He as [H1 H2]; [|by unfold u32_le; rewrite !le_bytes_length].
  apply u32_le_inj, Nat2N.inj in H1; [|done..].
  apply app_inj_1 in H2 as [H2 ->]; [|done]. split; [by apply as_bytes_inj|done].
Qed.

Lemma token_ids_inj l1 l2 :
  Forall (λ id, (id < u32_modulus)%N) l1 → Forall (λ id, (id < u32_modulus)%N) l2 →
  (id ← l1; u32_le id) = (id ← l2; u32_le id) → l1 = l2.
Proof.
  intros H1. revert l2. induction H1 as [|x l1 Hx _ IH]; intros l2 H2 He.
  - destruct l2; [done|]. by apply (f_equal length) in He.
  - destruct H2 as [|y l2 Hy H2]; [by apply (f_equal length) in He|].
    csimpl in He. change (u32_le x ++ (id ← l1; u32_le id) = u32_le y ++ (id ← l2; u32_le id)) in He.
    apply app_inj_1 in He as [Hxy He]; [|by unfold u32_le; rewrite !le_bytes_length].
    f_equal; [by apply u32_le_inj|by apply IH].
Qed.

Lemma canonical_bytes_eq f :
  canonical_bytes f
  = prefixed (rf_request_id f) ++ prefixed (rf_miner_wallet f) ++ prefixed (rf_model_id f)
    ++ prefixed (rf_gguf_sha256 f) ++ prefixed (rf_response_hash f)
    ++ u32_le (wrap32 (N.of_nat (length (rf_generated_token_ids f))))
    ++ (id ← rf_generated_token_ids f; u32_le id).
Proof. unfold canonical_bytes. rewrite !bind_cons. change ([] ≫= prefixed) with (@nil ascii). by rewrite app_nil_r, <-!app_assoc. Qed.

Lemma canonical_bytes_inj f g : receipt_ok f → receipt_ok g → canonical_bytes f = canonical_bytes g → f = g.
Proof.
  destruct f as [a1 a2 a3 a4 a5 ids1], g as [b1 b2 b3 b4 b5 ids2].
  intros (Hf & Hfl & Hfi) (Hg & Hgl & Hgi). rewrite !canonical_bytes_eq.
  cbn [rf_request_id rf_miner_wallet rf_model_id rf_gguf_sha256 rf_response_hash rf_generated_token_ids] in *.
  rewrite !Forall_cons in Hf, Hg. destruct_and!. intros He.
  do 5 (apply prefixed_inj in He as [-> He]; [|assumption..]).
  apply app_inj_1 in He as [_ He]; [|by unfold u32_le; rewrite !le_bytes_length].
  f_equal. by apply token_ids_inj.
Qed.

(** ** Properties *)

(** C33. Receipts verify and cannot be reused: the signature of a receipt
    verifies under the same key, in either letter case; and whenever a
    signature made for receipt [f] verifies for a receipt [g], the two receipts
    are equal, or HMAC-SHA256 maps two different messages to one tag under
    that key.  No shift of bytes between fields can help a forger. *)
Theorem receipt_binding `{Crypto} (key : bytes) (f g : ReceiptFields) (Hf : receipt_ok f) (Hg : receipt_ok g) :
  verify_receipt key f (sign_receipt key f) = true
  ∧ (∀ sig, eq_ignore_ascii_case (sign_receipt key f) sig = true → verify_receipt key f sig = true)
  ∧ (verify_receipt key g (sign_receipt key f) = true →
     f = g ∨ ∃ m1 m2, m1 ≠ m2 ∧ hmac_sha256 key m1 = hmac_sha256 key m2).
Proof.
  split_and!; [apply eq_ignore_ascii_case_refl|done|].
  unfold verify_receipt, sign_receipt. intros Hv%hex_encode_eq_nocase.
  destruct (decide (canonical_bytes f = canonical_bytes g)) as [He|Hne].
  - left. by apply canonical_bytes_inj.
  - right. by exists (canonical_bytes f), (canonical_bytes g).
Qed.

Lemma receipt_binding_witness :
  let H := toy_crypto in
  let f := mkReceiptFields "ab" "c" "m" "g" "r" [1; 2]%N in
  let g := mkReceiptFields "a" "bc" "m" "g" "r" [1; 2]%N in
  verify_receipt [] f (sign_receipt [] f) = true
  ∧ (∀ sig, eq_ignore_ascii_case (sign_receipt [] f) sig = true → verify_receipt [] f sig = true)
  ∧ (verify_receipt [] g (sign_receipt [] f) = true →
     f = g ∨ ∃ m1 m2, m1 ≠ m2 ∧ hmac_sha256 [] m1 = hmac_sha256 [] m2).
Proof.
  apply (receipt_binding (H:=toy_crypto) [] (mkReceiptFields "ab" "c" "m" "g" "r" [1; 2]%N)
    (mkReceiptFields "a" "bc" "m" "g" "r" [1; 2]%N)).
  - split_and!; [|reflexivity|]; repeat (apply Forall_cons; split; [reflexivity|]); constructor.
  - split_and!; [|reflexivity|]; repeat (apply Forall_cons; split; [reflexivity|]); constructor.
Defined.
