(* ===== verification/Payout.v ===== *)
(** * Miner payouts ([src/payout/mod.rs])

    One batch per tick: the unpaid published rewards are grouped by wallet,
    wallets below the threshold wait, the rest are paid by one [sendmany] and
    their rows marked. *)

From S2P Require Export World.

(** [entry.0 += reward; entry.1.push(request_id)] *)
Definition add_reward (m : gmap string (f64 * list string)) (sub : Submission) : gmap string (f64 * list string) :=
  match s_reward_amount sub with
  | None => m
  | Some reward =>
    let entry := default (f64_zero, []) (m !! s_miner_wallet sub) in
    <[s_miner_wallet sub := (f64_add entry.1 reward, entry.2 ++ [s_request_id sub])]> m
  end.

Definition group_by_wallet (unpaid : list Submission) : gmap string (f64 * list string) :=
  fold_left add_reward unpaid ∅.

(** One turn of the second loop. *)
Definition plan_wallet (min_payout_cs fee_factor : f64) (acc : list (string * f64) * list string)
    (e : string * (f64 * list string)) : list (string * f64) * list string :=
  let '(wallet, (total, ids)) := e in
  if f_lt total min_payout_cs then acc
  else
    let payable := f64_mul total fee_factor in
    if f_le payable f64_zero then acc
    else (acc.1 ++ [(wallet, payable)], acc.2 ++ ids).

(** The amounts (a [BTreeMap], filled in key order) and the requests they pay. *)
Definition plan_payout (min_payout_cs pool_fee_percent : f64) (unpaid : list Submission)
    : list (string * f64) * list string :=
  let fee_factor := f64_sub f64_one (f64_div pool_fee_percent (f64_of_N 100)) in
  fold_left (plan_wallet min_payout_cs fee_factor) (btree_entries (group_by_wallet unpaid)) ([], []).

Section payout.
Context `{Csd, RowOrder}.

Definition run (payout_address : string) (min_payout_cs pool_fee_percent : f64)
    : M World (result (option (string * nat * f64)) AppError) :=
  unpaid ←? db list_unpaid_published;
  match unpaid with
  | [] => mret (Ok None)
  | _ =>
    let '(amounts, request_ids) := plan_payout min_payout_cs pool_fee_percent unpaid in
    match amounts with
    | [] => mret (Ok None)
    | _ =>
      let total := fold_left f64_add amounts.*2 f64_zero in
      txid ←? csd (send_many payout_address amounts);
      _ ←? db (mark_paid request_ids txid);
      mret (Ok (Some (txid, length amounts, total)))
    end
  end.

(** [payout_tick] only logs the outcome. *)
Definition payout_tick (payout_address : string) (min_payout_cs pool_fee_percent : f64) : M World () :=
  ignore (run payout_address min_payout_cs pool_fee_percent).
End payout.

(** ** What a batch should be *)

(** The rewards and the requests of one wallet, in row order. *)
Definition rewards_of (w : string) (l : list Submission) : list (f64 * string) :=
  omap (λ s, match s_reward_amount s with
             | Some r => if bool_decide (s_miner_wallet s = w) then Some (r, s_request_id s) else None
             | None => None end) l.

Definition wallet_total (w : string) (l : list Submission) : f64 := fold_left f64_add (rewards_of w l).*1 f64_zero.

(** A wallet is in the batch: it has a reward, reaches the threshold, and
    something is left after the fee. *)
Definition is_paid (min_payout fee_factor : f64) (l : list Submission) (w : string) : bool :=
  negb (bool_decide (rewards_of w l = [])) && negb (f_lt (wallet_total w l) min_payout)
  && negb (f_le (f64_mul (wallet_total w l) fee_factor) f64_zero).

(** The entries the second loop keeps. *)
Definition entry_paid (min_payout fee : f64) (e : string * (f64 * list string)) : bool :=
  negb (f_lt e.2.1 min_payout) && negb (f_le (f64_mul e.2.1 fee) f64_zero).

(** The rows a batch draws on. *)
Definition payable_row (d : Database) (s : Submission) : Prop :=
  s_status s = Published ∧ s_paid s = false ∧ s_request_id s ∉ withheld d.

(** The effect of [mark_paid] on one row. *)
Definition set_paid (ids : list string) (tx : string) (now : N) (s : Submission) : Submission :=
  if bool_decide (s_request_id s ∈ ids)
  then s <| s_paid := true |> <| s_payout_txid := Some tx |> <| s_updated_at := now |> else s.

(** What is asked of the daemon. *)
Definition sendmany_call (addr : string) (amounts : list (string * f64)) : csd_call :=
  ("sendmany", Array [Str addr; Object ((λ '(w, a), (w, Str a)) <$> format_amounts amounts)]).

(** The requests a batch over [unpaid] settles. *)
Definition settled (mn fee : f64) (unpaid : list Submission) (r : string) : Prop :=
  ∃ u, u ∈ unpaid ∧ s_request_id u = r ∧ is_Some (s_reward_amount u) ∧ is_paid mn fee unpaid (s_miner_wallet u) = true.

(** One published, unpaid answer of wallet [w1] with reward 2. *)
Definition published_row (i : N) (wal r : string) : Submission := {|
  s_id := i; s_miner_wallet := wal; s_request_id := r; s_model := None; s_prompt_hash := None;
  s_payment_base := None; s_fee_per_token := None; s_response_hash := "h"; s_response_hex := Some "00";
  s_token_count := 1; s_status := Published; s_fail_reason := None; s_commit_txid := None;
  s_commit_nonce_hex := None; s_commit_window_closes_at_height := None; s_reveal_txid := None;
  s_content_published := true; s_reward_amount := Some (f64_of_Z 2); s_paid := false; s_payout_txid := None;
  s_created_at := 0; s_updated_at := 0 |}.
Definition payout_world : World := {|
  w_csd := []; w_db := (empty_db []) <| submissions := [published_row 1 "w1" "r1"; published_row 2 "w2" "r2"] |>;
  w_reg := new_registry; w_net := mkNet ∅ [] |}.

(** ** Lemmas *)

Lemma rewards_of_app w l1 l2 : rewards_of w (l1 ++ l2) = rewards_of w l1 ++ rewards_of w l2.
Proof. apply omap_app. Qed.

Lemma rewards_of_one w s :
  rewards_of w [s] = match s_reward_amount s with
                     | Some r => if bool_decide (s_miner_wallet s = w) then [(r, s_request_id s)] else []
                     | None => [] end.
Proof. unfold rewards_of. simpl. destruct (s_reward_amount s); [|done]. by case_bool_decide. Qed.

Lemma group_lookup l w :
  group_by_wallet l !! w =
  match rewards_of w l with [] => None | rs => Some (fold_left f64_add rs.*1 f64_zero, rs.*2) end.
Proof.
  unfold group_by_wallet. induction l as [|s l IH] using rev_ind; [apply lookup_empty|].
  rewrite fold_left_app, rewards_of_app, rewards_of_one. simpl. set (m := fold_left add_reward l ∅) in *.
  unfold add_reward. destruct (s_reward_amount s) as [r|].
  - rewrite lookup_insert. case_decide as Hw.
    + subst w. rewrite bool_decide_eq_true_2 by done. rewrite IH.
      destruct (rewards_of (s_miner_wallet s) l) as [|p rs]; simpl; [done|].
      by rewrite !fmap_app, fold_left_app.
    + rewrite bool_decide_eq_false_2, app_nil_r by done. exact IH.
  - by rewrite app_nil_r.
Qed.

Lemma plan_fold mn fee es : ∀ acc,
  fold_left (plan_wallet mn fee) es acc
  = (let kept := filter (λ e, entry_paid mn fee e = true) es in
     (acc.1 ++ ((λ e, (e.1, f64_mul e.2.1 fee)) <$> kept), acc.2 ++ (e ← kept; e.2.2))).
Proof.
  induction es as [|[w [t ids]] es IH]; intros [a i]; simpl; [by rewrite !app_nil_r|].
  rewrite IH, filter_cons.
  assert (entry_paid mn fee (w, (t, ids)) = negb (f_lt t mn) && negb (f_le (f64_mul t fee) f64_zero)) as Hp by done.
  destruct (f_lt t mn), (f_le (f64_mul t fee) f64_zero); simpl in Hp; case_decide; try congruence; try done.
  csimpl. by rewrite <-!app_assoc.
Qed.

Lemma elem_of_btree {V} (m : gmap string V) k v : (k, v) ∈ btree_entries m ↔ m !! k = Some v.
Proof. unfold btree_entries. rewrite stable_sort_perm. apply elem_of_map_to_list. Qed.

Lemma btree_keys_NoDup {V} (m : gmap string V) : NoDup (btree_entries m).*1.
Proof. unfold btree_entries. rewrite stable_sort_perm. apply NoDup_fst_map_to_list. Qed.

Lemma plan_payout_spec mn pct l amounts ids :
  plan_payout mn pct l = (amounts, ids) →
  let fee := f64_sub f64_one (f64_div pct (f64_of_N 100)) in
  NoDup amounts.*1
  ∧ (∀ w p, (w, p) ∈ amounts ↔ is_paid mn fee l w = true ∧ p = f64_mul (wallet_total w l) fee)
  ∧ (∀ r, r ∈ ids ↔ ∃ w, is_paid mn fee l w = true ∧ r ∈ (rewards_of w l).*2).
Proof.
  intros Hplan fee. unfold plan_payout in Hplan. fold fee in Hplan. rewrite plan_fold in Hplan.
  injection Hplan as <- <-. cbn [fst snd app].
  set (kept := filter _ _).
  assert (∀ w e, (w, e) ∈ kept ↔ is_paid mn fee l w = true ∧ e = (wallet_total w l, (rewards_of w l).*2)) as Hk.
  { intros w e. unfold kept. rewrite list_elem_of_filter, elem_of_btree, group_lookup.
    unfold entry_paid, is_paid, wallet_total. destruct (rewards_of w l) as [|p rs]; simpl.
    - naive_solver.
    - rewrite !andb_true_iff. naive_solver. }
  split_and!.
  - rewrite <-list_fmap_compose. unfold compose. simpl. unfold kept.
    eapply sublist_NoDup; [apply (btree_keys_NoDup (group_by_wallet l))|].
    apply fmap_sublist, sublist_filter.
  - intros w p. rewrite list_elem_of_fmap. split.
    + intros ([w' e] & [= -> ->] & [Hp ->]%Hk). done.
    + intros [Hp ->]. exists (w, (wallet_total w l, (rewards_of w l).*2)). split; [done|]. by apply Hk.
  - intros r. rewrite list_elem_of_bind. split.
    + intros ([w e] & Hr & [Hp ->]%Hk). by exists w.
    + intros (w & Hp & Hr). exists (w, (wallet_total w l, (rewards_of w l).*2)). split; [done|]. by apply Hk.
Qed.

Lemma mark_paid_outcome ids tx d :
  let '(r, d') := mark_paid ids tx d in
  (submissions d' = submissions d ∧ r ≠ Ok ()) ∨ ∃ tx', submissions d' = set_paid ids tx' (clock d) <$> submissions d.
Proof.
  unfold mark_paid. match goal with |- let '(_, _) := exec ?o d in _ => destruct (exec_outcome o d) as (fs & Hst & Hok) end.
  destruct (exec _ d) as [r d']. cbn [fst snd] in *.
  assert (∀ a, (tx0 ← varchar 128 tx; _ ← mapM text ids;
      store_submissions ((λ s, if bool_decide (s_request_id s ∈ ids)
                             then s <| s_paid := true |> <| s_payout_txid := Some tx0 |> <| s_updated_at := clock (d <| faults := fs |>) |>
                             else s) <$> submissions (d <| faults := fs |>)) (d <| faults := fs |>)) = Some (a, d') →
      ∃ tx', submissions d' = set_paid ids tx' (clock d) <$> submissions d) as Hset.
  { intros a Hop. strip_checks Hop. apply store_Some in Hop as [_ Hop]. apply pair_inj in Hop as [_ ->]. by exists x. }
  destruct r as [[]|e].
  - right. by eapply Hset, Hok.
  - destruct Hst as [->|[a Ha]]; [by left|right; by eapply Hset].
Qed.

Lemma rewards_of_elem w l r :
  r ∈ (rewards_of w l).*2 ↔ ∃ s, s ∈ l ∧ s_miner_wallet s = w ∧ s_request_id s = r ∧ is_Some (s_reward_amount s).
Proof.
  unfold rewards_of. rewrite list_elem_of_fmap. setoid_rewrite list_elem_of_omap. split.
  - intros ([x r'] & -> & s & Hs & He). destruct (s_reward_amount s) eqn:?; [|done].
    case_bool_decide; simplify_eq. eauto 10.
  - intros (s & Hs & <- & <- & [x Hx]). exists (x, s_request_id s). split; [done|]. exists s.
    by rewrite Hx, bool_decide_eq_true_2.
Qed.

(** The two ways a run can go. *)
Lemma run_outcome `{Csd, RowOrder} addr mn pct w res w' :
  run addr mn pct w = (res, w') →
  (w_csd w' = w_csd w ∧ submissions (w_db w') = submissions (w_db w) ∧ ¬ ∃ x, res = Ok (Some x))
  ∨ ∃ unpaid amounts ids,
      unpaid ≡ₚ filter (payable_row (w_db w)) (submissions (w_db w))
      ∧ plan_payout mn pct unpaid = (amounts, ids)
      ∧ amounts ≠ []
      ∧ w_csd w' = w_csd w ++ [sendmany_call addr amounts]
      ∧ ((submissions (w_db w') = submissions (w_db w) ∧ ¬ ∃ x, res = Ok (Some x))
         ∨ ∃ tx', submissions (w_db w') = set_paid ids tx' (clock (w_db w)) <$> submissions (w_db w)).
Proof.
  unfold run, try_bind, mbind, M_bind, db, csd, zoom, mret, M_ret.
  unfold list_unpaid_published.
  match goal with |- context [select ?q (w_db w)] => destruct (select_outcome q (w_db w)) as (fs & Hd1 & Hrows) end.
  destruct (select _ (w_db w)) as [r1 d1]. cbn [fst snd] in Hd1, Hrows. subst d1.
  destruct r1 as [unpaid|e]; [|intros [= <- <-]; left; split_and!; [done|done|by intros [x ?]]].
  specialize (Hrows _ eq_refl).
  destruct unpaid as [|u0 us]; [intros [= <- <-]; left; split_and!; [done|done|by intros [x ?]]|].
  destruct (plan_payout mn pct (u0 :: us)) as [amounts ids] eqn:Hplan.
  destruct amounts as [|am ams]; [intros [= <- <-]; left; split_and!; [done|done|by intros [x ?]]|].
  intros Hrun. right. exists (u0 :: us), (am :: ams), ids. split; [exact Hrows|]. split; [done|]. split; [done|].
  unfold send_many, call in Hrun. cbn -[decode_response plan_payout mark_paid format_amounts] in Hrun.
  destruct (decode_response _ _ _) as [txid|e].
  - match type of Hrun with context [mark_paid ids txid ?d] => pose proof (mark_paid_outcome ids txid d) as Hmark;
      destruct (mark_paid ids txid d) as [[[]|e] d2] end.
    + injection Hrun as <- <-. split; [done|]. destruct Hmark as [[_ ?]|[tx' Hs]]; [done|]. right. by exists tx'.
    + injection Hrun as <- <-. split; [done|]. destruct Hmark as [[Hs _]|[tx' Hs]]; [left|right; by exists tx'].
      split; [exact Hs|by intros [x ?]].
  - injection Hrun as <- <-. split; [done|]. left. split; [done|by intros [x ?]].
Qed.

Lemma plan_ids_settled mn pct unpaid amounts ids r :
  plan_payout mn pct unpaid = (amounts, ids) →
  r ∈ ids ↔ settled mn (f64_sub f64_one (f64_div pct (f64_of_N 100))) unpaid r.
Proof.
  intros Hplan. destruct (plan_payout_spec _ _ _ _ _ Hplan) as (_ & _ & Hids). rewrite Hids. unfold settled.
  setoid_rewrite rewards_of_elem. split.
  - intros (w & Hp & s & Hs & <- & <- & Hr). eauto 10.
  - intros (u & Hu & <- & Hr & Hp). eauto 10.
Qed.

Lemma set_paid_id ids tx now s : s_id (set_paid ids tx now s) = s_id s ∧ s_request_id (set_paid ids tx now s) = s_request_id s.
Proof. unfold set_paid. by case_bool_decide. Qed.

Lemma set_paid_paid ids tx now s :
  s_paid (set_paid ids tx now s) = if bool_decide (s_request_id s ∈ ids) then true else s_paid s.
Proof. unfold set_paid. by case_bool_decide. Qed.

(** ** Properties *)



(** No request is paid twice by successive successful batches: after a run
    that reports success, no row that the next run could draw on belongs to a
    request the first one settled. *)
Theorem payout_no_double `{Csd, RowOrder} (addr : string) (mn pct : f64) (w w1 : World) (x : string * nat * f64)
    (Hrun : run addr mn pct w = (Ok (Some x), w1)) :
  ∃ unpaid, unpaid ≡ₚ filter (payable_row (w_db w)) (submissions (w_db w))
    ∧ (∃ r, settled mn (f64_sub f64_one (f64_div pct (f64_of_N 100))) unpaid r)
    ∧ ∀ s, s ∈ submissions (w_db w1) → payable_row (w_db w1) s →
        ¬ settled mn (f64_sub f64_one (f64_div pct (f64_of_N 100))) unpaid (s_request_id s).
Proof.
  destruct (run_outcome _ _ _ _ _ _ Hrun) as [(_ & _ & Hno)|(unpaid & amounts & ids & Hrows & Hplan & Hne & _ & Hmark)].
  { destruct Hno. by exists x. }
  pose proof (λ r, plan_ids_settled _ _ _ _ _ r Hplan) as Hset.
  destruct Hmark as [[_ []]|[tx' Hsub]]; [by exists x|].
  destruct (plan_payout_spec _ _ _ _ _ Hplan) as (_ & Ham & _).
  exists unpaid. split_and!; [done| |].
  - destruct amounts as [|[wal p] ams]; [done|]. destruct (Ham wal p) as [[Hp _] _]; [by left|].
    assert (∃ r, r ∈ (rewards_of wal unpaid).*2) as [r Hr].
    { unfold is_paid in Hp. destruct (rewards_of wal unpaid) as [|q rs]; [done|]. exists q.2. by left. }
    apply rewards_of_elem in Hr as (u & Hu & <- & <- & Hrew). eexists. by exists u.
  - intros s Hs (_ & Hunpaid & _) Hst. rewrite Hsub in Hs. apply list_elem_of_fmap in Hs as (s0 & -> & Hs).
    rewrite set_paid_paid in Hunpaid. destruct (set_paid_id ids tx' (clock (w_db w)) s0) as [_ Hr]. rewrite Hr in Hst.
    rewrite bool_decide_eq_true_2 in Hunpaid; [done|]. by apply Hset.
Qed.

Lemma payout_no_double_witness :
  let H := yes_csd in let H0 := table_order in
  let w1 := (run "pay" (f64_of_Z 1) f64_zero payout_world).2 in
  ∃ unpaid, unpaid ≡ₚ filter (payable_row (w_db payout_world)) (submissions (w_db payout_world))
    ∧ (∃ r, settled (f64_of_Z 1) (f64_sub f64_one (f64_div f64_zero (f64_of_N 100))) unpaid r)
    ∧ ∀ s, s ∈ submissions (w_db w1) → payable_row (w_db w1) s →
        ¬ settled (f64_of_Z 1) (f64_sub f64_one (f64_div f64_zero (f64_of_N 100))) unpaid (s_request_id s).
Proof.
  apply (payout_no_double (H:=yes_csd) (H0:=table_order) "pay" (f64_of_Z 1) f64_zero payout_world _
    ("tx", 2, f64_of_Z 4)).
  vm_compute. reflexivity.
Defined.
