(* ===== verification/OpoiEngine.v ===== *)
(** * The OPoI lifecycle engine ([src/opoi/engine.rs])

    Polls the daemon for requests, assigns them to miners, records the answers
    and drives each submission through commit, reveal and publish.  The state
    is the engine's own caches next to the shared [World]; tracing is left out.

    [do_commit] of an accepted answer runs as a detached task: the handler
    queues it in [tasks] and [run_task] runs it later.  The replies of one
    concurrent batch of commits are processed in the order they complete, which
    [Schedule] leaves open. *)

From S2P Require Export World AssignmentTracker StakePool Bytes.

Class Schedule := {
  completion : ∀ {A : Type}, list A → list A;
  completion_perm : ∀ {A : Type} (l : list A), completion l ≡ₚ l
}.

(** [f64]'s shortest round-trip printing: it only reaches the event log. *)
Class DisplayF64 := { display_f64 : f64 → string }.

Record PendingRequest := mkPendingRequest { pr_request : OpoiRequest; pr_prompt_hex : option string }.

Record PendingSnapshotEntry := mkPendingSnapshotEntry {
  ps_request_id : string;
  ps_model : string;
  ps_has_prompt : bool;
  ps_assigned_to : option string
}.

(** The arguments of a detached [do_commit]. *)
Record CommitTask := mkCommitTask {
  ct_submission_id : N;
  ct_request_id : string;
  ct_response_hash : string;
  ct_token_count : N
}.

Record OpoiEngine := mkOpoiEngine {
  pending : gmap string PendingRequest;
  assignments : gmap string Assignment;
  last_assigned : option string;
  pool_addresses : list string;
  stake_renew_blocks : N;
  tasks : list CommitTask
}.

Record Sys := mkSys { sy_world : World; sy_engine : OpoiEngine; sy_now : N }.

Definition world {A} (m : M World A) : M Sys A := zoom sy_world (λ x s, s <| sy_world := x |>) m.
Definition eng (f : OpoiEngine → OpoiEngine) : M Sys () := modify (λ s, s <| sy_engine := f (sy_engine s) |>).
Definition the {A} (f : OpoiEngine → A) : M Sys A := gets (λ s, f (sy_engine s)).

Definition new_engine (pool : StakePool) (renew_blocks : N) : OpoiEngine :=
  {| pending := ∅; assignments := ∅; last_assigned := None; pool_addresses := addresses pool;
     stake_renew_blocks := renew_blocks; tasks := [] |}.

(** [addr as i32] and [h as i32]: the low 32 bits, two's complement. *)
Definition as_i32 (n : N) : Z :=
  let x := wrap32 n in if (x <? 2 ^ 31)%N then Z.of_N x else (Z.of_N x - 2 ^ 32)%Z.
(** [x as u32] of an [i32]. *)
Definition i32_as_u32 (z : Z) : N := Z.to_N (z mod 2 ^ 32).

(** Running a computation of the engine symbolically. *)
Ltac run_sys := cbv beta iota zeta delta [mbind M_bind mret M_ret try_bind gets modify ignore zoom world db csd net the eng].

Section engine.
Context `{Csd, RowOrder, Crypto, MapIter, Schedule, DisplayF64}.

(** ** Stakes *)

Definition renew_one (address : string) : M World () :=
  r ← csd (renew_opoi_stake address);
  match r with
  | Ok txid => ignore (db (log_stake_event "RENEW" (Some txid) ("periodic renewal for " +:+ address)))
  | Err e => ignore (db (log_stake_event "RENEW_ERROR" None (address +:+ ": " +:+ error_to_string e)))
  end.

(** The turn of [ensure_stake] for an address other than the primary. *)
Fixpoint ensure_others (addrs : list string) : M World (result () AppError) :=
  match addrs with
  | [] => mret (Ok ())
  | addr :: rest =>
    stake ←? csd (get_opoi_stake addr);
    _ ← match stake with
        | Some st => if bool_decide (stake_status st = "SUSPENDED") then renew_one addr else mret ()
        | None => mret ()
        end;
    ensure_others rest
  end.

Definition ensure_stake (addrs : list string) (collateral_txid : string) (collateral_vout : N)
    (endpoint model_id : string) : M World (result () AppError) :=
  match addrs with
  | [] => mret (Err (Other "empty stake pool"))
  | primary :: others =>
    stake ←? csd (get_opoi_stake primary);
    match stake with
    | None =>
      if bool_decide (collateral_txid = "") then
        mret (Err (Other ("no OPoI stake found for primary address " +:+ primary
                          +:+ " and no OPOI_COLLATERAL_TXID configured to create one")))
      else
        res ←? csd (stake_opoi primary collateral_txid collateral_vout endpoint model_id);
        _ ← ignore (db (log_stake_event "STAKE" (Some (so_txid res)) ("initial stake for " +:+ primary +:+ ", amount=" +:+ display_f64 (so_amount res))));
        ensure_others others
    | Some st =>
      _ ← (if bool_decide (stake_status st = "SUSPENDED") then renew_one primary else mret ());
      ensure_others others
    end
  end.

(** Is a stake due, at chain height [height]? *)
Definition renewal_due (renew_blocks height : N) (st : OpoiStake) : bool :=
  let age := (height - default 0 (stake_last_renewal_height st))%N in
  bool_decide (stake_status st = "SUSPENDED") || (renew_blocks <=? age)%N.

Definition renew_tick (addrs : list string) (renew_blocks : N) : M World () :=
  h ← csd get_chain_height;
  match h with
  | Err _ => mret ()
  | Ok height =>
    for_each (λ addr,
      r ← csd (get_opoi_stake addr);
      match r with
      | Ok (Some st) => if renewal_due renew_blocks height st then renew_one addr else mret ()
      | Ok None | Err _ => mret ()
      end) addrs
  end.

(** ** Commit *)

Definition MAX_ROUNDS : nat := 5.

Definition commit_with (request_id response_hash : string) (token_count : N) (addr : string)
    : M World (string * result CommitResult AppError) :=
  res ← csd (submit_response_commit request_id response_hash addr token_count);
  mret (addr, res).

(** Persisting one attempt's outcome. *)
Definition record_attempt (submission_id : N) (p : string * result CommitResult AppError) : M World () :=
  match p.2 with
  | Ok r => ignore (db (upsert_commit_attempt_success submission_id p.1 (cr_txid r) (cr_nonce_hex r)
                          (as_i32 (cr_commit_window_closes_at_height r))))
  | Err e => ignore (db (upsert_commit_attempt_failure submission_id p.1 (error_to_string e)))
  end.

Definition first_success (results : list (string * result CommitResult AppError)) : option CommitResult :=
  find_map (λ p, match p.2 with Ok r => Some r | Err _ => None end) results.

(** Between rounds: renew whatever is SUSPENDED. *)
Definition reactivate (addr : string) : M World () :=
  st ← csd (get_opoi_stake addr);
  match st with
  | Ok (Some stake) =>
    if bool_decide (stake_status stake = "SUSPENDED") then
      r ← csd (renew_opoi_stake addr);
      match r with
      | Ok txid => ignore (db (log_stake_event "RENEW" (Some txid) ("commit retry for " +:+ addr)))
      | Err _ => mret ()
      end
    else mret ()
  | _ => mret ()
  end.

(** [rounds] rounds are left. *)
Fixpoint commit_rounds (rounds : nat) (addrs : list string) (submission_id : N) (request_id response_hash : string)
    (token_count : N) : M World () :=
  match rounds with
  | 0 => ignore (db (mark_failed submission_id "all stake-pool addresses failed to commit"))
  | S rounds_left =>
    started ← mapM (commit_with request_id response_hash token_count) addrs;
    let results := completion started in
    _ ← for_each (record_attempt submission_id) results;
    match first_success results with
    | Some r => ignore (db (mark_committed submission_id (cr_txid r) (cr_nonce_hex r)
                              (as_i32 (cr_commit_window_closes_at_height r))))
    | None =>
      _ ← match rounds_left with 0 => mret () | S _ => for_each reactivate addrs end;
      commit_rounds rounds_left addrs submission_id request_id response_hash token_count
    end
  end.

Definition do_commit (addrs : list string) (submission_id : N) (request_id response_hash : string) (token_count : N)
    : M World () :=
  commit_rounds MAX_ROUNDS addrs submission_id request_id response_hash token_count.

Definition recover_on_startup (addrs : list string) : M World (result () AppError) :=
  received ←? db list_received;
  _ ← for_each (λ sub, do_commit addrs (s_id sub) (s_request_id sub) (s_response_hash sub)
                         (i32_as_u32 (s_token_count sub))) (completion received);
  _ ←? db list_committed;
  _ ←? db list_revealed_unpublished;
  mret (Ok ()).

(** ** Reveal and publish *)

Fixpoint try_reveal_any (candidates : list RevealCandidate) : M World () :=
  match candidates with
  | [] => mret ()
  | c :: rest =>
    r ← csd (submit_response_reveal (c_request_id c) (c_response_hash c) (c_opoi_address c)
               (i32_as_u32 (c_token_count c)) (c_nonce_hex c));
    match r with
    | Ok txid =>
      _ ← ignore (db (mark_attempt_revealed (c_attempt_id c) txid));
      ignore (db (mark_revealed (c_submission_id c) txid))
    | Err _ => try_reveal_any rest
    end
  end.

(** [req.payment + token_count as f64 * req.fee_per_token] *)
Definition reward_of (token_count : Z) (req : OpoiRequest) : f64 :=
  f64_add (rq_payment req) (f64_mul (f64_of_Z token_count) (rq_fee_per_token req)).

Definition do_publish (sub : Submission) : M World () :=
  match s_response_hex sub with
  | None => mret ()
  | Some response_hex =>
    r ← csd (submit_content (s_request_id sub) "RESPONSE" response_hex);
    match r with
    | Ok () =>
      q ← csd (get_request (s_request_id sub));
      let reward := match q with Ok req => reward_of (s_token_count sub) req | Err _ => f64_zero end in
      ignore (db (mark_published (s_id sub) reward))
    | Err _ => mret ()
    end
  end.

(** [by_submission.entry(id).or_default().push(c)] *)
Definition group_candidates (l : list RevealCandidate) : gmap N (list RevealCandidate) :=
  fold_left (λ m c, <[c_submission_id c := default [] (m !! c_submission_id c) ++ [c]]> m) l ∅.

Definition poll_reveal_tick : M World (result () AppError) :=
  height ←? csd get_chain_height;
  candidates ←? db (list_reveal_ready_candidates (Z.of_N height));
  let by_submission := group_candidates candidates in
  _ ← for_each (λ id, try_reveal_any (default [] (by_submission !! id))) (iter_keys by_submission);
  subs ←? db list_revealed_unpublished;
  _ ← for_each do_publish subs;
  mret (Ok ()).

(** ** Intake and assignment *)

Definition receive_prompt (request_id prompt_hex : string) (model : option string) (max_tokens : option N)
    : M Sys (result bool AppError) :=
  p ← the pending;
  match p !! request_id with
  | Some e =>
    _ ← eng (λ s, s <| pending := <[request_id := e <| pr_prompt_hex := Some prompt_hex |>]> (pending s) |>);
    mret (Ok true)
  | None =>
    r ← world (csd (get_request request_id));
    match r, model, max_tokens with
    | Ok request, _, _ =>
      _ ← eng (λ s, s <| pending := <[request_id := mkPendingRequest request (Some prompt_hex)]> (pending s) |>);
      mret (Ok true)
    | Err _, Some model, Some max_tokens =>
      let request := mkOpoiRequest request_id model "" max_tokens f64_zero f64_zero None None in
      _ ← eng (λ s, s <| pending := <[request_id := mkPendingRequest request (Some prompt_hex)]> (pending s) |>);
      mret (Ok true)
    | Err _, _, _ => mret (Ok false)
    end
  end.

Definition pending_snapshot (s : OpoiEngine) : list PendingSnapshotEntry :=
  omap (λ id,
    e ← pending s !! id;
    Some {| ps_request_id := id; ps_model := rq_model (pr_request e);
            ps_has_prompt := bool_decide (is_Some (pr_prompt_hex e));
            ps_assigned_to := assignee id (assignments s) |}) (iter_keys (pending s)).

(** The first loop: cache what the daemon reports and nobody answered yet. *)
Fixpoint cache_requests (reqs : list OpoiRequest) : M Sys (result () AppError) :=
  match reqs with
  | [] => mret (Ok ())
  | req :: rest =>
    p ← the pending;
    match p !! rq_request_id req with
    | Some _ => cache_requests rest
    | None =>
      found ←? world (db (find_active_by_request_id (rq_request_id req)));
      match found with
      | Some _ => cache_requests rest
      | None =>
        _ ← eng (λ s, s <| pending := match pending s !! rq_request_id req with
                                      | Some _ => pending s
                                      | None => <[rq_request_id req := mkPendingRequest req None]> (pending s)
                                      end |>);
        cache_requests rest
      end
    end
  end.

(** Has a prompt and no assignee. *)
Definition is_candidate (s : OpoiEngine) (id : string) : bool :=
  match pending s !! id with
  | Some e => bool_decide (is_Some (pr_prompt_hex e)) && bool_decide (assignee id (assignments s) = None)
  | None => false
  end.

(** [s.to_lowercase().contains("not found")]: no character outside ASCII
    lower-cases to one of these letters. *)
Definition says_not_found (e : AppError) : bool :=
  match String.index 0 "not found" (to_ascii_lowercase (error_to_string e)) with
  | Some _ => true
  | None => false
  end.

(** May this model's requests be assigned whole? *)
Definition whole_model (r : result ModelManifest AppError) : bool :=
  match r with
  | Ok m => negb (bool_decide (mm_status m = "ACTIVE"))
  | Err e => says_not_found e
  end.

(** Claim the request for [wallet] and send the assignment, taking the claim
    back when the miner turns out to be gone. *)
Definition assign_to (request_id wallet : string) (a : OpoiAssign) : M Sys () :=
  now ← gets sy_now;
  t ← the assignments;
  let '(claimed, t') := try_assign request_id wallet now t in
  _ ← eng (λ s, s <| assignments := t' |>);
  if claimed then
    ok ← world (send_to wallet (MAssign a));
    if (ok : bool) then mret () else eng (λ s, s <| assignments := AssignmentTracker.remove request_id (assignments s) |>)
  else mret ().

(** The assignment loop; [break] stops it. *)
Fixpoint assign_candidates (candidates : list string) : M Sys () :=
  match candidates with
  | [] => mret ()
  | request_id :: rest =>
    p ← the pending;
    match p !! request_id with
    | Some {| pr_request := req; pr_prompt_hex := Some prompt_hex |} =>
      manifest ← world (csd (get_model_manifest (rq_model req)));
      if whole_model manifest then
        last ← the last_assigned;
        registry ← gets (λ s, w_reg (sy_world s));
        match pick_next last registry with
        | None => mret ()
        | Some wallet =>
          _ ← eng (λ s, s <| last_assigned := Some wallet |>);
          _ ← assign_to request_id wallet
                {| oa_request_id := request_id; oa_model := rq_model req; oa_prompt_hex := prompt_hex;
                   oa_max_tokens := rq_max_tokens req; oa_task_type := rq_task_type req;
                   oa_task_class := rq_task_class req |};
          assign_candidates rest
        end
      else assign_candidates rest
    | _ => assign_candidates rest
    end
  end.

Definition poll_and_assign_tick : M Sys (result () AppError) :=
  reqs ←? world (csd list_pending_requests);
  _ ←? cache_requests reqs;
  s ← gets sy_engine;
  let candidates := filter (λ id, is_candidate s id = true) (iter_keys (pending s)) in
  _ ← assign_candidates candidates;
  mret (Ok ()).

(** ** Answers *)

Definition handle_submit_result (wallet : string) (params : OpoiSubmitResultParams) : M Sys (result N AppError) :=
  t ← the assignments;
  match assignee (sr_request_id params) t with
  | None => mret (Err UnknownRequest)
  | Some assigned =>
    if negb (bool_decide (assigned = wallet)) then mret (Err NotAssignedToCaller)
    else
      found ←? world (db (find_active_by_request_id (sr_request_id params)));
      match found with
      | Some _ => mret (Err (Rejected "request_id already has an active submission"))
      | None =>
        match hex_decode (sr_response_hex params) with
        | None => mret (Err (Rejected "response_hex is not valid hex"))
        | Some raw =>
          if negb (eq_ignore_ascii_case (hex_encode (sha256 raw)) (sr_response_hash params))
          then mret (Err (Rejected "response_hash does not match sha256(response_hex)"))
          else
            p ← the pending;
            let entry := p !! sr_request_id params in
            id ←? world (db (create_submission wallet (sr_request_id params)
                               ((λ e, rq_model (pr_request e)) <$> entry)
                               ((λ e, rq_prompt_hash (pr_request e)) <$> entry)
                               None None (sr_response_hash params) (sr_response_hex params)
                               (as_i32 (sr_token_count params))));
            _ ← eng (λ s, s <| assignments := AssignmentTracker.remove (sr_request_id params) (assignments s) |>
                            <| pending := delete (sr_request_id params) (pending s) |>
                            <| tasks := tasks s ++ [mkCommitTask id (sr_request_id params) (sr_response_hash params)
                                                      (sr_token_count params)] |>);
            mret (Ok id)
        end
      end
  end.

Definition on_disconnect (wallet : string) : M Sys () :=
  eng (λ s, s <| assignments := release_for_wallet wallet (assignments s) |>).

(** A detached commit starts. *)
Definition run_task (t : CommitTask) : M Sys () :=
  addrs ← the pool_addresses;
  world (do_commit addrs (ct_submission_id t) (ct_request_id t) (ct_response_hash t) (ct_token_count t)).
End engine.

(** ** What a poll tick may do *)

Definition req_id (x : chan * down_msg) : string := match x.2 with MAssign a => oa_request_id a | _ => "" end.

(** A line sent between [s] and [s'] is a legitimate assignment: it goes to the
    channel of a connected wallet that is not banned, for a request that has
    this prompt, had no assignee and is now assigned to that wallet, after the
    daemon answered in this tick that the model is not shard-routed. *)
Definition assigned_msg `{Csd} (s s' : Sys) (x : chan * down_msg) : Prop :=
  ∃ a wallet k,
    x.2 = MAssign a
    ∧ MinerRegistry.get wallet (w_reg (sy_world s)) = Some x.1
    ∧ (wallet ∉ banned (w_reg (sy_world s)))
    ∧ assignee (oa_request_id a) (assignments (sy_engine s)) = None
    ∧ assignee (oa_request_id a) (assignments (sy_engine s')) = Some wallet
    ∧ (∃ e, pending (sy_engine s') !! oa_request_id a = Some e ∧ pr_prompt_hex e = Some (oa_prompt_hex a)
         ∧ rq_model (pr_request e) = oa_model a)
    ∧ (length (w_csd (sy_world s)) ≤ k)
    ∧ w_csd (sy_world s') !! k = Some ("getmodelmanifest", Array [Str (oa_model a)])
    ∧ match decode_response "getmodelmanifest" parse_manifest
              (csd_post k "getmodelmanifest" (Array [Str (oa_model a)])) with
      | Ok m => mm_status m ≠ "ACTIVE"
      | Err e => says_not_found e = true
      end.

(** The assignment loop's effect: only such lines, at most one per request, and
    no claim is lost. *)
Record assigns `{Csd} (s s' : Sys) : Prop := {
  as_sent : ∃ new, sent (w_net (sy_world s')) = sent (w_net (sy_world s)) ++ new
              ∧ Forall (assigned_msg s s') new ∧ NoDup (req_id <$> new);
  as_reg : w_reg (sy_world s') = w_reg (sy_world s);
  as_pending : pending (sy_engine s') = pending (sy_engine s);
  as_csd : w_csd (sy_world s) `prefix_of` w_csd (sy_world s');
  as_claims : ∀ r w, assignee r (assignments (sy_engine s)) = Some w → assignee r (assignments (sy_engine s')) = Some w
}.

(** ** What a commit should do *)

Definition commit_params (request_id response_hash : string) (token_count : N) (addr : string) : Value :=
  Array [Str request_id; Str response_hash; Str addr; Str ""; u token_count].
Definition commit_call (request_id response_hash : string) (token_count : N) (addr : string) : csd_call :=
  ("submitopoiresponsecommit", commit_params request_id response_hash token_count addr).
Definition is_commit_call (c : csd_call) : Prop := c.1 = "submitopoiresponsecommit".
#[export] Instance is_commit_call_dec c : Decision (is_commit_call c) := decide (c.1 = _).

(** What the daemon answered to the commit that was call number [k]. *)
Definition commit_answer `{Csd} (request_id response_hash : string) (token_count : N) (k : nat) (addr : string)
    : result CommitResult AppError :=
  decode_response "submitopoiresponsecommit" parse_commit
    (csd_post k "submitopoiresponsecommit" (commit_params request_id response_hash token_count addr)).

(** The submission [id] after [mark_committed] with [r], or [mark_failed]. *)
Definition committed_row (id : N) (r : CommitResult) (now : N) (s : Submission) : Submission :=
  if bool_decide (s_id s = id)
  then s <| s_status := Committed |> <| s_commit_txid := Some (cr_txid r) |>
         <| s_commit_nonce_hex := Some (cr_nonce_hex r) |>
         <| s_commit_window_closes_at_height := Some (as_i32 (cr_commit_window_closes_at_height r)) |>
         <| s_updated_at := now |>
  else s.
Definition failed_row (id : N) (now : N) (s : Submission) : Submission :=
  if bool_decide (s_id s = id)
  then s <| s_status := Failed |> <| s_fail_reason := Some "all stake-pool addresses failed to commit" |>
         <| s_updated_at := now |>
  else s.

(** A step between commits: the submissions stay, the server stays up, and the
    calls made are not commits. *)
Record between (w w' : World) : Prop := {
  bt_rows : submissions (w_db w') = submissions (w_db w);
  bt_clock : clock (w_db w') = clock (w_db w);
  bt_up : faults (w_db w) = [] → faults (w_db w') = [];
  bt_calls : ∃ l, w_csd w' = w_csd w ++ l ∧ Forall (λ c, ¬ is_commit_call c) l
}.

(** The two ways [rounds] rounds of commits can end, the daemon having been
    called [n] times before: some address's commit was accepted, or every
    address was asked in every round, refused each time, and the submission is
    FAILED. *)
Definition commit_settled `{Csd} (rounds : nat) (addrs : list string) (id : N) (rid h : string) (tc : N) (w w' : World) : Prop :=
  (∃ k addr r, length (w_csd w) ≤ k ∧ addr ∈ addrs ∧ w_csd w' !! k = Some (commit_call rid h tc addr)
     ∧ commit_answer rid h tc k addr = Ok r
     ∧ (varchar 128 (cr_txid r) = Some (cr_txid r) → varchar 128 (cr_nonce_hex r) = Some (cr_nonce_hex r) →
        submissions (w_db w') = committed_row id r (clock (w_db w)) <$> submissions (w_db w)))
  ∨ (filter is_commit_call (drop (length (w_csd w)) (w_csd w'))
       = mjoin (replicate rounds (commit_call rid h tc <$> addrs))
     ∧ (∀ k addr, length (w_csd w) ≤ k → w_csd w' !! k = Some (commit_call rid h tc addr) →
          ∃ e, commit_answer rid h tc k addr = Err e)
     ∧ submissions (w_db w') = failed_row id (clock (w_db w)) <$> submissions (w_db w)).

(** ** What a renewal tick should do *)

Definition stake_call (addr : string) : csd_call := ("getopoistake", Array [Str addr]).
Definition renew_call (addr : string) : csd_call := ("renewopoistake", Array [Str addr]).
Definition height_answer `{Csd} (k : nat) : result N AppError :=
  decode_response "getinfo" parse_blocks (csd_post k "getinfo" (Array [])).
Definition stake_answer `{Csd} (k : nat) (addr : string) : result OpoiStake AppError :=
  decode_response "getopoistake" parse_stake (csd_post k "getopoistake" (Array [Str addr])).

(** The calls from number [k] on: each address is looked up once, and renewed
    right after exactly when the answer says it is due. *)
Fixpoint renewal_trace `{Csd} (renew_blocks height : N) (addrs : list string) (k : nat) : list csd_call :=
  match addrs with
  | [] => []
  | addr :: rest =>
    let due := match stake_answer k addr with Ok st => renewal_due renew_blocks height st | Err _ => false end in
    stake_call addr :: (if due then renew_call addr :: renewal_trace renew_blocks height rest (S (S k))
                        else renewal_trace renew_blocks height rest (S k))
  end.

(** ** Sample environments, for the witnesses *)

Definition in_order : Schedule := {| completion := λ A l, l; completion_perm := λ A l, reflexivity l |}.

(** A daemon that refuses everything, and a world with one RECEIVED answer. *)
Definition no_csd : Csd := {|
  csd_post := λ _ _ _, Body (Object [("error", Str "refused")]);
  print_json := λ _, "refused"; decode_error := λ _, "" |}.
Definition received_world : World := {|
  w_csd := []; w_db := (create_submission "w" "r1" None None None None "h" "00" 1 (empty_db [])).2;
  w_reg := new_registry; w_net := mkNet ∅ [] |}.

(** ** Lemmas *)

(** What an insert leaves behind, whether or not its answer arrived. *)
Lemma create_outcome w r m p h x tc d :
  let '(res, d') := create_submission w r m p None None h x tc d in
  (∀ id, res = Ok id → id = next_id d ∧ ∃ row, submissions d' = submissions d ++ [row]
     ∧ unique_active (submissions d ++ [row]) = true
     ∧ s_id row = id ∧ text w = Some (s_miner_wallet row) ∧ varchar 64 r = Some (s_request_id row)
     ∧ varchar 64 h = Some (s_response_hash row) ∧ s_response_hex row = Some x ∧ s_token_count row = tc
     ∧ s_status row = Received ∧ s_paid row = false)
  ∧ (∀ e, res = Err e → submissions d' = submissions d ∨ ∃ row, submissions d' = submissions d ++ [row]
     ∧ text w = Some (s_miner_wallet row) ∧ varchar 64 r = Some (s_request_id row) ∧ s_status row = Received).
Proof.
  unfold create_submission. match goal with |- let '(_, _) := exec ?o d in _ => destruct (exec_outcome o d) as (fs & Hst & Hok); set (op := o) in * end.
  destruct (exec op d) as [res d']. cbn [fst snd] in *.
  assert (∀ id, op (d <| faults := fs |>) = Some (id, d') → id = next_id d ∧ ∃ row, submissions d' = submissions d ++ [row]
     ∧ unique_active (submissions d ++ [row]) = true
     ∧ s_id row = id ∧ text w = Some (s_miner_wallet row) ∧ varchar 64 r = Some (s_request_id row)
     ∧ varchar 64 h = Some (s_response_hash row) ∧ s_response_hex row = Some x ∧ s_token_count row = tc
     ∧ s_status row = Received ∧ s_paid row = false) as Hop.
  { intros id Hop. unfold op in Hop. strip_checks Hop. destruct x6 as [[] d2].
    match goal with H : store_submissions _ _ = _ |- _ => apply store_Some in H as [Hu [= ->]] end.
    injection Hop as <- <-. split; [done|]. 
    match type of Hu with unique_active (_ ++ [?row]) = _ => exists row end.
    split_and!; try done. 
    unfold text in *. by destruct (forall_chars _ x); simplify_eq. }
  split.
  - intros id ->. by apply Hop, Hok.
  - intros e ->. destruct Hst as [->|[id Hid]]; [by left|right].
    destruct (Hop _ Hid) as (_ & row & Hrow). exists row. tauto.
Qed.

Lemma find_active_outcome r d :
  let '(res, d') := find_active_by_request_id r d in
  submissions d' = submissions d ∧ attempts d' = attempts d ∧ next_id d' = next_id d
  ∧ ∀ o, res = Ok o → o = find_first (λ s, bool_decide (s_request_id s = r) && active s) (submissions d).
Proof.
  unfold find_active_by_request_id.
  match goal with |- let '(_, _) := exec ?o d in _ => destruct (exec_outcome o d) as (fs & Hst & Hok); set (op := o) in * end.
  destruct (exec op d) as [res d']. cbn [fst snd] in *.
  assert (∀ a, op (d <| faults := fs |>) = Some (a, d') → d' = d <| faults := fs |>
    ∧ a = find_first (λ s, bool_decide (s_request_id s = r) && active s) (submissions d)) as Hop.
  { intros a Ha. unfold op in Ha. strip_checks Ha. injection Ha as <- <-. done. }
  assert (d' = d <| faults := fs |>) as -> by (destruct Hst as [->|[a Ha]]; [done|by destruct (Hop _ Ha)]).
  split_and!; [done..|]. intros o ->. destruct (Hop _ (Hok _ eq_refl)). done.
Qed.

Lemma assigned_msg_mono `{Csd} s0 s1 s2 s3 x :
  assigns s0 s1 → assigns s2 s3 → assigned_msg s1 s2 x → assigned_msg s0 s3 x.
Proof.
  intros [_ Hr1 Hp1 [l1 Hc1] Ha1] [_ Hr2 Hp2 [l2 Hc2] Ha2] (a & w & k & Hm & Hg & Hb & Hn & Hs & Hpe & Hk & Hl & Hwm).
  exists a, w, k. rewrite Hr1 in Hg, Hb. split_and!; try done.
  - destruct (assignee (oa_request_id a) (assignments (sy_engine s0))) eqn:E; [|done]. apply Ha1 in E. congruence.
  - by apply Ha2.
  - by rewrite Hp2.
  - rewrite Hc1, length_app in Hk. lia.
  - rewrite Hc2. by apply lookup_app_l_Some.
Qed.

#[export] Instance assigns_preorder `{Csd} : PreOrder assigns.
Proof.
  split.
  - intros s. split; try done. exists []. rewrite app_nil_r. by repeat constructor.
  - intros s1 s2 s3 H12 H23.
    assert (assigns s1 s1) as H11 by (split; try done; exists []; rewrite app_nil_r; by repeat constructor).
    assert (assigns s3 s3) as H33 by (split; try done; exists []; rewrite app_nil_r; by repeat constructor).
    pose proof (λ x, assigned_msg_mono s1 s1 s2 s3 x H11 H23) as Hm1.
    pose proof (λ x, assigned_msg_mono s1 s2 s3 s3 x H12 H33) as Hm2.
    destruct H12 as [(n1 & Hs1 & Hf1 & Hd1) Hr1 Hp1 Hc1 Ha1], H23 as [(n2 & Hs2 & Hf2 & Hd2) Hr2 Hp2 Hc2 Ha2].
    split; [|congruence|congruence|by etrans|auto].
    exists (n1 ++ n2). split_and!; [by rewrite Hs2, Hs1, app_assoc| |].
    + apply Forall_app. split; (eapply Forall_impl; [eassumption|auto]).
    + rewrite fmap_app. apply NoDup_app. split_and!; [done| |done].
      intros r (x & -> & Hx)%list_elem_of_fmap (y & Heq & Hy)%list_elem_of_fmap.
      rewrite Forall_forall in Hf1, Hf2. destruct (Hf1 _ Hx) as (a & w & k & Hxa & _ & _ & _ & Has & _).
      destruct (Hf2 _ Hy) as (b & w' & k' & Hyb & _ & _ & Hno & _).
      unfold req_id in Heq. rewrite Hxa, Hyb in Heq. congruence.
Qed.

(** A state that differs only in what the loop does not send. *)
Lemma assigns_quiet `{Csd} s s' :
  w_net (sy_world s') = w_net (sy_world s) → w_reg (sy_world s') = w_reg (sy_world s) →
  pending (sy_engine s') = pending (sy_engine s) → w_csd (sy_world s) `prefix_of` w_csd (sy_world s') →
  assignments (sy_engine s') = assignments (sy_engine s) → assigns s s'.
Proof.
  intros Hn Hr Hp Hc Ha. split; [|done..|by rewrite Ha].
  exists []. rewrite Hn, app_nil_r. by repeat constructor.
Qed.

Lemma send_to_outcome wallet m w :
  let '(ok, w') := send_to wallet m w in
  w_csd w' = w_csd w ∧ w_reg w' = w_reg w ∧ w_db w' = w_db w
  ∧ if ok then ∃ tx, MinerRegistry.get wallet (w_reg w) = Some tx ∧ sent (w_net w') = sent (w_net w) ++ [(tx, m)]
    else w_net w' = w_net w.
Proof.
  unfold send_to. run_sys. destruct (MinerRegistry.get wallet (w_reg w)) as [tx|] eqn:Hg; [|done].
  unfold net_send. case_bool_decide; split_and!; try done. exists tx. done.
Qed.

Lemma whole_model_spec r :
  whole_model r = true ↔ match r with Ok m => mm_status m ≠ "ACTIVE" | Err e => says_not_found e = true end.
Proof. destruct r as [m|e]; simpl; [|done]. by rewrite negb_true_iff, bool_decide_eq_false. Qed.

(** Claiming and sending, once the daemon cleared the model. *)
Lemma assign_to_assigns `{Csd} request_id wallet req prompt k s :
  (wallet ∉ banned (w_reg (sy_world s))) →
  pending (sy_engine s) !! request_id = Some (mkPendingRequest req (Some prompt)) →
  w_csd (sy_world s) !! k = Some ("getmodelmanifest", Array [Str (rq_model req)]) →
  whole_model (decode_response "getmodelmanifest" parse_manifest
                 (csd_post k "getmodelmanifest" (Array [Str (rq_model req)]))) = true →
  ∀ s0, assigns s0 s → length (w_csd (sy_world s0)) ≤ k →
  assigns s0 (assign_to request_id wallet
    {| oa_request_id := request_id; oa_model := rq_model req; oa_prompt_hex := prompt;
       oa_max_tokens := rq_max_tokens req; oa_task_type := rq_task_type req; oa_task_class := rq_task_class req |} s).2.
Proof.
  intros Hb Hp Hk Hwm s0 H0 Hlen. set (a := mkOpoiAssign _ _ _ _ _ _).
  unfold assign_to. run_sys. unfold try_assign.
  destruct (assignments (sy_engine s) !! request_id) as [old|] eqn:Hold; [etrans; [exact H0|by apply assigns_quiet]|].
  set (t' := <[request_id := _]> _).
  pose proof (send_to_outcome wallet (MAssign a) (sy_world s)) as Hsend.
  change (sy_world (s <| sy_engine := (sy_engine s) <| assignments := t' |> |>)) with (sy_world s).
  destruct (send_to wallet (MAssign a) (sy_world s)) as [ok w'] eqn:Ew. destruct Hsend as (Hc & Hr & Hd & Hs).
  destruct ok; cbv iota.
  - destruct Hs as (tx & Htx & Hs). destruct H0 as [(n0 & Hs0 & Hf0 & Hd0) Hr0 Hp0 Hc0 Ha0].
    assert (∀ r w, assignee r (assignments (sy_engine s)) = Some w → assignee r t' = Some w) as Hgrow.
    { intros r w Hr'. unfold assignee, t' in *. rewrite lookup_insert_ne; [done|]. intros ->. by rewrite Hold in Hr'. }
    assert (assignee request_id (assignments (sy_engine s)) = None) as Hfree by (unfold assignee; by rewrite Hold).
    assert (assignee request_id t' = Some wallet) as Hmine by (unfold assignee, t'; by rewrite lookup_insert_eq).
    split.
    + exists (n0 ++ [(tx, MAssign a)]). split_and!.
      * change (sent (w_net w') = sent (w_net (sy_world s0)) ++ n0 ++ [(tx, MAssign a)]). by rewrite Hs, Hs0, app_assoc.
      * apply Forall_app. split.
        -- eapply Forall_impl; [exact Hf0|]. intros x (b & wb & kb & H1 & H2 & H3 & H4 & H5 & H6 & H7 & H8 & H9).
           exists b, wb, kb. split_and!; try done; [by apply Hgrow|]. change (w_csd w' !! kb = Some ("getmodelmanifest", Array [Str (oa_model b)])). by rewrite Hc.
        -- constructor; [|constructor]. exists a, wallet, k. split_and!; try done.
           ++ rewrite <-Hr0. exact Htx.
           ++ by rewrite <-Hr0.
           ++ destruct (assignee (oa_request_id a) (assignments (sy_engine s0))) eqn:E; [|done].
              apply Ha0 in E. simpl in E. congruence.
           ++ exists (mkPendingRequest req (Some prompt)). done.
           ++ change (w_csd w' !! k = Some ("getmodelmanifest", Array [Str (rq_model req)])). by rewrite Hc.
           ++ by apply whole_model_spec in Hwm.
      * rewrite fmap_app. apply NoDup_app. split_and!; [done| |apply NoDup_singleton].
        intros r (x & -> & Hx)%list_elem_of_fmap Heq%list_elem_of_singleton.
        rewrite Forall_forall in Hf0. destruct (Hf0 _ Hx) as (b & wb & kb & H1 & _ & _ & _ & H5 & _).
        unfold req_id in Heq. rewrite H1 in Heq. simpl in Heq. rewrite Heq in H5. congruence.
    + change (w_reg w' = w_reg (sy_world s0)). congruence.
    + exact Hp0.
    + change (w_csd (sy_world s0) `prefix_of` w_csd w'). by rewrite Hc.
    + intros r w0 Hw0. apply Hgrow, Ha0, Hw0.
  - etrans; [exact H0|]. apply assigns_quiet; try done.
    + change (w_csd (sy_world s) `prefix_of` w_csd w'). by rewrite Hc.
    + change (AssignmentTracker.remove request_id t' = assignments (sy_engine s)).
      unfold AssignmentTracker.remove, t'. by rewrite delete_insert_id.
Qed.

Lemma assign_candidates_assigns `{Csd} cs : ∀ s, assigns s (assign_candidates cs s).2.
Proof.
  induction cs as [|r cs IH]; intros s; [reflexivity|]. cbn [assign_candidates]. run_sys.
  destruct (pending (sy_engine s) !! r) as [[req [prompt|]]|] eqn:Hp; [|apply IH|apply IH].
  unfold get_model_manifest, call.
  set (params := Array [Str (rq_model req)]).
  set (s1 := s <| sy_world := (sy_world s) <| w_csd := w_csd (sy_world s) ++ [("getmodelmanifest", params)] |> |>).
  fold s1.   assert (assigns s s1) as H1 by (apply assigns_quiet; try done; by eexists).
  destruct (whole_model _) eqn:Hwm; run_sys; fold s1; [|etrans; [exact H1|apply IH]].
  match goal with |- context [pick_next ?l ?g] =>
    change (pick_next l g) with (pick_next (last_assigned (sy_engine s)) (w_reg (sy_world s))) end.
  destruct (pick_next (last_assigned (sy_engine s)) (w_reg (sy_world s))) as [wallet|] eqn:Hpick; run_sys; [|exact H1].
  set (s2 := s1 <| sy_engine := (sy_engine s1) <| last_assigned := Some wallet |> |>).
  assert (assigns s s2) as H2 by (etrans; [exact H1|by apply assigns_quiet]).
  pose proof (assign_to_assigns r wallet req prompt (length (w_csd (sy_world s))) s2) as Hstep.
  match goal with |- context [assign_to r wallet ?a ?st] => change (assign_to r wallet a st) with (assign_to r wallet a s2); destruct (assign_to r wallet a s2) end.
  etrans; [|apply IH]. apply Hstep; try done.
  - rewrite pick_next_eq in Hpick. apply find_first_Some in Hpick as [_ Hb].
    by apply negb_true_iff, bool_decide_eq_false in Hb.
  - change ((w_csd (sy_world s) ++ [("getmodelmanifest", params)]) !! length (w_csd (sy_world s)) = Some ("getmodelmanifest", params)).
    by apply list_lookup_middle.
Qed.

(** Nothing sent, no claim touched. *)
Record quiet (s s' : Sys) : Prop := {
  q_net : w_net (sy_world s') = w_net (sy_world s);
  q_reg : w_reg (sy_world s') = w_reg (sy_world s);
  q_csd : w_csd (sy_world s) `prefix_of` w_csd (sy_world s');
  q_claims : assignments (sy_engine s') = assignments (sy_engine s)
}.

#[export] Instance quiet_preorder : PreOrder quiet.
Proof.
  split; [done|]. intros s1 s2 s3 [H1 H2 H3 H4] [H5 H6 H7 H8]. split; [congruence|congruence|by etrans|congruence].
Qed.

Lemma cache_requests_quiet reqs : steps quiet (cache_requests reqs).
Proof.
  induction reqs as [|req reqs IH]; cbn [cache_requests]; [apply (steps_ret _)|].
  apply (steps_bind _); [apply (steps_gets _)|]. intros p. destruct (p !! rq_request_id req); [done|].
  apply (steps_try _).
  - intros s. unfold world, db, zoom. cbv beta zeta.
    by destruct (find_active_by_request_id _ _).
  - intros [found|]; [done|]. apply (steps_bind _); [|done]. intros s. done.
Qed.

Lemma assigned_msg_quiet `{Csd} s0 s1 s2 x : quiet s0 s1 → assigned_msg s1 s2 x → assigned_msg s0 s2 x.
Proof.
  intros [Hn Hr [l Hc] Ha] (a & w & k & H1 & H2 & H3 & H4 & H5 & H6 & H7 & H8 & H9). exists a, w, k.
  rewrite Hr in H2, H3. rewrite Ha in H4. rewrite Hc, length_app in H7. split_and!; try done. lia.
Qed.

#[export] Instance between_preorder : PreOrder between.
Proof.
  split.
  - intros w. split; try done. exists []. by rewrite app_nil_r.
  - intros w1 w2 w3 [H1 H2 H3 (l1 & H4 & H5)] [H6 H7 H8 (l2 & H9 & H10)]. split; [congruence|congruence|auto|].
    exists (l1 ++ l2). rewrite H9, H4, app_assoc. split; [done|]. by apply Forall_app.
Qed.

Lemma exec_up {A} (op : Database → option (A * Database)) d :
  (∀ d a d', op d = Some (a, d') → faults d' = faults d) → faults d = [] → faults (exec op d).2 = [].
Proof. intros Hop Hup. rewrite exec_no_faults by done. destruct (op d) as [[a d']|] eqn:E; [|done]. transitivity (faults d); [exact (Hop _ _ _ E)|done]. Qed.

Lemma between_db {A} (op : Database → option (A * Database)) :
  (∀ d a d', op d = Some (a, d') → submissions d' = submissions d ∧ clock d' = clock d ∧ faults d' = faults d) →
  steps between (db (exec op)).
Proof.
  intros Hop. apply steps_zoom. intros w.
  assert (submissions (exec op (w_db w)).2 = submissions (w_db w) ∧ clock (exec op (w_db w)).2 = clock (w_db w)) as [H1 H2].
  { destruct (exec_outcome op (w_db w)) as (fs & [->|[a Ha]] & _); [done|].
    by destruct (Hop _ _ _ Ha) as (H1 & H2 & _). }
  split; [exact H1|exact H2| |exists []; by rewrite app_nil_r].
  intros Hup. apply (exec_up op); [|done]. intros d a d' Ha. by destruct (Hop _ _ _ Ha) as (_ & _ & ->).
Qed.

Lemma between_csd `{Csd} {T} method params (parse : Value → option T) :
  method ≠ "submitopoiresponsecommit" → steps between (csd (call method params parse)).
Proof.
  intros Hm. apply steps_zoom. intros w. split; try done.
  exists [(method, params)]. split; [done|]. by repeat constructor.
Qed.

Lemma upsert_same sid addr new upd d a d' :
  upsert_attempt sid addr new upd d = Some (a, d') → submissions d' = submissions d ∧ clock d' = clock d ∧ faults d' = faults d.
Proof. unfold upsert_attempt. case_bool_decide; [|done]. destruct (existsb _ _); by intros [= <- <-]. Qed.

Lemma between_attempt id p : steps between (record_attempt id p).
Proof.
  unfold record_attempt. destruct p.2 as [r|e]; apply (steps_ignore _); apply between_db; intros d a d' Hop;
    strip_checks Hop; by apply upsert_same in Hop.
Qed.

Lemma between_log e t x : steps between (ignore (db (log_stake_event e t x))).
Proof.
  apply (steps_ignore _), between_db. intros d a d' Hop. strip_checks Hop. by injection Hop as <- <-.
Qed.

Lemma between_reactivate `{Csd} addr : steps between (reactivate addr).
Proof.
  unfold reactivate. apply (steps_bind _).
  { unfold get_opoi_stake. apply steps_zoom. intros w. split; try done.
    exists [("getopoistake", Array [Str addr])]. split; [done|]. by repeat constructor. }
  intros [[st|]|e]; try apply (steps_ret _). case_bool_decide; [|apply (steps_ret _)].
  apply (steps_bind _); [by apply between_csd|]. intros [tx|e]; [apply between_log|apply (steps_ret _)].
Qed.

(** One round of commits: each address asked once, in order. *)
Lemma commit_round `{Csd} rid h tc addrs : ∀ w,
  mapM (commit_with rid h tc) addrs w
  = (imap (λ i a, (a, commit_answer rid h tc (length (w_csd w) + i) a)) addrs,
     w <| w_csd := w_csd w ++ (commit_call rid h tc <$> addrs) |>).
Proof.
  induction addrs as [|a addrs IH]; intros w.
  { simpl. f_equal. destruct w; simpl. unfold constant. by rewrite app_nil_r. }
  rewrite mapM_cons_run.
  set (w1 := w <| w_csd := w_csd w ++ [commit_call rid h tc a] |>).
  change (commit_with rid h tc a w) with ((a, commit_answer rid h tc (length (w_csd w)) a), w1).
  cbv iota beta. rewrite IH, imap_cons. f_equal.
  - rewrite Nat.add_0_r. f_equal. apply imap_ext. intros i x _.
    assert (length (w_csd w1) = S (length (w_csd w))) as Hl.
    { change (length (w_csd w ++ [commit_call rid h tc a]) = S (length (w_csd w))). rewrite length_app. simpl. lia. }
    unfold compose. by rewrite Hl, Nat.add_succ_l, Nat.add_succ_r.
  - unfold w1. destruct w; simpl. unfold constant. by rewrite <-app_assoc.
Qed.

Lemma unique_active_map (f : Submission → Submission) l :
  (∀ s, s ∈ l → s_request_id (f s) = s_request_id s ∧ (active (f s) = true → active s = true)) →
  unique_active l = true → unique_active (f <$> l) = true.
Proof.
  rewrite !unique_active_spec. intros Hf Hu i j s1 s2 Hi Hj Ha1 Ha2 Hr.
  apply list_lookup_fmap_Some in Hi as (t1 & -> & Hi), Hj as (t2 & -> & Hj).
  destruct (Hf t1) as [Hr1 Hact1]; [by eapply list_elem_of_lookup_2|].
  destruct (Hf t2) as [Hr2 Hact2]; [by eapply list_elem_of_lookup_2|].
  apply (Hu i j t1 t2); auto. congruence.
Qed.

Lemma update_rows id (f : Submission → Submission) d :
  unique_active ((λ s, if bool_decide (s_id s = id) then f s else s) <$> submissions d) = true →
  update_submission id f d
  = Some ((), d <| submissions := (λ s, if bool_decide (s_id s = id) then f s else s) <$> submissions d |>).
Proof. intros Hu. unfold update_submission, store_submissions. by rewrite Hu. Qed.

Lemma mark_committed_rows id r d :
  faults d = [] → unique_active (submissions d) = true →
  (∀ s, s ∈ submissions d → s_id s = id → active s = true) →
  varchar 128 (cr_txid r) = Some (cr_txid r) → varchar 128 (cr_nonce_hex r) = Some (cr_nonce_hex r) →
  submissions (mark_committed id (cr_txid r) (cr_nonce_hex r) (as_i32 (cr_commit_window_closes_at_height r)) d).2
  = committed_row id r (clock d) <$> submissions d.
Proof.
  intros Hup Hu Hact Ht Hn. unfold mark_committed. rewrite exec_no_faults by done. rewrite Ht, Hn.
  cbn [mbind option_bind]. rewrite update_rows; [done|].
  apply unique_active_map; [|done]. intros s Hs. case_bool_decide; [|done]. split; [done|]. auto.
Qed.

Lemma mark_failed_rows id d :
  faults d = [] → unique_active (submissions d) = true →
  submissions (mark_failed id "all stake-pool addresses failed to commit" d).2
  = failed_row id (clock d) <$> submissions d.
Proof.
  intros Hup Hu. unfold mark_failed. rewrite exec_no_faults by done.
  change (text (truncate_reason "all stake-pool addresses failed to commit")) with
    (Some "all stake-pool addresses failed to commit"). cbn [mbind option_bind].
  rewrite update_rows; [done|].
  apply unique_active_map; [|done]. intros s Hs. by case_bool_decide.
Qed.

Lemma first_success_Some l r : first_success l = Some r → ∃ a, (a, Ok r) ∈ l.
Proof.
  unfold first_success. intros (l1 & [a x] & l2 & -> & Hx & _)%find_map_Some. simpl in Hx.
  destruct x; simplify_eq. exists a. set_solver.
Qed.

Lemma first_success_None l p : first_success l = None → p ∈ l → ∃ e, p.2 = Err e.
Proof.
  unfold first_success. rewrite find_map_None, Forall_forall. intros H Hp%H.
  destruct (p.2); [done|eauto].
Qed.

Lemma filter_commit_calls rid h tc (addrs : list string) :
  filter is_commit_call (commit_call rid h tc <$> addrs) = commit_call rid h tc <$> addrs.
Proof. apply filter_all, Forall_fmap, Forall_true. done. Qed.

Lemma filter_no_commit (l : list csd_call) : Forall (λ c, ¬ is_commit_call c) l → filter is_commit_call l = [].
Proof. induction 1 as [|c l Hc _ IH]; [done|]. by rewrite filter_cons_False. Qed.

(** ** Properties *)


(** C4. Assignment is safe: whatever one poll tick sends downstream are
    assignments, at most one per request, each to a connected wallet that is not
    banned, for a request with a prompt and no assignee before the tick, which is
    assigned to exactly that wallet after it; and only once the daemon has
    answered, in this tick, that the model has no ACTIVE manifest (fail closed: a
    transient error never leads to an assignment).  No existing claim is lost. *)
Theorem poll_and_assign_safe `{Csd, MapIter} (s : Sys) :
  let s' := (poll_and_assign_tick s).2 in
  (∃ new, sent (w_net (sy_world s')) = sent (w_net (sy_world s)) ++ new
     ∧ Forall (assigned_msg s s') new ∧ NoDup (req_id <$> new))
  ∧ (∀ r w, assignee r (assignments (sy_engine s)) = Some w → assignee r (assignments (sy_engine s')) = Some w).
Proof.
  assert (∀ s1, quiet s s1 → ∀ cs, let s' := (assign_candidates cs s1).2 in
    (∃ new, sent (w_net (sy_world s')) = sent (w_net (sy_world s)) ++ new
       ∧ Forall (assigned_msg s s') new ∧ NoDup (req_id <$> new))
    ∧ (∀ r w, assignee r (assignments (sy_engine s)) = Some w → assignee r (assignments (sy_engine s')) = Some w)) as Hgen.
  { intros s1 Hq cs s'. pose proof (assign_candidates_assigns cs s1) as [(new & Hs & Hf & Hd) _ _ _ Hc]. fold s' in Hs, Hf, Hc.
    split.
    - exists new. rewrite (q_net _ _ Hq) in Hs. split_and!; [done| |done].
      eapply Forall_impl; [exact Hf|]. intros x. by apply assigned_msg_quiet.
    - rewrite <-(q_claims _ _ Hq). exact Hc. }
  unfold poll_and_assign_tick. run_sys. unfold list_pending_requests, call.
  set (s1 := s <| sy_world := _ |>). assert (quiet s s1) as H1 by (split; try done; by eexists).
  assert (∀ s1, quiet s s1 → (∃ new, sent (w_net (sy_world s1)) = sent (w_net (sy_world s)) ++ new
     ∧ Forall (assigned_msg s s1) new ∧ NoDup (req_id <$> new))
    ∧ (∀ r w, assignee r (assignments (sy_engine s)) = Some w → assignee r (assignments (sy_engine s1)) = Some w)) as Hquiet.
  { intros s2 Hq. apply (Hgen s2 Hq []). }
  destruct (decode_response _ _ _) as [reqs|e]; run_sys; [|by apply Hquiet].
  pose proof (cache_requests_quiet reqs s1) as H2. destruct (cache_requests reqs s1) as [[[]|e] s2]; run_sys; simpl in H2;
    [|apply Hquiet; by etrans].
  match goal with |- context [assign_candidates ?cs s2] => pose proof (Hgen s2 ltac:(by etrans) cs) as Hg; destruct (assign_candidates cs s2) end.
  exact Hg.
Qed.

Lemma round_lookup rid h tc (addrs : list string) (log : list csd_call) i a :
  addrs !! i = Some a → (log ++ (commit_call rid h tc <$> addrs)) !! (length log + i) = Some (commit_call rid h tc a).
Proof.
  intros Hi. rewrite lookup_app_r, list_lookup_fmap by lia.
  replace (length log + i - length log) with i by lia. by rewrite Hi.
Qed.

(** A refused round followed by [rounds] more. *)
Lemma commit_settled_round `{Csd} rounds addrs id rid h tc w w3 w' l :
  w_csd w3 = w_csd w ++ (commit_call rid h tc <$> addrs) ++ l → Forall (λ c, ¬ is_commit_call c) l →
  submissions (w_db w3) = submissions (w_db w) → clock (w_db w3) = clock (w_db w) →
  w_csd w3 `prefix_of` w_csd w' →
  (∀ i a, addrs !! i = Some a → ∃ e, commit_answer rid h tc (length (w_csd w) + i) a = Err e) →
  commit_settled rounds addrs id rid h tc w3 w' → commit_settled (S rounds) addrs id rid h tc w w'.
Proof.
  intros Hl Hnc Hrows Hclk [rest Hpre] Herr [(k & a & r & Hk & Hset)|(Hcalls & Hrej & Hsub)].
  - left. exists k, a, r. rewrite Hrows, Hclk in Hset. split; [|done]. rewrite Hl, length_app in Hk. lia.
  - right. rewrite Hrows, Hclk in Hsub. split_and!; [| |done].
    + rewrite Hpre, drop_app_length in Hcalls.
      rewrite Hpre, Hl, <-!app_assoc, drop_app_length, !filter_app.
      by rewrite filter_commit_calls, (filter_no_commit l), Hcalls.
    + intros k a Hk Hka. destruct (decide (length (w_csd w3) ≤ k)) as [Hge|Hlt]; [by apply Hrej|].
      rewrite Hpre, lookup_app_l, Hl, lookup_app_r in Hka by lia.
      destruct (decide (k - length (w_csd w) < length addrs)) as [Hin|Hout].
      * rewrite lookup_app_l, list_lookup_fmap in Hka by (by rewrite length_fmap).
        destruct (addrs !! (k - length (w_csd w))) as [a'|] eqn:Ha; simplify_eq/=.
        destruct (Herr _ _ Ha) as [e He]. exists e.
        by replace k with (length (w_csd w) + (k - length (w_csd w))) by lia.
      * rewrite lookup_app_r in Hka by (rewrite length_fmap; lia).
        rewrite Forall_lookup in Hnc. by apply Hnc in Hka.
Qed.

Lemma commit_rounds_settled `{Csd, Schedule} addrs id rid h tc rounds : ∀ w,
  faults (w_db w) = [] → unique_active (submissions (w_db w)) = true →
  (∀ s, s ∈ submissions (w_db w) → s_id s = id → active s = true) →
  let w' := (commit_rounds rounds addrs id rid h tc w).2 in
  w_csd w `prefix_of` w_csd w' ∧ commit_settled rounds addrs id rid h tc w w'.
Proof.
  induction rounds as [|rounds IH]; intros w Hup Hu Hact.
  - cbn [commit_rounds]. unfold ignore. rewrite bind_run. unfold db, zoom.
    pose proof (mark_failed_rows id (w_db w) Hup Hu) as Hm. destruct (mark_failed _ _ _) as [x d'].
    split; [done|]. right. split_and!; [|intros k a Hk Hl|exact Hm].
    + change (filter is_commit_call (drop (length (w_csd w)) (w_csd w)) = []). by rewrite drop_all.
    + change (w_csd w !! k = Some (commit_call rid h tc a)) in Hl. apply lookup_lt_Some in Hl. lia.
  - cbn [commit_rounds]. rewrite bind_run, commit_round.
    set (started := imap _ _). set (w1 := w <| w_csd := _ |>).
    assert (w_csd w1 = w_csd w ++ (commit_call rid h tc <$> addrs)) as Hc1 by done.
    rewrite bind_run.
    assert (steps between (for_each (record_attempt id) (completion started))) as Hrec
      by (apply (steps_for_each _); intros; apply between_attempt).
    specialize (Hrec w1). destruct (for_each _ _ w1) as [[] w2]. cbn [snd] in Hrec.
    destruct (first_success (completion started)) as [r|] eqn:Hfs.
    + destruct Hrec as [Hrows Hclk Hup2 (l & Hl & _)]. unfold ignore. rewrite bind_run. unfold db, zoom.
      pose proof (mark_committed_rows id r (w_db w2)) as Hm. destruct (mark_committed _ _ _ _ _) as [x d'].
      change (submissions (w_db w2) = submissions (w_db w)) in Hrows. change (clock (w_db w2) = clock (w_db w)) in Hclk.
      rewrite Hrows, Hclk in Hm. split.
      * change (w_csd w `prefix_of` w_csd w2). rewrite Hl, Hc1, <-app_assoc. by eexists.
      * left. apply first_success_Some in Hfs as [a Ha]. rewrite completion_perm in Ha.
        apply list_elem_of_lookup in Ha as [i Hi]. unfold started in Hi. rewrite list_lookup_imap in Hi.
        destruct (addrs !! i) as [a'|] eqn:Hai; simplify_eq/=.
        exists (length (w_csd w) + i), a, r. split_and!; [lia|by eapply list_elem_of_lookup_2| |done|].
        -- change (w_csd w2 !! (length (w_csd w) + i) = Some (commit_call rid h tc a)).
           rewrite Hl. apply lookup_app_l_Some. by apply round_lookup.
        -- intros Ht Hn. by apply Hm; auto.
    + assert (steps between (match rounds with 0 => mret () | S _ => for_each reactivate addrs end)) as Hre.
      { destruct rounds; [apply (steps_ret _)|]. apply (steps_for_each _). intros; apply between_reactivate. }
      specialize (Hre w2). rewrite bind_run. destruct (_ w2) as [[] w3]. cbn [snd] in Hre.
      assert (between w1 w3) as [Hrows Hclk Hup3 (l & Hl & Hnc)] by (by etrans). clear Hrec Hre w2.
      change (submissions (w_db w3) = submissions (w_db w)) in Hrows. change (clock (w_db w3) = clock (w_db w)) in Hclk.
      destruct (IH w3) as [Hpre Hset]; [by apply Hup3|by rewrite Hrows|by rewrite Hrows|].
      rewrite Hc1, <-app_assoc in Hl.
      split; [etrans; [|exact Hpre]; rewrite Hl; by eexists|].
      apply (commit_settled_round rounds addrs id rid h tc w w3 _ l); try done.
      intros i a Hai. apply (first_success_None _ (a, commit_answer rid h tc (length (w_csd w) + i) a)) in Hfs as [e He]; [by exists e|].
      rewrite completion_perm. apply (list_elem_of_lookup_2 _ i). unfold started. by rewrite list_lookup_imap, Hai.
Qed.

(** C3. A response is not lost to a transient failure: when the database is up
    and the submission is live, [do_commit] ends in one of two ways.  Either some
    pool address's commit was accepted by the daemon and the submission is
    COMMITTED with that commit's transaction, nonce and window; or every pool
    address was asked in every one of the five rounds, in order, each was refused,
    and the submission is FAILED.  It never gives up earlier and never stays in
    between. *)
Theorem do_commit_settles `{Csd, Schedule} (addrs : list string) (id : N) (rid h : string) (tc : N) (w : World)
    (Hup : faults (w_db w) = []) (Hu : unique_active (submissions (w_db w)) = true)
    (Hact : ∀ s, s ∈ submissions (w_db w) → s_id s = id → active s = true) :
  commit_settled 5 addrs id rid h tc w (do_commit addrs id rid h tc w).2.
Proof. by apply commit_rounds_settled. Qed.

Lemma do_commit_settles_witness :
  let H := no_csd in let H0 := in_order in
  commit_settled 5 ["a"; "b"] 1 "r1" "h" 1 received_world (do_commit ["a"; "b"] 1 "r1" "h" 1 received_world).2.
Proof.
  apply (do_commit_settles (H:=no_csd) (H0:=in_order)); [reflexivity|reflexivity|].
  intros s Hs _. assert (Forall (λ s, active s = true) (submissions (w_db received_world))) as Hall.
  { apply Forall_cons; split; [reflexivity|constructor]. }
  rewrite Forall_forall in Hall. by apply Hall.
Defined.

Lemma renew_one_csd `{Csd} a w : w_csd (renew_one a w).2 = w_csd w ++ [renew_call a].
Proof.
  unfold renew_one, renew_opoi_stake, call. rewrite bind_run. unfold csd, zoom. cbv beta iota.
  destruct (decode_response _ _ _) as [tx|e]; unfold ignore; rewrite bind_run; unfold db, zoom;
    by destruct (log_stake_event _ _ _ _).
Qed.

Lemma for_each_cons_run {S A} (f : A → M S ()) x l s : (for_each f (x :: l) s).2 = (for_each f l (f x s).2).2.
Proof. simpl. rewrite bind_run. by destruct (f x s). Qed.

Lemma renew_loop `{Csd} rb height addrs : ∀ w,
  w_csd (for_each (λ addr,
      r ← csd (get_opoi_stake addr);
      match r with
      | Ok (Some st) => if renewal_due rb height st then renew_one addr else mret ()
      | Ok None | Err _ => mret ()
      end) addrs w).2
  = w_csd w ++ renewal_trace rb height addrs (length (w_csd w)).
Proof.
  induction addrs as [|a addrs IH]; intros w; [by rewrite app_nil_r|].
  rewrite for_each_cons_run, IH. clear IH. cbn [renewal_trace].
  set (w1 := w <| w_csd := w_csd w ++ [stake_call a] |>).
  assert (∀ m : M World (), w_csd (m w1).2 = w_csd w1 →
    w_csd (m w1).2 ++ renewal_trace rb height addrs (length (w_csd (m w1).2))
    = w_csd w ++ stake_call a :: renewal_trace rb height addrs (S (length (w_csd w)))) as Hskip.
  { intros m ->. change (w_csd w1) with (w_csd w ++ [stake_call a]).
    rewrite length_app, Nat.add_1_r, <-app_assoc. done. }
  rewrite bind_run. unfold get_opoi_stake. unfold csd at 1 2, zoom. rewrite bind_run. unfold call.
  fold (stake_answer (length (w_csd w)) a). cbv beta iota.
  destruct (stake_answer (length (w_csd w)) a) as [st|e].
  - unfold mret, M_ret. cbv beta iota. fold w1. destruct (renewal_due rb height st); [|exact (Hskip (mret ()) eq_refl)].
    change (w_csd (renew_one a w1).2 ++ renewal_trace rb height addrs (length (w_csd (renew_one a w1).2))
      = w_csd w ++ stake_call a :: renew_call a :: renewal_trace rb height addrs (S (S (length (w_csd w))))).
    rewrite renew_one_csd. change (w_csd w1) with (w_csd w ++ [stake_call a]).
    rewrite !length_app, <-!app_assoc, !Nat.add_1_r. done.
  - destruct e; unfold mret, M_ret; cbv beta iota; fold w1; exact (Hskip (mret ()) eq_refl).
Qed.

(** Renewals follow the chain, not the clock: when the height is not
    readable a tick sends nothing more; otherwise each pool address is looked up
    exactly once, in order, and a renewal is sent right after exactly those
    look-ups whose answer is SUSPENDED or at least [renew_blocks] old. *)
Theorem renew_tick_trace `{Csd} (addrs : list string) (rb : N) (w : World) :
  w_csd (renew_tick addrs rb w).2
  = w_csd w ++ ("getinfo", Array []) ::
      match height_answer (length (w_csd w)) with
      | Ok height => renewal_trace rb height addrs (S (length (w_csd w)))
      | Err _ => []
      end.
Proof.
  unfold renew_tick. rewrite bind_run. unfold get_chain_height, csd at 1, zoom, call.
  fold (height_answer (length (w_csd w))). cbv beta iota.
  destruct (height_answer (length (w_csd w))) as [height|e]; [|done].
  rewrite renew_loop. set (w1 := w <| w_csd := _ |>).
  change (w_csd w1) with (w_csd w ++ [("getinfo", Array [])]). rewrite length_app, Nat.add_1_r, <-app_assoc. done.
Qed.
