(* ===== verification/ExpertVram.v ===== *)
(** * Per-expert VRAM sizing from a GGUF header ([src/opoi/expert_vram.rs])

    A parser for the head of a GGUF file (the metadata is skipped, the tensor
    table kept), the per-expert byte size of a layer, and the cached floor in MB
    for a range of layers.  A cursor is the bytes still to read.  [None] marks
    the recursion fuel running out, which [parse_total] excludes. *)

From S2P Require Export Bytes.

Definition HEADER_PREFIX_CAP_BYTES : N := 16 * 1024 * 1024.
Definition MAX_METADATA_OR_TENSOR_COUNT : N := 1000000.

Record GgufTensorInfo := mkGgufTensorInfo { dims : list N; ggml_type : N }.

Inductive ParseErr : Type :=
| Incomplete
| Invalid (msg : string).

(** ** The parser's monad *)

Definition parser (A : Type) : Type := bytes → option (result (A * bytes) ParseErr).

#[export] Instance parser_ret : MRet parser := λ A x b, Some (Ok (x, b)).
#[export] Instance parser_bind : MBind parser := λ A B f p b,
  match p b with
  | Some (Ok (x, b')) => f x b'
  | Some (Err e) => Some (Err e)
  | None => None
  end.
Definition fail {A} (e : ParseErr) : parser A := λ _, Some (Err e).
Definition no_fuel {A} : parser A := λ _, None.

(** [read_exact] of [n] bytes. *)
Definition read_exact_or_incomplete (n : nat) : parser bytes := λ b,
  if bool_decide (n ≤ length b) then Some (Ok (take n b, drop n b)) else Some (Err Incomplete).

Definition read_u32 : parser N := b ← read_exact_or_incomplete 4; mret (le_value b).
Definition read_u64 : parser N := b ← read_exact_or_incomplete 8; mret (le_value b).

(** [for _ in 0..n { p }] *)
Fixpoint repeat_parse {A} (n : nat) (p : parser A) : parser (list A) :=
  match n with
  | 0 => mret []
  | S n' => x ← p; xs ← repeat_parse n' p; mret (x :: xs)
  end.

Definition read_gguf_string : parser string :=
  len ← read_u64;
  if (HEADER_PREFIX_CAP_BYTES <? len)%N
  then fail (Invalid ("gguf string length " +:+ pretty len +:+ " exceeds header prefix cap"))
  else buf ← read_exact_or_incomplete (N.to_nat len); mret (from_bytes (utf8_lossy buf)).

(** [skip_metadata_value]; [fuel] bounds the nesting of arrays. *)
Fixpoint skip_metadata_value (fuel : nat) (vtype : N) : parser () :=
  match fuel with
  | 0 => no_fuel
  | S fuel' =>
    if bool_decide (vtype ∈ [0; 1; 7]%N) then _ ← read_exact_or_incomplete 1; mret ()
    else if bool_decide (vtype ∈ [2; 3]%N) then _ ← read_exact_or_incomplete 2; mret ()
    else if bool_decide (vtype ∈ [4; 5; 6]%N) then _ ← read_exact_or_incomplete 4; mret ()
    else if bool_decide (vtype ∈ [10; 11; 12]%N) then _ ← read_exact_or_incomplete 8; mret ()
    else if bool_decide (vtype = 8%N) then _ ← read_gguf_string; mret ()
    else if bool_decide (vtype = 9%N) then
      elem_type ← read_u32;
      len ← read_u64;
      if (MAX_METADATA_OR_TENSOR_COUNT <? len)%N
      then fail (Invalid ("metadata array length " +:+ pretty len +:+ " exceeds sanity cap"))
      else _ ← repeat_parse (N.to_nat len) (skip_metadata_value fuel' elem_type); mret ()
    else fail (Invalid ("unknown metadata value type " +:+ pretty vtype))
  end.

Definition parse_kv (fuel : nat) : parser () :=
  _ ← read_gguf_string;
  vtype ← read_u32;
  skip_metadata_value fuel vtype.

Definition parse_tensor : parser (string * GgufTensorInfo) :=
  name ← read_gguf_string;
  n_dims ← read_u32;
  if (MAX_METADATA_OR_TENSOR_COUNT <? n_dims)%N
  then fail (Invalid ("implausible n_dims=" +:+ pretty n_dims +:+ " for tensor " +:+ name))
  else
    ds ← repeat_parse (N.to_nat n_dims) read_u64;
    ty ← read_u32;
    _ ← read_u64;
    mret (name, {| dims := ds; ggml_type := ty |}).

(** [{magic:?}] *)
Definition debug_bytes (b : bytes) : string :=
  "[" +:+ String.concat ", " ((λ c, pretty (N_of_ascii c)) <$> b) +:+ "]".

(** The header, from a cursor at its start. *)
Definition parse_header (fuel : nat) : parser (gmap string GgufTensorInfo) :=
  magic ← read_exact_or_incomplete 4;
  if negb (bool_decide (magic = as_bytes "GGUF")) then fail (Invalid ("bad GGUF magic bytes " +:+ debug_bytes magic))
  else
    _ ← read_u32;
    tensor_count ← read_u64;
    kv_count ← read_u64;
    if (MAX_METADATA_OR_TENSOR_COUNT <? tensor_count)%N || (MAX_METADATA_OR_TENSOR_COUNT <? kv_count)%N
    then fail (Invalid ("implausible tensor_count=" +:+ pretty tensor_count +:+ "/kv_count=" +:+ pretty kv_count))
    else
      _ ← repeat_parse (N.to_nat kv_count) (parse_kv fuel);
      infos ← repeat_parse (N.to_nat tensor_count) parse_tensor;
      mret (fold_left (λ m p, <[p.1 := p.2]> m) infos ∅).

(** Every level of nesting reads at least twelve bytes, so the input's length
    is enough fuel. *)
Definition parse_gguf_tensor_infos (b : bytes) : option (result (gmap string GgufTensorInfo) ParseErr) :=
  r ← parse_header (S (length b)) b;
  Some match r with Ok (m, _) => Ok m | Err e => Err e end.

(** ** Sizes *)

Definition ggml_block_and_type_size (ty : N) : option (N * N) :=
  match ty with
  | 0 => Some (1, 4)
  | 1 => Some (1, 2)
  | 2 => Some (32, 18)
  | 3 => Some (32, 20)
  | 6 => Some (32, 22)
  | 7 => Some (32, 24)
  | 8 => Some (32, 34)
  | 9 => Some (32, 36)
  | 10 => Some (256, 84)
  | 11 => Some (256, 110)
  | 12 => Some (256, 144)
  | 13 => Some (256, 176)
  | 14 => Some (256, 210)
  | 15 => Some (256, 292)
  | 30 => Some (1, 2)
  | _ => None
  end%N.

Definition suffixes : list string := ["ffn_gate_exps"; "ffn_up_exps"; "ffn_down_exps"].
Definition tensor_name (layer_idx : N) (suffix : string) : string :=
  "blk." +:+ pretty layer_idx +:+ "." +:+ suffix +:+ ".weight".

(** [dims.iter().product()], wrapping. *)
Definition elem_count (ds : list N) : N := fold_left (λ acc d, wrap64 (acc * d)) ds 1%N.

(** One turn of the loop: the bytes one tensor adds. *)
Definition tensor_expert_bytes (infos : gmap string GgufTensorInfo) (n_expert : N) (name : string) : result N string :=
  match infos !! name with
  | None => Err ("cannot find tensor info for " +:+ name)
  | Some info =>
    let total_elems := elem_count (dims info) in
    if negb (total_elems `mod` n_expert =? 0)%N
    then Err (name +:+ "'s elem_count " +:+ pretty total_elems +:+ " is not divisible by n_expert " +:+ pretty n_expert)
    else
      let per_expert_elems := (total_elems / n_expert)%N in
      match ggml_block_and_type_size (ggml_type info) with
      | None => Err (name +:+ ": unsupported/unknown ggml_type " +:+ pretty (ggml_type info))
      | Some (block_size, type_size) =>
        if negb (per_expert_elems `mod` block_size =? 0)%N
        then Err (name +:+ "'s per-expert elem_count " +:+ pretty per_expert_elems
                  +:+ " is not divisible by block_size " +:+ pretty block_size)
        else Ok (wrap64 (per_expert_elems / block_size * type_size))
      end
  end.

Fixpoint sum_tensors (infos : gmap string GgufTensorInfo) (n_expert : N) (names : list string) (total_bytes : N)
    : result N string :=
  match names with
  | [] => Ok total_bytes
  | name :: rest =>
    match tensor_expert_bytes infos n_expert name with
    | Ok b => sum_tensors infos n_expert rest (wrap64 (total_bytes + b))
    | Err e => Err e
    end
  end.

Definition expert_vram_bytes_for_layer (infos : gmap string GgufTensorInfo) (layer_idx n_expert : N) : result N string :=
  if (n_expert =? 0)%N then Err "expert_vram_bytes_for_layer: n_expert must be > 0"
  else sum_tensors infos n_expert (tensor_name layer_idx <$> suffixes) 0%N.

(** ** Fetching *)

(** What a GET gives: no response, a refused status, or a body in chunks, which
    may break off. *)
Inductive get_outcome : Type :=
| GetFailed (e : string)
| GetStatus (status : string)
| GetBody (chunks : list bytes) (broken : option string).

Class HttpGet := { http_get : string → get_outcome }.

(** The chunk loop: stops at [cap] bytes or at the end of the body. *)
Fixpoint read_chunks (cap : nat) (buf : bytes) (chunks : list bytes) (broken : option string) : result bytes string :=
  if bool_decide (length buf < cap) then
    match chunks with
    | [] => match broken with Some e => Err e | None => Ok buf end
    | c :: rest => read_chunks cap (buf ++ c) rest broken
    end
  else Ok buf.

Definition fetch_gguf_header_prefix `{HttpGet} (url : string) (cap : nat) : result bytes string :=
  match http_get url with
  | GetFailed e => Err ("GET " +:+ url +:+ " failed: " +:+ e)
  | GetStatus status => Err ("GET " +:+ url +:+ ": HTTP " +:+ status)
  | GetBody chunks broken =>
    match read_chunks cap [] chunks broken with
    | Ok buf => Ok (take cap buf)
    | Err e => Err ("reading " +:+ url +:+ ": " +:+ e)
    end
  end.

(** The loop over the layers, until one is missing. *)
Fixpoint layer_sizes (fuel : nat) (infos : gmap string GgufTensorInfo) (n_expert layer_idx : N) (per_layer : gmap N N)
    : option (result (gmap N N) string) :=
  match fuel with
  | 0 => None
  | S fuel' =>
    match expert_vram_bytes_for_layer infos layer_idx n_expert with
    | Ok b => layer_sizes fuel' infos n_expert (layer_idx + 1) (<[layer_idx := b]> per_layer)
    | Err e =>
      Some (if (layer_idx =? 0)%N
            then Err ("no blk.0 FFN-expert tensors found in GGUF header (not a MoE checkpoint, or header prefix too small): " +:+ e)
            else Ok per_layer)
    end
  end.

Definition sizes_of_header (b : bytes) (n_expert : N) : option (result (gmap N N) string) :=
  r ← parse_gguf_tensor_infos b;
  match r with
  | Err Incomplete => Some (Err ("GGUF header did not fit within the " +:+ pretty HEADER_PREFIX_CAP_BYTES
                                 +:+ "-byte prefix this module reads"))
  | Err (Invalid msg) => Some (Err msg)
  | Ok infos => layer_sizes (S (size infos)) infos n_expert 0 ∅
  end.

Definition fetch_and_parse `{HttpGet} (gguf_url : string) (n_expert : N) : option (result (gmap N N) string) :=
  match fetch_gguf_header_prefix gguf_url (N.to_nat HEADER_PREFIX_CAP_BYTES) with
  | Err e => Some (Err e)
  | Ok b => sizes_of_header b n_expert
  end.

(** The estimator's cache, by ["model_id:sha256"]. *)
Definition vram_cache : Type := gmap string (gmap N N).

(** The largest of a list. *)
Definition max_of (l : list N) : option N :=
  match l with [] => None | x :: l' => Some (fold_left N.max l' x) end.

Definition div_ceil (a b : N) : N := ((a + b - 1) / b)%N.

Definition floor_mb (per_layer : gmap N N) (layer_start layer_end : N) : option N :=
  let layers := (λ i, layer_start + N.of_nat i)%N <$> seq 0 (N.to_nat (layer_end - layer_start)) in
  max_bytes ← max_of (omap (λ l, per_layer !! l) layers);
  Some (div_ceil max_bytes (1024 * 1024)).

(** [min_vram_mb_for_range] over the cache. *)
Definition min_vram_mb_for_range `{HttpGet} (model_id gguf_url gguf_sha256 : string)
    (layer_start layer_end n_expert : N) : M vram_cache (option N) :=
  λ cache,
    let cache_key := model_id +:+ ":" +:+ gguf_sha256 in
    match cache !! cache_key with
    | Some per_layer => (floor_mb per_layer layer_start layer_end, cache)
    | None =>
      match fetch_and_parse gguf_url n_expert with
      | Some (Ok map) => (floor_mb map layer_start layer_end, <[cache_key := map]> cache)
      | Some (Err _) | None => (None, cache)
      end
    end.

(** ** Well-formed headers *)

Definition scalar_size (ty : N) : option nat :=
  if bool_decide (ty ∈ [0; 1; 7]%N) then Some 1
  else if bool_decide (ty ∈ [2; 3]%N) then Some 2
  else if bool_decide (ty ∈ [4; 5; 6]%N) then Some 4
  else if bool_decide (ty ∈ [10; 11; 12]%N) then Some 8
  else None.

(** [enc_value ty b]: [b] is an encoded metadata value of type [ty];
    [enc_values ty n b]: [b] is [n] of them in a row. *)
Inductive enc_value : N → bytes → Prop :=
| ev_scalar ty n d : scalar_size ty = Some n → length d = n → enc_value ty d
| ev_string s : (N.of_nat (length s) ≤ HEADER_PREFIX_CAP_BYTES)%N →
    enc_value 8 (u64_le (N.of_nat (length s)) ++ s)
| ev_array ty n body : (ty < 2 ^ 32)%N → (N.of_nat n ≤ MAX_METADATA_OR_TENSOR_COUNT)%N → enc_values ty n body →
    enc_value 9 (u32_le ty ++ u64_le (N.of_nat n) ++ body)
with enc_values : N → nat → bytes → Prop :=
| evs_nil ty : enc_values ty 0 []
| evs_cons ty n v rest : enc_value ty v → enc_values ty n rest → enc_values ty (S n) (v ++ rest).

Scheme enc_value_mind := Minimality for enc_value Sort Prop
  with enc_values_mind := Minimality for enc_values Sort Prop.
Combined Scheme enc_mutind from enc_value_mind, enc_values_mind.

(** A metadata entry and a tensor-table entry. *)
Definition enc_string (s : bytes) : bytes := u64_le (N.of_nat (length s)) ++ s.
Record kv := mkKv { kv_key : bytes; kv_type : N; kv_value : bytes }.
Definition enc_kv (k : kv) : bytes := enc_string (kv_key k) ++ u32_le (kv_type k) ++ kv_value k.
Definition kv_ok (k : kv) : Prop :=
  (N.of_nat (length (kv_key k)) ≤ HEADER_PREFIX_CAP_BYTES)%N ∧ (kv_type k < 2 ^ 32)%N ∧ enc_value (kv_type k) (kv_value k).

Record tensor := mkTensor { t_name : bytes; t_info : GgufTensorInfo; t_offset : N }.
Definition enc_tensor (t : tensor) : bytes :=
  enc_string (t_name t) ++ u32_le (N.of_nat (length (dims (t_info t))))
  ++ (d ← dims (t_info t); u64_le d) ++ u32_le (ggml_type (t_info t)) ++ u64_le (t_offset t).
Definition tensor_ok (t : tensor) : Prop :=
  Forall (λ c, in_range 0 127 c = true) (t_name t)
  ∧ (N.of_nat (length (t_name t)) ≤ HEADER_PREFIX_CAP_BYTES)%N
  ∧ (N.of_nat (length (dims (t_info t))) ≤ MAX_METADATA_OR_TENSOR_COUNT)%N
  ∧ Forall (λ d, (d < 2 ^ 64)%N) (dims (t_info t)) ∧ (ggml_type (t_info t) < 2 ^ 32)%N
  ∧ (t_offset t < 2 ^ 64)%N.

Definition enc_header (version : N) (kvs : list kv) (ts : list tensor) : bytes :=
  as_bytes "GGUF" ++ u32_le version ++ u64_le (N.of_nat (length ts)) ++ u64_le (N.of_nat (length kvs))
  ++ (k ← kvs; enc_kv k) ++ (t ← ts; enc_tensor t).
Definition header_ok (kvs : list kv) (ts : list tensor) : Prop :=
  Forall kv_ok kvs ∧ Forall tensor_ok ts
  ∧ (N.of_nat (length kvs) ≤ MAX_METADATA_OR_TENSOR_COUNT)%N ∧ (N.of_nat (length ts) ≤ MAX_METADATA_OR_TENSOR_COUNT)%N.

(** The table the header describes; a repeated name keeps its last entry. *)
Definition header_map (ts : list tensor) : gmap string GgufTensorInfo :=
  fold_left (λ m t, <[from_bytes (t_name t) := t_info t]> m) ts ∅.

(** The unbounded element count of a shape, and a layer's exact bytes per
    expert: [None] when a tensor is missing, of unknown type, or does not split
    evenly. *)
Definition true_elems (ds : list N) : N := foldr N.mul 1%N ds.
Definition exact_bytes (infos : gmap string GgufTensorInfo) (n_expert : N) (name : string) (b : N) : Prop :=
  ∃ info blocks block_size type_size,
    infos !! name = Some info
    ∧ ggml_block_and_type_size (ggml_type info) = Some (block_size, type_size)
    ∧ true_elems (dims info) = (n_expert * (blocks * block_size))%N
    ∧ b = (blocks * type_size)%N.

(** A small mixture-of-experts header: one nested metadata array, one layer of
    three Q4_K tensors for four experts. *)
Definition sample_kvs : list kv :=
  [ mkKv (as_bytes "general.version") 4 (u32_le 1);
    mkKv (as_bytes "tokens") 9 (u32_le 9 ++ u64_le 1 ++ (u32_le 8 ++ u64_le 1 ++ (u64_le 2 ++ as_bytes "hi"))) ].
Definition sample_tensor (layer : N) (suffix : string) (ds : list N) (ty : N) : tensor :=
  mkTensor (as_bytes (tensor_name layer suffix)) (mkGgufTensorInfo ds ty) 0.
Definition sample_layer (layer : N) (ds : list N) (ty : N) : list tensor :=
  (λ suffix, sample_tensor layer suffix ds ty) <$> suffixes.
Definition sample_tensors : list tensor := sample_layer 0 [256; 512; 4]%N 12.
(** A server that has that file, in two chunks. *)
Definition sample_http : HttpGet :=
  {| http_get _ := GetBody [take 50 (enc_header 3 sample_kvs sample_tensors);
                            drop 50 (enc_header 3 sample_kvs sample_tensors)] None |}.

(** ** Lemmas *)

(** *** Extending the input *)

(** [q] on a longer input does what [p] did, unless [p] wanted more bytes. *)
Definition extends {A} (p q : parser A) : Prop := ∀ b ext,
  (∀ x r, p b = Some (Ok (x, r)) → q (b ++ ext) = Some (Ok (x, r ++ ext)))
  ∧ (∀ msg, p b = Some (Err (Invalid msg)) → q (b ++ ext) = Some (Err (Invalid msg))).

Lemma extends_ret {A} (x : A) : extends (mret x) (mret x).
Proof. intros b ext. split; [by intros ? ? [= <- <-]|done]. Qed.

Lemma extends_fail {A} e : extends (A:=A) (fail e) (fail e).
Proof. intros b ext. split; [done|]. by intros msg [= ->]. Qed.

Lemma extends_bind {A B} (p q : parser A) (f g : A → parser B) :
  extends p q → (∀ x, extends (f x) (g x)) → extends (p ≫= f) (q ≫= g).
Proof.
  intros Hp Hf b ext. destruct (Hp b ext) as [Hok Herr]. unfold mbind, parser_bind.
  destruct (p b) as [[[x r]|[|msg]]|]; [|done| |done].
  - rewrite (Hok _ _ eq_refl). apply Hf.
  - rewrite (Herr _ eq_refl). split; [done|]. by intros ? [= ->].
Qed.

Lemma extends_read n : extends (read_exact_or_incomplete n) (read_exact_or_incomplete n).
Proof.
  intros b ext. unfold read_exact_or_incomplete. rewrite length_app. case_bool_decide as Hn.
  - split; [|done]. intros x r [= <- <-]. rewrite bool_decide_eq_true_2 by lia.
    rewrite take_app_le, drop_app_le by lia. done.
  - split; done.
Qed.

Lemma extends_repeat {A} n (p q : parser A) : extends p q → extends (repeat_parse n p) (repeat_parse n q).
Proof.
  intros Hp. induction n as [|n IH]; [apply extends_ret|]. simpl.
  apply extends_bind; [done|]. intros x. apply extends_bind; [done|]. intros xs. apply extends_ret.
Qed.

Lemma extends_u32 : extends read_u32 read_u32.
Proof. apply extends_bind; [apply extends_read|]. intros b. apply extends_ret. Qed.
Lemma extends_u64 : extends read_u64 read_u64.
Proof. apply extends_bind; [apply extends_read|]. intros b. apply extends_ret. Qed.
Lemma extends_string : extends read_gguf_string read_gguf_string.
Proof.
  apply extends_bind; [apply extends_u64|]. intros n. destruct (_ <? n)%N; [apply extends_fail|].
  apply extends_bind; [apply extends_read|]. intros b. apply extends_ret.
Qed.

#[local] Hint Resolve extends_ret extends_fail extends_bind extends_read extends_repeat extends_u32 extends_u64 extends_string : core.

Lemma extends_skip f1 : ∀ f2 ty, f1 ≤ f2 → extends (skip_metadata_value f1 ty) (skip_metadata_value f2 ty).
Proof.
  induction f1 as [|f1 IH]; intros f2 ty Hle; [by intros b ext; split|].
  destruct f2 as [|f2]; [lia|]. cbn [skip_metadata_value].
  repeat (case_bool_decide; [apply extends_bind; auto|]); [|auto].
  intros ety. apply extends_bind; [auto|]. intros n. destruct (_ <? n)%N; [auto|].
  apply extends_bind; [|auto]. apply extends_repeat, IH. lia.
Qed.

Lemma extends_kv f1 f2 : f1 ≤ f2 → extends (parse_kv f1) (parse_kv f2).
Proof. intros Hle. repeat (apply extends_bind; [auto|intros ?]). by apply extends_skip. Qed.

Lemma extends_tensor : extends parse_tensor parse_tensor.
Proof.
  apply extends_bind; [auto|]. intros name. apply extends_bind; [auto|]. intros n. destruct (_ <? n)%N; [auto|].
  repeat (apply extends_bind; [auto|intros ?]). auto.
Qed.

Lemma extends_header f1 f2 : f1 ≤ f2 → extends (parse_header f1) (parse_header f2).
Proof.
  intros Hle. apply extends_bind; [auto|]. intros magic. destruct (negb _); [auto|].
  repeat (apply extends_bind; [auto|intros ?]). destruct (_ || _); [auto|].
  apply extends_bind; [by apply extends_repeat, extends_kv|]. intros ?.
  apply extends_bind; [apply extends_repeat, extends_tensor|auto].
Qed.

(** *** Termination *)

(** On at most [n] bytes [p] has enough fuel, and never reads backwards. *)
Definition total_on {A} (n : nat) (p : parser A) : Prop := ∀ b, length b ≤ n →
  p b ≠ None ∧ ∀ x r, p b = Some (Ok (x, r)) → length r ≤ length b.

Lemma total_ret {A} n (x : A) : total_on n (mret x).
Proof. intros b _. split; [done|]. by intros ? ? [= <- <-]. Qed.
Lemma total_fail {A} n e : total_on (A:=A) n (fail e).
Proof. by intros b _. Qed.
Lemma total_read n k : total_on n (read_exact_or_incomplete k).
Proof.
  intros b _. unfold read_exact_or_incomplete. case_bool_decide; split; try done.
  intros ? ? [= <- <-]. rewrite length_drop. lia.
Qed.
Lemma total_bind {A B} n (p : parser A) (f : A → parser B) :
  total_on n p → (∀ x, total_on n (f x)) → total_on n (p ≫= f).
Proof.
  intros Hp Hf b Hb. destruct (Hp b Hb) as [Hn Hr]. unfold mbind, parser_bind.
  destruct (p b) as [[[x r]|e]|]; [|done|done]. specialize (Hr _ _ eq_refl).
  destruct (Hf x r) as [Hn' Hr']; [lia|]. split; [done|]. intros y r' Hy%Hr'. lia.
Qed.
Lemma total_repeat {A} n k (p : parser A) : total_on n p → total_on n (repeat_parse k p).
Proof.
  intros Hp. induction k as [|k IH]; [apply total_ret|]. simpl.
  apply total_bind; [done|]. intros x. apply total_bind; [done|]. intros xs. apply total_ret.
Qed.
Lemma total_u32 n : total_on n read_u32.
Proof. apply total_bind; [apply total_read|]. intros b. apply total_ret. Qed.
Lemma total_u64 n : total_on n read_u64.
Proof. apply total_bind; [apply total_read|]. intros b. apply total_ret. Qed.
Lemma total_string n : total_on n read_gguf_string.
Proof.
  apply total_bind; [apply total_u64|]. intros k. destruct (_ <? k)%N; [apply total_fail|].
  apply total_bind; [apply total_read|]. intros b. apply total_ret.
Qed.

#[local] Hint Resolve total_ret total_fail total_read total_bind total_repeat total_u32 total_u64 total_string : core.

(** A parser run after at least one byte was read has one byte less to see. *)
Lemma total_after_u32 {A} n (f : N → parser A) :
  (∀ m x, S m = n → total_on m (f x)) → total_on n (read_u32 ≫= f).
Proof.
  intros Hf b Hb. unfold mbind, parser_bind, read_u32, mbind, parser_bind, read_exact_or_incomplete.
  case_bool_decide as H4; [|done]. destruct n as [|m]; [lia|].
  unfold mret, parser_ret. destruct (Hf m (le_value (take 4 b)) eq_refl (drop 4 b)) as [Hn Hr].
  { rewrite length_drop. lia. }
  split; [exact Hn|]. intros x r Hx. apply Hr in Hx. rewrite length_drop in Hx. lia.
Qed.

Lemma total_skip n : ∀ ty, total_on n (skip_metadata_value (S n) ty).
Proof.
  induction n as [n IH] using lt_wf_ind. intros ty. cbn [skip_metadata_value].
  repeat (case_bool_decide; [first [apply total_after_u32 | apply total_bind; auto]|]); [|auto].
  intros m ety Hm. apply total_bind; [auto|]. intros k. destruct (_ <? k)%N; [auto|].
  apply total_bind; [|auto]. apply total_repeat. subst n. apply IH. lia.
Qed.

Lemma total_kv n : total_on n (parse_kv (S n)).
Proof. repeat (apply total_bind; [auto|intros ?]). apply total_skip. Qed.

Lemma total_header n : total_on n (parse_header (S n)).
Proof.
  apply total_bind; [auto|]. intros magic. destruct (negb _); [auto|].
  repeat (apply total_bind; [auto|intros ?]). destruct (_ || _); [auto|].
  apply total_bind; [apply total_repeat, total_kv|]. intros ?.
  apply total_bind; [|auto]. apply total_repeat. unfold parse_tensor.
  apply total_bind; [auto|]. intros name. apply total_bind; [auto|]. intros k. destruct (_ <? k)%N; [auto|].
  repeat (apply total_bind; [auto|intros ?]). auto.
Qed.

(** *** More fuel does not change a result *)

Definition refines {A} (p q : parser A) : Prop := ∀ b r, p b = Some r → q b = Some r.

Lemma refines_refl {A} (p : parser A) : refines p p.
Proof. by intros b r. Qed.
Lemma refines_bind {A B} (p q : parser A) (f g : A → parser B) :
  refines p q → (∀ x, refines (f x) (g x)) → refines (p ≫= f) (q ≫= g).
Proof.
  intros Hp Hf b r. unfold mbind, parser_bind. destruct (p b) as [[[x r']|e]|] eqn:E; [|..|done].
  - rewrite (Hp _ _ E). apply Hf.
  - by rewrite (Hp _ _ E).
Qed.
Lemma refines_repeat {A} n (p q : parser A) : refines p q → refines (repeat_parse n p) (repeat_parse n q).
Proof.
  intros Hp. induction n as [|n IH]; [apply refines_refl|]. simpl.
  apply refines_bind; [done|]. intros x. apply refines_bind; [done|]. intros xs. apply refines_refl.
Qed.

#[local] Hint Resolve refines_refl refines_bind refines_repeat : core.

Lemma refines_skip f1 : ∀ f2 ty, f1 ≤ f2 → refines (skip_metadata_value f1 ty) (skip_metadata_value f2 ty).
Proof.
  induction f1 as [|f1 IH]; intros f2 ty Hle; [by intros b r|].
  destruct f2 as [|f2]; [lia|]. cbn [skip_metadata_value].
  repeat (case_bool_decide; [apply refines_bind; auto|]); [|auto].
  intros ety. apply refines_bind; [auto|]. intros n. destruct (_ <? n)%N; [auto|].
  apply refines_bind; [|auto]. apply refines_repeat, IH. lia.
Qed.

Lemma refines_header f1 f2 : f1 ≤ f2 → refines (parse_header f1) (parse_header f2).
Proof.
  intros Hle. apply refines_bind; [auto|]. intros magic. destruct (negb _); [auto|].
  repeat (apply refines_bind; [auto|intros ?]). destruct (_ || _); [auto|].
  apply refines_bind; [|auto]. apply refines_repeat. unfold parse_kv.
  repeat (apply refines_bind; [auto|intros ?]). by apply refines_skip.
Qed.

(** *** Reading back what was encoded *)

Definition reads {A} (p : parser A) (b : bytes) (x : A) : Prop := ∀ ext, p (b ++ ext) = Some (Ok (x, ext)).

Lemma reads_ret {A} (x : A) : reads (mret x) [] x.
Proof. by intros ext. Qed.
Lemma reads_bind {A B} (p : parser A) (f : A → parser B) b1 b2 x y :
  reads p b1 x → reads (f x) b2 y → reads (p ≫= f) (b1 ++ b2) y.
Proof. intros Hp Hf ext. unfold mbind, parser_bind. rewrite <-app_assoc, Hp. apply Hf. Qed.
Lemma reads_then_ret {A B} (p : parser A) (f : A → B) b x : reads p b x → reads (a ← p; mret (f a)) b (f x).
Proof. intros Hp ext. unfold mbind, parser_bind. by rewrite Hp. Qed.
Lemma reads_exact n d : length d = n → reads (read_exact_or_incomplete n) d d.
Proof.
  intros <- ext. unfold read_exact_or_incomplete. rewrite bool_decide_eq_true_2 by (rewrite length_app; lia).
  by rewrite take_app_length, drop_app_length.
Qed.
Lemma reads_u32 n : (n < 2 ^ 32)%N → reads read_u32 (u32_le n) n.
Proof.
  intros Hn. unfold read_u32. rewrite <-(le_value_bytes_small 4 n Hn) at 2.
  apply reads_then_ret, reads_exact, le_bytes_length.
Qed.
Lemma reads_u64 n : (n < 2 ^ 64)%N → reads read_u64 (u64_le n) n.
Proof.
  intros Hn. unfold read_u64. rewrite <-(le_value_bytes_small 8 n Hn) at 2.
  apply reads_then_ret, reads_exact, le_bytes_length.
Qed.
Lemma reads_cap_u64 n : (n ≤ HEADER_PREFIX_CAP_BYTES)%N → reads read_u64 (u64_le n) n.
Proof. intros Hn. apply reads_u64. unfold HEADER_PREFIX_CAP_BYTES in Hn. lia. Qed.
Lemma reads_count_u64 n : (n ≤ MAX_METADATA_OR_TENSOR_COUNT)%N → reads read_u64 (u64_le n) n.
Proof. intros Hn. apply reads_u64. unfold MAX_METADATA_OR_TENSOR_COUNT in Hn. lia. Qed.
Lemma reads_count_u32 n : (n ≤ MAX_METADATA_OR_TENSOR_COUNT)%N → reads read_u32 (u32_le n) n.
Proof. intros Hn. apply reads_u32. unfold MAX_METADATA_OR_TENSOR_COUNT in Hn. lia. Qed.
Lemma reads_string s :
  (N.of_nat (length s) ≤ HEADER_PREFIX_CAP_BYTES)%N → reads read_gguf_string (enc_string s) (from_bytes (utf8_lossy s)).
Proof.
  intros Hs. eapply reads_bind; [by apply reads_cap_u64|].
  destruct (N.ltb_spec HEADER_PREFIX_CAP_BYTES (N.of_nat (length s))); [lia|].
  apply (reads_then_ret _ (λ buf, from_bytes (utf8_lossy buf))), reads_exact. by rewrite Nat2N.id.
Qed.
Lemma reads_repeat {A X} (p : parser A) (enc : X → bytes) (val : X → A) (l : list X) :
  (∀ x, x ∈ l → reads p (enc x) (val x)) → reads (repeat_parse (length l) p) (x ← l; enc x) (val <$> l).
Proof.
  induction l as [|x l IH]; intros Hl; [apply reads_ret|]. simpl.
  eapply reads_bind; [apply Hl; by left|]. apply (reads_then_ret _ (λ xs, val x :: xs)).
  apply IH. intros y Hy. apply Hl. by right.
Qed.

Lemma reads_values :
  (∀ ty v, enc_value ty v → ∃ f0, ∀ f, f0 ≤ f → reads (skip_metadata_value f ty) v ())
  ∧ (∀ ty n b, enc_values ty n b → ∃ f0, ∀ f, f0 ≤ f → ∃ us, reads (repeat_parse n (skip_metadata_value f ty)) b us).
Proof.
  apply enc_mutind.
  - intros ty n d Hty Hd. exists 1. intros [|f] Hf; [lia|]. cbn [skip_metadata_value]. revert Hty. unfold scalar_size.
    repeat (case_bool_decide; [intros [= <-]; apply (reads_then_ret _ (λ _, ()) _ d); by apply reads_exact|]). done.
  - intros s Hs. exists 1. intros [|f] Hf; [lia|].
    change (skip_metadata_value (S f) 8) with (_ ← read_gguf_string; mret (M:=parser) ()).
    eapply (reads_then_ret _ (λ _, ())). by apply reads_string.
  - intros ty n body Hty Hn _ [f0 IH]. exists (S f0). intros [|f] Hf; [lia|].
    change (skip_metadata_value (S f) 9) with
      (elem_type ← read_u32; len ← read_u64;
       if (MAX_METADATA_OR_TENSOR_COUNT <? len)%N
       then fail (Invalid ("metadata array length " +:+ pretty len +:+ " exceeds sanity cap"))
       else _ ← repeat_parse (N.to_nat len) (skip_metadata_value f elem_type); mret (M:=parser) ()).
    eapply reads_bind; [by apply reads_u32|]. eapply reads_bind; [by apply reads_count_u64|].
    destruct (N.ltb_spec MAX_METADATA_OR_TENSOR_COUNT (N.of_nat n)); [lia|]. rewrite Nat2N.id.
    destruct (IH f) as [us Hus]; [lia|]. by apply (reads_then_ret _ (λ _, ()) _ us).
  - intros ty. exists 0. intros f _. exists []. apply reads_ret.
  - intros ty n v rest _ [f1 H1] _ [f2 H2]. exists (f1 `max` f2). intros f Hf.
    destruct (H2 f) as [us Hus]; [lia|]. exists (() :: us).
    eapply reads_bind; [apply H1; lia|]. by apply (reads_then_ret _ (λ xs, () :: xs)).
Qed.

Lemma reads_kvs kvs :
  Forall kv_ok kvs → ∃ f0, ∀ f, f0 ≤ f → reads (repeat_parse (length kvs) (parse_kv f)) (k ← kvs; enc_kv k) ((λ _, ()) <$> kvs).
Proof.
  intros Hok. assert (∃ f0, ∀ f, f0 ≤ f → ∀ k, k ∈ kvs → reads (parse_kv f) (enc_kv k) ()) as [f0 Hf0].
  { induction Hok as [|k kvs (Hk & Ht & Hv) _ [f0 IH]]; [exists 0; set_solver|].
    destruct (proj1 reads_values _ _ Hv) as [f1 H1]. exists (f0 `max` f1). intros f Hf k' [->|Hk']%elem_of_cons.
    - eapply reads_bind; [by apply reads_string|]. eapply reads_bind; [by apply reads_u32|]. apply H1. lia.
    - apply IH; [lia|done]. }
  exists f0. intros f Hf. apply reads_repeat. intros k Hk. by apply Hf0.
Qed.

Lemma reads_tensor t : tensor_ok t → reads parse_tensor (enc_tensor t) (from_bytes (t_name t), t_info t).
Proof.
  intros (Ha & Hn & Hd & Hds & Hty & Hoff). unfold enc_tensor.
  eapply reads_bind; [by apply reads_string|]. rewrite utf8_lossy_ascii by done.
  eapply reads_bind; [by apply reads_count_u32|].
  destruct (N.ltb_spec MAX_METADATA_OR_TENSOR_COUNT (N.of_nat (length (dims (t_info t))))); [lia|]. rewrite Nat2N.id.
  eapply reads_bind.
  { apply (reads_repeat read_u64 u64_le id). intros d Hin. rewrite Forall_forall in Hds. by apply reads_u64, Hds. }
  eapply reads_bind; [by apply reads_u32|]. rewrite list_fmap_id. destruct t as [nm [ds ty] off].
  apply (reads_then_ret _ (λ _, (from_bytes nm, mkGgufTensorInfo ds ty)) _ off). by apply reads_u64.
Qed.

Lemma reads_header version kvs ts :
  (version < 2 ^ 32)%N → header_ok kvs ts →
  ∃ f0, ∀ f, f0 ≤ f → reads (parse_header f) (enc_header version kvs ts) (header_map ts).
Proof.
  intros Hv (Hk & Ht & Hlk & Hlt). destruct (reads_kvs kvs Hk) as [f0 Hf0]. exists f0. intros f Hf.
  eapply (reads_bind _ _ (as_bytes "GGUF")); [by apply reads_exact|]. rewrite bool_decide_eq_true_2 by done. cbn [negb].
  eapply reads_bind; [by apply reads_u32|]. eapply reads_bind; [by apply reads_count_u64|].
  eapply reads_bind; [by apply reads_count_u64|].
  destruct (N.ltb_spec MAX_METADATA_OR_TENSOR_COUNT (N.of_nat (length ts))); [lia|].
  destruct (N.ltb_spec MAX_METADATA_OR_TENSOR_COUNT (N.of_nat (length kvs))); [lia|]. cbn [orb]. rewrite !Nat2N.id.
  eapply reads_bind; [by apply Hf0|].
  assert (header_map ts = fold_left (λ m p, <[p.1:=p.2]> m) ((λ t, (from_bytes (t_name t), t_info t)) <$> ts) ∅) as ->.
  { unfold header_map. generalize (∅ : gmap string GgufTensorInfo). clear. induction ts as [|t ts IH]; intros m; [done|]. apply IH. }
  eapply (reads_then_ret _ (λ infos : list (string * GgufTensorInfo), fold_left (λ m p, <[p.1:=p.2]> m) infos ∅) _
    ((λ t, (from_bytes (t_name t), t_info t)) <$> ts)).
  apply (reads_repeat parse_tensor enc_tensor). intros t Hin. rewrite Forall_forall in Ht. by apply reads_tensor, Ht.
Qed.

Lemma parse_ok version kvs ts data :
  (version < 2 ^ 32)%N → header_ok kvs ts →
  parse_gguf_tensor_infos (enc_header version kvs ts ++ data) = Some (Ok (header_map ts)).
Proof.
  intros Hv Hok. destruct (reads_header version kvs ts Hv Hok) as [f0 Hf0].
  set (b := enc_header version kvs ts ++ data).
  destruct (total_header (length b) b) as [Hn _]; [done|]. unfold parse_gguf_tensor_infos.
  destruct (parse_header (S (length b)) b) as [r|] eqn:E; [|done].
  eapply refines_header in E; [|apply (Nat.le_max_l _ f0)].
  unfold b at 2 in E. rewrite (Hf0 (S (length b) `max` f0) (Nat.le_max_r _ _)) in E. by simplify_eq.
Qed.

(** *** Sizes *)

Lemma elem_count_true ds : elem_count ds = wrap64 (true_elems ds).
Proof.
  unfold elem_count. change 1%N with (wrap64 1) at 1. rewrite <-(N.mul_1_l (true_elems ds)).
  generalize 1%N. induction ds as [|d ds IH]; intros a; simpl; [by rewrite N.mul_1_r|].
  assert (wrap64 (wrap64 a * d) = wrap64 (a * d)) as -> by (unfold wrap64; apply N.Div0.mul_mod_idemp_l).
  rewrite N.mul_assoc. apply IH.
Qed.

Lemma wrap64_id n : (n < 2 ^ 64)%N → wrap64 n = n.
Proof. apply N.mod_small. Qed.

Lemma type_size_bound ty bs ts : ggml_block_and_type_size ty = Some (bs, ts) → (1 ≤ bs ∧ ts < 2 ^ 9)%N.
Proof. unfold ggml_block_and_type_size. intros H. repeat (case_match; try discriminate); simplify_eq; lia. Qed.

Lemma tensor_exact infos n_expert name b :
  (∀ info, infos !! name = Some info → (true_elems (dims info) < 2 ^ 52)%N) → n_expert ≠ 0%N →
  tensor_expert_bytes infos n_expert name = Ok b → exact_bytes infos n_expert name b ∧ (b < 2 ^ 61)%N.
Proof.
  intros Hsmall Hne. unfold tensor_expert_bytes, exact_bytes.
  destruct (infos !! name) as [info|]; [|done]. specialize (Hsmall info eq_refl).
  rewrite elem_count_true, (wrap64_id (true_elems _)) by lia. set (t := true_elems (dims info)) in *.
  destruct (N.eqb_spec (t `mod` n_expert) 0) as [Hm|]; [|done]. cbn [negb].
  destruct (ggml_block_and_type_size (ggml_type info)) as [[bs ts]|] eqn:Hty; [|done].
  destruct (type_size_bound _ _ _ Hty) as [Hbs Hts].
  destruct (N.eqb_spec (t `div` n_expert `mod` bs) 0) as [Hm2|]; [|done]. cbn [negb].
  apply N.Div0.div_exact in Hm, Hm2. set (per := (t `div` n_expert)%N) in *. set (k := (per `div` bs)%N) in *.
  assert (k < 2 ^ 52)%N by nia. rewrite wrap64_id by nia. intros [= <-].
  split; [|nia]. exists info, k, bs, ts. split_and!; [done..| |done].
  by rewrite (N.mul_comm k), <-Hm2.
Qed.

(** *** Layers *)

Lemma string_app_inj_r s : ∀ s1 s2, s1 +:+ s = s2 +:+ s → s1 = s2.
Proof.
  assert (Hlen : ∀ a b, String.length (a +:+ b) = String.length a + String.length b).
  { intros a b. induction a as [|c a IH]; [done|]. simpl. by rewrite IH. }
  induction s1 as [|c s1 IH]; intros [|c2 s2] H; [done| | |].
  1,2: apply (f_equal String.length) in H; rewrite !Hlen in H; simpl in H; lia.
  injection H as -> H. by rewrite (IH s2 H).
Qed.

Lemma tensor_name_inj suffix i j : tensor_name i suffix = tensor_name j suffix → i = j.
Proof. unfold tensor_name. intros H%(inj (String.append "blk."))%string_app_inj_r. by apply (inj pretty). Qed.

Lemma layer_has_gate infos i n_expert b :
  expert_vram_bytes_for_layer infos i n_expert = Ok b → tensor_name i "ffn_gate_exps" ∈ dom infos.
Proof.
  unfold expert_vram_bytes_for_layer. destruct (_ =? 0)%N; [done|]. cbn [suffixes fmap list_fmap sum_tensors].
  unfold tensor_expert_bytes at 1. intros H. apply elem_of_dom. by destruct (infos !! _).
Qed.

Lemma layers_bounded infos n_expert k :
  (∀ i, (i < N.of_nat k)%N → ∃ b, expert_vram_bytes_for_layer infos i n_expert = Ok b) → k ≤ size infos.
Proof.
  intros Hall. set (names := (λ i, tensor_name (N.of_nat i) "ffn_gate_exps") <$> seq 0 k).
  assert (Hnd : NoDup names).
  { apply NoDup_fmap_2_strong; [|apply NoDup_seq]. intros i j _ _ Hij%tensor_name_inj. lia. }
  replace k with (length names) by (unfold names; by rewrite length_fmap, length_seq).
  rewrite <-size_dom, <-(size_list_to_set (C:=gset string) names) by done. apply subseteq_size.
  intros x. rewrite elem_of_list_to_set. unfold names. rewrite list_elem_of_fmap. intros (i & -> & Hi%elem_of_seq).
  destruct (Hall (N.of_nat i)) as [b Hb]; [lia|]. by eapply layer_has_gate.
Qed.

(** What the layer loop returns, whatever it started from. *)
Lemma layer_sizes_run infos n_expert k : ∀ fuel per_layer,
  (∀ i, (i < N.of_nat k)%N → ∃ b, expert_vram_bytes_for_layer infos i n_expert = Ok b) →
  (∀ i b, per_layer !! i = Some b ↔ (i < N.of_nat k)%N ∧ expert_vram_bytes_for_layer infos i n_expert = Ok b) →
  size infos < k + fuel →
  ∃ r, layer_sizes fuel infos n_expert (N.of_nat k) per_layer = Some r ∧
    match r with
    | Ok m => ∃ n e, (0 < n)%N ∧ expert_vram_bytes_for_layer infos n n_expert = Err e
        ∧ ∀ i b, m !! i = Some b ↔ (i < n)%N ∧ expert_vram_bytes_for_layer infos i n_expert = Ok b
    | Err _ => ∃ e, expert_vram_bytes_for_layer infos 0 n_expert = Err e
    end.
Proof.
  intros fuel. revert k. induction fuel as [|fuel IH]; intros k per_layer Hall Hmap Hf.
  { apply layers_bounded in Hall. lia. }
  cbn [layer_sizes]. destruct (expert_vram_bytes_for_layer infos (N.of_nat k) n_expert) as [b|e] eqn:E.
  - replace (N.of_nat k + 1)%N with (N.of_nat (S k)) by lia. apply IH; [| |lia].
    + intros i Hi. destruct (decide (i = N.of_nat k)) as [->|]; [eauto|]. apply Hall. lia.
    + intros i b'. destruct (decide (i = N.of_nat k)) as [->|Hne].
      * rewrite lookup_insert_eq, E. split; [intros [= ->]; split; [lia|done]|by intros [_ [= ->]]].
      * rewrite lookup_insert_ne, Hmap by done. split; intros [? ?]; (split; [lia|done]).
  - eexists. split; [done|]. destruct (N.eqb_spec (N.of_nat k) 0) as [Hk|Hk]; [rewrite Hk in E; eauto|].
    exists (N.of_nat k), e. split_and!; [lia|done|exact Hmap].
Qed.

(** *** Maxima and chunks *)

Lemma fold_max_spec l : ∀ x, (x ≤ fold_left N.max l x)%N ∧ (∀ y, y ∈ l → (y ≤ fold_left N.max l x)%N)
  ∧ (fold_left N.max l x = x ∨ fold_left N.max l x ∈ l).
Proof.
  induction l as [|z l IH]; intros x; simpl; [split_and!; [lia|set_solver|auto]|].
  destruct (IH (N.max x z)) as (H1 & H2 & H3). split_and!; [lia| |].
  - intros y [->|Hy]%elem_of_cons; [lia|auto].
  - rewrite elem_of_cons. destruct H3 as [H3|H3]; [|auto]. rewrite H3. lia.
Qed.

Lemma max_of_spec l : match max_of l with Some m => m ∈ l ∧ ∀ y, y ∈ l → (y ≤ m)%N | None => l = [] end.
Proof.
  destruct l as [|x l]; [done|]. simpl. destruct (fold_max_spec l x) as (H1 & H2 & H3).
  split; [rewrite elem_of_cons; tauto|]. intros y [->|Hy]%elem_of_cons; auto.
Qed.

Lemma read_chunks_run cap chunks : ∀ buf, ∃ b,
  read_chunks cap buf chunks None = Ok b ∧ take cap b = take cap (buf ++ concat chunks).
Proof.
  induction chunks as [|c chunks IH]; intros buf; simpl; case_bool_decide as Hl.
  1,2: exists buf; split; [done|by rewrite app_nil_r].
  - rewrite app_assoc. apply IH.
  - exists buf. split; [done|]. by rewrite take_app_le by lia.
Qed.

Lemma sample_ok : header_ok sample_kvs sample_tensors.
Proof.
  unfold header_ok, sample_kvs, sample_tensors, sample_layer, suffixes. cbn [fmap list_fmap].
  split_and!; [repeat apply Forall_cons_2; try apply Forall_nil_2..|by vm_compute|by vm_compute].
  1,2: split_and!; [by vm_compute|done|].
  - by apply (ev_scalar 4 4).
  - apply (ev_array 9 1 (u32_le 8 ++ u64_le 1 ++ (u64_le 2 ++ as_bytes "hi"))); [done|by vm_compute|].
    apply (evs_cons 9 0 (u32_le 8 ++ u64_le 1 ++ (u64_le 2 ++ as_bytes "hi")) []); [|constructor].
    apply (ev_array 8 1 (u64_le 2 ++ as_bytes "hi")); [done|by vm_compute|].
    apply (evs_cons 8 0 (u64_le 2 ++ as_bytes "hi") []); [|constructor]. apply (ev_string (as_bytes "hi")). by vm_compute.
  - split_and!; [by repeat constructor|by vm_compute|by vm_compute|by repeat constructor|done|done].
  - split_and!; [by repeat constructor|by vm_compute|by vm_compute|by repeat constructor|done|done].
  - split_and!; [by repeat constructor|by vm_compute|by vm_compute|by repeat constructor|done|done].
Qed.

(** ** Theorems *)

(** Parsing always terminates with a verdict, whatever the bytes: the
    recursion over nested metadata arrays never runs out of input-sized fuel. *)
Theorem parse_total b : parse_gguf_tensor_infos b ≠ None.
Proof.
  destruct (total_header (length b) b) as [Hn _]; [done|]. unfold parse_gguf_tensor_infos.
  destruct (parse_header (S (length b)) b) as [[[m r]|e]|]; done.
Qed.

(** Round trip: the parser recovers the tensor table of every well-formed
    GGUF header, nested metadata arrays included, and ignores what follows it. *)
Theorem parse_header_roundtrip version kvs ts data :
  (version < 2 ^ 32)%N → header_ok kvs ts →
  parse_gguf_tensor_infos (enc_header version kvs ts ++ data) = Some (Ok (header_map ts)).
Proof. apply parse_ok. Qed.

(** A truncated header is always reported as [Incomplete], never as another
    table and never as an invalid file. *)
Theorem parse_truncated_incomplete version kvs ts k :
  (version < 2 ^ 32)%N → header_ok kvs ts → k < length (enc_header version kvs ts) →
  parse_gguf_tensor_infos (take k (enc_header version kvs ts)) = Some (Err Incomplete).
Proof.
  intros Hv Hok Hk. destruct (reads_header version kvs ts Hv Hok) as [f0 Hf0].
  set (full := enc_header version kvs ts) in *. set (b := take k full).
  destruct (total_header (length b) b) as [Hn _]; [done|].
  destruct (extends_header (S (length b)) (S (length b) `max` f0) (Nat.le_max_l _ _) b (drop k full)) as [Hok' Herr].
  specialize (Hf0 (S (length b) `max` f0) (Nat.le_max_r _ _) []). rewrite app_nil_r in Hf0.
  assert (Hfull : b ++ drop k full = full) by apply take_drop. rewrite Hfull in Hok', Herr.
  unfold parse_gguf_tensor_infos. destruct (parse_header (S (length b)) b) as [[[m r]|[|msg]]|]; [|done| |done].
  - rewrite (Hok' m r eq_refl) in Hf0. assert (Hl : length (r ++ drop k full) = 0) by (injection Hf0 as _ ->; done).
    rewrite length_app, length_drop in Hl. lia.
  - by rewrite (Herr msg eq_refl) in Hf0.
Qed.

(** Sizing: when the element counts fit in 64 bits and the layer is
    accepted, the result is the exact number of bytes one expert's share of the
    three FFN tensors takes, each tensor splitting evenly into experts and
    quantisation blocks. *)
Theorem layer_bytes_exact infos layer_idx n_expert b :
  (∀ suffix info, suffix ∈ suffixes → infos !! tensor_name layer_idx suffix = Some info →
     (true_elems (dims info) < 2 ^ 52)%N) →
  expert_vram_bytes_for_layer infos layer_idx n_expert = Ok b →
  ∃ gate up down,
    exact_bytes infos n_expert (tensor_name layer_idx "ffn_gate_exps") gate
    ∧ exact_bytes infos n_expert (tensor_name layer_idx "ffn_up_exps") up
    ∧ exact_bytes infos n_expert (tensor_name layer_idx "ffn_down_exps") down
    ∧ b = (gate + up + down)%N.
Proof.
  intros Hsmall. unfold expert_vram_bytes_for_layer. destruct (N.eqb_spec n_expert 0) as [|Hne]; [done|].
  cbn [suffixes fmap list_fmap sum_tensors]. set (n1 := tensor_name _ _). set (n2 := tensor_name _ _). set (n3 := tensor_name _ _).
  intros Hb.
  destruct (tensor_expert_bytes infos n_expert n1) as [g|] eqn:E1; [|done].
  destruct (tensor_expert_bytes infos n_expert n2) as [u|] eqn:E2; [|done].
  destruct (tensor_expert_bytes infos n_expert n3) as [d|] eqn:E3; [|done].
  apply tensor_exact in E1 as [H1 L1], E2 as [H2 L2], E3 as [H3 L3]; try done;
    try (intros info; apply Hsmall; set_solver).
  exists g, u, d. split_and!; [done..|]. injection Hb as <-. rewrite (wrap64_id (0 + g)), (wrap64_id (0 + g + u)), wrap64_id by lia. lia.
Qed.

(** The layer loop ends: it visits the layers from 0 while they can be sized
    and returns exactly those, stopping at the first that cannot; it fails
    exactly when layer 0 cannot. *)
Theorem layer_sizes_spec infos n_expert :
  ∃ r, layer_sizes (S (size infos)) infos n_expert 0 ∅ = Some r ∧
    match r with
    | Ok m => ∃ n e, (0 < n)%N ∧ expert_vram_bytes_for_layer infos n n_expert = Err e
        ∧ ∀ i b, m !! i = Some b ↔ (i < n)%N ∧ expert_vram_bytes_for_layer infos i n_expert = Ok b
    | Err _ => ∃ e, expert_vram_bytes_for_layer infos 0 n_expert = Err e
    end.
Proof.
  apply (layer_sizes_run infos n_expert 0); [lia| |lia].
  intros i b. rewrite lookup_empty. split; [done|lia].
Qed.

(** The floor is the least whole number of megabytes that holds every sized
    layer of the range: never below one of them, less than a megabyte above
    the largest, and absent exactly when the range has no sized layer. *)
Theorem floor_mb_spec per_layer layer_start layer_end :
  match floor_mb per_layer layer_start layer_end with
  | Some mb =>
    (∀ l b, (layer_start ≤ l < layer_end)%N → per_layer !! l = Some b → (b ≤ mb * 2 ^ 20)%N)
    ∧ ∃ l b, (layer_start ≤ l < layer_end)%N ∧ per_layer !! l = Some b ∧ (mb * 2 ^ 20 < b + 2 ^ 20)%N
  | None => ∀ l, (layer_start ≤ l < layer_end)%N → per_layer !! l = None
  end.
Proof.
  unfold floor_mb. set (ls := omap _ _).
  assert (Hls : ∀ b, b ∈ ls ↔ ∃ l, (layer_start ≤ l < layer_end)%N ∧ per_layer !! l = Some b).
  { intros b. unfold ls. rewrite list_elem_of_omap. setoid_rewrite list_elem_of_fmap. split.
    - intros (l & (i & -> & Hi%elem_of_seq) & Hb). exists (layer_start + N.of_nat i)%N. split; [lia|done].
    - intros (l & Hl & Hb). exists l. split; [|done]. exists (N.to_nat (l - layer_start)).
      split; [lia|]. apply elem_of_seq. lia. }
  pose proof (max_of_spec ls) as Hm. destruct (max_of ls) as [m|]; simpl.
  - destruct Hm as [Hin Hmax]. unfold div_ceil. change (1024 * 1024)%N with (2 ^ 20)%N.
    pose proof (N.div_mod (m + 2 ^ 20 - 1) (2 ^ 20)) as Hd. pose proof (N.mod_lt (m + 2 ^ 20 - 1) (2 ^ 20)) as Hlt.
    set (q := ((m + 2 ^ 20 - 1) / 2 ^ 20)%N) in *. set (r := ((m + 2 ^ 20 - 1) `mod` 2 ^ 20)%N) in *.
    split; [|apply Hls in Hin as (l & Hl & Hb); exists l, m; split_and!; [apply Hl|apply Hl|exact Hb|lia]].
    intros l b Hl Hb. assert (b ≤ m)%N by (apply Hmax, Hls; eauto). lia.
  - intros l Hl. destruct (per_layer !! l) as [b|] eqn:E; [|done].
    assert (b ∈ ls) as Hb by (apply Hls; eauto). rewrite Hm in Hb. set_solver.
Qed.

(** C38. End to end: a served GGUF whose header fits the prefix cap is read, in
    whatever chunks it arrives, parsed and sized, and the floor of the asked
    range is answered and the sizes cached; nothing is cached on failure. *)
Theorem served_header_floor `{HttpGet} version kvs ts data chunks model_id url sha layer_start layer_end n_expert cache :
  (version < 2 ^ 32)%N → header_ok kvs ts →
  (N.of_nat (length (enc_header version kvs ts)) ≤ HEADER_PREFIX_CAP_BYTES)%N →
  http_get url = GetBody chunks None → concat chunks = enc_header version kvs ts ++ data →
  cache !! (model_id +:+ ":" +:+ sha) = None →
  ∃ r, layer_sizes (S (size (header_map ts))) (header_map ts) n_expert 0 ∅ = Some r ∧
    min_vram_mb_for_range model_id url sha layer_start layer_end n_expert cache =
      match r with
      | Ok m => (floor_mb m layer_start layer_end, <[model_id +:+ ":" +:+ sha := m]> cache)
      | Err _ => (None, cache)
      end.
Proof.
  intros Hv Hok Hcap Hget Hbody Hmiss.
  destruct (layer_sizes_run (header_map ts) n_expert 0 (S (size (header_map ts))) ∅) as (r & Hr & _); [lia| |lia|].
  { intros i b. rewrite lookup_empty. split; [done|lia]. }
  exists r. split; [exact Hr|]. unfold min_vram_mb_for_range. rewrite Hmiss.
  assert (fetch_and_parse url n_expert = Some r) as ->; [|by destruct r].
  unfold fetch_and_parse, fetch_gguf_header_prefix. rewrite Hget.
  set (cap := N.to_nat HEADER_PREFIX_CAP_BYTES). assert (length (enc_header version kvs ts) ≤ cap) as Hc by (unfold cap; lia).
  clearbody cap. destruct (read_chunks_run cap chunks []) as (b & -> & ->).
  rewrite app_nil_l, Hbody, take_app_ge by done. unfold sizes_of_header.
  rewrite parse_ok by done. exact Hr.
Qed.

(** A shape whose element count passes 64 bits is sized at zero bytes. *)
Theorem wrapped_shape_sized_zero : ∃ ts,
  expert_vram_bytes_for_layer (header_map ts) 0 4 = Ok 0%N
  ∧ Forall (λ t, true_elems (dims (t_info t)) = 2 ^ 64)%N ts ∧ length ts = 3.
Proof. exists (sample_layer 0 [2 ^ 32; 2 ^ 32]%N 0). split_and!; [by vm_compute|by repeat constructor|done]. Qed.

(** A layer that cannot be sized hides every later one, so the floor of a range
    can miss the largest layer of it. *)
Theorem unsized_layer_hides_larger : ∃ ts m b,
  layer_sizes (S (size (header_map ts))) (header_map ts) 4 0 ∅ = Some (Ok m)
  ∧ expert_vram_bytes_for_layer (header_map ts) 2 4 = Ok b
  ∧ floor_mb m 0 3 = Some 1%N ∧ (2 ^ 20 < b)%N.
Proof.
  exists (sample_layer 0 [256; 4]%N 12 ++ sample_layer 1 [256; 4]%N 99 ++ sample_layer 2 [65536; 512; 4]%N 12).
  eexists _, _. split_and!; [vm_compute; exact eq_refl|vm_compute; exact eq_refl|by vm_compute|done].
Qed.

Lemma parse_header_roundtrip_witness :
  header_ok sample_kvs sample_tensors
  ∧ parse_gguf_tensor_infos (enc_header 3 sample_kvs sample_tensors ++ as_bytes "data") = Some (Ok (header_map sample_tensors))
  ∧ size (header_map sample_tensors) = 3.
Proof.
  split_and!; [apply sample_ok| |by vm_compute].
  apply parse_header_roundtrip; [done|apply sample_ok].
Defined.

Lemma parse_truncated_incomplete_witness :
  length (enc_header 3 sample_kvs sample_tensors) = 327
  ∧ parse_gguf_tensor_infos (take 100 (enc_header 3 sample_kvs sample_tensors)) = Some (Err Incomplete).
Proof.
  split; [by vm_compute|]. apply parse_truncated_incomplete; [done|apply sample_ok|].
  apply Nat.ltb_lt. by vm_compute.
Defined.

Lemma layer_bytes_exact_witness :
  ∃ gate up down, exact_bytes (header_map sample_tensors) 4 (tensor_name 0 "ffn_gate_exps") gate
    ∧ exact_bytes (header_map sample_tensors) 4 (tensor_name 0 "ffn_up_exps") up
    ∧ exact_bytes (header_map sample_tensors) 4 (tensor_name 0 "ffn_down_exps") down
    ∧ 221184%N = (gate + up + down)%N.
Proof.
  apply layer_bytes_exact; [|by vm_compute]. intros suffix info Hs Hinfo.
  assert (info = mkGgufTensorInfo [256; 512; 4]%N 12) as ->; [|done].
  repeat (apply elem_of_cons in Hs as [->|Hs]; [vm_compute in Hinfo; congruence|]). by apply not_elem_of_nil in Hs.
Defined.

Lemma served_header_floor_witness :
  ∃ r, layer_sizes (S (size (header_map sample_tensors))) (header_map sample_tensors) 4 0 ∅ = Some r
    ∧ min_vram_mb_for_range (H := sample_http) "M" "http://host/m.gguf" "sha" 0 3 4 ∅ =
      match r with Ok m => (floor_mb m 0 3, <["M:sha" := m]> ∅) | Err _ => (None, ∅) end.
Proof.
  apply (served_header_floor (H := sample_http) 3 sample_kvs sample_tensors []
    [take 50 (enc_header 3 sample_kvs sample_tensors); drop 50 (enc_header 3 sample_kvs sample_tensors)]).
  - done.
  - apply sample_ok.
  - by vm_compute.
  - done.
  - by vm_compute.
  - done.
Defined.
