(* ===== verification/Tensor.v ===== *)
(** * Activation tensors on the wire and the expert combine
      ([src/opoi/expert_dispatch.rs], its free functions)

    An [f32] that is only relayed is kept as its 32-bit pattern, so that what
    is hashed and sent is exact to the bit; [f32_of_bits] and [f32_to_bits] are
    the format's decoding and encoding, used by the arithmetic of the combine.
    A NaN that arithmetic produces has the canonical pattern. *)

From S2P Require Export Float Bytes Wire.

(** ** The binary32 format *)

Definition f32_of_bits (n : N) : f32 :=
  let s := N.testbit n 31 in
  let e := N.land (N.shiftr n 23) 255 in
  let m := N.land n (N.ones 23) in
  if (e =? 0)%N then match m with N0 => S754_zero s | Npos p => S754_finite s p (-149) end
  else if (e =? 255)%N then match m with N0 => S754_infinity s | Npos _ => S754_nan end
  else match (m + 2 ^ 23)%N with N0 => S754_nan | Npos p => S754_finite s p (Z.of_N e - 150) end.

Definition sign_bit (s : bool) : N := if s then (2 ^ 31)%N else 0%N.
Definition f32_to_bits (x : f32) : N :=
  match x with
  | S754_zero s => sign_bit s
  | S754_infinity s => (sign_bit s + N.shiftl 255 23)%N
  | S754_nan => (N.shiftl 255 23 + 2 ^ 22)%N
  | S754_finite s m e =>
    if (Npos m <? 2 ^ 23)%N then (sign_bit s + Npos m)%N
    else (sign_bit s + (Z.to_N (e + 150)) * 2 ^ 23 + (Npos m - 2 ^ 23))%N
  end.

(** ** Hex of a tensor's data *)

(** The text of the hex crate's error. *)
Class HexError := { hex_error : string → string }.

Definition sha256_hex `{Crypto} (data : bytes) : string := hex_encode (sha256 data).

Definition f32_to_le_bytes (data : list N) : bytes := v ← data; u32_le v.

Definition f32_to_hex `{Crypto} (data : list N) : string := hex_encode (f32_to_le_bytes data).

(** [chunks_exact(4)], each read little-endian. *)
Fixpoint chunks4 (fuel : nat) (b : bytes) : list N :=
  match fuel, b with
  | S fuel', c0 :: c1 :: c2 :: c3 :: b' => le_value [c0; c1; c2; c3] :: chunks4 fuel' b'
  | _, _ => []
  end.

Definition hex_to_f32 `{Crypto, HexError} (hex_str : string) : result (list N) string :=
  match hex_decode hex_str with
  | None => Err ("output data_hex was not valid hex: " +:+ hex_error hex_str)
  | Some b =>
    if negb (length b `mod` 4 =? 0)%nat
    then Err ("output data_hex length " +:+ pretty (length b) +:+ " is not a multiple of 4")
    else Ok (chunks4 (length b) b)
  end.

(** ** The combine step *)

(** [shape.iter().product()], wrapping. *)
Definition shape_len (shape : list N) : N := fold_left (λ acc d, wrap64 (acc * d)) shape 1%N.

(** [{:?}] of a [Vec<usize>]. *)
Definition debug_shape (shape : list N) : string :=
  "[" +:+ String.concat ", " (pretty <$> shape) +:+ "]".

(** [*a += weight * v] *)
Definition add_scaled (weight : f32) (a : f32) (v : N) : f32 := f32_add a (f32_mul weight (f32_of_bits v)).

Fixpoint add_outcomes `{Crypto, HexError} (shape : list N) (expected_len : N) (acc : list f32)
    (outcomes : list (f32 * OpoiExpertResult)) : result (list f32) string :=
  match outcomes with
  | [] => Ok acc
  | (weight, result) :: rest =>
    let out := er_output result in
    if negb (bool_decide (eo_shape out = shape))
    then Err ("expert_id=" +:+ pretty (er_expert_id result) +:+ " output shape " +:+ debug_shape (eo_shape out)
              +:+ " does not match group shape " +:+ debug_shape shape +:+ " — cannot combine")
    else
      match hex_to_f32 (eo_data_hex out) with
      | Err e => Err e
      | Ok values =>
        if negb (N.of_nat (length values) =? expected_len)%N
        then Err ("expert_id=" +:+ pretty (er_expert_id result) +:+ " output has " +:+ pretty (length values)
                  +:+ " floats, shape " +:+ debug_shape shape +:+ " expects " +:+ pretty expected_len)
        else add_outcomes shape expected_len (zip_with (add_scaled weight) acc values) rest
      end
  end.

(** [None] is the panic of [vec![0f32; n]] on a size no allocation can have. *)
Definition combine_weighted `{Crypto, HexError} (outcomes : list (f32 * OpoiExpertResult))
    : option (result ExpertOutputWire string) :=
  match outcomes with
  | [] => Some (Err "combine_weighted called with no expert outputs")
  | (_, first) :: _ =>
    let shape := eo_shape (er_output first) in
    let expected_len := shape_len shape in
    if (2 ^ 63 <=? 4 * expected_len)%N then None
    else
      Some match add_outcomes shape expected_len (replicate (N.to_nat expected_len) f32_zero) outcomes with
      | Err e => Err e
      | Ok acc => Ok {| eo_shape := shape; eo_data_hex := f32_to_hex (f32_to_bits <$> acc) |}
      end
  end.

(** ** What the combine should give *)

(** One coordinate: the router-weighted sum, added in the order of the group. *)
Definition weighted_sum (terms : list (f32 * N)) : f32 :=
  fold_left (λ a t, add_scaled t.1 a t.2) terms f32_zero.

(** The decoded outputs of a group that combines. *)
Definition decodes `{Crypto} (shape : list N) (o : f32 * OpoiExpertResult) (values : list N) : Prop :=
  eo_shape (er_output o.2) = shape
  ∧ hex_decode (eo_data_hex (er_output o.2)) = Some (f32_to_le_bytes values)
  ∧ Forall (λ v, (v < 2 ^ 32)%N) values
  ∧ N.of_nat (length values) = shape_len shape.

(** A float the format has. *)
Definition valid_f32 (x : f32) : Prop := SpecFloat.valid_binary 24 128 x = true.
(** The sums of a group whose outputs decode to [valuess]. *)
Definition combined (len : N) (outcomes : list (f32 * OpoiExpertResult)) (valuess : list (list N)) : list f32 :=
  (λ j, weighted_sum (zip_with (λ o vs, (o.1, nth j vs 0%N)) outcomes valuess)) <$> seq 0 (N.to_nat len).

(** A result whose tensor is [data], for the witnesses. *)
Definition sample_output `{Crypto} (expert_id : N) (shape data : list N) : OpoiExpertResult :=
  mkOpoiExpertResult "r" 0 4 3 expert_id 0 "" (mkExpertOutputWire shape (f32_to_hex data)).
Definition toy_hex_error : HexError := {| hex_error _ := "bad hex" |}.

(** ** Lemmas *)

(** *** Bit fields *)

Lemma digits_bounds m : (2 ^ (Zpos (digits2_pos m) - 1) ≤ Zpos m < 2 ^ Zpos (digits2_pos m))%Z.
Proof.
  induction m as [m IH|m IH|]; cbn [digits2_pos]; [| |done].
  1,2: rewrite Pos2Z.inj_succ, Z.sub_1_r, Z.pred_succ;
    replace (Z.pos (digits2_pos m)) with (Z.succ (Z.pos (digits2_pos m) - 1)) at 1 by lia;
    rewrite !Z.pow_succ_r by lia; lia.
Qed.

(** The fields of a pattern assembled from its sign, exponent and mantissa. *)
Lemma fields_of (s : bool) e m : (e < 256)%N → (m < 2 ^ 23)%N →
  let n := (sign_bit s + e * 2 ^ 23 + m)%N in
  (n < 2 ^ 32)%N ∧ N.testbit n 31 = s ∧ N.land (N.shiftr n 23) 255 = e ∧ N.land n (N.ones 23) = m.
Proof.
  intros He Hm n. set (b := N.b2n s).
  assert (Hn : n = ((b * 2 ^ 8 + e) * 2 ^ 23 + m)%N) by (unfold n, sign_bit, b; destruct s; simpl N.b2n; lia).
  assert (Hq : (n / 2 ^ 23 = b * 2 ^ 8 + e)%N) by (symmetry; apply (N.div_unique _ _ _ m); lia).
  assert (b ≤ 1)%N by (unfold b; destruct s; simpl; lia).
  split_and!; [lia| | |].
  - assert (n / 2 ^ 31 = b)%N as Hb.
    { change (2 ^ 31)%N with (2 ^ 23 * 2 ^ 8)%N. rewrite <-N.Div0.div_div, Hq.
      symmetry. apply (N.div_unique _ _ _ e); lia. }
    pose proof (N.testbit_spec' n 31) as Ht. rewrite Hb, N.mod_small in Ht by lia.
    by apply N.b2n_inj.
  - change 255%N with (N.ones 8). rewrite N.land_ones, N.shiftr_div_pow2, Hq.
    symmetry. apply (N.mod_unique _ _ b); lia.
  - rewrite N.land_ones. symmetry. apply (N.mod_unique _ _ (b * 2 ^ 8 + e)); lia.
Qed.

Lemma finite_fields s m e : valid_f32 (S754_finite s m e) →
  ((Npos m < 2 ^ 23)%N ∧ e = (-149)%Z) ∨ ((2 ^ 23 ≤ Npos m < 2 ^ 24)%N ∧ (-149 ≤ e ≤ 104)%Z).
Proof.
  unfold valid_f32, SpecFloat.valid_binary, bounded, canonical_mantissa, fexp, SpecFloat.emin.
  rewrite andb_true_iff, Z.leb_le. intros [Hc He].
  apply Zeq_bool_eq in Hc. pose proof (digits_bounds m) as Hd.
  set (d := digits2_pos m) in *.
  destruct (Z_lt_le_dec (Zpos d) 24) as [Hlt|Hge].
  - left. assert (e = -149)%Z by lia. split; [|done].
    assert (2 ^ Z.pos d ≤ 2 ^ 23)%Z by (apply Z.pow_le_mono_r; lia). lia.
  - right. assert (Zpos d = 24)%Z as Hd24 by lia. rewrite Hd24 in Hd. lia.
Qed.

Lemma f32_bits_inv x : valid_f32 x → (f32_to_bits x < 2 ^ 32)%N ∧ f32_of_bits (f32_to_bits x) = x.
Proof.
  destruct x as [s|s| |s m e]; [by destruct s|by destruct s|done|intros Hv].
  destruct (finite_fields _ _ _ Hv) as [[Hm ->]|[Hm He]]; unfold f32_to_bits.
  - rewrite (proj2 (N.ltb_lt _ _) Hm). destruct (fields_of s 0 (Npos m)) as (Hn & Hs & He & Hl); [lia..|].
    rewrite N.mul_0_l, N.add_0_r in Hn, Hs, He, Hl. split; [done|]. unfold f32_of_bits. by rewrite Hs, He, Hl.
  - rewrite (proj2 (N.ltb_ge _ _)) by lia.
    destruct (fields_of s (Z.to_N (e + 150)) (Npos m - 2 ^ 23)) as (Hn & Hs & Hx & Hl); [lia..|].
    split; [done|]. unfold f32_of_bits. rewrite Hs, Hx, Hl.
    rewrite (proj2 (N.eqb_neq _ 0)), (proj2 (N.eqb_neq _ 255)) by lia.
    rewrite N.sub_add by lia. f_equal. lia.
Qed.

(** *** Hex *)

Lemma f32_to_le_bytes_length data : length (f32_to_le_bytes data) = 4 * length data.
Proof. induction data as [|v data IH]; [done|]. cbn [f32_to_le_bytes mbind list_bind] in *. rewrite length_app. unfold f32_to_le_bytes in IH. rewrite IH. simpl. lia. Qed.

Lemma chunks4_le_bytes data : ∀ fuel, length data ≤ fuel → Forall (λ v, (v < 2 ^ 32)%N) data → chunks4 fuel (f32_to_le_bytes data) = data.
Proof.
  induction data as [|v data IH]; intros [|fuel] Hf Hd; try done; [simpl in Hf; lia|].
  apply Forall_cons in Hd as [Hv Hd].
  change (f32_to_le_bytes (v :: data)) with (u32_le v ++ f32_to_le_bytes data).
  pose proof (le_value_bytes_small 4 v Hv) as Hval. fold (u32_le v) in Hval.
  pose proof (le_bytes_length 4 v) as Hlen. fold (u32_le v) in Hlen.
  destruct (u32_le v) as [|c0 [|c1 [|c2 [|c3 [|]]]]]; try done.
  cbn [app chunks4]. rewrite Hval, IH; [done| |done]. simpl in Hf. lia.
Qed.

Lemma chunks4_spec fuel : ∀ b, length b ≤ fuel → length b `mod` 4 = 0 →
  f32_to_le_bytes (chunks4 fuel b) = b ∧ Forall (λ v, (v < 2 ^ 32)%N) (chunks4 fuel b).
Proof.
  induction fuel as [|fuel IH]; intros b Hl Hm; [destruct b; simpl in *; [by split|lia]|].
  destruct b as [|c0 [|c1 [|c2 [|c3 b]]]]; try (by simpl in Hm).
  cbn [length] in Hl, Hm. destruct (IH b) as [IH1 IH2]; [lia| |].
  { replace (S (S (S (S (length b))))) with (length b + 1 * 4) in Hm by lia. by rewrite Nat.Div0.mod_add in Hm. }
  set (four := [c0; c1; c2; c3]). change (chunks4 (S fuel) (c0 :: c1 :: c2 :: c3 :: b)) with (le_value four :: chunks4 fuel b).
  split; [|apply Forall_cons; split; [apply (le_value_lt four)|done]].
  change (f32_to_le_bytes (le_value four :: chunks4 fuel b)) with (le_bytes (length four) (le_value four) ++ f32_to_le_bytes (chunks4 fuel b)).
  by rewrite le_bytes_value, IH1.
Qed.

Section crypto.
Context `{Crypto, HexError}.

Lemma decodes_inj shape o vs vs' : decodes shape o vs → decodes shape o vs' → vs' = vs.
Proof.
  intros (_ & H1 & B1 & _) (_ & H2 & B2 & _). rewrite H1 in H2. injection H2 as H2.
  set (fuel := length vs + length vs').
  rewrite <-(chunks4_le_bytes vs' fuel), <-H2 by (done || (unfold fuel; lia)). apply chunks4_le_bytes; [unfold fuel; lia|done].
Qed.

Lemma hex_to_f32_encode data : Forall (λ v, (v < 2 ^ 32)%N) data → hex_to_f32 (f32_to_hex data) = Ok data.
Proof.
  intros Hd. unfold hex_to_f32, f32_to_hex. rewrite hex_decode_encode, f32_to_le_bytes_length.
  rewrite (proj2 (Nat.eqb_eq _ _)) by (rewrite Nat.mul_comm; apply Nat.Div0.mod_mul).
  cbn [negb]. by rewrite chunks4_le_bytes by (done || lia).
Qed.

Lemma hex_to_f32_spec h values :
  hex_to_f32 h = Ok values ↔ hex_decode h = Some (f32_to_le_bytes values) ∧ Forall (λ v, (v < 2 ^ 32)%N) values.
Proof.
  unfold hex_to_f32. split.
  - destruct (hex_decode h) as [b|]; [|done]. destruct (Nat.eqb_spec (length b `mod` 4) 0) as [Hm|]; [|done].
    intros [= <-]. destruct (chunks4_spec (length b) b) as [-> ?]; done.
  - intros [-> Hv]. rewrite f32_to_le_bytes_length.
    rewrite (proj2 (Nat.eqb_eq _ _)) by (rewrite Nat.mul_comm; apply Nat.Div0.mod_mul).
    cbn [negb]. by rewrite chunks4_le_bytes by (done || lia).
Qed.

(** *** The combine *)

Lemma add_outcomes_spec shape len outcomes : len = shape_len shape → ∀ acc r,
  add_outcomes shape len acc outcomes = Ok r ↔
  ∃ valuess, Forall2 (decodes shape) outcomes valuess
    ∧ r = fold_left (λ acc p, zip_with (add_scaled p.1) acc p.2) (zip (outcomes.*1) valuess) acc.
Proof.
  intros Hlen. induction outcomes as [|[w o] rest IH]; intros acc r; cbn [add_outcomes].
  { split; [intros [= <-]; exists []; by split|intros (vss & Hf & ->); by inversion Hf]. }
  destruct (decide (eo_shape (er_output o) = shape)) as [Hs|Hs].
  2:{ rewrite bool_decide_eq_false_2 by done. split; [done|]. intros (vss & Hf & _). inversion Hf as [|?? ? ? Hd]; subst.
      by destruct Hd. }
  rewrite bool_decide_eq_true_2 by done. cbn [negb].
  destruct (hex_to_f32 (eo_data_hex (er_output o))) as [values|e] eqn:Hh.
  2:{ split; [done|]. intros (vss & Hf & _). inversion Hf as [|? vs ? ? (_ & Hd & Hv & _)]; subst.
      assert (hex_to_f32 (eo_data_hex (er_output o)) = Ok vs) by (by apply hex_to_f32_spec). congruence. }
  destruct (N.eqb_spec (N.of_nat (length values)) len) as [Hl|Hl]; cbn [negb].
  - rewrite IH. apply hex_to_f32_spec in Hh as Hh'. split.
    + intros (vss & Hf & ->). exists (values :: vss). split; [|done]. constructor; [|done].
      split_and!; [done|apply Hh'|apply Hh'|congruence].
    + intros (vss & Hf & ->). inversion Hf as [|? vs ? vss' (_ & Hd & Hv & _) Hf']; subst. exists vss'. split; [done|].
      assert (hex_to_f32 (eo_data_hex (er_output o)) = Ok vs) by (by apply hex_to_f32_spec). assert (values = vs) as -> by congruence. reflexivity.
  - split; [done|]. intros (vss & Hf & _). inversion Hf as [|? vs ? ? (_ & Hd & Hv & Hn)]; subst.
    assert (hex_to_f32 (eo_data_hex (er_output o)) = Ok vs) by (by apply hex_to_f32_spec). assert (values = vs) as -> by congruence. done.
Qed.

(** Adding whole outputs one after the other is adding up each coordinate. *)
Lemma fold_zip_lookup ps : ∀ acc j x,
  Forall (λ p : f32 * list N, length p.2 = length acc) ps →
  fold_left (λ acc p, zip_with (add_scaled p.1) acc p.2) ps acc !! j = Some x ↔
  ∃ a, acc !! j = Some a ∧ x = fold_left (λ a p, add_scaled p.1 a (nth j p.2 0%N)) ps a.
Proof.
  induction ps as [|[w vs] ps IH]; intros acc j x Hl; cbn [fold_left]; [naive_solver|].
  apply Forall_cons in Hl as [Hvs Hl]. cbn [snd fst] in *. rewrite IH.
  - split.
    + intros (a & Ha & ->). apply lookup_zip_with_Some in Ha as (a0 & v & -> & Ha0 & Hv). exists a0.
      split; [done|]. by rewrite (nth_lookup_Some _ _ _ _ Hv).
    + intros (a & Ha & ->). apply lookup_lt_Some in Ha as Hj. rewrite <-Hvs in Hj.
      apply lookup_lt_is_Some in Hj as [v Hv]. exists (add_scaled w a v).
      split; [apply lookup_zip_with_Some; eauto|]. by rewrite (nth_lookup_Some _ _ _ _ Hv).
  - eapply Forall_impl; [exact Hl|]. intros [w' vs']. cbn. rewrite length_zip_with. lia.
Qed.

Lemma weighted_sum_zip j outcomes valuess : ∀ a,
  fold_left (λ a p, add_scaled p.1 a (nth j p.2 0%N)) (zip (outcomes.*1) valuess) a
  = fold_left (λ a t, add_scaled t.1 a t.2) (zip_with (λ (o : f32 * OpoiExpertResult) vs, (o.1, nth j vs 0%N)) outcomes valuess) a.
Proof. revert valuess. induction outcomes as [|o outcomes IH]; intros [|vs valuess] a; simpl; auto. Qed.

Lemma fold_combined shape outcomes valuess :
  Forall2 (decodes shape) outcomes valuess →
  fold_left (λ acc p, zip_with (add_scaled p.1) acc p.2) (zip (outcomes.*1) valuess)
    (replicate (N.to_nat (shape_len shape)) f32_zero) = combined (shape_len shape) outcomes valuess.
Proof.
  intros Hf. set (len := N.to_nat (shape_len shape)).
  assert (Hl : Forall (λ p : f32 * list N, length p.2 = length (replicate len f32_zero)) (zip (outcomes.*1) valuess)).
  { rewrite length_replicate. clear -Hf. induction Hf as [|o vs ? ? (_ & _ & _ & Hn) _ IH]; constructor; [cbn; lia|done]. }
  apply list_eq. intros j. apply option_eq. intros x. rewrite fold_zip_lookup by done.
  unfold combined. rewrite list_lookup_fmap_Some. split.
  - intros (a & Ha & ->). apply lookup_replicate in Ha as [-> Hj]. exists j. rewrite lookup_seq.
    split; [|done]. by rewrite weighted_sum_zip.
  - intros (k & -> & Hk). apply lookup_seq in Hk as [-> Hj]. exists f32_zero. rewrite lookup_replicate.
    split; [done|]. by rewrite weighted_sum_zip.
Qed.
End crypto.

(** ** Theorems *)

(** The binary32 encoding and decoding are inverse: every [f32] has a 32-bit
    pattern that decodes to it (all NaNs being one value). *)
Theorem f32_bits_roundtrip x : valid_f32 x → (f32_to_bits x < 2 ^ 32)%N ∧ f32_of_bits (f32_to_bits x) = x.
Proof. apply f32_bits_inv. Qed.

(** A tensor survives its hex encoding to the bit, and a hex string decodes
    exactly when it is the hex of some tensor's little-endian bytes. *)
Theorem hex_to_f32_roundtrip `{Crypto, HexError} :
  (∀ data, Forall (λ v, (v < 2 ^ 32)%N) data → hex_to_f32 (f32_to_hex data) = Ok data)
  ∧ ∀ h values, hex_to_f32 h = Ok values ↔
      hex_decode h = Some (f32_to_le_bytes values) ∧ Forall (λ v, (v < 2 ^ 32)%N) values.
Proof. split; [apply hex_to_f32_encode|apply hex_to_f32_spec]. Qed.

(** The combine succeeds exactly when every expert's output has the group's
    shape, decodes and has as many floats as the shape says; its result then is,
    coordinate by coordinate, the router-weighted [f32] sum in group order. *)
Theorem combine_weighted_spec `{Crypto, HexError} outcomes out :
  combine_weighted outcomes = Some (Ok out) ↔
  outcomes ≠ [] ∧ (4 * shape_len (eo_shape out) < 2 ^ 63)%N ∧
  ∃ valuess, Forall2 (decodes (eo_shape out)) outcomes valuess
    ∧ eo_data_hex out = f32_to_hex (f32_to_bits <$> combined (shape_len (eo_shape out)) outcomes valuess).
Proof.
  unfold combine_weighted. destruct outcomes as [|[w first] rest]; [by split; [|intros []]|].
  set (outcomes := (w, first) :: rest). split.
  - destruct (N.leb_spec (2 ^ 63) (4 * shape_len (eo_shape (er_output first)))); [done|].
    destruct (add_outcomes _ _ _ outcomes) as [acc|] eqn:Ha; [|done]. intros [= <-]. cbn [eo_shape eo_data_hex].
    apply add_outcomes_spec in Ha as (valuess & Hf & ->); [|done].
    split_and!; [done|done|]. exists valuess. split; [done|]. by rewrite fold_combined.
  - intros (_ & Hlt & valuess & Hf & Hd).
    assert (eo_shape (er_output first) = eo_shape out) as -> by (inversion Hf as [|???? (Hs & _)]; by subst).
    rewrite (proj2 (N.leb_gt _ _)) by done.
    destruct (add_outcomes _ _ _ outcomes) as [acc|] eqn:Ha.
    + apply add_outcomes_spec in Ha as (valuess' & Hf' & ->); [|done].
      rewrite fold_combined by done. assert (valuess' = valuess) as ->.
      { clear -Hf Hf'. revert valuess' Hf'. induction Hf as [|o vs ? ? Hd _ IH]; intros ? Hf'; inversion Hf' as [|? vs' ? ? Hd' Hf'']; subst; [done|].
        f_equal; [by eapply decodes_inj|by apply IH]. }
      rewrite <-Hd. by destruct out.
    + exfalso. assert (∃ acc, add_outcomes (eo_shape out) (shape_len (eo_shape out))
        (replicate (N.to_nat (shape_len (eo_shape out))) f32_zero) outcomes = Ok acc) as [acc Ha'].
      { eexists. apply add_outcomes_spec; [done|]. eauto. }
      congruence.
Qed.

(** A first output whose shape claims more floats than any allocation has makes
    the combine panic, before the data it came with is looked at. *)
Theorem combine_weighted_panics `{Crypto, HexError} w r rest :
  combine_weighted ((w, r) :: rest) = None ↔ (2 ^ 63 ≤ 4 * shape_len (eo_shape (er_output r)))%N.
Proof. unfold combine_weighted. destruct (N.leb_spec (2 ^ 63) (4 * shape_len (eo_shape (er_output r)))); split; auto; [done|lia]. Qed.

Lemma f32_bits_roundtrip_witness :
  f32_to_bits f32_one = 0x3f800000%N ∧ f32_of_bits (f32_to_bits f32_one) = f32_one.
Proof. split; [done|]. by apply (f32_bits_roundtrip f32_one). Defined.
