(* ===== verification/ExpertDispatch.v ===== *)
(** * The expert fan-out and join ([src/opoi/expert_dispatch.rs])

    The dispatcher's maps, the one-shot channels its futures wait on, and the
    futures themselves as an explicit state machine: a group of experts is
    planned and dispatched by [dispatch_and_join]; each expert is a [Task] that
    [poll_task] advances when its channel resolved or its timeout fired; miners'
    replies and disconnects act on the dispatcher between polls.  [step] is one
    event of a process with any number of groups in flight. *)

From S2P Require Export Tensor MinerRegistry World.

Record ExpertAssignmentKey := mkKey {
  k_request_id : string;
  k_layer_start : N;
  k_layer_end : N;
  k_layer_idx : N;
  k_expert_id : N
}.

#[export] Instance key_eq_dec : EqDecision ExpertAssignmentKey.
Proof. solve_decision. Defined.
#[export] Instance key_countable : Countable ExpertAssignmentKey.
Proof.
  apply (inj_countable' (λ k, (k_request_id k, k_layer_start k, k_layer_end k, k_layer_idx k, k_expert_id k))
    (λ '(a, b, c, d, e), mkKey a b c d e)). by intros [].
Defined.

Record SelectedExpert := mkSelectedExpert {
  se_expert_id : N;
  se_weight : f32;
  se_shape : list N;
  se_data : list N
}.

Definition MAX_RETRIES_PER_EXPERT : nat := 2.

(** A one-shot channel, with the dispatch it was made for. *)
Inductive oneshot_state : Type :=
| Open
| Sent (r : OpoiExpertResult)
| Dropped.
Record oneshot := mkOneshot { os_key : ExpertAssignmentKey; os_wallet : string; os_state : oneshot_state }.

(** [pending] holds the sender of a channel: its index among the channels. *)
Record ExpertDispatcher := mkDispatcher {
  assignments : gmap ExpertAssignmentKey string;
  pending : gmap ExpertAssignmentKey nat;
  recent : gmap ExpertAssignmentKey string
}.

(** The dispatcher with what it acts on. *)
Record Disp := mkDisp { d_disp : ExpertDispatcher; d_chans : list oneshot; d_world : World }.

Definition new_dispatcher : ExpertDispatcher := {| assignments := ∅; pending := ∅; recent := ∅ |}.

Definition recent_assignments_for_range `{MapIter} (request_id : string) (layer_start layer_end : N)
    (d : ExpertDispatcher) : list (N * string) :=
  omap (λ k, if bool_decide (k_request_id k = request_id) && (k_layer_start k =? layer_start)%N
                && (k_layer_end k =? layer_end)%N
             then (λ w, (k_expert_id k, w)) <$> recent d !! k else None) (iter_keys (recent d)).

(** ** The maps and channels *)

(** Resolving the channel a sender belongs to; a dropped sender of a channel
    still open makes its receiver fail. *)
Definition resolve (c : nat) (st : oneshot_state) (d : Disp) : Disp :=
  d <| d_chans := alter (λ o, o <| os_state := st |>) c (d_chans d) |>.
Definition drop_sender (key : ExpertAssignmentKey) (d : Disp) : Disp :=
  match pending (d_disp d) !! key with Some c => resolve c Dropped d | None => d end.

(** [assignments.remove(&key); pending.remove(&key)] *)
Definition forget (key : ExpertAssignmentKey) (d : Disp) : Disp :=
  let d' := drop_sender key d in
  d' <| d_disp := (d_disp d') <| assignments := delete key (assignments (d_disp d')) |>
                            <| pending := delete key (pending (d_disp d')) |> |>.

(** The three inserts of [dispatch_one], with a new channel. *)
Definition enter (key : ExpertAssignmentKey) (wallet : string) (d : Disp) : Disp :=
  let d' := drop_sender key d in
  d' <| d_chans := d_chans d' ++ [{| os_key := key; os_wallet := wallet; os_state := Open |}] |>
     <| d_disp := (d_disp d') <| assignments := <[key := wallet]> (assignments (d_disp d')) |>
                            <| pending := <[key := length (d_chans d')]> (pending (d_disp d')) |>
                            <| recent := <[key := wallet]> (recent (d_disp d')) |> |>.

(** The state of the channel a future waits on; a receiver without a sender
    sees it dropped. *)
Definition chan_of (c : nat) (d : Disp) : oneshot_state :=
  match d_chans d !! c with Some o => os_state o | None => Dropped end.

(** ** One dispatch *)

Record Job := mkJob {
  j_request_id : string;
  j_layer_start : N;
  j_layer_end : N;
  j_layer_idx : N;
  j_token_index : N;
  j_model_id : string;
  j_model_gguf_url : string;
  j_model_gguf_sha256 : string
}.
Definition key_of (j : Job) (expert_id : N) : ExpertAssignmentKey :=
  mkKey (j_request_id j) (j_layer_start j) (j_layer_end j) (j_layer_idx j) expert_id.

Definition expert_assign `{Crypto} (j : Job) (sel : SelectedExpert) : OpoiExpertAssign := {|
  ea_request_id := j_request_id j; ea_model_id := j_model_id j;
  ea_layer_start := j_layer_start j; ea_layer_end := j_layer_end j; ea_layer_idx := j_layer_idx j;
  ea_expert_id := se_expert_id sel; ea_token_index := j_token_index j;
  ea_input := ExpertTensor (se_shape sel) (f32_to_hex (se_data sel));
  ea_input_hash := sha256_hex (f32_to_le_bytes (se_data sel));
  ea_model_gguf_url := j_model_gguf_url j; ea_model_gguf_sha256 := j_model_gguf_sha256 j |}.

(** [dispatch_one] up to its await: the channel it waits on. *)
Definition dispatch_one_send `{Crypto} (j : Job) (sel : SelectedExpert) (wallet : string) : M Disp (result nat string) :=
  tx ← gets (λ d, MinerRegistry.get wallet (w_reg (d_world d)));
  match tx with
  | None => mret (Err ("wallet " +:+ wallet +:+ " not connected"))
  | Some tx =>
    let key := key_of j (se_expert_id sel) in
    _ ← modify (enter key wallet);
    sent ← zoom d_world (λ w d, d <| d_world := w |>) (net (net_send tx (MExpertAssign (expert_assign j sel))));
    if (sent : bool) then gets (λ d, Ok (pred (length (d_chans d))))
    else
      _ ← modify (forget key);
      mret (Err ("wallet " +:+ wallet +:+ "'s downstream channel is closed"))
  end.

(** What the await gave: a result, a dropped sender, or the timeout. *)
Inductive awaited : Type :=
| Received (r : OpoiExpertResult)
| SenderDropped
| TimedOut.

(** ... and [dispatch_one] after it. *)
Definition dispatch_one_recv (j : Job) (sel : SelectedExpert) (wallet : string) (o : awaited)
    : M Disp (result OpoiExpertResult string) :=
  _ ← modify (forget (key_of j (se_expert_id sel)));
  mret match o with
       | Received r => Ok r
       | SenderDropped => Err ("expert-result oneshot dropped for wallet " +:+ wallet)
       | TimedOut => Err ("expert dispatch to wallet " +:+ wallet +:+ " timed out after 300s")
       end.

(** ** One expert, with its retries *)

Definition expert_outcome : Type := result (f32 * OpoiExpertResult) string.
Inductive task_state : Type :=
| Waiting (c : nat)
| Done (o : expert_outcome).
Record Task := mkTask {
  t_sel : SelectedExpert;
  t_wallet : string;
  t_group_used : list string;
  t_tried : list string;
  t_attempt : nat;
  t_state : task_state
}.

(** The error arm of [dispatch_one_with_retry]: [left] retries remain. *)
Fixpoint dispatch_failed `{Crypto} (left : nat) (j : Job) (t : Task) (e : string) : M Disp Task :=
  let t := t <| t_tried := t_tried t ++ [t_wallet t] |> <| t_attempt := S (t_attempt t) |> in
  match left with
  | 0 =>
    mret (t <| t_state := Done (Err ("expert_id=" +:+ pretty (se_expert_id (t_sel t)) +:+ " exhausted "
      +:+ pretty MAX_RETRIES_PER_EXPERT +:+ " retries (last error against wallet " +:+ t_wallet t +:+ ": " +:+ e +:+ ")")) |>)
  | S left' =>
    next ← gets (λ d, pick_expert_host 0 (t_group_used t ++ t_tried t) (w_reg (d_world d)));
    match next with
    | None =>
      mret (t <| t_state := Done (Err ("expert_id=" +:+ pretty (se_expert_id (t_sel t))
        +:+ " has no remaining eligible host to retry against after attempt " +:+ pretty (t_attempt t)
        +:+ " (last error: " +:+ e +:+ ")")) |>)
    | Some wallet =>
      let t := t <| t_group_used := t_group_used t ++ [wallet] |> <| t_wallet := wallet |> in
      r ← dispatch_one_send j (t_sel t) wallet;
      match r with
      | Ok c => mret (t <| t_state := Waiting c |>)
      | Err e' => dispatch_failed left' j t e'
      end
    end
  end.
Definition retry `{Crypto} (j : Job) (t : Task) (e : string) : M Disp Task :=
  dispatch_failed (MAX_RETRIES_PER_EXPERT - t_attempt t) j t e.

(** The future's first poll, and any later one; [timed_out] says whether its
    timer has fired.  A resolved channel is looked at before the timer. *)
Definition start_task `{Crypto} (j : Job) (used : list string) (p : SelectedExpert * string) : M Disp Task :=
  let t := {| t_sel := p.1; t_wallet := p.2; t_group_used := used; t_tried := []; t_attempt := 0;
              t_state := Done (Err "") |} in
  r ← dispatch_one_send j p.1 p.2;
  match r with
  | Ok c => mret (t <| t_state := Waiting c |>)
  | Err e => retry j t e
  end.

Definition poll_task `{Crypto} (j : Job) (timed_out : bool) (t : Task) : M Disp Task :=
  match t_state t with
  | Done _ => mret t
  | Waiting c =>
    st ← gets (chan_of c);
    let finish o :=
      r ← dispatch_one_recv j (t_sel t) (t_wallet t) o;
      match r with
      | Ok r => mret (t <| t_state := Done (Ok (se_weight (t_sel t), r)) |>)
      | Err e => retry j t e
      end in
    match st with
    | Sent r => finish (Received r)
    | Dropped => finish SenderDropped
    | Open => if timed_out then finish TimedOut else mret t
    end
  end.

(** ** A group *)

Definition layer_text (j : Job) : string :=
  "[" +:+ pretty (j_layer_start j) +:+ "," +:+ pretty (j_layer_end j) +:+ ")".

(** The up-front host selection. *)
Fixpoint plan_hosts (j : Job) (reg : MinerRegistry) (min_vram_mb_for : N → N) (used_wallets : list string)
    (experts : list SelectedExpert) : result (list (SelectedExpert * string) * list string) string :=
  match experts with
  | [] => Ok ([], used_wallets)
  | sel :: rest =>
    let min_vram := min_vram_mb_for (se_expert_id sel) in
    match pick_expert_host min_vram used_wallets reg with
    | None =>
      Err ("no eligible expert host for expert_id=" +:+ pretty (se_expert_id sel) +:+ " (min_vram_mb=" +:+ pretty min_vram
           +:+ ") at layer " +:+ pretty (j_layer_idx j) +:+ " (range " +:+ layer_text j
           +:+ ") — abandoning whole fan-out group")
    | Some wallet =>
      match plan_hosts j reg min_vram_mb_for (used_wallets ++ [wallet]) rest with
      | Ok (planned, used) => Ok ((sel, wallet) :: planned, used)
      | Err e => Err e
      end
    end
  end.

(** [dispatch_and_join] up to the join barrier: an early error, or the tasks. *)
Definition dispatch_group `{Crypto} (j : Job) (experts : list SelectedExpert) (min_vram_mb_for : N → N)
    (pre_excluded : list string) : M Disp (result (list Task) string) :=
  match experts with
  | [] => mret (Err "dispatch_and_join called with an empty expert list")
  | _ =>
    if (j_layer_idx j <? j_layer_start j)%N || (j_layer_end j <=? j_layer_idx j)%N
    then mret (Err ("dispatch_and_join called with layer_idx=" +:+ pretty (j_layer_idx j)
                    +:+ " outside its own range " +:+ layer_text j))
    else
      reg ← gets (λ d, w_reg (d_world d));
      match plan_hosts j reg min_vram_mb_for pre_excluded experts with
      | Err e => mret (Err e)
      | Ok (planned, used) => tasks ← mapM (start_task j used) planned; mret (Ok tasks)
      end
  end.

(** [join_all]: the outcomes, once every task is done. *)
Definition join_all (tasks : list Task) : option (list expert_outcome) :=
  mapM (λ t, match t_state t with Done o => Some o | Waiting _ => None end) tasks.

Fixpoint successes (outcomes : list expert_outcome) : result (list (f32 * OpoiExpertResult)) string :=
  match outcomes with
  | [] => Ok []
  | Ok p :: rest => match successes rest with Ok l => Ok (p :: l) | Err e => Err e end
  | Err e :: _ => Err ("expert dispatch failed, whole fan-out group abandoned: " +:+ e)
  end.

(** ... and after it; [None] is the panic of [combine_weighted]. *)
Definition join_group `{Crypto, HexError} (outcomes : list expert_outcome) : option (result ExpertOutputWire string) :=
  match successes outcomes with
  | Err e => Some (Err e)
  | Ok l => combine_weighted l
  end.

(** ** The handlers *)

Definition result_key (r : OpoiExpertResult) : ExpertAssignmentKey :=
  mkKey (er_request_id r) (er_layer_start r) (er_layer_end r) (er_layer_idx r) (er_expert_id r).

Definition handle_expert_result (wallet : string) (r : OpoiExpertResult) : M Disp (result () AppError) :=
  let key := result_key r in
  assigned ← gets (λ d, assignments (d_disp d) !! key);
  match assigned with
  | None => mret (Err UnknownRequest)
  | Some w =>
    if negb (bool_decide (w = wallet)) then mret (Err NotAssignedToCaller)
    else
      sender ← gets (λ d, pending (d_disp d) !! key);
      match sender with
      | None => mret (Ok ())
      | Some c =>
        _ ← modify (λ d, d <| d_disp := (d_disp d) <| pending := delete key (pending (d_disp d)) |> |>);
        _ ← modify (resolve c (Sent r));
        mret (Ok ())
      end
  end.

Definition on_disconnect `{MapIter} (wallet : string) : M Disp () :=
  stale ← gets (λ d, filter (λ k, assignments (d_disp d) !! k = Some wallet) (iter_keys (assignments (d_disp d))));
  for_each (λ k, modify (forget k)) stale.

(** ** A process with any number of groups in flight *)

Record Group := mkGroup { g_job : Job; g_pre_excluded : list string; g_tasks : list Task }.
Record System := mkSystem { s_disp : Disp; s_groups : list Group }.

Inductive event : Type :=
| EStart (j : Job) (experts : list SelectedExpert) (min_vram_mb_for : N → N) (pre_excluded : list string)
| EPoll (g i : nat) (timed_out : bool)
| EReply (wallet : string) (r : OpoiExpertResult)
| EDisconnect (wallet : string)
| ERegistry (f : MinerRegistry → MinerRegistry)
| EClose (tx : chan).

Definition step `{Crypto, MapIter} (s : System) (e : event) : System :=
  match e with
  | EStart j experts min_vram pre =>
    match dispatch_group j experts min_vram pre (s_disp s) with
    | (Ok tasks, d) => {| s_disp := d; s_groups := s_groups s ++ [mkGroup j pre tasks] |}
    | (Err _, d) => s <| s_disp := d |>
    end
  | EPoll g i timed_out =>
    match s_groups s !! g with
    | None => s
    | Some gr =>
      match g_tasks gr !! i with
      | None => s
      | Some t =>
        let '(t', d) := poll_task (g_job gr) timed_out t (s_disp s) in
        {| s_disp := d; s_groups := <[g := gr <| g_tasks := <[i := t']> (g_tasks gr) |>]> (s_groups s) |}
      end
    end
  | EReply wallet r => s <| s_disp := (handle_expert_result wallet r (s_disp s)).2 |>
  | EDisconnect wallet => s <| s_disp := (on_disconnect wallet (s_disp s)).2 |>
  | ERegistry f => s <| s_disp := (s_disp s) <| d_world := (reg f (d_world (s_disp s))).2 |> |>
  | EClose tx =>
    s <| s_disp := (s_disp s) <| d_world := (d_world (s_disp s)) <| w_net := (w_net (d_world (s_disp s)))
           <| open_chans := open_chans (w_net (d_world (s_disp s))) ∖ {[tx]} |> |> |> |>
  end.
Definition run `{Crypto, MapIter} (s : System) (evs : list event) : System := fold_left step evs s.
Definition fresh_system (w : World) : System := mkSystem (mkDisp new_dispatcher [] w) [].

(** ** What is to hold *)

(** A wallet that may host an expert: connected, not banned, with the VRAM,
    and not among the excluded. *)
Definition eligible (reg : MinerRegistry) (min_vram : N) (excluded : list string) (w : string) : Prop :=
  ∃ v, expert_capable_vram reg !! w = Some v ∧ (min_vram ≤ v)%N ∧ w ∈ (inner reg).*1
       ∧ (w ∉ banned reg) ∧ w ∉ excluded.

(** [a] was put on a wire for dispatch [k]. *)
Definition assign_key (a : OpoiExpertAssign) : ExpertAssignmentKey :=
  mkKey (ea_request_id a) (ea_layer_start a) (ea_layer_end a) (ea_layer_idx a) (ea_expert_id a).
Definition offered (d : Disp) (k : ExpertAssignmentKey) : Prop :=
  ∃ tx a, (tx, MExpertAssign a) ∈ sent (w_net (d_world d)) ∧ assign_key a = k.

(** The dispatcher's maps agree with its channels, given the events so far; the
    channel [x], if any, is of a dispatch whose line is not sent yet. *)
Record disp_wf_but (x : option nat) (evs : list event) (d : Disp) : Prop := {
  wf_pending k c : pending (d_disp d) !! k = Some c →
    ∃ w, d_chans d !! c = Some (mkOneshot k w Open) ∧ assignments (d_disp d) !! k = Some w;
  wf_sent c o r : d_chans d !! c = Some o → os_state o = Sent r →
    result_key r = os_key o ∧ EReply (os_wallet o) r ∈ evs;
  wf_live c o : d_chans d !! c = Some o → os_state o ≠ Dropped → Some c ≠ x → offered d (os_key o)
}.
Abbreviation disp_wf := (disp_wf_but None).

(** What other futures rely on: channels keep their dispatch, lines stay sent. *)
Record later (d d' : Disp) : Prop := {
  later_chan c k w st : d_chans d !! c = Some (mkOneshot k w st) → ∃ st', d_chans d' !! c = Some (mkOneshot k w st');
  later_sent x : x ∈ sent (w_net (d_world d)) → x ∈ sent (w_net (d_world d'))
}.

(** A task agrees with the channel it waits on, and its success with a reply. *)
Record task_wf (evs : list event) (d : Disp) (j : Job) (pre : list string) (t : Task) : Prop := {
  wf_used w : w ∈ pre → w ∈ t_group_used t;
  wf_wallet : t_wallet t ∉ pre;
  wf_waiting c : t_state t = Waiting c → ∃ st, d_chans d !! c = Some (mkOneshot (key_of j (se_expert_id (t_sel t))) (t_wallet t) st);
  wf_done wt r : t_state t = Done (Ok (wt, r)) →
    wt = se_weight (t_sel t) ∧ result_key r = key_of j (se_expert_id (t_sel t))
    ∧ EReply (t_wallet t) r ∈ evs ∧ offered d (result_key r)
}.
Definition system_wf (evs : list event) (s : System) : Prop :=
  disp_wf evs (s_disp s)
  ∧ ∀ g t, g ∈ s_groups s → t ∈ g_tasks g → task_wf evs (s_disp s) (g_job g) (g_pre_excluded g) t.

(** A fleet of three expert hosts, its channels open; three more registrations
    would change nothing in what follows. *)
Definition host_registry : MinerRegistry :=
  fold_left (λ r p, mark_expert_capable p.1 8000 (register p.1 p.2 r)) [("a", 0%N); ("b", 1%N); ("c", 2%N)] new_registry.
Definition host_world : World := {|
  w_csd := []; w_db := empty_db []; w_reg := host_registry; w_net := mkNet {[0; 1; 2]}%N [] |}.
Definition sample_job : Job := mkJob "r" 0 4 3 0 "m" "url" "sha".
Definition sample_expert (id : N) : SelectedExpert := mkSelectedExpert id f32_one [1%N] [f32_to_bits f32_one].

Definition capped (n : nat) : nat := n `min` MAX_RETRIES_PER_EXPERT.
(** From [t] at [d] to [t'] at [d']: the same expert, a longer exclusion list, and
    at most one line per counted failure that still had a retry left. *)
Record continues (t : Task) (d : Disp) (t' : Task) (d' : Disp) : Prop := {
  cont_sel : t_sel t' = t_sel t;
  cont_used : ∃ more, t_group_used t' = t_group_used t ++ more;
  cont_wallet : t_attempt t' = t_attempt t → t_wallet t' = t_wallet t;
  cont_sent : ∃ l, sent (w_net (d_world d')) = sent (w_net (d_world d)) ++ l
                   ∧ length l + capped (t_attempt t) ≤ capped (t_attempt t')
}.

(** A group of one: planned on host "a", answered by it. *)
Definition sample_events `{Crypto} : list event :=
  [EStart sample_job [sample_expert 7] (λ _, 0%N) []; EReply "a" (sample_output 7 [1%N] [f32_to_bits f32_one]); EPoll 0 0 false].


(** ** Lemmas *)

Lemma pick_expert_host_Some min_vram excl reg w : pick_expert_host min_vram excl reg = Some w → eligible reg min_vram excl w.
Proof.
  unfold pick_expert_host. intros Hh%head_Some_elem_of.
  unfold pick_expert_hosts_top_n in Hh. apply list_elem_of_fmap in Hh as ([w' v] & -> & Hin).
  apply (subseteq_take 1) in Hin. rewrite stable_sort_perm in Hin.
  apply list_elem_of_filter in Hin as [Hel%expert_eligible_spec Hv%elem_of_map_to_list].
  exists v. destruct Hel as (?&?&?&?). done.
Qed.

Lemma eligible_mono reg mv excl excl' w : (∀ x, x ∈ excl → x ∈ excl') → eligible reg mv excl' w → eligible reg mv excl w.
Proof. intros Hsub (v & ?&?&?&?&?). exists v. set_solver. Qed.

Lemma pick_expert_host_None min_vram excl reg : pick_expert_host min_vram excl reg = None → ∀ w, ¬ eligible reg min_vram excl w.
Proof.
  unfold pick_expert_host, pick_expert_hosts_top_n. intros Hh w (v & Hv & Hel).
  assert ((w, v) ∈ stable_sort vram_order (filter (λ kv, expert_eligible reg min_vram excl kv = true) (map_to_list (expert_capable_vram reg)))) as Hin.
  { rewrite stable_sort_perm, list_elem_of_filter, expert_eligible_spec, elem_of_map_to_list. cbn. tauto. }
  destruct (stable_sort _ _); [by apply not_elem_of_nil in Hin|done].
Qed.

Lemma plan_hosts_Ok j reg mv experts : ∀ used planned used',
  plan_hosts j reg mv used experts = Ok (planned, used') →
  planned.*1 = experts ∧ used' = used ++ planned.*2
  ∧ (∀ sel w, (sel, w) ∈ planned → eligible reg (mv (se_expert_id sel)) used w) ∧ NoDup planned.*2.
Proof.
  induction experts as [|sel rest IH]; intros used planned used'; cbn [plan_hosts].
  { intros [= <- <-]. split_and!; [done|by rewrite app_nil_r|set_solver|constructor]. }
  destruct (pick_expert_host _ used reg) as [w|] eqn:Hp; [|done]. apply pick_expert_host_Some in Hp.
  destruct (plan_hosts _ _ _ _ rest) as [[planned' used'']|] eqn:Hr; [|done]. intros [= <- <-].
  apply IH in Hr as (<- & -> & Hel & Hnd). split_and!; [done|by rewrite <-app_assoc| |].
  - intros sel' w' [[= <- <-]|Hin]%elem_of_cons; [done|]. destruct (Hel _ _ Hin) as (v & ?&?&?&?&?). exists v. set_solver.
  - cbn. constructor; [|done]. intros ([sel' w'] & -> & Hin)%list_elem_of_fmap. destruct (Hel _ _ Hin) as (v & ?&?&?&?&Hx). set_solver.
Qed.

(** A plan fails at the first expert left without a host. *)
Lemma plan_hosts_Err j reg mv experts : ∀ used e,
  plan_hosts j reg mv used experts = Err e →
  ∃ hosts sel, NoDup hosts ∧ experts !! length hosts = Some sel
    ∧ (∀ i sel w, experts !! i = Some sel → hosts !! i = Some w → eligible reg (mv (se_expert_id sel)) used w)
    ∧ ∀ w, ¬ eligible reg (mv (se_expert_id sel)) (used ++ hosts) w.
Proof.
  induction experts as [|sel rest IH]; intros used e; cbn [plan_hosts]; [done|].
  destruct (pick_expert_host _ used reg) as [w|] eqn:Hp.
  - apply pick_expert_host_Some in Hp. destruct (plan_hosts _ _ _ _ rest) as [[planned' used'']|e'] eqn:Hr; [done|].
    intros [= ->]. apply IH in Hr as (hosts & sel' & Hnd & Hlk & Hel & Hno). exists (w :: hosts), sel'. split_and!.
    + constructor; [|done]. intros [n Hn]%list_elem_of_lookup_1. apply lookup_lt_Some in Hlk as Hlt. apply lookup_lt_Some in Hn as Hltn.
      destruct (lookup_lt_is_Some_2 rest n) as [seln Hseln]; [lia|].
      destruct (Hel _ _ _ Hseln Hn) as (v & ?&?&?&?&?). set_solver.
    + done.
    + intros [|i] sel0 w0; cbn; [by intros [= ->] [= ->]|]. intros H1 H2. eapply eligible_mono; [|by eapply Hel]. set_solver.
    + by rewrite <-app_assoc in Hno.
  - intros _. exists [], sel. split_and!; [constructor|done|done|]. rewrite app_nil_r. by apply pick_expert_host_None.
Qed.

#[export] Instance later_preorder : PreOrder later.
Proof.
  split; [intros d; split; eauto|]. intros d1 d2 d3 [C1 S1] [C2 S2]. split; [|auto].
  intros c k w st (st' & H)%C1. by apply C2 in H.
Qed.

Lemma offered_later d d' k : later d d' → offered d k → offered d' k.
Proof. intros [_ Hs] (tx & a & Hin & Hk). exists tx, a. auto. Qed.

Lemma task_wf_later evs evs' d d' j pre t : later d d' → evs ⊆ evs' → task_wf evs d j pre t → task_wf evs' d' j pre t.
Proof.
  intros Hl He [U W A D]. split; [done|done| |].
  - intros c (st & Hc)%A. by apply (later_chan _ _ Hl) in Hc.
  - intros wt r (-> & Hk & Hin & Ho)%D. split_and!; [done|done|by apply He|by eapply offered_later].
Qed.

Lemma disp_wf_events x evs evs' d : evs ⊆ evs' → disp_wf_but x evs d → disp_wf_but x evs' d.
Proof. intros He [P S L]. split; [done| |done]. intros c o r Ho Hs. destruct (S c o r Ho Hs). auto. Qed.

Lemma alter_lookup (c c' : nat) st (l : list oneshot) o :
  alter (λ o, o <| os_state := st |>) c l !! c' = Some o →
  ∃ o0, l !! c' = Some o0 ∧ os_key o = os_key o0 ∧ os_wallet o = os_wallet o0
        ∧ os_state o = (if decide (c' = c) then st else os_state o0).
Proof.
  intros H. destruct (decide (c' = c)) as [->|Hne].
  - rewrite list_lookup_alter_eq in H. destruct (l !! c) as [o0|]; [|done]. injection H as <-. by exists o0.
  - rewrite list_lookup_alter_ne in H by done. by exists o.
Qed.

Lemma resolve_chans c st d : d_chans (resolve c st d) = alter (λ o, o <| os_state := st |>) c (d_chans d).
Proof. done. Qed.

(** *** The channel and map operations keep the invariant *)

Lemma drop_sender_later k d : later d (drop_sender k d).
Proof.
  unfold drop_sender. destruct (pending (d_disp d) !! k) as [c|]; [|reflexivity]. split; [|done].
  intros c' k' w st H. rewrite resolve_chans. destruct (decide (c' = c)) as [->|]; [rewrite list_lookup_alter_eq, H; eauto|].
  rewrite list_lookup_alter_ne by done. eauto.
Qed.

(** Dropping the sender of a key leaves every other key's channel alone. *)
Lemma drop_sender_other x evs k d k' c :
  disp_wf_but x evs d → k' ≠ k → pending (d_disp d) !! k' = Some c →
  ∃ w, d_chans (drop_sender k d) !! c = Some (mkOneshot k' w Open) ∧ assignments (d_disp d) !! k' = Some w.
Proof.
  intros Hwf Hne Hp. destruct (wf_pending _ _ _ Hwf _ _ Hp) as (w & Hc & Ha). exists w. split; [|done].
  unfold drop_sender. destruct (pending (d_disp d) !! k) as [c0|] eqn:Hk; [|done]. rewrite resolve_chans.
  destruct (wf_pending _ _ _ Hwf _ _ Hk) as (w0 & Hc0 & _).
  rewrite list_lookup_alter_ne; [done|]. intros ->. rewrite Hc in Hc0. congruence.
Qed.

Lemma drop_sender_chan k d c o : d_chans (drop_sender k d) !! c = Some o → os_state o ≠ Dropped →
  d_chans d !! c = Some o ∧ pending (d_disp d) !! k ≠ Some c.
Proof.
  unfold drop_sender. destruct (pending (d_disp d) !! k) as [c0|]; [|done]. rewrite resolve_chans. intros H Hs.
  destruct (decide (c = c0)) as [->|Hne].
  - rewrite list_lookup_alter_eq in H. destruct (d_chans d !! c0); [|done]. by injection H as <-.
  - rewrite list_lookup_alter_ne in H by done. split; [done|congruence].
Qed.

Lemma drop_sender_disp k d : d_disp (drop_sender k d) = d_disp d ∧ d_world (drop_sender k d) = d_world d.
Proof. unfold drop_sender. by destruct (pending (d_disp d) !! k). Qed.

Lemma forget_later k d : later d (forget k d).
Proof. destruct (drop_sender_later k d) as [C S]. by split. Qed.

Lemma forget_wf x evs k d :
  disp_wf_but x evs d → (∀ c, x = Some c → pending (d_disp d) !! k = Some c) → disp_wf evs (forget k d).
Proof.
  intros Hwf Hx. destruct (drop_sender_disp k d) as [Hd Hw].
  assert (Hch : ∀ c o, d_chans (forget k d) !! c = Some o → os_state o ≠ Dropped →
                       d_chans d !! c = Some o ∧ pending (d_disp d) !! k ≠ Some c) by apply drop_sender_chan.
  split.
  - intros k' c. change (pending (d_disp (forget k d))) with (delete k (pending (d_disp (drop_sender k d)))).
    change (assignments (d_disp (forget k d))) with (delete k (assignments (d_disp (drop_sender k d)))).
    rewrite Hd. intros [Hne Hp]%lookup_delete_Some. rewrite lookup_delete_ne by done.
    by eapply drop_sender_other.
  - intros c o r H Hs. destruct (Hch c o H) as [H' _]; [by rewrite Hs|]. by eapply wf_sent.
  - intros c o H Hs _. destruct (Hch c o H Hs) as [H' Hne]. eapply offered_later; [apply forget_later|].
    eapply wf_live; [done..|]. intros Hc. by rewrite (Hx c) in Hne.
Qed.

Lemma enter_eq k w d :
  d_chans (enter k w d) = d_chans (drop_sender k d) ++ [mkOneshot k w Open]
  ∧ pending (d_disp (enter k w d)) = <[k := length (d_chans (drop_sender k d))]> (pending (d_disp (drop_sender k d)))
  ∧ assignments (d_disp (enter k w d)) = <[k := w]> (assignments (d_disp (drop_sender k d))).
Proof. done. Qed.

Lemma enter_later k w d : later d (enter k w d).
Proof.
  destruct (drop_sender_later k d) as [C S]. split; [|exact S]. intros c k' w' st (st' & H)%C. exists st'.
  rewrite (proj1 (enter_eq k w d)). by rewrite lookup_app_l by by apply lookup_lt_Some in H.
Qed.

Lemma enter_chan k w d :
  pending (d_disp (enter k w d)) !! k = Some (length (d_chans d))
  ∧ d_chans (enter k w d) !! length (d_chans d) = Some (mkOneshot k w Open)
  ∧ length (d_chans (enter k w d)) = S (length (d_chans d)).
Proof.
  assert (length (d_chans (drop_sender k d)) = length (d_chans d)) as Hl.
  { unfold drop_sender. destruct (pending (d_disp d) !! k); [|done]. rewrite resolve_chans. apply length_alter. }
  destruct (enter_eq k w d) as (-> & -> & _). rewrite lookup_insert_eq, Hl. split_and!; [done| |].
  - by rewrite list_lookup_middle by (symmetry; exact Hl).
  - rewrite length_app, Hl. simpl. lia.
Qed.

Lemma enter_wf evs k w d : disp_wf evs d → disp_wf_but (Some (length (d_chans d))) evs (enter k w d).
Proof.
  intros Hwf. destruct (drop_sender_disp k d) as [Hd Hw]. destruct (enter_chan k w d) as (Hp0 & Hc0 & Hl0).
  assert (Hnew : ∀ c o, d_chans (enter k w d) !! c = Some o → os_state o ≠ Dropped → c = length (d_chans d) ∧ o = mkOneshot k w Open ∨ d_chans d !! c = Some o).
  { intros c o H Hs. destruct (decide (c = length (d_chans d))) as [->|Hne]; [left; split; congruence|right].
    apply lookup_lt_Some in H as Hlt. rewrite Hl0 in Hlt. rewrite (proj1 (enter_eq k w d)), lookup_app_l in H.
    - by apply drop_sender_chan in H as [H _].
    - unfold drop_sender. destruct (pending (d_disp d) !! k); rewrite ?resolve_chans, ?length_alter; lia. }
  split.
  - intros k' c. destruct (decide (k' = k)) as [->|Hne].
    + rewrite Hp0. intros [= <-]. exists w. split; [done|].
      destruct (enter_eq k w d) as (_ & _ & ->). by rewrite lookup_insert_eq.
    + destruct (enter_eq k w d) as (-> & -> & ->). rewrite !lookup_insert_ne, Hd by done. intros Hp.
      destruct (drop_sender_other _ _ _ _ _ _ Hwf Hne Hp) as (w' & Hc & Ha). exists w'. split; [|done].
      by rewrite lookup_app_l by by apply lookup_lt_Some in Hc.
  - intros c o r H Hs. destruct (Hnew c o H) as [[_ ->]|H']; [by rewrite Hs|done|]. by eapply wf_sent.
  - intros c o H Hs Hne. destruct (Hnew c o H Hs) as [[-> _]|H']; [done|].
    eapply offered_later; [apply enter_later|]. by eapply wf_live.
Qed.

Lemma disp_wf_world x evs d W :
  disp_wf_but x evs d → (∀ y, y ∈ sent (w_net (d_world d)) → y ∈ sent (w_net W)) →
  disp_wf_but x evs (d <| d_world := W |>) ∧ later d (d <| d_world := W |>).
Proof.
  intros Hwf Hs. assert (Hl : later d (d <| d_world := W |>)) by (split; [by eauto|exact Hs]).
  split; [|done]. split; [apply Hwf|apply Hwf|].
  intros c o Hc Ho Hx. eapply offered_later; [exact Hl|]. by eapply wf_live.
Qed.

Lemma disp_wf_offer c evs d o :
  disp_wf_but (Some c) evs d → d_chans d !! c = Some o → offered d (os_key o) → disp_wf evs d.
Proof.
  intros Hwf Hc Ho. split; [apply Hwf|apply Hwf|]. intros c' o' Hc' Hs _.
  destruct (decide (c' = c)) as [->|]; [by rewrite Hc in Hc'; injection Hc' as <-|].
  eapply wf_live; [done..|congruence].
Qed.

Section dispatch.
Context `{Crypto}.

Lemma dispatch_one_send_spec evs j sel w d :
  disp_wf evs d →
  let r := dispatch_one_send j sel w d in
  disp_wf evs r.2 ∧ later d r.2
  ∧ ∀ c, r.1 = Ok c → d_chans r.2 !! c = Some (mkOneshot (key_of j (se_expert_id sel)) w Open).
Proof.
  intros Hwf. unfold dispatch_one_send. rewrite bind_run. cbv beta iota zeta delta [gets].
  destruct (MinerRegistry.get w (w_reg (d_world d))) as [tx|]; [|by split_and!].
  set (k := key_of j (se_expert_id sel)). rewrite !bind_run. cbv beta iota zeta delta [modify].
  destruct (enter_chan k w d) as (Hp & Hc & Hlen). pose proof (enter_wf evs k w d Hwf) as Hwf1.
  pose proof (enter_later k w d) as Hl1. set (d1 := enter k w d) in *. clearbody d1.
  unfold zoom, net, net_send. rewrite bind_run. unfold zoom.
  case_bool_decide as Hopen; cbv beta iota.
  - set (W := _ <| w_net := _ |>). destruct (disp_wf_world _ _ _ W Hwf1) as [Hwf2 Hl2].
    { intros y Hy. apply elem_of_app. by left. }
    unfold gets. cbn [fst snd]. split_and!; [|by etrans|].
    + eapply disp_wf_offer; [exact Hwf2|exact Hc|]. exists tx, (expert_assign j sel). split; [|done].
      apply elem_of_app. right. set_solver.
    + intros c Hok. assert (c = length (d_chans d)) as -> by (injection Hok as <-; exact (f_equal pred Hlen)). exact Hc.
  - set (d2 := d1 <| d_world := _ |>). assert (d2 = d1) as -> by (unfold d2; by destruct d1 as [? ? [? ? ? []]]).
    rewrite bind_run. cbv beta iota. cbn [fst snd mret M_ret]. split_and!; [|by etrans; [|apply forget_later]|done].
    eapply forget_wf; [exact Hwf1|]. by intros c [= <-].
Qed.

(** A task that failed for good, or waits on a channel just made for it. *)
Lemma task_wf_failed evs d j pre t e :
  (∀ w, w ∈ pre → w ∈ t_group_used t) → t_wallet t ∉ pre → task_wf evs d j pre (t <| t_state := Done (Err e) |>).
Proof. intros Hu Hw. by split. Qed.

Lemma task_wf_waiting evs d j pre t c :
  (∀ w, w ∈ pre → w ∈ t_group_used t) → t_wallet t ∉ pre →
  d_chans d !! c = Some (mkOneshot (key_of j (se_expert_id (t_sel t))) (t_wallet t) Open) →
  task_wf evs d j pre (t <| t_state := Waiting c |>).
Proof. intros Hu Hw Hc. split; [done|done| |done]. intros c' [= <-]. by exists Open. Qed.

Lemma dispatch_failed_spec evs j pre left : ∀ t e d,
  disp_wf evs d → (∀ w, w ∈ pre → w ∈ t_group_used t) → t_wallet t ∉ pre →
  let r := dispatch_failed left j t e d in
  disp_wf evs r.2 ∧ later d r.2 ∧ task_wf evs r.2 j pre r.1.
Proof.
  induction left as [|left IH]; intros t e d Hwf Hu Hw; cbn [dispatch_failed].
  { split_and!; [done|done|]. by apply task_wf_failed. }
  set (t1 := t <| t_tried := _ |> <| t_attempt := _ |>). rewrite bind_run. cbv beta iota zeta delta [gets].
  destruct (pick_expert_host 0 _ _) as [w|] eqn:Hp; [|split_and!; [done|done|by apply task_wf_failed]].
  apply pick_expert_host_Some in Hp as (v & _ & _ & _ & _ & Hex). rewrite bind_run.
  set (t2 := t1 <| t_group_used := _ |> <| t_wallet := _ |>).
  assert (Hu2 : ∀ w', w' ∈ pre → w' ∈ t_group_used t2) by (intros w' Hw'; apply elem_of_app; left; by apply Hu).
  assert (Hw2 : t_wallet t2 ∉ pre).
  { intros Hin. apply Hex, elem_of_app. left. by apply Hu. }
  destruct (dispatch_one_send_spec evs j (t_sel t2) w d Hwf) as (Hwf' & Hl & Hc).
  destruct (dispatch_one_send j (t_sel t2) w d) as [[c|e'] d']; cbn [fst snd] in *.
  - split_and!; [done|done|]. apply task_wf_waiting; [done|done|]. by apply Hc.
  - destruct (IH t2 e' d' Hwf' Hu2 Hw2) as (?&?&?). split_and!; [done|by etrans|done].
Qed.

Lemma retry_spec evs j pre t e d :
  disp_wf evs d → (∀ w, w ∈ pre → w ∈ t_group_used t) → t_wallet t ∉ pre →
  let r := retry j t e d in disp_wf evs r.2 ∧ later d r.2 ∧ task_wf evs r.2 j pre r.1.
Proof. apply dispatch_failed_spec. Qed.

Lemma start_task_spec evs j pre used p d :
  disp_wf evs d → (∀ w, w ∈ pre → w ∈ used) → p.2 ∉ pre →
  let r := start_task j used p d in disp_wf evs r.2 ∧ later d r.2 ∧ task_wf evs r.2 j pre r.1.
Proof.
  intros Hwf Hu Hw. unfold start_task. rewrite bind_run. cbv beta zeta.
  destruct (dispatch_one_send_spec evs j p.1 p.2 d Hwf) as (Hwf' & Hl & Hc).
  destruct (dispatch_one_send j p.1 p.2 d) as [[c|e] d']; cbn [fst snd] in *.
  - split_and!; [done|done|]. apply task_wf_waiting; [done|done|]. by apply Hc.
  - set (t := mkTask _ _ _ _ _ _). destruct (retry_spec evs j pre t e d' Hwf' Hu Hw) as (?&?&?).
    split_and!; [done|by etrans|done].
Qed.

Lemma start_tasks_spec evs j pre used ps : ∀ d,
  disp_wf evs d → (∀ w, w ∈ pre → w ∈ used) → (∀ p, p ∈ ps → p.2 ∉ pre) →
  let r := mapM (start_task j used) ps d in
  disp_wf evs r.2 ∧ later d r.2 ∧ ∀ t, t ∈ r.1 → task_wf evs r.2 j pre t.
Proof.
  induction ps as [|p ps IH]; intros d Hwf Hu Hps; [by split_and!; [| |set_solver]|].
  rewrite mapM_cons_run. destruct (start_task_spec evs j pre used p d Hwf Hu) as (Hwf1 & Hl1 & Ht); [apply Hps; by left|].
  destruct (start_task j used p d) as [t d1]; cbn [fst snd] in *.
  destruct (IH d1 Hwf1 Hu) as (Hwf2 & Hl2 & Hts); [intros; apply Hps; by right|].
  destruct (mapM (start_task j used) ps d1) as [ts d2]; cbn [fst snd] in *.
  split_and!; [done|by etrans|]. intros t' [->|Hin]%elem_of_cons; [by eapply task_wf_later|auto].
Qed.

Lemma poll_task_spec evs j pre b t d :
  disp_wf evs d → task_wf evs d j pre t →
  let r := poll_task j b t d in disp_wf evs r.2 ∧ later d r.2 ∧ task_wf evs r.2 j pre r.1.
Proof.
  intros Hwf Ht. unfold poll_task. destruct (t_state t) as [c|o] eqn:Hst; [|by split_and!].
  rewrite bind_run. cbv beta iota zeta delta [gets]. set (k := key_of j (se_expert_id (t_sel t))).
  assert (Hwf1 : disp_wf evs (forget k d)) by (eapply forget_wf; [exact Hwf|done]).
  pose proof (forget_later k d) as Hl1.
  assert (Hfail : ∀ e, let r := retry j t e (forget k d) in disp_wf evs r.2 ∧ later d r.2 ∧ task_wf evs r.2 j pre r.1).
  { intros e. destruct (retry_spec evs j pre t e (forget k d) Hwf1) as (?&?&?); [apply Ht|apply Ht|].
    split_and!; [done|by etrans|done]. }
  destruct (chan_of c d) as [|r|] eqn:Hc.
  - destruct b; [apply Hfail|by split_and!].
  - destruct (wf_waiting _ _ _ _ _ Ht c Hst) as (st & Hch).
    unfold chan_of in Hc. rewrite Hch in Hc. cbn in Hc. subst st.
    destruct (wf_sent _ _ _ Hwf _ _ r Hch eq_refl) as [Hk Hin]. cbn in Hk, Hin.
    assert (offered d k) as Ho by (eapply (wf_live _ _ _ Hwf _ _ Hch); done).
    cbn [fst snd]. split_and!; [done|done|]. split; [apply Ht|apply Ht|done|].
    intros wt r' Heq. cbn in Heq. injection Heq as <- <-. split_and!; [done|done|done|].
    rewrite Hk. by eapply offered_later.
  - apply Hfail.
Qed.
End dispatch.

Lemma resolve_later c st d : later d (resolve c st d).
Proof.
  split; [|done]. intros c' k w st' H. rewrite resolve_chans.
  destruct (decide (c' = c)) as [->|]; [rewrite list_lookup_alter_eq, H; eauto|].
  rewrite list_lookup_alter_ne by done. eauto.
Qed.

(** Taking a sender out of [pending] and sending a result of its key. *)
Lemma deliver_wf evs w r d c :
  disp_wf evs d → pending (d_disp d) !! result_key r = Some c →
  assignments (d_disp d) !! result_key r = Some w → EReply w r ∈ evs →
  disp_wf evs (resolve c (Sent r) (d <| d_disp := (d_disp d) <| pending := delete (result_key r) (pending (d_disp d)) |> |>)).
Proof.
  intros Hwf Hp Ha Hin. destruct (wf_pending _ _ _ Hwf _ _ Hp) as (w' & Hc & Ha'). assert (w' = w) as -> by congruence.
  set (d1 := d <| d_disp := _ |>). split.
  - intros k c' Hk. change (pending (d_disp (resolve c (Sent r) d1))) with (delete (result_key r) (pending (d_disp d))) in Hk.
    apply lookup_delete_Some in Hk as [Hne Hk]. destruct (wf_pending _ _ _ Hwf _ _ Hk) as (w' & Hc' & Ha2).
    exists w'. split; [|exact Ha2]. rewrite resolve_chans, list_lookup_alter_ne; [done|].
    intros ->. rewrite Hc in Hc'. congruence.
  - intros c' o r' H Hs. apply alter_lookup in H as (o0 & Ho & Hk & Hw & Hst). change (d_chans d1) with (d_chans d) in Ho.
    destruct (decide (c' = c)) as [->|].
    + rewrite Hs in Hst. injection Hst as ->. assert (o0 = mkOneshot (result_key r) w Open) as -> by congruence.
      by rewrite Hk, Hw.
    + rewrite Hk, Hw. eapply (wf_sent _ _ _ Hwf); [done|congruence].
  - intros c' o H Hs _. apply alter_lookup in H as (o0 & Ho & Hk & Hw & Hst). change (d_chans d1) with (d_chans d) in Ho. rewrite Hk.
    eapply (wf_live _ _ _ Hwf); [exact Ho| |done]. destruct (decide (c' = c)) as [->|]; [|congruence].
    assert (o0 = mkOneshot (result_key r) w Open) as -> by congruence. done.
Qed.

Lemma handle_expert_result_wf evs w r d :
  disp_wf evs d → EReply w r ∈ evs →
  disp_wf evs (handle_expert_result w r d).2 ∧ later d (handle_expert_result w r d).2.
Proof.
  intros Hwf Hin. unfold handle_expert_result. rewrite bind_run. cbv beta iota zeta delta [gets].
  destruct (assignments (d_disp d) !! result_key r) as [w'|] eqn:Ha; [|by split].
  case_bool_decide as Hw; [|by split]. subst w'. cbn [negb]. rewrite bind_run. cbv beta iota.
  destruct (pending (d_disp d) !! result_key r) as [c|] eqn:Hp; [|by split].
  rewrite !bind_run. cbv beta iota zeta delta [modify]. cbn [snd]. split; [by apply (deliver_wf _ w)|].
  etrans; [|apply resolve_later]. split; [by eauto|done].
Qed.

Lemma forgets_wf evs ks : ∀ d, disp_wf evs d →
  disp_wf evs (for_each (λ k, modify (forget k)) ks d).2 ∧ later d (for_each (λ k, modify (forget k)) ks d).2.
Proof.
  induction ks as [|k ks IH]; intros d Hwf; [by split|].
  destruct (IH (forget k d)) as [H1 H2]; [by eapply forget_wf|]. split; [exact H1|]. etrans; [apply forget_later|exact H2].
Qed.

Section system.
Context `{Crypto, MapIter}.

Lemma on_disconnect_wf evs w d : disp_wf evs d → disp_wf evs (on_disconnect w d).2 ∧ later d (on_disconnect w d).2.
Proof. intros Hwf. unfold on_disconnect. rewrite bind_run. by apply forgets_wf. Qed.

Lemma dispatch_group_wf evs j experts mv pre d :
  disp_wf evs d → let r := dispatch_group j experts mv pre d in
  disp_wf evs r.2 ∧ later d r.2 ∧ ∀ tasks, r.1 = Ok tasks → ∀ t, t ∈ tasks → task_wf evs r.2 j pre t.
Proof.
  intros Hwf. unfold dispatch_group. destruct experts as [|sel rest]; [by split_and!|].
  destruct (_ || _); [by split_and!|]. rewrite bind_run. cbv beta iota zeta delta [gets].
  destruct (plan_hosts _ _ _ _ _) as [[planned used]|] eqn:Hp; [|by split_and!].
  apply plan_hosts_Ok in Hp as (_ & -> & Hel & _). rewrite bind_run.
  destruct (start_tasks_spec evs j pre (pre ++ planned.*2) planned d Hwf) as (H1 & H2 & H3).
  { intros w Hw. apply elem_of_app. by left. }
  { intros [sel' w] Hin. by destruct (Hel _ _ Hin) as (v & ?&?&?&?&?). }
  destruct (mapM (start_task j (pre ++ planned.*2)) planned d) as [ts d']; cbn [fst snd] in *. split_and!; [done|done|]. intros tasks [= <-]. exact H3.
Qed.

Lemma step_wf evs s e : system_wf evs s → system_wf (evs ++ [e]) (step s e).
Proof.
  intros [Hd Hg]. assert (Hsub : evs ⊆ evs ++ [e]) by set_solver.
  assert (He : e ∈ evs ++ [e]) by set_solver.
  apply (disp_wf_events _ _ _ _ Hsub) in Hd.
  assert (Hg' : ∀ d', later (s_disp s) d' → ∀ g t, g ∈ s_groups s → t ∈ g_tasks g →
                 task_wf (evs ++ [e]) d' (g_job g) (g_pre_excluded g) t).
  { intros d' Hl g t Hin Ht. eapply task_wf_later; eauto. }
  destruct e as [j experts mv pre|g i b|w r|w|f|tx]; cbn [step].
  - destruct (dispatch_group_wf _ j experts mv pre _ Hd) as (H1 & H2 & H3).
    destruct (dispatch_group j experts mv pre (s_disp s)) as [[ts|e] d']; cbn [fst snd] in *; (split; [done|]); cbn.
    + intros g t [Hin| ->%list_elem_of_singleton]%elem_of_app Ht; [by apply Hg'|]. by apply (H3 ts).
    + by apply Hg'.
  - destruct (s_groups s !! g) as [gr|] eqn:Hgr; [|split; [done|by apply Hg']].
    destruct (g_tasks gr !! i) as [t|] eqn:Hti; [|split; [done|by apply Hg']].
    destruct (poll_task_spec _ (g_job gr) (g_pre_excluded gr) b t _ Hd) as (H1 & H2 & H3).
    { apply Hg'; [done|by eapply list_elem_of_lookup_2|by eapply list_elem_of_lookup_2]. }
    destruct (poll_task _ _ _ _) as [t' d']; cbn [fst snd] in *. split; [done|]. cbn.
    intros g' t0 [n Hn]%list_elem_of_lookup_1 Ht0. apply list_lookup_insert_Some in Hn as [(-> & <- & _)|[_ Hn]].
    + apply list_elem_of_lookup_1 in Ht0 as [m Hm]. cbn in Hm. apply list_lookup_insert_Some in Hm as [(-> & <- & _)|[_ Hm]]; [done|].
      apply (Hg' d' H2 gr); [by eapply list_elem_of_lookup_2|by eapply list_elem_of_lookup_2].
    + apply Hg'; [done|by eapply list_elem_of_lookup_2|done].
  - destruct (handle_expert_result_wf _ w r _ Hd He) as [H1 H2]. split; [done|by apply Hg'].
  - destruct (on_disconnect_wf _ w _ Hd) as [H1 H2]. split; [done|by apply Hg'].
  - set (W := (reg f (d_world (s_disp s))).2). destruct (disp_wf_world _ _ _ W Hd) as [H1 H2]; [done|].
    split; [done|by apply Hg'].
  - set (W := _ <| w_net := _ |>). destruct (disp_wf_world _ _ _ W Hd) as [H1 H2]; [done|].
    split; [done|by apply Hg'].
Qed.

Lemma run_wf w evs : system_wf evs (run (fresh_system w) evs).
Proof.
  induction evs as [|e evs IH] using rev_ind.
  - split; [|set_solver]. split; cbn; intros; simplify_eq.
  - unfold run. rewrite fold_left_app. by apply step_wf.
Qed.
End system.

(** *** What a task keeps, and what it may send *)

Lemma dispatch_one_send_sent `{Crypto} j sel w d :
  let r := dispatch_one_send j sel w d in
  w_reg (d_world r.2) = w_reg (d_world d)
  ∧ ∃ l, sent (w_net (d_world r.2)) = sent (w_net (d_world d)) ++ l ∧ length l ≤ 1.
Proof.
  unfold dispatch_one_send. rewrite bind_run. cbv beta iota zeta delta [gets].
  destruct (MinerRegistry.get w (w_reg (d_world d))) as [tx|]; [|split; [done|exists []; rewrite app_nil_r; split; [done|simpl; lia]]].
  set (k := key_of j (se_expert_id sel)). rewrite !bind_run. cbv beta iota zeta delta [modify].
  pose proof (proj2 (drop_sender_disp k d)) as Hw.
  assert (d_world (enter k w d) = d_world d) as Hw1 by exact Hw.
  set (d1 := enter k w d) in *. clearbody d1. unfold zoom, net, net_send. rewrite bind_run. unfold zoom.
  case_bool_decide; cbv beta iota.
  - rewrite Hw1. split; [done|]. eexists. split; [done|]. simpl. lia.
  - rewrite bind_run. cbv beta iota. set (d2 := d1 <| d_world := _ |>).
    assert (d_world d2 = d_world d) as Hw2 by (rewrite <-Hw1; unfold d2; by destruct d1 as [? ? [? ? ? []]]).
    pose proof (proj2 (drop_sender_disp k d2)) as Hw3.
    assert (d_world (forget k d2) = d_world d) as Hw4 by (rewrite <-Hw2; exact Hw3).
    cbn [snd mret M_ret]. rewrite Hw4. split; [done|]. exists []. rewrite app_nil_r. split; [done|simpl; lia].
Qed.

(** Arithmetic on the attempt counters of tasks built by setters. *)
Ltac attempts :=
  repeat match goal with
  | |- context [t_attempt ?x] => let y := eval hnf in (t_attempt x) in progress change (t_attempt x) with y
  end; unfold capped, MAX_RETRIES_PER_EXPERT in *; lia.

Lemma dispatch_failed_continues `{Crypto} j left : ∀ t e d,
  left = MAX_RETRIES_PER_EXPERT - t_attempt t → t_attempt t ≤ MAX_RETRIES_PER_EXPERT →
  let r := dispatch_failed left j t e d in
  continues t d r.1 r.2 ∧ t_attempt t < t_attempt r.1 ≤ S MAX_RETRIES_PER_EXPERT
  ∧ (∀ c, t_state r.1 = Waiting c → t_attempt r.1 ≤ MAX_RETRIES_PER_EXPERT).
Proof.
  assert (Hstay : ∀ (t : Task) tr st (d : Disp), continues t d (t <| t_tried := tr |> <| t_attempt := S (t_attempt t) |> <| t_state := st |>) d).
  { intros [sel0 w0 us0 tr0 att0 st0] tr st d. split; [done|by exists []; rewrite app_nil_r|done|].
    exists []. rewrite app_nil_r. split; [done|]. cbn [length]. attempts. }
  unfold MAX_RETRIES_PER_EXPERT. induction left as [|left IH]; intros [sel0 w0 us0 tr0 att0 st0] e d Hleft Ha;
    cbn [dispatch_failed]; cbn [t_attempt] in Hleft, Ha; set (t := mkTask sel0 w0 us0 tr0 att0 st0).
  { split_and!; [apply Hstay|attempts|attempts|done]. }
  set (t1 := t <| t_tried := _ |> <| t_attempt := _ |>). rewrite bind_run. cbv beta iota zeta delta [gets].
  destruct (pick_expert_host 0 _ _) as [w|] eqn:Hp; [|split_and!; [apply Hstay|attempts|attempts|done]].
  rewrite bind_run. set (t2 := t1 <| t_group_used := _ |> <| t_wallet := _ |>).
  destruct (dispatch_one_send_sent j (t_sel t2) w d) as (_ & l & Hl & Hlen).
  assert (Hat : t_attempt t = att0) by done. assert (Hat2 : t_attempt t2 = S att0) by done.
  assert (Hs2 : t_sel t2 = sel0) by done.
  assert (Hu2 : t_group_used t2 = us0 ++ [w]) by done.
  destruct (dispatch_one_send j (t_sel t2) w d) as [[c|e'] d']; cbn [fst snd] in *.
  - split_and!; [|attempts|attempts|intros _ _; attempts]. split; [done|by exists [w]|intros Hx; exfalso; revert Hx; attempts|].
    exists l. split; [done|]. attempts.
  - destruct (IH t2 e' d') as ([S U W (l2 & Hl2 & Hn2)] & Hlt & Hw); [lia|lia|]. split_and!; [|lia|lia|done]. split.
    + by rewrite S, Hs2.
    + destruct U as [more ->]. rewrite Hu2. exists ([w] ++ more). by rewrite app_assoc.
    + lia.
    + exists (l ++ l2). rewrite Hl2, Hl, app_assoc. split; [done|]. rewrite length_app.
      unfold capped, MAX_RETRIES_PER_EXPERT in *. lia.
Qed.

Lemma poll_task_continues `{Crypto} j b t d :
  (∀ c, t_state t = Waiting c → t_attempt t ≤ MAX_RETRIES_PER_EXPERT) →
  let r := poll_task j b t d in
  continues t d r.1 r.2
  ∧ (∀ c, t_state r.1 = Waiting c → t_attempt r.1 ≤ MAX_RETRIES_PER_EXPERT)
  ∧ (b = true → ∀ c, t_state r.1 = Waiting c → t_attempt t < t_attempt r.1).
Proof.
  intros Ha. assert (Hrefl : ∀ d', d_world d' = d_world d → ∀ st, continues t d (t <| t_state := st |>) d').
  { intros d' Hw st. split; [done|by exists []; rewrite app_nil_r|done|]. exists []. by rewrite app_nil_r, Hw. }
  assert (Hself : continues t d t d).
  { split; [done|by exists []; rewrite app_nil_r|done|]. exists []. by rewrite app_nil_r. }
  unfold poll_task. destruct (t_state t) as [c|o] eqn:Hst.
  2:{ cbn [mret M_ret fst snd]. split_and!; [done|congruence|congruence]. }
  specialize (Ha c eq_refl). rewrite bind_run. cbv beta iota zeta delta [gets].
  set (k := key_of j (se_expert_id (t_sel t))).
  assert (Hw : d_world (forget k d) = d_world d) by exact (proj2 (drop_sender_disp k d)).
  assert (Hfail : ∀ e, let r := retry j t e (forget k d) in continues t d r.1 r.2
     ∧ (∀ c, t_state r.1 = Waiting c → t_attempt r.1 ≤ MAX_RETRIES_PER_EXPERT)
     ∧ (b = true → ∀ c, t_state r.1 = Waiting c → t_attempt t < t_attempt r.1)).
  { intros e. destruct (dispatch_failed_continues j _ t e (forget k d) eq_refl Ha) as ([S U W L] & Hlt & Hc).
    rewrite Hw in L. split_and!; [by split|done|intros _ ? ?; apply Hlt]. }
  destruct (chan_of c d) as [|r|] eqn:Hc.
  - destruct b; [apply Hfail|]. cbn [mret M_ret fst snd]. split_and!; [done|by intros ? _|done].
  - cbn [mret M_ret fst snd]. split_and!; [by apply Hrefl|done|done].
  - apply Hfail.
Qed.

Lemma poll_waiting `{Crypto} j b t d t' d' c :
  poll_task j b t d = (t', d') → t_state t' = Waiting c → ∃ c0, t_state t = Waiting c0.
Proof.
  intros Hp Hw. destruct (t_state t) eqn:Ht; [eauto|]. unfold poll_task in Hp. rewrite Ht in Hp.
  injection Hp as <- <-. congruence.
Qed.

Lemma start_task_continues `{Crypto} j used p d :
  let r := start_task j used p d in
  let t0 := mkTask p.1 p.2 used [] 0 (Done (Err "")) in
  t_sel r.1 = p.1 ∧ (∃ more, t_group_used r.1 = used ++ more) ∧ (t_attempt r.1 = 0 → t_wallet r.1 = p.2)
  ∧ (∀ c, t_state r.1 = Waiting c → t_attempt r.1 ≤ MAX_RETRIES_PER_EXPERT)
  ∧ ∃ l, sent (w_net (d_world r.2)) = sent (w_net (d_world d)) ++ l ∧ length l ≤ 1 + capped (t_attempt r.1).
Proof.
  unfold start_task. rewrite bind_run. cbv beta zeta.
  destruct (dispatch_one_send_sent j p.1 p.2 d) as (_ & l & Hl & Hlen).
  destruct (dispatch_one_send j p.1 p.2 d) as [[c|e] d']; cbn [fst snd] in *.
  - split_and!; [done|by exists []; rewrite app_nil_r|done|cbn; lia|]. exists l. split; [done|lia].
  - set (t := mkTask _ _ _ _ _ _). unfold retry.
    destruct (dispatch_failed_continues j _ t e d' eq_refl) as ([S U W (l2 & Hl2 & Hn2)] & Hlt & Hc); [cbn; lia|].
    split_and!; [exact S|exact U|exact W|exact Hc|]. exists (l ++ l2). rewrite Hl2, Hl, app_assoc. split; [done|].
    rewrite length_app. assert (capped (t_attempt t) = 0) by done. lia.
Qed.

(** *** Groups *)

Lemma start_tasks_continue `{Crypto} j used ps : ∀ d,
  let r := mapM (start_task j used) ps d in
  Forall2 (λ p t, t_sel t = p.1 ∧ (∃ more, t_group_used t = used ++ more) ∧ (t_attempt t = 0 → t_wallet t = p.2)) ps r.1.
Proof.
  induction ps as [|p ps IH]; intros d; [constructor|]. rewrite mapM_cons_run.
  destruct (start_task_continues j used p d) as (H1 & H2 & H3 & _).
  destruct (start_task j used p d) as [t d1]. specialize (IH d1).
  destruct (mapM (start_task j used) ps d1) as [ts d2]. cbn [fst snd] in *. by constructor.
Qed.

Lemma join_all_Some tasks outcomes :
  join_all tasks = Some outcomes ↔ Forall2 (λ t o, t_state t = Done o) tasks outcomes.
Proof.
  unfold join_all. rewrite mapM_Some. split; intros H; (eapply Forall2_impl; [exact H|]); intros t o; cbn; destruct (t_state t); congruence.
Qed.

Lemma successes_Ok outcomes l : successes outcomes = Ok l ↔ outcomes = Ok <$> l.
Proof.
  revert l. induction outcomes as [|[p|e] rest IH]; intros l; cbn [successes].
  - destruct l; split; (done || by intros [= <-]).
  - destruct (successes rest) as [l'|e] eqn:Hs.
    + split; [intros [= <-]; cbn; f_equal; by apply IH|]. destruct l as [|p' l]; [done|]. intros [= -> Hr].
      apply IH in Hr. congruence.
    + split; [done|]. destruct l as [|p' l]; [done|]. intros [= -> Hr]. by apply IH in Hr.
  - split; [done|]. by destruct l.
Qed.

(** *** Forgetting several keys *)

Lemma forget_maps k d :
  assignments (d_disp (forget k d)) = delete k (assignments (d_disp d))
  ∧ pending (d_disp (forget k d)) = delete k (pending (d_disp d))
  ∧ recent (d_disp (forget k d)) = recent (d_disp d) ∧ d_world (forget k d) = d_world d
  ∧ d_chans (forget k d) = d_chans (drop_sender k d).
Proof.
  destruct (drop_sender_disp k d) as [Hd Hw]. split_and!; [| | |exact Hw|done];
    rewrite <-Hd; done.
Qed.

Lemma forgets_maps ks : ∀ d,
  let d' := (for_each (λ k, modify (forget k)) ks d).2 in
  (∀ k, assignments (d_disp d') !! k = if decide (k ∈ ks) then None else assignments (d_disp d) !! k)
  ∧ (∀ k, pending (d_disp d') !! k = if decide (k ∈ ks) then None else pending (d_disp d) !! k)
  ∧ recent (d_disp d') = recent (d_disp d) ∧ d_world d' = d_world d.
Proof.
  induction ks as [|k0 ks IH]; intros d; [by split_and!|].
  change (for_each (λ k, modify (forget k)) (k0 :: ks) d) with (for_each (λ k, modify (forget k)) ks (forget k0 d)).
  destruct (IH (forget k0 d)) as (Ha & Hp & Hr & Hw). destruct (forget_maps k0 d) as (Ea & Ep & Er & Ew & _).
  cbv zeta in *. rewrite Hr, Hw, Er, Ew. split_and!; [| |done|done]; intros k; rewrite ?Ha, ?Hp, ?Ea, ?Ep;
    destruct (decide (k = k0)) as [->|Hne]; rewrite ?lookup_delete_eq, ?lookup_delete_ne by done;
    repeat case_decide; set_solver.
Qed.

Lemma forgets_dropped evs ks : ∀ d c k w,
  disp_wf evs d → d_chans d !! c = Some (mkOneshot k w Dropped) →
  d_chans (for_each (λ k, modify (forget k)) ks d).2 !! c = Some (mkOneshot k w Dropped).
Proof.
  induction ks as [|k0 ks IH]; intros d c k w Hwf Hc; [done|].
  change (for_each (λ k, modify (forget k)) (k0 :: ks) d) with (for_each (λ k, modify (forget k)) ks (forget k0 d)).
  apply IH; [by eapply forget_wf|]. destruct (forget_maps k0 d) as (_ & _ & _ & _ & ->). unfold drop_sender.
  destruct (pending (d_disp d) !! k0) as [c0|] eqn:Hp; [|done]. destruct (wf_pending _ _ _ Hwf _ _ Hp) as (w' & Hc' & _).
  rewrite resolve_chans, list_lookup_alter_ne; [done|]. intros ->. congruence.
Qed.

(** A channel still open is dropped when its key is forgotten, and only then. *)
Lemma forgets_chan evs ks : ∀ d c k w,
  disp_wf evs d → pending (d_disp d) !! k = Some c → assignments (d_disp d) !! k = Some w →
  d_chans (for_each (λ k, modify (forget k)) ks d).2 !! c
  = Some (mkOneshot k w (if decide (k ∈ ks) then Dropped else Open)).
Proof.
  induction ks as [|k0 ks IH]; intros d c k w Hwf Hp Ha.
  { destruct (wf_pending _ _ _ Hwf _ _ Hp) as (w' & Hc & Ha'). rewrite decide_False by set_solver.
    change (d_chans d !! c = Some (mkOneshot k w Open)). congruence. }
  change (for_each (λ k, modify (forget k)) (k0 :: ks) d) with (for_each (λ k, modify (forget k)) ks (forget k0 d)).
  destruct (decide (k = k0)) as [->|Hne].
  - rewrite decide_True by by left. apply (forgets_dropped evs); [by eapply forget_wf|].
    destruct (wf_pending _ _ _ Hwf _ _ Hp) as (w' & Hc & Ha'). assert (w' = w) as -> by congruence.
    destruct (forget_maps k0 d) as (_ & _ & _ & _ & ->). unfold drop_sender. by rewrite Hp, resolve_chans, list_lookup_alter_eq, Hc.
  - destruct (forget_maps k0 d) as (Ea & Ep & _). rewrite (IH (forget k0 d) c k w); [|by eapply forget_wf|by rewrite Ep, lookup_delete_ne|by rewrite Ea, lookup_delete_ne].
    do 2 f_equal. repeat case_decide; set_solver.
Qed.

(** ** Theorems *)


(** Planning a group: it is refused, and nothing is dispatched or recorded,
    when a host is missing for one of its experts (or the call is malformed);
    otherwise every expert gets its own host, the hosts are pairwise distinct,
    eligible and not among the pre-excluded wallets, and no retry may use them. *)
Theorem dispatch_group_spec `{Crypto} j experts mv pre d :
  match dispatch_group j experts mv pre d with
  | (Err _, d') => d' = d
      ∧ (experts = [] ∨ ¬ (j_layer_start j ≤ j_layer_idx j < j_layer_end j)%N
         ∨ ∃ hosts sel, NoDup hosts ∧ experts !! length hosts = Some sel
             ∧ (∀ i sel w, experts !! i = Some sel → hosts !! i = Some w →
                  eligible (w_reg (d_world d)) (mv (se_expert_id sel)) pre w)
             ∧ ∀ w, ¬ eligible (w_reg (d_world d)) (mv (se_expert_id sel)) (pre ++ hosts) w)
  | (Ok tasks, d') =>
      t_sel <$> tasks = experts
      ∧ ∃ hosts, NoDup hosts ∧ length hosts = length experts
          ∧ (∀ i sel w, experts !! i = Some sel → hosts !! i = Some w →
               eligible (w_reg (d_world d)) (mv (se_expert_id sel)) pre w)
          ∧ ∀ i t w, tasks !! i = Some t → hosts !! i = Some w →
               (t_attempt t = 0 → t_wallet t = w) ∧ ∃ more, t_group_used t = pre ++ hosts ++ more
  end.
Proof.
  unfold dispatch_group. destruct experts as [|sel0 rest]; [split; [done|by left]|]. set (experts := sel0 :: rest).
  destruct (_ || _) eqn:Hb.
  { split; [done|]. right. left. apply orb_true_iff in Hb as [Hb%N.ltb_lt|Hb%N.leb_le]; lia. }
  rewrite bind_run. cbv beta iota zeta delta [gets].
  destruct (plan_hosts _ _ _ _ experts) as [[planned used]|e] eqn:Hp; [|split; [done|]; right; right; by apply plan_hosts_Err in Hp].
  apply plan_hosts_Ok in Hp as (Hsel & -> & Hel & Hnd). rewrite bind_run.
  pose proof (start_tasks_continue j (pre ++ planned.*2) planned d) as Hf. cbv zeta in Hf.
  destruct (mapM (start_task j (pre ++ planned.*2)) planned d) as [ts d']. cbn [fst] in Hf. cbn [mret M_ret].
  rewrite Forall2_lookup in Hf. split.
  - rewrite <-Hsel. apply list_eq. intros i. rewrite !list_lookup_fmap. specialize (Hf i).
    destruct Hf as [p t (Ht & _)|]; [|done]. cbn. by rewrite Ht.
  - exists planned.*2. split_and!; [done|by rewrite <-Hsel, !length_fmap| |].
    + intros i sel w Hs Hw. rewrite <-Hsel in Hs. apply list_lookup_fmap_Some in Hs as (p & -> & Hp).
      rewrite list_lookup_fmap, Hp in Hw. injection Hw as <-. apply Hel. rewrite <-surjective_pairing. by eapply list_elem_of_lookup_2.
    + intros i t w Ht Hw. apply list_lookup_fmap_Some in Hw as (p & -> & Hp). specialize (Hf i). rewrite Ht, Hp in Hf.
      inversion Hf as [? ? (_ & [more Hm] & Ha)|]; subst. split; [done|]. exists more. by rewrite Hm, <-app_assoc.
Qed.

(** A reply for a dispatch in flight is accepted from the assigned wallet
    only, and then completes exactly that expert at its next poll, before any
    timeout is considered; from another wallet, or for a key nobody was asked
    for, it is refused and changes nothing. *)
Theorem expert_reply_spec `{Crypto, MapIter} w evs g t c wallet r :
  let s := run (fresh_system w) evs in
  g ∈ s_groups s → t ∈ g_tasks g → t_state t = Waiting c →
  pending (d_disp (s_disp s)) !! result_key r = Some c →
  (wallet = t_wallet t →
     let (res, d') := handle_expert_result wallet r (s_disp s) in
     res = Ok () ∧ ∀ timed_out, t_state (poll_task (g_job g) timed_out t d').1 = Done (Ok (se_weight (t_sel t), r)))
  ∧ (wallet ≠ t_wallet t → handle_expert_result wallet r (s_disp s) = (Err NotAssignedToCaller, s_disp s))
  ∧ (∀ r', assignments (d_disp (s_disp s)) !! result_key r' = None →
       handle_expert_result wallet r' (s_disp s) = (Err UnknownRequest, s_disp s)).
Proof.
  intros s Hg Ht Hst Hp. destruct (run_wf w evs) as [Hd Hwf]. specialize (Hwf g t Hg Ht). fold s in Hd, Hwf.
  destruct (wf_pending _ _ _ Hd _ _ Hp) as (w' & Hc & Ha). destruct (wf_waiting _ _ _ _ _ Hwf c Hst) as (st & Hc').
  assert (w' = t_wallet t) as -> by congruence. split_and!.
  - intros ->. unfold handle_expert_result. rewrite bind_run. cbv beta iota zeta delta [gets].
    rewrite Ha, bool_decide_eq_true_2 by done. cbn [negb]. rewrite bind_run. cbv beta iota. rewrite Hp.
    rewrite !bind_run. cbv beta iota zeta delta [modify mret M_ret]. split; [done|]. intros b.
    unfold poll_task. rewrite Hst, bind_run. cbv beta iota zeta delta [gets].
    assert (chan_of c (resolve c (Sent r) ((s_disp s) <| d_disp := (d_disp (s_disp s)) <| pending := delete (result_key r) (pending (d_disp (s_disp s))) |> |>)) = Sent r) as ->; [|done].
    unfold chan_of. rewrite resolve_chans, list_lookup_alter_eq.
    change (d_chans ((s_disp s) <| d_disp := _ |>)) with (d_chans (s_disp s)). by rewrite Hc.
  - intros Hne. unfold handle_expert_result. rewrite bind_run. cbv beta iota zeta delta [gets].
    by rewrite Ha, bool_decide_eq_false_2 by congruence.
  - intros r' Hn. unfold handle_expert_result. rewrite bind_run. cbv beta iota zeta delta [gets]. by rewrite Hn.
Qed.

(** A disconnect unblocks at once exactly the dispatches expected from the
    leaver: their entries are gone and their channels dropped, while every other
    wallet's entries and channels, and what the topology report reads, stay. *)
Theorem on_disconnect_spec `{Crypto, MapIter} w evs wallet :
  let d := s_disp (run (fresh_system w) evs) in
  let d' := (on_disconnect wallet d).2 in
  recent (d_disp d') = recent (d_disp d) ∧ d_world d' = d_world d
  ∧ ∀ k c, pending (d_disp d) !! k = Some c →
      if decide (assignments (d_disp d) !! k = Some wallet)
      then assignments (d_disp d') !! k = None ∧ pending (d_disp d') !! k = None ∧ chan_of c d' = Dropped
      else assignments (d_disp d') !! k = assignments (d_disp d) !! k ∧ pending (d_disp d') !! k = Some c
           ∧ chan_of c d' = Open.
Proof.
  intros d d'. destruct (run_wf w evs) as [Hwf _]. fold d in Hwf.
  set (stale := filter (λ k, assignments (d_disp d) !! k = Some wallet) (iter_keys (assignments (d_disp d)))).
  assert (d' = (for_each (λ k, modify (forget k)) stale d).2) as -> by done.
  destruct (forgets_maps stale d) as (Ha & Hp & Hr & Hw). split_and!; [exact Hr|exact Hw|]. intros k c Hk.
  destruct (wf_pending _ _ _ Hwf _ _ Hk) as (w' & Hc & Hak).
  pose proof (forgets_chan evs stale d c k w' Hwf Hk Hak) as Hch.
  assert (Hin : k ∈ stale ↔ assignments (d_disp d) !! k = Some wallet).
  { unfold stale. rewrite list_elem_of_filter. split; [by intros []|]. intros H'. split; [done|].
    rewrite (iter_keys_perm (assignments (d_disp d))). apply list_elem_of_fmap. exists (k, wallet). split; [done|].
    by apply elem_of_map_to_list. }
  cbv zeta in Ha, Hp. unfold chan_of. rewrite Hch, Ha, Hp.
  destruct (decide (assignments (d_disp d) !! k = Some wallet)) as [Hyes|Hno].
  - rewrite !decide_True by (by apply Hin). done.
  - rewrite !decide_False by (by rewrite Hin). done.
Qed.

(** C40. Bounded retries: whatever the dispatcher does in between, an expert
    settles after at most three elapsed timeouts, and all its attempts together
    put at most three lines on the wire. *)
Theorem expert_retries_bounded `{Crypto} j used p d0 d1 d2 d3 :
  let '(t0, e0) := start_task j used p d0 in
  let '(t1, e1) := poll_task j true t0 d1 in
  let '(t2, e2) := poll_task j true t1 d2 in
  let '(t3, e3) := poll_task j true t2 d3 in
  let lines d e := length (sent (w_net (d_world e))) - length (sent (w_net (d_world d))) in
  (∃ o, t_state t3 = Done o) ∧ t_sel t3 = p.1
  ∧ lines d0 e0 + lines d1 e1 + lines d2 e2 + lines d3 e3 ≤ 3.
Proof.
  destruct (start_task_continues j used p d0) as (S0 & _ & _ & B0 & l0 & L0 & N0).
  destruct (start_task j used p d0) as [t0 e0]; cbn [fst snd] in *.
  destruct (poll_task_continues j true t0 d1 B0) as ([S1 _ _ (l1 & L1 & N1)] & B1 & G1).
  destruct (poll_task j true t0 d1) as [t1 e1]; cbn [fst snd] in *.
  destruct (poll_task_continues j true t1 d2 B1) as ([S2 _ _ (l2 & L2 & N2)] & B2 & G2).
  destruct (poll_task j true t1 d2) as [t2 e2] eqn:P2; cbn [fst snd] in *.
  destruct (poll_task_continues j true t2 d3 B2) as ([S3 _ _ (l3 & L3 & N3)] & B3 & G3).
  destruct (poll_task j true t2 d3) as [t3 e3] eqn:P3; cbn [fst snd] in *.
  rewrite L0, L1, L2, L3, !length_app. split_and!; [|congruence|unfold capped, MAX_RETRIES_PER_EXPERT in *; lia].
  destruct (t_state t3) as [c|o] eqn:H3; [|eauto]. exfalso. specialize (B3 c eq_refl). specialize (G3 eq_refl c eq_refl).
  destruct (poll_waiting _ _ _ _ _ _ _ P3 H3) as [c2 H2]. destruct (poll_waiting _ _ _ _ _ _ _ P2 H2) as [c1 H1].
  specialize (G2 eq_refl c2 H2). specialize (G1 eq_refl c1 H1). unfold MAX_RETRIES_PER_EXPERT in *. lia.
Qed.

(** The join barrier: a group has an output only when every one of its
    experts answered, combined in the order they were selected; one that failed
    fails the whole group. *)
Theorem join_group_spec `{Crypto, HexError} tasks outcomes :
  join_all tasks = Some outcomes →
  match join_group outcomes with
  | Some (Ok out) => ∃ answers, Forall2 (λ t a, t_state t = Done (Ok a)) tasks answers
                       ∧ combine_weighted answers = Some (Ok out)
  | _ => True
  end
  ∧ ((∃ t e, t ∈ tasks ∧ t_state t = Done (Err e)) → ∃ e, join_group outcomes = Some (Err e)).
Proof.
  rewrite join_all_Some. intros Hf. unfold join_group. split.
  - destruct (successes outcomes) as [l|e] eqn:Hs; [|done]. apply successes_Ok in Hs as ->.
    destruct (combine_weighted l) as [[out|]|] eqn:Hc; [|done..]. exists l. split; [|done].
    by apply Forall2_fmap_r in Hf.
  - intros (t & e & Hin & Ht). destruct (successes outcomes) as [l|e'] eqn:Hs; [|eauto]. exfalso.
    apply successes_Ok in Hs as ->. apply Forall2_fmap_r in Hf. apply list_elem_of_lookup_1 in Hin as [i Hi].
    destruct (Forall2_lookup_l _ _ _ _ _ Hf Hi) as (a & _ & Ha). congruence.
Qed.

(** Two experts of one group whose first hosts time out are retried against the
    same third host: each retry only knows its own claims. *)
Theorem retries_can_collide `{Crypto} : ∃ evs g t1 t2,
  s_groups (run (H0 := key_iter) (fresh_system host_world) evs) = [g] ∧ g_tasks g = [t1; t2]
  ∧ (∃ c1 c2, t_state t1 = Waiting c1 ∧ t_state t2 = Waiting c2) ∧ t_wallet t1 = "c" ∧ t_wallet t2 = "c".
Proof.
  exists [EStart sample_job [sample_expert 0; sample_expert 1] (λ _, 0%N) []; EPoll 0 0 true; EPoll 0 1 true].
  eexists _, _, _. split_and!; [vm_compute; reflexivity|vm_compute; reflexivity| |vm_compute; reflexivity|vm_compute; reflexivity].
  eexists _, _. split; vm_compute; reflexivity.
Qed.



Lemma expert_reply_spec_witness :
  let s := run (H := toy_crypto) (H0 := key_iter) (fresh_system host_world) (take 1 (sample_events (H := toy_crypto))) in
  handle_expert_result "b" (sample_output (H := toy_crypto) 7 [1%N] [f32_to_bits f32_one]) (s_disp s)
  = (Err NotAssignedToCaller, s_disp s).
Proof.
  intros s. eapply (expert_reply_spec (H := toy_crypto) (H0 := key_iter) host_world _ (mkGroup _ _ _) (mkTask _ _ _ _ _ _) 0 "b").
  - vm_compute. by left.
  - vm_compute. by left.
  - vm_compute. reflexivity.
  - vm_compute. reflexivity.
  - done.
Defined.

Lemma join_group_spec_witness :
  let a := (f32_one, sample_output (H := toy_crypto) 7 [1%N] [f32_to_bits f32_one]) in
  let t := mkTask (sample_expert 7) "a" [] [] 0 (Done (Ok a)) in
  ∃ answers, Forall2 (λ t a, t_state t = Done (Ok a)) [t] answers.
Proof.
  intros a t. assert (join_all [t] = Some [Ok a]) as Hj by reflexivity.
  destruct (join_group_spec (H := toy_crypto) (H0 := toy_hex_error) [t] [Ok a] Hj) as [Hok _].
  assert (∃ out, join_group (H := toy_crypto) (H0 := toy_hex_error) [Ok a] = Some (Ok out)) as [out Ho] by (eexists; vm_compute; reflexivity).
  rewrite Ho in Hok. destruct Hok as (answers & Hf & _). by exists answers.
Defined.
