(* ===== verification/ModelSource.v ===== *)
(** * Where a model is downloaded from ([src/opoi/shard_engine.rs]: [ModelSourceConfig])

    A local table wins; otherwise the marketplace is asked and its answers are
    cached for five minutes. *)

From S2P Require Export Json.

Record ModelSource := mkModelSource { ms_gguf_url : string; ms_tokenizer_url : string; ms_tokenizer_sha256 : string }.

Definition parse_model_source : Value → option ModelSource := of_struct (λ s,
  '(a, s) ← field "gguf_url" None of_string s;
  '(b, s) ← field "tokenizer_url" None of_string s;
  '(c, s) ← field "tokenizer_sha256" None of_string s;
  Some (mkModelSource a b c, s)).

(** The marketplace's answer to a GET with the bridge's token. *)
Inductive market_answer : Type :=
| NetworkError
| NotFound
| Entry (body : option Value).

Class Marketplace := { market_get : N → string → string → market_answer }.

Definition MARKETPLACE_CACHE_TTL_MS : N := 300000.

Record MarketplaceClient := mkMarketplace {
  base_url : string;
  token : string;
  cache : gmap string (ModelSource * N)
}.

Record ModelSourceConfig := mkModelSources { sources : gmap string ModelSource; marketplace : option MarketplaceClient }.

(** [s.trim_end_matches('/')] *)
Fixpoint trim_end_slashes (s : string) : string :=
  match s with
  | EmptyString => EmptyString
  | String c rest =>
    let rest' := trim_end_slashes rest in
    if bool_decide (rest' = "") && bool_decide (c = Ascii.ascii_of_nat 47) then EmptyString else String c rest'
  end.

Definition market_url (m : MarketplaceClient) (model_id : string) : string :=
  trim_end_slashes (base_url m) +:+ "/api/models/" +:+ model_id.

(** [MarketplaceClient::resolve] at time [now]. *)
Definition market_resolve `{Marketplace} (now : N) (model_id : string) : M MarketplaceClient (option ModelSource) := λ m,
  match
    match cache m !! model_id with
    | Some (source, since) => if (now - since <? MARKETPLACE_CACHE_TTL_MS)%N then Some source else None
    | None => None
    end
  with
  | Some source => (Some source, m)
  | None =>
    match market_get now (market_url m model_id) (token m) with
    | NetworkError | NotFound | Entry None => (None, m)
    | Entry (Some body) =>
      match parse_model_source body with
      | None => (None, m)
      | Some source => (Some source, m <| cache := <[model_id := (source, now)]> (cache m) |>)
      end
    end
  end.

(** [ModelSourceConfig::resolve] *)
Definition resolve `{Marketplace} (now : N) (model_id : string) : M ModelSourceConfig (option ModelSource) := λ c,
  match sources c !! model_id with
  | Some source => (Some source, c)
  | None =>
    match marketplace c with
    | None => (None, c)
    | Some m => let '(r, m') := market_resolve now model_id m in (r, c <| marketplace := Some m' |>)
    end
  end.

(** A marketplace that has nothing. *)
Definition empty_market : Marketplace := {| market_get _ _ _ := NotFound |}.

(** ** Lemmas *)

(** The local table is never changed, and answers alone for the models it has. *)
Lemma resolve_local `{Marketplace} now model_id c :
  sources (resolve now model_id c).2 = sources c
  ∧ ∀ s, sources c !! model_id = Some s → resolve now model_id c = (Some s, c).
Proof.
  unfold resolve. split.
  - destruct (sources c !! model_id); [done|]. destruct (marketplace c) as [m|]; [|done].
    by destruct (market_resolve now model_id m).
  - by intros s ->.
Qed.

(** What was fetched is served from the cache, without asking, until it is five
    minutes old. *)
Lemma market_resolve_cached `{Marketplace} now later model_id m s m' :
  market_resolve now model_id m = (Some s, m') → cache m !! model_id = None →
  (later - now < MARKETPLACE_CACHE_TTL_MS)%N → market_resolve later model_id m' = (Some s, m').
Proof.
  unfold market_resolve. intros Hr Hn Hl. rewrite Hn in Hr.
  destruct (market_get _ _ _) as [| |[body|]]; try done. destruct (parse_model_source body) as [src|]; [|done].
  assert (src = s) as -> by (apply (f_equal fst) in Hr; cbn [fst] in Hr; congruence).
  apply (f_equal snd) in Hr. cbn [snd] in Hr. subst m'. set (m' := m <| cache := <[model_id := (s, now)]> (cache m) |>).
  assert (cache m' !! model_id = Some (s, now)) as -> by apply lookup_insert_eq.
  by rewrite (proj2 (N.ltb_lt _ _) Hl).
Qed.
