(* ===== verification/Pipeline.v ===== *)
(** * The shard pipeline's data and pure decisions ([src/opoi/shard_engine.rs])

    A request being walked through its model's dense shards, the split of a
    model execution graph, the payout attribution and the on-chain response. *)

From S2P Require Export Wire CsdClient Bytes ModelSource.
From S2P Require Import MinerRegistry Tensor.

Record PrimaryDispatchRecord := mkDispatchRecord {
  pd_shard_index : N;
  pd_layer_start : N;
  pd_layer_end : N;
  pd_moe_layer_step : option N;
  pd_wallet : string;
  pd_token_index : N
}.

Record PipelineState := mkPipeline {
  p_shards : list ShardDescriptor;
  p_manifest : ModelManifest;
  p_prompt_hash : string;
  p_max_tokens : N;
  p_pos : nat;
  p_token_index : N;
  p_current_input : ShardInputWire;
  p_original_prompt_hex : string;
  p_generated_token_ids : list N;
  p_contributions : gmap string N;
  p_expert_groups : gmap (N * N) (list N);
  p_moe_layer_walk : option (N * string);
  p_dispatch_log : list PrimaryDispatchRecord
}.

(** The shard at the pipeline's position, with its bounds; [None] is the panic
    of an index out of range. *)
Definition current_shard (p : PipelineState) : option ShardDescriptor := p_shards p !! p_pos p.
Definition layer_start_of (s : ShardDescriptor) : N := default 0%N (sd_layer_start s).
Definition layer_end_of (s : ShardDescriptor) : N := default 0%N (sd_layer_end s).

Definition expert_group_for (p : PipelineState) (pos : nat) : option (list N) :=
  shard ← p_shards p !! pos;
  ids ← p_expert_groups p !! (layer_start_of shard, layer_end_of shard);
  match ids with [] => None | _ => Some ids end.

Record ShardAssignment := mkShardAssignment {
  as_wallet : string;
  as_shard_index : N;
  as_token_index : N;
  as_moe_layer_step : option N
}.

(** ** The model execution graph *)

Definition is_type (t : string) (s : ShardDescriptor) : bool := bool_decide (sd_shard_type s = t).
Definition by_shard_index (a b : ShardDescriptor) : bool := (sd_shard_index a <=? sd_shard_index b)%N.

Definition split_model_execution_graph (shards : list ShardDescriptor) : list ShardDescriptor * gmap (N * N) (list N) :=
  let dense := stable_sort by_shard_index (filter (λ s, is_type "DENSE" s = true) shards) in
  let expert_groups := fold_left (λ g s,
    let key := (layer_start_of s, layer_end_of s) in
    <[key := default [] (g !! key) ++ [default 0%N (sd_expert_id s)]]> g)
    (filter (λ s, is_type "EXPERT" s = true) shards) ∅ in
  (dense, expert_groups).

(** ** Payout attribution and response *)

(** [iter().max_by_key]: the last of the greatest. *)
Definition max_by_count (l : list (string * N)) : option (string * N) :=
  fold_left (λ best x, match best with
                       | Some b => if (x.2 <? b.2)%N then Some b else Some x
                       | None => Some x
                       end) l None.

Definition select_winning_wallet (contributions : gmap string N) : option string :=
  fst <$> max_by_count (btree_entries contributions).

Definition token_bytes (token_ids : list N) : bytes := id ← token_ids; u32_le id.

Definition build_response `{Crypto} (token_ids : list N) : string * string :=
  (hex_encode (sha256 (token_bytes token_ids)), hex_encode (token_bytes token_ids)).

(** [decode_token_ids_hex] of [src/opoi/b3lite_audit.rs]: the inverse, used by
    the audit replay. *)
Definition decode_token_ids_hex `{Crypto} (h : string) : option (list N) :=
  b ← hex_decode h;
  if (length b `mod` 4 =? 0)%nat then Some (chunks4 (length b) b) else None.

(** ** Topology *)

Record TopologyExpert := mkTopologyExpert { te_expert_id : N; te_wallet : option string; te_vram_mb : option N; te_activated : bool }.
Record TopologyPart := mkTopologyPart {
  tp_kind : string;
  tp_shard_index : N;
  tp_layer_start : N;
  tp_layer_end : N;
  tp_status : string;
  tp_primary_wallet : option string;
  tp_primary_vram_mb : option N;
  tp_experts : list TopologyExpert
}.
Record TopologySnapshot := mkTopologySnapshot {
  ts_request_id : string;
  ts_model_id : string;
  ts_arch_type : string;
  ts_num_layers : N;
  ts_current_pos : nat;
  ts_current_token_index : N;
  ts_parts : list TopologyPart;
  ts_connected_miners : list MinerSnapshot
}.

Definition status_of (idx pos : nat) : string :=
  if (idx <? pos)%nat then "done" else if (idx =? pos)%nat then "current" else "pending".

(** The parts of one shard; [recent] is what the expert dispatcher remembers of
    a range, [vram] a connected wallet's declared VRAM. *)
Definition shard_parts (p : PipelineState) (vram : string → option N) (recent : N → N → list (N * string))
    (idx : nat) (shard : ShardDescriptor) : list TopologyPart :=
  let ls := layer_start_of shard in
  let le := layer_end_of shard in
  let status := status_of idx (p_pos p) in
  let primary := find_first (λ r, (pd_shard_index r =? sd_shard_index shard)%N) (reverse (p_dispatch_log p)) in
  let primary_wallet := pd_wallet <$> primary in
  let experts := match p_expert_groups p !! (ls, le) with Some ids => ids | None => [] end in
  mkTopologyPart "dense" (sd_shard_index shard) ls le status primary_wallet (primary_wallet ≫= vram) []
  :: match experts with
     | [] => []
     | _ =>
       let recent_by_id : gmap N string := fold_left (λ m e, <[e.1 := e.2]> m) (recent ls le) ∅ in
       [mkTopologyPart "expert_group" (sd_shard_index shard) ls le status None None
          ((λ id, let wallet := recent_by_id !! id in
                  mkTopologyExpert id wallet (wallet ≫= vram) (bool_decide (is_Some wallet))) <$> experts)]
     end.

Definition snapshot_of (request_id : string) (p : PipelineState) (miners : list MinerSnapshot)
    (recent : N → N → list (N * string)) : TopologySnapshot :=
  let vram_by_wallet : gmap string N :=
    fold_left (λ m s, match snap_expert_vram_mb s with Some v => <[snap_wallet s := v]> m | None => m end) miners ∅ in
  mkTopologySnapshot request_id (mm_model_id (p_manifest p)) (mm_arch_type (p_manifest p)) (mm_num_layers (p_manifest p))
    (p_pos p) (p_token_index p)
    (mjoin (imap (shard_parts p (λ w, vram_by_wallet !! w) recent) (p_shards p))) miners.

(** The ids an [EXPERT] node of a range contributes. *)
Definition expert_ids_of (key : N * N) (shards : list ShardDescriptor) : list N :=
  (λ s, default 0%N (sd_expert_id s)) <$>
    filter (λ s, is_type "EXPERT" s = true ∧ (layer_start_of s, layer_end_of s) = key) shards.

(** ** Lemmas *)

Lemma key_order_total {V} (x y : string * V) : key_order x y = true ∨ key_order y x = true.
Proof. apply orb_true_iff. unfold key_order. destruct (String.leb_total x.1 y.1) as [-> | ->]; auto using orb_true_r. Qed.

Lemma btree_sorted {V} (m : gmap string V) : StronglySorted (λ a b, key_order a b = true) (btree_entries m).
Proof.
  apply Sorted_StronglySorted; [|apply stable_sort_sorted, key_order_total].
  intros a b c. apply string_leb_trans.
Qed.

Lemma max_by_count_fold l : ∀ b,
  StronglySorted (λ a b : string * N, key_order a b = true) (b :: l) →
  ∃ p, fold_left (λ best x, match best with
                       | Some b => if (x.2 <? b.2)%N then Some b else Some x
                       | None => Some x
                       end) l (Some b) = Some p
    ∧ p ∈ b :: l ∧ ∀ q, q ∈ b :: l → (q.2 < p.2)%N ∨ (q.2 = p.2 ∧ key_order q p = true).
Proof.
  assert (Hrefl : ∀ x : string * N, key_order x x = true) by (intros x; destruct (key_order_total x x); done).
  induction l as [|x l IH]; intros b Hs.
  { exists b. split_and!; [done|set_solver|]. intros q ->%list_elem_of_singleton. auto. }
  apply StronglySorted_inv in Hs as [Hs Hb]. pose proof Hs as [Hs' Hx]%StronglySorted_inv.
  apply Forall_cons in Hb as [Hbx Hb]. cbn [fold_left]. destruct (N.ltb_spec x.2 b.2) as [Hlt|Hge].
  - destruct (IH b) as (p & Hp & Hin & Hmax); [by constructor|]. exists p. split_and!; [done|set_solver|].
    intros q [->|[->|Hq]%elem_of_cons]%elem_of_cons; [apply Hmax; by left| |apply Hmax; by right].
    left. destruct (Hmax b) as [?|[? _]]; [by left|lia|lia].
  - destruct (IH x Hs) as (p & Hp & Hin & Hmax). exists p. split_and!; [done|set_solver|].
    intros q [->|Hq]%elem_of_cons; [|by apply Hmax]. destruct (Hmax x) as [?|[? Hk]]; [by left|left; lia|].
    destruct (decide (b.2 < p.2)%N); [by left|]. right. split; [lia|]. unfold key_order in *.
    by eapply string_leb_trans.
Qed.

Lemma Sorted_le_weaken {A} (R R' : relation A) l : (∀ a b, R a b → R' a b) → Sorted R l → Sorted R' l.
Proof. intros HR. induction 1 as [|a l Hl IH Hhd]; constructor; [done|]. destruct Hhd; constructor. by apply HR. Qed.

Lemma token_bytes_eq ids : token_bytes ids = f32_to_le_bytes ids.
Proof. done. Qed.

Lemma expert_groups_fold l : ∀ (g : gmap (N * N) (list N)) key,
  fold_left (λ g s, let key := (layer_start_of s, layer_end_of s) in
    <[key := default [] (g !! key) ++ [default 0%N (sd_expert_id s)]]> g) l g !! key
  = match (λ s, default 0%N (sd_expert_id s)) <$> filter (λ s, (layer_start_of s, layer_end_of s) = key) l with
    | [] => g !! key
    | ids => Some (default [] (g !! key) ++ ids)
    end.
Proof.
  induction l as [|s l IH]; intros g key; [done|]. cbn [fold_left]. rewrite IH. cbv zeta.
  destruct (decide ((layer_start_of s, layer_end_of s) = key)) as [<-|Hne].
  - rewrite lookup_insert_eq, filter_cons_True by done. cbn [fmap list_fmap].
    destruct (_ <$> _); cbn [default]; [done|]. cbn. by rewrite <-app_assoc.
  - by rewrite lookup_insert_ne, filter_cons_False by done.
Qed.

Lemma filter_filter_and {A} (P Q : A → Prop) `{∀ x, Decision (P x), ∀ x, Decision (Q x)} (l : list A) :
  filter Q (filter P l) = filter (λ x, P x ∧ Q x) l.
Proof.
  induction l as [|x l IH]; [done|]. destruct (decide (P x)).
  - rewrite filter_cons_True by done. destruct (decide (Q x)).
    + rewrite !filter_cons_True by done. by rewrite IH.
    + rewrite !filter_cons_False by tauto. exact IH.
  - rewrite !(filter_cons_False _ x) by tauto. exact IH.
Qed.

(** ** Theorems *)

(** The payout goes to the wallet that delivered most shard steps; among
    wallets with equally many, to the greatest address; to nobody exactly when
    no step was recorded. *)
Theorem select_winning_wallet_spec m :
  match select_winning_wallet m with
  | Some w => ∃ n, m !! w = Some n ∧
      ∀ w' n', m !! w' = Some n' → (n' < n)%N ∨ (n' = n ∧ String.leb w' w = true)
  | None => m = ∅
  end.
Proof.
  unfold select_winning_wallet, max_by_count. pose proof (btree_sorted m) as Hs.
  assert (Hin : ∀ p, p ∈ btree_entries m ↔ m !! p.1 = Some p.2).
  { intros [k v]. unfold btree_entries. rewrite stable_sort_perm. apply elem_of_map_to_list. }
  destruct (btree_entries m) as [|b l] eqn:He.
  - apply map_eq. intros k. rewrite lookup_empty. destruct (m !! k) as [v|] eqn:Hk; [|done].
    assert ((k, v) ∈ @nil (string * N)) as H by (by apply Hin). by apply not_elem_of_nil in H.
  - cbn [fold_left]. destruct (max_by_count_fold l b Hs) as (p & -> & Hp & Hmax). cbn.
    exists p.2. split; [by apply Hin|]. intros w' n' Hw'. apply (Hmax (w', n')). by apply Hin.
Qed.

(** C32. The on-chain response: its hash is that of its bytes, and the audit
    replay recovers exactly the generated token ids, so two different
    generations never publish the same response. *)
Theorem build_response_roundtrip `{Crypto} ids :
  Forall (λ id, (id < 2 ^ 32)%N) ids →
  let '(hash, h) := build_response ids in
  decode_token_ids_hex h = Some ids
  ∧ (∃ raw, hex_decode h = Some raw ∧ hash = hex_encode (sha256 raw))
  ∧ ∀ ids', Forall (λ id, (id < 2 ^ 32)%N) ids' → (build_response ids').2 = h → ids' = ids.
Proof.
  intros Hids. unfold build_response, decode_token_ids_hex. cbn [snd].
  assert (Hdec : ∀ l, Forall (λ id, (id < 2 ^ 32)%N) l →
    (b ← hex_decode (hex_encode (token_bytes l)); if (length b `mod` 4 =? 0)%nat then Some (chunks4 (length b) b) else None) = Some l).
  { intros l Hl. rewrite hex_decode_encode, token_bytes_eq. cbn [mbind option_bind]. rewrite f32_to_le_bytes_length.
    rewrite (proj2 (Nat.eqb_eq _ _)) by (rewrite Nat.mul_comm; apply Nat.Div0.mod_mul).
    by rewrite chunks4_le_bytes by (done || lia). }
  split_and!; [by apply Hdec|exists (token_bytes ids); split; [apply hex_decode_encode|done]|].
  intros ids' Hids' Heq. apply Some_inj. by rewrite <-(Hdec ids Hids), <-(Hdec ids' Hids'), Heq.
Qed.

(** Splitting a model execution graph loses and invents nothing: the dense
    shards are exactly the [DENSE] nodes in index order, and the group of a
    layer range lists exactly the experts its [EXPERT] nodes register, in graph
    order; a graph without experts has no group at all. *)
Theorem split_graph_spec shards :
  let '(dense, groups) := split_model_execution_graph shards in
  dense ≡ₚ filter (λ s, is_type "DENSE" s = true) shards
  ∧ Sorted (λ a b, (sd_shard_index a ≤ sd_shard_index b)%N) dense
  ∧ (∀ key, groups !! key = match expert_ids_of key shards with [] => None | ids => Some ids end)
  ∧ (Forall (λ s, is_type "EXPERT" s = false) shards → groups = ∅).
Proof.
  unfold split_model_execution_graph.
  set (groups := fold_left _ _ _).
  assert (Hg : ∀ key, groups !! key = match expert_ids_of key shards with [] => None | ids => Some ids end).
  { intros key. unfold groups. rewrite expert_groups_fold, filter_filter_and, lookup_empty. unfold expert_ids_of.
    by destruct (_ <$> _). }
  split_and!; [apply stable_sort_perm| |exact Hg|].
  - eapply Sorted_le_weaken; [|apply stable_sort_sorted]; unfold by_shard_index.
    + intros a b. apply N.leb_le.
    + intros x y. rewrite !N.leb_le. lia.
  - intros Hno. apply map_eq. intros key. rewrite Hg, lookup_empty. unfold expert_ids_of.
    assert (filter (λ s, is_type "EXPERT" s = true ∧ (layer_start_of s, layer_end_of s) = key) shards = []) as ->; [|done].
    clear -Hno. induction Hno as [|s l Hs _ IH]; [done|]. rewrite filter_cons_False; [done|]. intros [Ht _]. congruence.
Qed.

Lemma build_response_roundtrip_witness :
  decode_token_ids_hex (H := toy_crypto) (build_response (H := toy_crypto) [7; 300; 70000]%N).2 = Some [7; 300; 70000]%N.
Proof. apply (build_response_roundtrip (H := toy_crypto) [7; 300; 70000]%N). by repeat constructor. Defined.
