(* ===== verification/ShardEngine.v ===== *)
(** * The shard engine ([src/opoi/shard_engine.rs])

    Walks each shard-routed request through its model's dense shards, token by
    token, fanning a mixture-of-experts layer out through the expert dispatcher.

    A handler runs as one step, except at its one long await: a result that
    needs experts returns the [ExpertCall] it makes, and [resume] is the rest of
    the handler, run when the join barrier of [ExpertDispatch] answers; other
    events may come in between.  The speculative engine this one delegates to is
    used through the interface [SpecEngine]. *)

From S2P Require Export Pipeline StakePool World B3Lite ExpertVram.
From S2P Require Import MinerRegistry Tensor ExpertDispatch OpoiEngine.

(** What the engine asks of the speculative engine. *)
Class SpecEngine (Sp : Type) := {
  spec_is_eligible : string → M (World * Sp) bool;
  spec_has_pipeline : Sp → string → bool;
  spec_start_pipeline : string → ModelManifest → list ShardDescriptor → N → string → string → ModelSource → M (World * Sp) ();
  (** [None]: the handler panics. *)
  spec_handle_shard_result : string → OpoiShardResult → M (World * Sp) (option (result () AppError))
}.

Record ShardEngine := mkShardEngine {
  se_pipelines : gmap string PipelineState;
  se_assignments : gmap string ShardAssignment;
  se_last_assigned : option string;
  se_prompt_cache : gmap string string;
  se_stake_pool : StakePool;
  se_model_sources : ModelSourceConfig;
  se_b3lite : option B3LiteConfig;
  se_expert_vram : vram_cache;
  se_tasks : list CommitTask
}.

(** The engine with the world, the speculative engine if there is one, and the
    time. *)
Record ShardSys (Sp : Type) := mkShardSys {
  x_world : World;
  x_engine : ShardEngine;
  x_spec : option Sp;
  x_now : N
}.
Arguments mkShardSys {Sp}.
Arguments x_world {Sp}.
Arguments x_engine {Sp}.
Arguments x_spec {Sp}.
Arguments x_now {Sp}.

(** A dispatch of experts the handler waits on: [dispatch_and_join]'s arguments,
    and how the handler goes on. *)
Record ExpertCall := mkExpertCall {
  ec_job : Job;
  ec_experts : list SelectedExpert;
  ec_min_vram_mb : N;
  ec_pre_excluded : list string;
  ec_interior : bool;
  ec_source : ModelSource
}.
Definition ec_request_id (c : ExpertCall) : string := j_request_id (ec_job c).

Inductive shard_outcome : Type :=
| Finished (r : result () AppError)
| AwaitExperts (c : ExpertCall)
| Panicked.

Definition new_shard_engine (pool : StakePool) (srcs : ModelSourceConfig) (b3 : option B3LiteConfig) : ShardEngine :=
  {| se_pipelines := ∅; se_assignments := ∅; se_last_assigned := None; se_prompt_cache := ∅; se_stake_pool := pool;
     se_model_sources := srcs; se_b3lite := b3; se_expert_vram := ∅; se_tasks := [] |}.

Section shard_engine.
Context {Sp : Type} `{SpecEngine Sp} `{Csd, RowOrder, Crypto, HexError, MapIter, HttpGet, Marketplace}.
Notation Sys := (ShardSys Sp).

Definition set_engine (s : Sys) (e : ShardEngine) : Sys := mkShardSys (x_world s) e (x_spec s) (x_now s).
Definition set_world (s : Sys) (w : World) : Sys := mkShardSys w (x_engine s) (x_spec s) (x_now s).

Definition in_world {A} (m : M World A) : M Sys A := λ s, let '(a, w) := m (x_world s) in (a, set_world s w).
Definition engine (f : ShardEngine → ShardEngine) : M Sys () := λ s, ((), set_engine s (f (x_engine s))).
Definition ask {A} (f : ShardEngine → A) : M Sys A := λ s, (f (x_engine s), s).

Definition pipeline_of (request_id : string) : M Sys (option PipelineState) := ask (λ e, se_pipelines e !! request_id).
Definition drop_pipeline (request_id : string) : M Sys () :=
  engine (λ e, e <| se_pipelines := delete request_id (se_pipelines e) |>).
(** [if let Some(mut pipeline) = self.pipelines.get_mut(..)] *)
Definition with_pipeline (request_id : string) (f : PipelineState → PipelineState) : M Sys () :=
  engine (λ e, e <| se_pipelines := alter f request_id (se_pipelines e) |>).
Definition unassign (request_id : string) : M Sys () :=
  engine (λ e, e <| se_assignments := delete request_id (se_assignments e) |>).
Definition assign (request_id : string) (a : ShardAssignment) : M Sys () :=
  engine (λ e, e <| se_assignments := <[request_id := a]> (se_assignments e) |>).

Definition resolve_source (model_id : string) : M Sys (option ModelSource) := λ s,
  let '(r, c) := ModelSource.resolve (x_now s) model_id (se_model_sources (x_engine s)) in
  (r, set_engine s ((x_engine s) <| se_model_sources := c |>)).

(** [stake_pool.try_each] over a daemon call. *)
Definition pool_try {T} (f : string → M csd_log (result T AppError)) : M Sys (result (string * T) AppError) := λ s,
  let '(r, (pool, log)) := try_each f (se_stake_pool (x_engine s), w_csd (x_world s)) in
  (r, set_world (set_engine s ((x_engine s) <| se_stake_pool := pool |>)) ((x_world s) <| w_csd := log |>)).

Definition min_vram (model_id gguf_url gguf_sha256 : string) (layer_start layer_end n_expert : N) : M Sys (option N) := λ s,
  let '(r, c) := min_vram_mb_for_range model_id gguf_url gguf_sha256 layer_start layer_end n_expert (se_expert_vram (x_engine s)) in
  (r, set_engine s ((x_engine s) <| se_expert_vram := c |>)).

(** A call of the speculative engine; nothing when there is none. *)
Definition with_spec {A} (none : A) (m : M (World * Sp) A) : M Sys A := λ s,
  match x_spec s with
  | None => (none, s)
  | Some sp => let '(a, (w, sp')) := m (x_world s, sp) in (a, mkShardSys w (x_engine s) (Some sp') (x_now s))
  end.

Definition receive_prompt (request_id prompt_hex : string) : M Sys () :=
  engine (λ e, e <| se_prompt_cache := <[request_id := prompt_hex]> (se_prompt_cache e) |>).

Definition active_request_ids : M Sys (list string) := ask (λ e, iter_keys (se_pipelines e)).

Definition topology_snapshot (dispatcher : ExpertDispatcher) (request_id : string) : M Sys (option TopologySnapshot) := λ s,
  ((λ p, snapshot_of request_id p (snapshot_all (w_reg (x_world s))) (λ ls le, recent_assignments_for_range request_id ls le dispatcher))
     <$> se_pipelines (x_engine s) !! request_id, s).

Definition is_shard_routed (model_id : string) : M Sys bool :=
  r ← in_world (csd (get_model_manifest model_id));
  mret match r with Ok m => bool_decide (mm_status m = "ACTIVE") | Err _ => false end.

(** ** Dispatching the current step *)

Definition shard_assign (request_id : string) (source : ModelSource) (p : PipelineState) (shard : ShardDescriptor)
    (moe_layer_step : option N) : OpoiShardAssign :=
  let entry := (p_pos p =? 0)%nat in {|
  sa_request_id := request_id; sa_model_id := mm_model_id (p_manifest p); sa_shard_index := sd_shard_index shard;
  sa_layer_start := layer_start_of shard; sa_layer_end := layer_end_of shard;
  sa_total_layers := mm_num_layers (p_manifest p); sa_token_index := p_token_index p; sa_max_tokens := p_max_tokens p;
  sa_input := p_current_input p; sa_model_gguf_url := ms_gguf_url source;
  sa_model_gguf_sha256 := mm_backbone_pom_root (p_manifest p);
  sa_model_tokenizer_url := if entry then Some (ms_tokenizer_url source) else None;
  sa_model_tokenizer_sha256 := if entry then Some (ms_tokenizer_sha256 source) else None;
  sa_moe_layer_step := moe_layer_step |}.

(** From the chosen wallet on. *)
Definition send_shard (request_id : string) (source : ModelSource) (p : PipelineState) (shard : ShardDescriptor)
    (wallet : string) (moe_layer_step : option N) : M Sys () := λ s,
  match MinerRegistry.get wallet (w_reg (x_world s)) with
  | None => ((), s)
  | Some tx =>
    (_ ← assign request_id (mkShardAssignment wallet (sd_shard_index shard) (p_token_index p) moe_layer_step);
     _ ← with_pipeline request_id (λ q, q <| p_dispatch_log := p_dispatch_log q ++
           [mkDispatchRecord (sd_shard_index shard) (layer_start_of shard) (layer_end_of shard) moe_layer_step wallet (p_token_index p)] |>);
     ignore (in_world (net (net_send tx (MShardAssign (shard_assign request_id source p shard moe_layer_step)))))) s
  end.

(** A position out of range panics the task: nothing further happens. *)
Definition dispatch_current (request_id : string) (source : ModelSource) : M Sys () := λ s,
  match se_pipelines (x_engine s) !! request_id with
  | None => ((), s)
  | Some p =>
    match current_shard p with
    | None => ((), s)
    | Some shard =>
      match p_moe_layer_walk p with
      | Some (layer_idx, pinned_wallet) =>
        match MinerRegistry.get pinned_wallet (w_reg (x_world s)) with
        | None => (_ ← drop_pipeline request_id; unassign request_id) s
        | Some _ => send_shard request_id source p shard pinned_wallet (Some layer_idx) s
        end
      | None =>
        match pick_next (se_last_assigned (x_engine s)) (w_reg (x_world s)) with
        | None => ((), s)
        | Some wallet =>
          (_ ← engine (λ e, e <| se_last_assigned := Some wallet |>);
           match expert_group_for p (p_pos p) with
           | Some _ =>
             _ ← with_pipeline request_id (λ q, q <| p_moe_layer_walk := Some (layer_start_of shard, wallet) |>);
             send_shard request_id source p shard wallet (Some (layer_start_of shard))
           | None => send_shard request_id source p shard wallet None
           end) s
        end
      end
    end
  end.

(** ** The end of a pipeline *)

Definition receipt_of (request_id miner_wallet : string) (p : PipelineState) (response_hash : string) : ReceiptFields := {|
  rf_request_id := request_id; rf_miner_wallet := miner_wallet; rf_model_id := mm_model_id (p_manifest p);
  rf_gguf_sha256 := mm_backbone_pom_root (p_manifest p); rf_response_hash := response_hash;
  rf_generated_token_ids := p_generated_token_ids p |}.

Definition record_b3lite_receipt (cfg : B3LiteConfig) (request_id miner_wallet : string) (p : PipelineState)
    (response_hash : string) : M World () :=
  let signature := sign_receipt (secret cfg) (receipt_of request_id miner_wallet p response_hash) in
  ignore (db (create_b3lite_receipt request_id miner_wallet (mm_model_id (p_manifest p)) (mm_backbone_pom_root (p_manifest p))
                (Some (p_prompt_hash p)) (p_original_prompt_hex p) response_hash
                (hex_encode (token_bytes (p_generated_token_ids p))) (as_i32 (mm_num_layers (p_manifest p)))
                signature (should_sample signature (sample_rate cfg)))).

Definition finalize_pipeline (request_id : string) : M Sys () :=
  found ← pipeline_of request_id;
  match found with
  | None => mret ()
  | Some p =>
    _ ← drop_pipeline request_id;
    match select_winning_wallet (p_contributions p) with
    | None => mret ()
    | Some winning_wallet =>
      let '(response_hash, response_hex) := build_response (p_generated_token_ids p) in
      let token_count := wrap32 (N.of_nat (length (p_generated_token_ids p))) in
      b3 ← ask se_b3lite;
      _ ← match b3 with
          | Some cfg => in_world (record_b3lite_receipt cfg request_id winning_wallet p response_hash)
          | None => mret ()
          end;
      r ← in_world (db (create_submission winning_wallet request_id (Some (mm_model_id (p_manifest p)))
                          (Some (p_prompt_hash p)) None None response_hash response_hex (as_i32 token_count)));
      match r with
      | Ok id => engine (λ e, e <| se_tasks := se_tasks e ++ [mkCommitTask id request_id response_hash token_count] |>)
      | Err _ => mret ()
      end
    end
  end.

(** The detached commit of a finished pipeline. *)
Definition run_shard_task `{Schedule} (t : CommitTask) : M Sys () :=
  pool ← ask se_stake_pool;
  in_world (do_commit (addresses pool) (ct_submission_id t) (ct_request_id t) (ct_response_hash t) (ct_token_count t)).

(** ** Results *)

(** [handle_expert_group_result] ([interior := false]) and
    [handle_moe_interior_layer_result] ([interior := true]) up to their await:
    the two bodies differ only in what follows the join. *)
Definition await_experts (interior : bool) (request_id primary_wallet : string) (source : ModelSource)
    (expert_ids : list N) (layer_idx : N) (r : OpoiShardResult) : M Sys shard_outcome :=
  match res_router_selection r with
  | None => mret (Finished (Ok ()))
  | Some per_layer_selections =>
    if bool_decide (per_layer_selections = []) || existsb (λ l, bool_decide (l = [])) per_layer_selections
    then _ ← drop_pipeline request_id; mret (Finished (Ok ()))
    else if existsb (existsb (λ sel, negb (bool_decide (rc_expert_id sel ∈ expert_ids)))) per_layer_selections
    then _ ← drop_pipeline request_id; mret (Finished (Ok ()))
    else
      match hex_to_f32 (so_data_hex (res_output r)) with
      | Err _ => _ ← drop_pipeline request_id; mret (Finished (Ok ()))
      | Ok input_values =>
        found ← pipeline_of request_id;
        match (λ p, (p, current_shard p)) <$> found with
        | None => mret (Finished (Err UnknownRequest))
        | Some (_, None) => mret Panicked
        | Some (p, Some shard) =>
          let model_id := mm_model_id (p_manifest p) in
          let gguf_sha256 := mm_backbone_pom_root (p_manifest p) in
          let selections := List.last per_layer_selections [] in
          let experts := (λ sel, mkSelectedExpert (rc_expert_id sel) (rc_weight sel) (so_shape (res_output r)) input_values)
                           <$> selections in
          mb ← min_vram model_id (ms_gguf_url source) gguf_sha256 layer_idx (wrap32 (layer_idx + 1))
                 (N.of_nat (length expert_ids));
          _ ← match p_moe_layer_walk p with
              | Some (_, pinned_wallet) =>
                assign request_id (mkShardAssignment pinned_wallet (res_shard_index r) (p_token_index p) (Some layer_idx))
              | None => mret ()
              end;
          mret (AwaitExperts {|
            ec_job := mkJob request_id (layer_start_of shard) (layer_end_of shard) layer_idx (p_token_index p) model_id
                        (ms_gguf_url source) gguf_sha256;
            ec_experts := experts; ec_min_vram_mb := default 0%N mb; ec_pre_excluded := [primary_wallet];
            ec_interior := interior; ec_source := source |})
        end
      end
  end.

(** ... and after it. *)
Definition advance (c : ExpertCall) (output : ExpertOutputWire) (p : PipelineState) : PipelineState :=
  let input := Tensor (eo_shape output) (eo_data_hex output) in
  if ec_interior c
  then p <| p_current_input := input |>
         <| p_moe_layer_walk := (λ '(_, pinned), (wrap32 (j_layer_idx (ec_job c) + 1), pinned)) <$> p_moe_layer_walk p |>
  else p <| p_pos := S (p_pos p) |> <| p_current_input := input |> <| p_moe_layer_walk := None |>.

Definition resume (c : ExpertCall) (combined : result ExpertOutputWire string) : M Sys (result () AppError) :=
  match combined with
  | Ok output =>
    _ ← with_pipeline (ec_request_id c) (advance c output);
    _ ← dispatch_current (ec_request_id c) (ec_source c);
    mret (Ok ())
  | Err _ => _ ← unassign (ec_request_id c); mret (Ok ())
  end.

Definition finished {A} (r : result () AppError) (m : M Sys A) : M Sys shard_outcome := _ ← m; mret (Finished r).

(** An accepted result, its contribution counted, that is not an interior layer. *)
Definition shard_done (request_id wallet : string) (source : ModelSource) (p : PipelineState) (r : OpoiShardResult) : M Sys shard_outcome :=
  let is_last_token := (p_max_tokens p <=? wrap32 (p_token_index p + 1))%N in
  submitted ← (if (is_last_token : bool)
               then ok ← pool_try (λ addr, submit_shard_result request_id (res_shard_index r) addr (res_output_hash r) 0);
                    mret match ok with Ok _ => true | Err _ => false end
               else mret true);
  if negb (submitted : bool) then mret (Finished (Ok ()))
  else
    let is_last_shard := (S (p_pos p) =? length (p_shards p))%nat in
    if negb is_last_shard then
      match expert_group_for p (p_pos p) with
      | Some expert_ids =>
        let layer_end := default 0%N (layer_end_of <$> current_shard p) in
        let layer_idx := default (layer_end - 1)%N (res_moe_layer_step r) in
        await_experts false request_id wallet source expert_ids layer_idx r
      | None =>
        _ ← with_pipeline request_id (λ q, q <| p_pos := S (p_pos q) |>
              <| p_current_input := Tensor (so_shape (res_output r)) (so_data_hex (res_output r)) |>
              <| p_moe_layer_walk := None |>);
        finished (Ok ()) (dispatch_current request_id source)
      end
    else
      match res_next_token_id r with
      | None => finished (Ok ()) (drop_pipeline request_id)
      | Some next_token_id =>
        _ ← with_pipeline request_id (λ q, q <| p_generated_token_ids := p_generated_token_ids q ++ [next_token_id] |>);
        if is_last_token then finished (Ok ()) (finalize_pipeline request_id)
        else
          _ ← with_pipeline request_id (λ q, q <| p_pos := 0 |> <| p_token_index := wrap32 (p_token_index q + 1) |>
                <| p_current_input := NextTokenId next_token_id |> <| p_moe_layer_walk := None |>);
          finished (Ok ()) (dispatch_current request_id source)
      end.

Definition count_contribution (wallet : string) (p : PipelineState) : PipelineState :=
  p <| p_contributions := <[wallet := wrap32 (default 0%N (p_contributions p !! wallet) + 1)]> (p_contributions p) |>.

(** Is a layer step the range's interior, or its last layer with no next shard? *)
Definition interior_step (layer_idx layer_end total_layers : N) : bool :=
  (layer_end =? 0)%N || (wrap32 (layer_idx + 1) <? layer_end)%N
  || ((wrap32 (layer_idx + 1) =? layer_end)%N && (layer_end =? total_layers)%N).

Definition assignment_matches (a : ShardAssignment) (wallet : string) (r : OpoiShardResult) : bool :=
  bool_decide (as_wallet a = wallet) && (as_shard_index a =? res_shard_index r)%N
  && (as_token_index a =? res_token_index r)%N && bool_decide (as_moe_layer_step a = res_moe_layer_step r).

Definition handle_shard_result_inner (wallet : string) (r : OpoiShardResult) : M Sys shard_outcome := λ s,
  let request_id := res_request_id r in
  if match x_spec s with Some sp => spec_has_pipeline sp request_id | None => false end
  then (x ← with_spec None (spec_handle_shard_result wallet r);
        mret match x with Some x => Finished x | None => Panicked end) s
  else
    match se_assignments (x_engine s) !! request_id with
    | None => (Finished (Err UnknownRequest), s)
    | Some a =>
      if negb (assignment_matches a wallet r) then (Finished (Err NotAssignedToCaller), s)
      else
        (_ ← unassign request_id;
         found ← pipeline_of request_id;
         match found with
         | None => mret (Finished (Err UnknownRequest))
         | Some p =>
           src ← resolve_source (mm_model_id (p_manifest p));
           match src with
           | None => mret (Finished (Err UnknownRequest))
           | Some source =>
             _ ← with_pipeline request_id (count_contribution wallet);
             let p := count_contribution wallet p in
             match res_moe_layer_step r with
             | Some layer_idx =>
               match current_shard p with
               | None => mret Panicked
               | Some shard =>
                 if interior_step layer_idx (layer_end_of shard) (mm_num_layers (p_manifest p)) then
                   match expert_group_for p (p_pos p) with
                   | None => finished (Ok ()) (drop_pipeline request_id)
                   | Some expert_ids => await_experts true request_id wallet source expert_ids layer_idx r
                   end
                 else shard_done request_id wallet source p r
               end
             | None => shard_done request_id wallet source p r
             end
           end
         end) s
    end.

Definition on_disconnect (wallet : string) : M Sys () :=
  engine (λ e, e <| se_assignments := filter (λ p, as_wallet p.2 ≠ wallet) (se_assignments e) |>).

(** ** The poll tick *)

Definition retry_one (request_id : string) : M Sys () :=
  found ← pipeline_of request_id;
  match found with
  | None => mret ()
  | Some p =>
    src ← resolve_source (mm_model_id (p_manifest p));
    match src with
    | None => mret ()
    | Some source => dispatch_current request_id source
    end
  end.

Definition retry_stalled_pipelines : M Sys () :=
  stalled ← ask (λ e, filter (λ id, se_assignments e !! id = None) (iter_keys (se_pipelines e)));
  for_each retry_one stalled.

Definition new_pipeline (req : OpoiRequest) (manifest : ModelManifest) (shards : list ShardDescriptor)
    (expert_groups : gmap (N * N) (list N)) (prompt_hex : string) : PipelineState := {|
  p_shards := shards; p_manifest := manifest; p_prompt_hash := rq_prompt_hash req; p_max_tokens := rq_max_tokens req;
  p_pos := 0; p_token_index := 0; p_current_input := Prompt prompt_hex; p_original_prompt_hex := prompt_hex;
  p_generated_token_ids := []; p_contributions := ∅; p_expert_groups := expert_groups; p_moe_layer_walk := None;
  p_dispatch_log := [] |}.

Definition forget_prompt (request_id : string) : M Sys () :=
  engine (λ e, e <| se_prompt_cache := delete request_id (se_prompt_cache e) |>).

(** The claimed request starts, speculatively or here. *)
Definition start_pipeline (req : OpoiRequest) (manifest : ModelManifest) (shards : list ShardDescriptor)
    (expert_groups : gmap (N * N) (list N)) (prompt_hex : string) (source : ModelSource) : M Sys () :=
  let id := rq_request_id req in
  eligible ← with_spec false (spec_is_eligible (mm_model_id manifest));
  if (eligible : bool) then
    _ ← with_spec () (spec_start_pipeline id manifest shards (rq_max_tokens req) prompt_hex (rq_prompt_hash req) source);
    forget_prompt id
  else
    _ ← engine (λ e, e <| se_pipelines := <[id := new_pipeline req manifest shards expert_groups prompt_hex]> (se_pipelines e) |>);
    _ ← forget_prompt id;
    dispatch_current id source.

(** One turn of the tick's loop. *)
Definition start_request (req : OpoiRequest) : M Sys () :=
  let id := rq_request_id req in
  found ← pipeline_of id;
  match found with
  | Some _ => mret ()
  | None =>
    m ← in_world (csd (get_model_manifest (rq_model req)));
    match m with
    | Err _ => mret ()
    | Ok manifest =>
      if negb (bool_decide (mm_status manifest = "ACTIVE")) then mret ()
      else
        prompt ← ask (λ e, se_prompt_cache e !! id);
        match prompt with
        | None => mret ()
        | Some prompt_hex =>
          g ← in_world (csd (get_model_graph (rq_model req)));
          match g with
          | Err _ => mret ()
          | Ok graph =>
            src ← resolve_source (rq_model req);
            match src with
            | None => mret ()
            | Some source =>
              let '(shards, expert_groups) := split_model_execution_graph (mg_shards graph) in
              if bool_decide (shards = []) then mret ()
              else
                claim ← pool_try (claim_coordinator id);
                match claim with
                | Err _ => mret ()
                | Ok _ => start_pipeline req manifest shards expert_groups prompt_hex source
                end
            end
          end
        end
    end
  end.

Definition poll_and_start_tick : M Sys (result () AppError) :=
  _ ← retry_stalled_pipelines;
  reqs ← in_world (csd list_pending_requests);
  match reqs with
  | Err e => mret (Err e)
  | Ok l => _ ← for_each start_request l; mret (Ok ())
  end.
End shard_engine.

(** ** What is to hold *)

Definition is_tensor (i : ShardInputWire) : Prop := match i with Tensor _ _ => True | _ => False end.
(** What the first shard is given: the prompt, then the last token generated. *)
Definition fresh_input (p : PipelineState) : ShardInputWire :=
  match last (p_generated_token_ids p) with
  | None => Prompt (p_original_prompt_hex p)
  | Some t => NextTokenId t
  end.

Record pipeline_ok (p : PipelineState) : Prop := {
  ok_pos : p_pos p < length (p_shards p);
  ok_generated : N.of_nat (length (p_generated_token_ids p)) = p_token_index p;
  ok_tokens : p_token_index p = 0%N ∨ (p_token_index p < p_max_tokens p)%N;
  ok_max : (p_max_tokens p < 2 ^ 32)%N;
  ok_input_later : p_pos p ≠ 0 → is_tensor (p_current_input p);
  ok_input_first : p_pos p = 0 → p_current_input p = fresh_input p
                     ∨ (is_tensor (p_current_input p) ∧ p_moe_layer_walk p ≠ None);
  ok_walk : p_moe_layer_walk p ≠ None → expert_group_for p (p_pos p) ≠ None
}.
Definition pipelines_ok {Sp} (s : ShardSys Sp) : Prop :=
  ∀ id p, se_pipelines (x_engine s) !! id = Some p → pipeline_ok p.

(** An answered call still finds the request where it left it: mid-walk for an
    interior layer, before the last shard otherwise. *)
Definition fits {Sp} (c : ExpertCall) (s : ShardSys Sp) : Prop :=
  ∀ p, se_pipelines (x_engine s) !! ec_request_id c = Some p →
    if ec_interior c then p_moe_layer_walk p ≠ None else S (p_pos p) < length (p_shards p).

(** A dense shard's accepted result, on the pipeline: the next shard gets its
    tensor; after the last one the token is recorded and the next token starts. *)
Definition dense_next (wallet : string) (p : PipelineState) (r : OpoiShardResult) : PipelineState :=
  let p := count_contribution wallet p in
  if (S (p_pos p) =? length (p_shards p))%nat then
    match res_next_token_id r with
    | Some t =>
      p <| p_generated_token_ids := p_generated_token_ids p ++ [t] |> <| p_pos := 0 |>
        <| p_token_index := wrap32 (p_token_index p + 1) |> <| p_current_input := NextTokenId t |> <| p_moe_layer_walk := None |>
    | None => p
    end
  else p <| p_pos := S (p_pos p) |> <| p_current_input := Tensor (so_shape (res_output r)) (so_data_hex (res_output r)) |>
         <| p_moe_layer_walk := None |>.

(** The accepted results of a dense request so far, newest last, and the tokens
    among them: those of the last shard of each round. *)
Definition dense_run (p : PipelineState) (rs : list (string * OpoiShardResult)) : PipelineState :=
  fold_left (λ p wr, dense_next wr.1 p wr.2) rs p.
Definition round_tokens (n : nat) (rs : list (string * OpoiShardResult)) : list N :=
  omap id (imap (λ i wr, if (S i `mod` n =? 0)%nat then res_next_token_id wr.2 else None) rs).
Definition with_log (l : list PrimaryDispatchRecord) (p : PipelineState) : PipelineState := p <| p_dispatch_log := l |>.
(** A pipeline as [start_pipeline] makes it. *)
Definition unstarted (p : PipelineState) : Prop :=
  p_pos p = 0 ∧ p_token_index p = 0%N ∧ p_generated_token_ids p = [] ∧ p_contributions p = ∅.

(** After a result of [w]: the pipeline [p] is gone, or it has moved on. *)
Definition dense_outcome {Sp} (id w : string) (p : PipelineState) (r : OpoiShardResult) (s : ShardSys Sp) : Prop :=
  se_pipelines (x_engine s) !! id = None
  ∨ ∃ l, se_pipelines (x_engine s) !! id = Some (with_log l (dense_next w p r))
         ∧ (S (p_pos p) = length (p_shards p) → res_next_token_id r ≠ None).

(** The engine with a request's pipeline replaced and its assignment taken. *)
Definition taken {Sp} (id : string) (p : PipelineState) (s : ShardSys Sp) : ShardSys Sp :=
  set_engine s ((x_engine s) <| se_assignments := delete id (se_assignments (x_engine s)) |>
                             <| se_pipelines := <[id := p]> (se_pipelines (x_engine s)) |>).

(** Nothing of request [id] differs. *)
Definition untouched {Sp} (id : string) (s s' : ShardSys Sp) : Prop :=
  se_pipelines (x_engine s') !! id = se_pipelines (x_engine s) !! id
  ∧ se_assignments (x_engine s') !! id = se_assignments (x_engine s) !! id.

(** The accepted result answers what the engine asked for. *)
Definition answers (a : ShardAssignment) (wallet : string) (r : OpoiShardResult) : Prop :=
  as_wallet a = wallet ∧ as_shard_index a = res_shard_index r ∧ as_token_index a = res_token_index r
  ∧ as_moe_layer_step a = res_moe_layer_step r.

(** A call for experts made for the answer [r] of [wallet], the pipeline of
    request [id] being [p], at [shard], whose range has the experts [ids]: only
    registered experts, for this very step, none of them on the wallet that
    answered; mid-walk the request stays marked as assigned. *)
Record call_for (id wallet : string) (r : OpoiShardResult) (p : PipelineState) (shard : ShardDescriptor) (ids : list N)
    (marks : gmap string ShardAssignment) (c : ExpertCall) : Prop := {
  call_id : ec_request_id c = id;
  call_layers : j_layer_start (ec_job c) = layer_start_of shard ∧ j_layer_end (ec_job c) = layer_end_of shard;
  call_token : j_token_index (ec_job c) = p_token_index p;
  call_excludes : ec_pre_excluded c = [wallet];
  call_experts : ec_experts c ≠ [] ∧ ∀ e, e ∈ ec_experts c → se_expert_id e ∈ ids;
  call_marked : ∀ l pinned, p_moe_layer_walk p = Some (l, pinned) →
    marks !! id = Some (mkShardAssignment pinned (res_shard_index r) (p_token_index p) (Some (j_layer_idx (ec_job c))))
}.

(** The request is not the speculative engine's. *)
Definition not_speculative {Sp} `{SpecEngine Sp} (id : string) (s : ShardSys Sp) : Prop :=
  ∀ sp, x_spec s = Some sp → spec_has_pipeline sp id = false.

(** An operation that touches no pipeline, and one that keeps them well formed. *)
Definition same_pipes {Sp} (s s' : ShardSys Sp) : Prop := se_pipelines (x_engine s') = se_pipelines (x_engine s).
Definition keeps_ok {Sp A} (m : M (ShardSys Sp) A) : Prop := ∀ s, pipelines_ok s → pipelines_ok (m s).2.

Section steps.
Context {Sp : Type} `{SpecEngine Sp} `{Csd, RowOrder, Crypto, HexError, MapIter, HttpGet, Marketplace, Schedule}.

(** From [s0] to [s] the engine accepted the results [rs] of request [id], oldest
    first; in between anything may happen that leaves its pipeline alone. *)
Inductive delivered (id : string) (s0 : ShardSys Sp) : list (string * OpoiShardResult) → ShardSys Sp → Prop :=
| del_start : delivered id s0 [] s0
| del_result rs wallet r s s' : delivered id s0 rs s → not_speculative id s → res_request_id r = id →
    handle_shard_result_inner wallet r s = (Finished (Ok ()), s') → delivered id s0 (rs ++ [(wallet, r)]) s'
| del_other rs s s' : delivered id s0 rs s → se_pipelines (x_engine s') !! id = se_pipelines (x_engine s) !! id →
    delivered id s0 rs s'.

Inductive shard_step : ShardSys Sp → ShardSys Sp → Prop :=
| ss_prompt id prompt s : shard_step s (receive_prompt id prompt s).2
| ss_result wallet r s : shard_step s (handle_shard_result_inner wallet r s).2
| ss_resume c combined s : fits c s → shard_step s (resume c combined s).2
| ss_disconnect wallet s : shard_step s (on_disconnect wallet s).2
| ss_tick s : shard_step s (poll_and_start_tick s).2
| ss_task t s : shard_step s (run_shard_task t s).2
| ss_world w s : shard_step s (set_world s w)
| ss_time t s : shard_step s (mkShardSys (x_world s) (x_engine s) (x_spec s) t).
End steps.

(** ** Sample environment *)

(** No speculative engine. *)
#[export] Instance no_spec : SpecEngine Empty_set := {|
  spec_is_eligible := λ _ s, (false, s); spec_has_pipeline := λ (sp : Empty_set) _, match sp with end;
  spec_start_pipeline := λ _ _ _ _ _ _ _ s, ((), s); spec_handle_shard_result := λ _ _ s, (Some (Ok ()), s) |}.

(** Two requests: "moe" has experts on the first of its three layers, "dense" two
    plain shards. *)
Definition request_json (id model : string) (max_tokens : N) : Value :=
  Array [Str id; Str model; Str "ph"; u max_tokens; u 0; u 0; Null; Null].
Definition node_json (index : N) (ty : string) (ls le : N) (expert : Value) : Value :=
  Array [u index; Str ty; u ls; u le; expert].
Definition shard_csd : Csd := {|
  csd_post := λ _ method params,
    let model := default Null (get_index 0 params) in
    let answer :=
      if bool_decide (method = "listopoirequests") then Array [request_json "m" "moe" 9; request_json "d" "dense" 2]
      else if bool_decide (method = "getmodelmanifest") then Array [model; Str "llama"; u 3; Str "root"; Str "ACTIVE"]
      else if bool_decide (method = "getmodelgraph") then
        Array [model; Str "th"; Array
          (match model with
           | Str "moe" => [node_json 0 "DENSE" 0 1 Null; node_json 9 "EXPERT" 0 1 (u 7); node_json 1 "DENSE" 1 2 Null; node_json 2 "DENSE" 2 3 Null]
           | _ => [node_json 0 "DENSE" 0 1 Null; node_json 1 "DENSE" 1 3 Null]
           end)]
      else if bool_decide (method = "claimcoordinator") then Array [Str "tx"; model; Str "addr"]
      else Array [Str "tx"; model; u 0; Str "addr"] in
    Body (Object [("result", answer)]);
  print_json := λ _, ""; decode_error := λ _, "" |}.
Definition moe_source : ModelSource := mkModelSource "http://host/m.gguf" "tok" "toksha".
Definition start_engine : ShardEngine := {|
  se_pipelines := ∅; se_assignments := ∅; se_last_assigned := None; se_prompt_cache := <["m" := "aa"]> {["d" := "bb"]};
  se_stake_pool := {| addresses := ["addr"]; next := 0 |};
  se_model_sources := mkModelSources (<["moe" := moe_source]> {["dense" := moe_source]}) None;
  se_b3lite := None; se_expert_vram := ∅; se_tasks := [] |}.
Definition start_sys : ShardSys Empty_set := mkShardSys host_world start_engine None 0.

(** [wallet]'s answer to a step. *)
Definition sample_result (id : string) (shard token : N) (next : option N) (experts : option (list (list RouterExpertChoice)))
    (step : option N) : OpoiShardResult :=
  mkOpoiShardResult id shard token "h" (mkShardOutputWire [1%N] "0000803f") next None experts step.

Section sample.
Existing Instances shard_csd empty_market sample_http table_order in_order key_iter toy_crypto toy_hex_error.

Definition ticked : ShardSys Empty_set := (poll_and_start_tick start_sys).2.
Definition moe_result : OpoiShardResult := sample_result "m" 0 0 None (Some [[mkRouterExpertChoice 7 f32_one]]) (Some 0%N).
Definition dense_result (shard token : N) (next : option N) : OpoiShardResult := sample_result "d" shard token next None None.
(** What the tick makes of request "d". *)
Definition dense_pipe : PipelineState := {|
  p_shards := [mkShardDescriptor 0 "DENSE" (Some 0) (Some 1) None; mkShardDescriptor 1 "DENSE" (Some 1) (Some 3) None]%N;
  p_manifest := mkModelManifest "dense" "llama" 3 "root" "ACTIVE"; p_prompt_hash := "ph"; p_max_tokens := 2; p_pos := 0;
  p_token_index := 0; p_current_input := Prompt "bb"; p_original_prompt_hex := "bb"; p_generated_token_ids := [];
  p_contributions := ∅; p_expert_groups := ∅; p_moe_layer_walk := None;
  p_dispatch_log := [mkDispatchRecord 0 0 1 None "b" 0] |}.
(** The call that [moe_result] makes: expert 7 of layer 0, on anyone but "a". *)
Definition moe_call : ExpertCall := {|
  ec_job := mkJob "m" 0 1 0 0 "moe" "http://host/m.gguf" "root";
  ec_experts := [mkSelectedExpert 7 f32_one [1%N] [f32_to_bits f32_one]]; ec_min_vram_mb := 1; ec_pre_excluded := ["a"];
  ec_interior := false; ec_source := moe_source |}.
Definition answered (wallet : string) (r : OpoiShardResult) (s : ShardSys Empty_set) : ShardSys Empty_set :=
  (handle_shard_result_inner wallet r s).2.
End sample.

(** ** Lemmas *)

Lemma pipeline_ok_log p l : pipeline_ok p → pipeline_ok (p <| p_dispatch_log := l |>).
Proof. intros []. by split. Qed.
Lemma pipeline_ok_contributions p m : pipeline_ok p → pipeline_ok (p <| p_contributions := m |>).
Proof. intros []. by split. Qed.
Lemma pipeline_ok_walk p w : pipeline_ok p → expert_group_for p (p_pos p) ≠ None → pipeline_ok (p <| p_moe_layer_walk := Some w |>).
Proof. intros [] Hg. split; try done. intros Hp. destruct (ok_input_first0 Hp) as [|[? _]]; [by left|by right]. Qed.

Lemma pipeline_ok_next_shard p shape d :
  pipeline_ok p → S (p_pos p) < length (p_shards p) →
  pipeline_ok (p <| p_pos := S (p_pos p) |> <| p_current_input := Tensor shape d |> <| p_moe_layer_walk := None |>).
Proof. intros [] Hlt. by split. Qed.

Lemma pipeline_ok_next_token p t :
  pipeline_ok p → (wrap32 (p_token_index p + 1) < p_max_tokens p)%N →
  let q := p <| p_generated_token_ids := p_generated_token_ids p ++ [t] |> in
  pipeline_ok (q <| p_pos := 0 |> <| p_token_index := wrap32 (p_token_index q + 1) |>
                 <| p_current_input := NextTokenId t |> <| p_moe_layer_walk := None |>).
Proof.
  intros [] Hlt q. assert (Hw : wrap32 (p_token_index p + 1) = (p_token_index p + 1)%N).
  { unfold wrap32, u32_modulus in *. apply N.mod_small. destruct ok_tokens0 as [->|?]; [done|].
    pose proof (N.mod_le (p_token_index p + 1) (2 ^ 32)). lia. }
  destruct p. cbn in *. unfold q. split; cbn; unfold constant; try done; [lia| |by right|].
  - rewrite Hw, length_app. cbn. lia.
  - intros _. left. unfold fresh_input. cbn. by rewrite last_snoc.
Qed.

(** *** What the daemon's list of requests decodes to *)

Lemma field_decoded {A} name (f : Value → option A) src x src' : field name None f src = Some (x, src') → ∃ v, f v = Some x.
Proof.
  unfold field. destruct src as [fs|[|v l]]; [|done|].
  - destruct (get_key name (Object fs)) as [v|]; [|done]. intros (y & Hy & [= <- _])%bind_Some. eauto.
  - intros (y & Hy & [= <- _])%bind_Some. eauto.
Qed.

Lemma of_u32_bound v n : of_u32 v = Some n → (n < 2 ^ 32)%N.
Proof.
  unfold of_u32, of_uint. destruct v as [| |[m| |]| | |]; try done.
  destruct (N.ltb_spec m (2 ^ 32)); [|done]. by intros [= <-].
Qed.

Lemma of_struct_read {A} (read : fields → option (A * fields)) v x :
  of_struct read v = Some x → ∃ src rest, read src = Some (x, rest).
Proof.
  unfold of_struct. destruct v as [| | | |l|fs]; try done; intros ([y rest] & Hy & Hr)%bind_Some.
  - destruct rest as [|[|]]; try done. injection Hr as ->. eauto.
  - injection Hr as ->. eauto.
Qed.

Lemma parse_request_max v r : parse_request v = Some r → (rq_max_tokens r < 2 ^ 32)%N.
Proof.
  intros (src & rest & Hr)%of_struct_read.
  do 8 (apply bind_Some in Hr as ([? ?] & ? & Hr)). injection Hr as <- _. cbn.
  match goal with Hf : field "max_tokens" None of_u32 _ = _ |- _ => apply field_decoded in Hf as [v' Hv'] end.
  by eapply of_u32_bound.
Qed.

Lemma pending_max `{Csd} log l log' : list_pending_requests log = (Ok l, log') → Forall (λ r, (rq_max_tokens r < 2 ^ 32)%N) l.
Proof.
  unfold list_pending_requests, call. intros Hc. apply (f_equal fst) in Hc. cbn [fst] in Hc. unfold decode_response in Hc.
  destruct (csd_post _ _ _) as [|?|body]; try done.
  assert (of_list parse_request (default Null (get_key "result" body)) = Some l) as Hl.
  { destruct (of_list parse_request _) as [l'|].
    - destruct (get_key "error" body) as [[]|]; congruence.
    - destruct (get_key "error" body) as [[]|]; congruence. }
  destruct (default Null (get_key "result" body)) as [| | | |vs|]; try done. cbn in Hl.
  apply mapM_Some in Hl. clear -Hl. induction Hl as [|v r vs l Hv _ IH]; constructor; [by eapply parse_request_max|done].
Qed.

Section proofs.
Context {Sp : Type} `{SpecEngine Sp} `{Csd, RowOrder, Crypto, HexError, MapIter, HttpGet, Marketplace, Schedule}.
Notation Sys := (ShardSys Sp).
Notation pipes s := (se_pipelines (x_engine s)).

(** *** Operations that leave the pipelines alone *)

#[local] Instance same_pipes_preorder : PreOrder (same_pipes (Sp := Sp)).
Proof. unfold same_pipes. split; [done|]. intros s1 s2 s3 H12 H23. by rewrite H23. Qed.

Lemma same_in_world {A} (m : M World A) : steps (same_pipes (Sp := Sp)) (in_world m).
Proof. intros s. unfold in_world. by destruct (m (x_world s)). Qed.
Lemma same_unassign id : steps (same_pipes (Sp := Sp)) (unassign id).
Proof. by intros s. Qed.
Lemma same_assign id a : steps (same_pipes (Sp := Sp)) (assign id a).
Proof. by intros s. Qed.
Lemma same_resolve m : steps (same_pipes (Sp := Sp)) (resolve_source m).
Proof. intros s. unfold resolve_source. by destruct (ModelSource.resolve _ _ _). Qed.
Lemma same_pool_try {T} (f : string → M csd_log (result T AppError)) : steps (same_pipes (Sp := Sp)) (pool_try f).
Proof. intros s. unfold pool_try. by destruct (try_each f _) as [r [pool log]]. Qed.
Lemma same_min_vram a b c d e f : steps (same_pipes (Sp := Sp)) (min_vram a b c d e f).
Proof. intros s. unfold min_vram. by destruct (min_vram_mb_for_range _ _ _ _ _ _ _). Qed.
Lemma same_with_spec {A} (none : A) m : steps (same_pipes (Sp := Sp)) (with_spec none m).
Proof. intros s. unfold with_spec. destruct (x_spec s) as [sp|]; [|done]. by destruct (m _) as [a [w sp']]. Qed.
Lemma same_forget_prompt id : steps (same_pipes (Sp := Sp)) (forget_prompt id).
Proof. by intros s. Qed.
Lemma same_ask {A} (f : ShardEngine → A) : steps (same_pipes (Sp := Sp)) (ask f).
Proof. by intros s. Qed.

Lemma keeps_same {A} (m : M Sys A) : steps (same_pipes (Sp := Sp)) m → keeps_ok (Sp := Sp) m.
Proof. intros Hm s Hok id p. rewrite (Hm s). apply Hok. Qed.
Lemma keeps_bind {A B} (m : M Sys A) (f : A → M Sys B) : keeps_ok (Sp := Sp) m → (∀ a, keeps_ok (Sp := Sp) (f a)) → keeps_ok (Sp := Sp) (m ≫= f).
Proof. intros Hm Hf s Hok. unfold mbind, M_bind. specialize (Hm s Hok). destruct (m s) as [a s1]. by apply Hf. Qed.
Lemma keeps_ret {A} (a : A) : keeps_ok (Sp := Sp) (mret a).
Proof. by intros s Hok. Qed.
Lemma keeps_for_each {A} (f : A → M Sys ()) l : (∀ x, keeps_ok (Sp := Sp) (f x)) → keeps_ok (Sp := Sp) (for_each f l).
Proof. intros Hf. induction l; [apply keeps_ret|]. by apply keeps_bind. Qed.
Lemma keeps_drop id : keeps_ok (Sp := Sp) (drop_pipeline id).
Proof.
  intros s Hok id' p Hp. change (delete id (pipes s) !! id' = Some p) in Hp.
  apply lookup_delete_Some in Hp as [_ Hp]. by eapply Hok.
Qed.
Lemma keeps_with id f (s : Sys) : pipelines_ok s → (∀ p, pipes s !! id = Some p → pipeline_ok (f p)) → pipelines_ok (with_pipeline id f s).2.
Proof.
  intros Hok Hf id' p Hp. change (alter f id (pipes s) !! id' = Some p) in Hp.
  apply lookup_alter_Some in Hp as [(-> & q & Hq & ->)|[_ Hp]]; [by apply Hf|by eapply Hok].
Qed.
#[local] Hint Resolve same_in_world same_unassign same_assign same_resolve same_pool_try same_min_vram same_with_spec
  same_forget_prompt same_ask keeps_same keeps_ret keeps_drop : core.

(** *** Dispatching *)

Lemma keeps_with_all id f : (∀ p, pipeline_ok p → pipeline_ok (f p)) → keeps_ok (Sp := Sp) (with_pipeline id f).
Proof. intros Hf s Hok. apply keeps_with; [done|]. intros p Hp. apply Hf. by eapply Hok. Qed.
Lemma keeps_bind_at {A B} (m : M Sys A) (f : A → M Sys B) s :
  (∀ a s1, m s = (a, s1) → pipelines_ok (f a s1).2) → pipelines_ok ((m ≫= f) s).2.
Proof. intros Hf. unfold mbind, M_bind. specialize (Hf (m s).1 (m s).2). destruct (m s). by apply Hf. Qed.

Lemma send_shard_ok id source p shard wallet step : keeps_ok (Sp := Sp) (send_shard id source p shard wallet step).
Proof.
  intros s Hok. unfold send_shard. destruct (MinerRegistry.get _ _) as [tx|]; [|done]. revert s Hok.
  apply keeps_bind; [auto|]. intros _. apply keeps_bind; [apply keeps_with_all; intros q Hq; by apply pipeline_ok_log|].
  intros _. unfold ignore. apply keeps_bind; auto.
Qed.

Lemma dispatch_current_ok id source : keeps_ok (Sp := Sp) (dispatch_current id source).
Proof.
  intros s Hok. unfold dispatch_current. destruct (pipes s !! id) as [p|] eqn:Hp; [|done].
  destruct (current_shard p) as [shard|]; [|done].
  destruct (p_moe_layer_walk p) as [[l w]|].
  - destruct (MinerRegistry.get _ _); [by apply send_shard_ok|]. revert s Hok Hp. intros s Hok _. revert s Hok.
    apply keeps_bind; auto.
  - destruct (pick_next _ _) as [w|]; [|done]. apply keeps_bind_at. intros [] s1 E1.
    assert (Hs1 : pipes s1 = pipes s) by (by injection E1 as <-).
    assert (Hok1 : pipelines_ok s1) by (intros i q; rewrite Hs1; apply Hok). clear E1.
    destruct (expert_group_for p (p_pos p)) eqn:Hg; [|by apply send_shard_ok].
    apply keeps_bind_at. intros [] s2 E2. apply send_shard_ok.
    replace s2 with (with_pipeline id (λ q, q <| p_moe_layer_walk := Some (layer_start_of shard, w) |>) s1).2 by (by rewrite E2).
    apply keeps_with; [done|]. intros q Hq. assert (q = p) as -> by congruence.
    apply pipeline_ok_walk; [by eapply Hok|congruence].
Qed.
#[local] Hint Resolve dispatch_current_ok : core.

(** *** Handlers *)

(** Ending a pipeline removes it, so its own state does not matter. *)
Lemma finalize_others id (s : Sys) :
  (∀ i p, i ≠ id → pipes s !! i = Some p → pipeline_ok p) → pipelines_ok (finalize_pipeline id s).2.
Proof.
  intros Hoth. unfold finalize_pipeline. apply keeps_bind_at. intros found s1 E1. injection E1 as <- <-.
  destruct (pipes s !! id) as [p|] eqn:Hp.
  - apply keeps_bind_at. intros [] s2 E2.
    assert (Hok2 : pipelines_ok s2).
    { injection E2 as <-. intros i q Hq. change (delete id (pipes s) !! i = Some q) in Hq.
      apply lookup_delete_Some in Hq as [Hne Hq]. by eapply Hoth. }
    revert s2 E2 Hok2. intros s2 _. revert s2.
    destruct (select_winning_wallet _); [|apply keeps_ret].
    destruct (build_response _) as [h x]. apply keeps_bind; [auto|]. intros b3.
    apply keeps_bind; [destruct b3; auto|]. intros _. apply keeps_bind; [auto|].
    intros [id'|]; [|auto]. apply keeps_same. by intros s'.
  - intros i p Hi. change (pipes s !! i = Some p) in Hi. apply (Hoth i p); [|exact Hi]. intros ->. congruence.
Qed.

Lemma await_experts_ok interior id w source ids l r : keeps_ok (Sp := Sp) (await_experts interior id w source ids l r).
Proof.
  unfold await_experts. destruct (res_router_selection r) as [sels|]; [|auto].
  destruct (_ || _); [by apply keeps_bind|]. destruct (existsb _ _); [by apply keeps_bind|].
  destruct (hex_to_f32 _) as [vs|]; [|by apply keeps_bind].
  apply keeps_bind; [by apply keeps_same, same_ask|]. intros found.
  destruct found as [p|]; cbn [fmap option_fmap option_map]; [|auto].
  destruct (current_shard p) as [shard|]; [|auto]. apply keeps_bind; [auto|]. intros mb.
  apply keeps_bind; [destruct (p_moe_layer_walk p) as [[? ?]|]; auto|]. auto.
Qed.

Lemma shard_done_ok id w source p r (s : Sys) :
  pipelines_ok s → pipes s !! id = Some p → pipelines_ok (shard_done id w source p r s).2.
Proof.
  intros Hok Hp. unfold shard_done. set (last := (p_max_tokens p <=? _)%N). apply keeps_bind_at. intros sub s1 E1.
  assert (Hs1 : pipes s1 = pipes s).
  { change s1 with (sub, s1).2. rewrite <-E1. destruct last; [|done].
    apply (steps_bind (same_pipes (Sp := Sp))); [auto|]. by intros a s0. }
  assert (Hok1 : pipelines_ok s1) by (intros i q; rewrite Hs1; apply Hok). rewrite <-Hs1 in Hp. clear E1 Hok Hs1 s.
  destruct sub; [|done]. cbn [negb]. pose proof (Hok1 _ _ Hp) as Hpok.
  destruct (Nat.eqb_spec (S (p_pos p)) (length (p_shards p))) as [Hl|Hl]; cbn [negb].
  - destruct (res_next_token_id r) as [t|]; [|by apply (keeps_bind (drop_pipeline id)); auto].
    apply keeps_bind_at. intros [] s2 E2. set (f := λ q : PipelineState, q <| p_generated_token_ids := _ |>) in E2.
    assert (Hs2 : pipes s2 = alter f id (pipes s1)) by (by injection E2 as <-). clear E2.
    assert (Hoth : ∀ i q, i ≠ id → pipes s2 !! i = Some q → pipeline_ok q).
    { intros i q Hne Hq. rewrite Hs2, lookup_alter_ne in Hq by done. by eapply Hok1. }
    destruct last eqn:Hlast.
    + apply keeps_bind_at. intros [] s3 E3. change s3 with ((), s3).2. rewrite <-E3. by apply finalize_others.
    + apply keeps_bind_at. intros [] s3 E3.
      set (g := λ q : PipelineState, q <| p_pos := 0 |> <| p_token_index := _ |> <| p_current_input := _ |> <| p_moe_layer_walk := _ |>) in E3.
      assert (Hok3 : pipelines_ok s3).
      { injection E3 as <-. intros i q Hq. change (alter g id (pipes s2) !! i = Some q) in Hq.
        apply lookup_alter_Some in Hq as [(-> & q0 & Hq & ->)|[Hne Hq]]; [|by eapply Hoth].
        rewrite Hs2, lookup_alter_eq, Hp in Hq. injection Hq as <-. apply pipeline_ok_next_token; [done|].
        apply N.leb_gt. exact Hlast. }
      clear E3. revert s3 Hok3. apply keeps_bind; auto.
  - destruct (expert_group_for p (p_pos p)) as [ids|]; [by apply await_experts_ok|].
    apply keeps_bind_at. intros [] s2 E2.
    assert (Hok2 : pipelines_ok s2).
    { change s2 with ((), s2).2. rewrite <-E2. apply keeps_with; [done|]. intros q Hq. assert (q = p) as -> by congruence.
      apply pipeline_ok_next_shard; [done|]. pose proof (ok_pos _ Hpok). lia. }
    clear E2. revert s2 Hok2. apply keeps_bind; auto.
Qed.

Lemma shard_result_ok wallet r : keeps_ok (Sp := Sp) (handle_shard_result_inner wallet r).
Proof.
  intros s Hok. unfold handle_shard_result_inner. destruct (match x_spec s with Some sp => _ | None => _ end).
  { revert s Hok. apply keeps_bind; auto. }
  destruct (se_assignments (x_engine s) !! res_request_id r) as [a|]; [|done].
  destruct (assignment_matches a wallet r); [|done]. cbn [negb]. set (id := res_request_id r).
  revert s Hok. apply keeps_bind; [auto|]. intros _ s Hok. apply keeps_bind_at. intros found s1 E1. injection E1 as <- <-.
  destruct (pipes s !! id) as [p|] eqn:Hp; [|done]. apply keeps_bind_at. intros src s2 E2.
  assert (Hs2 : pipes s2 = pipes s) by (change s2 with (src, s2).2; rewrite <-E2; apply same_resolve).
  assert (Hok2 : pipelines_ok s2) by (intros i q; rewrite Hs2; apply Hok). clear E2.
  destruct src as [source|]; [|done]. apply keeps_bind_at. intros [] s3 E3. set (c := count_contribution wallet) in *.
  assert (Hok3 : pipelines_ok s3).
  { change s3 with ((), s3).2. rewrite <-E3. apply keeps_with_all; [|done]. intros q Hq. by apply pipeline_ok_contributions. }
  assert (Hp3 : pipes s3 !! id = Some (c p)).
  { injection E3 as <-. change (alter c id (pipes s2) !! id = Some (c p)). by rewrite lookup_alter_eq, Hs2, Hp. }
  clear E3. cbv zeta. destruct (res_moe_layer_step r) as [l|]; [|by apply shard_done_ok].
  destruct (current_shard (c p)) as [shard|]; [|done].
  destruct (interior_step _ _ _); [|by apply shard_done_ok].
  destruct (expert_group_for (c p) (p_pos (c p))); [by apply await_experts_ok|]. revert s3 Hok3 Hp3. intros s3 Hok3 _. revert s3 Hok3.
  apply keeps_bind; auto.
Qed.

Lemma resume_ok c combined (s : Sys) : fits c s → pipelines_ok s → pipelines_ok (resume c combined s).2.
Proof.
  intros Hfit Hok. unfold resume. destruct combined as [out|e]; [|revert s Hfit Hok; intros s _; revert s; apply keeps_bind; auto].
  apply keeps_bind_at. intros [] s2 E2. assert (Hok2 : pipelines_ok s2).
  { change s2 with ((), s2).2. rewrite <-E2. apply keeps_with; [done|]. intros p Hp. specialize (Hfit p Hp). specialize (Hok _ _ Hp). unfold advance.
    destruct (ec_interior c); [|by apply pipeline_ok_next_shard].
    destruct Hok. split; try done; cbn.
    - intros _. right. split; [done|]. destruct (p_moe_layer_walk p) as [[? ?]|]; [done|by destruct Hfit].
    - intros _. by apply ok_walk0. }
  clear E2. revert s2 Hok2. apply keeps_bind; auto.
Qed.

Lemma new_pipeline_ok req m shards groups prompt :
  shards ≠ [] → (rq_max_tokens req < 2 ^ 32)%N → pipeline_ok (new_pipeline req m shards groups prompt).
Proof.
  intros Hs Hm. split; cbn; try done; [destruct shards; [done|cbn; lia]|by left|by left].
Qed.
(** *** The poll tick *)

Lemma retry_one_ok id : keeps_ok (Sp := Sp) (retry_one id).
Proof.
  unfold retry_one. apply keeps_bind; [by apply keeps_same, same_ask|]. intros [p|]; [|auto].
  apply keeps_bind; [auto|]. intros [source|]; auto.
Qed.

Lemma start_pipeline_ok req m shards groups prompt source :
  shards ≠ [] → (rq_max_tokens req < 2 ^ 32)%N → keeps_ok (Sp := Sp) (start_pipeline req m shards groups prompt source).
Proof.
  intros Hs Hm. unfold start_pipeline. apply keeps_bind; [auto|]. intros [|].
  - apply keeps_bind; auto.
  - apply keeps_bind; [|intros _; apply keeps_bind; auto].
    intros s Hok id p Hp. change (<[rq_request_id req := new_pipeline req m shards groups prompt]> (pipes s) !! id = Some p) in Hp.
    apply lookup_insert_Some in Hp as [[_ <-]|[_ Hp]]; [by apply new_pipeline_ok|by eapply Hok].
Qed.

Lemma start_request_ok req : (rq_max_tokens req < 2 ^ 32)%N → keeps_ok (Sp := Sp) (start_request req).
Proof.
  intros Hm. unfold start_request. apply keeps_bind; [by apply keeps_same, same_ask|]. intros [p|]; [auto|].
  apply keeps_bind; [auto|]. intros [m|]; [|auto]. destruct (negb _); [auto|].
  apply keeps_bind; [auto|]. intros [prompt|]; [|auto].
  apply keeps_bind; [auto|]. intros [g|]; [|auto]. apply keeps_bind; [auto|]. intros [source|]; [|auto].
  destruct (split_model_execution_graph _) as [shards groups]. case_bool_decide as Hs; [auto|].
  apply keeps_bind; [auto|]. intros [claim|]; [|auto]. by apply start_pipeline_ok.
Qed.

Lemma poll_tick_ok : keeps_ok (Sp := Sp) poll_and_start_tick.
Proof.
  unfold poll_and_start_tick. apply keeps_bind.
  { unfold retry_stalled_pipelines. apply keeps_bind; [by apply keeps_same, same_ask|]. intros l. apply keeps_for_each, retry_one_ok. }
  intros _ s Hok. apply keeps_bind_at. intros reqs s1 E1.
  assert (Hok1 : pipelines_ok s1) by (change s1 with (reqs, s1).2; rewrite <-E1; by apply keeps_same).
  destruct reqs as [l|e]; [|done].
  assert (Hl : Forall (λ r, (rq_max_tokens r < 2 ^ 32)%N) l).
  { unfold in_world, csd, zoom in E1. destruct (list_pending_requests (w_csd (x_world s))) as [r log] eqn:Hl.
    injection E1 as -> _. by eapply pending_max. }
  clear E1. revert s1 Hok1. apply keeps_bind; [|auto]. clear -Hl.
  induction Hl as [|r l Hr _ IH]; [apply keeps_ret|]. apply keeps_bind; [by apply start_request_ok|auto].
Qed.

Lemma shard_step_ok s s' : shard_step s s' → pipelines_ok s → pipelines_ok s'.
Proof.
  destruct 1 as [id prompt s|w r s|c o s Hf|w s|s|t s|w s|t s]; intros Hok; try exact Hok.
  - by apply shard_result_ok.
  - by apply resume_ok.
  - by apply poll_tick_ok.
  - revert s Hok. unfold run_shard_task. apply keeps_bind; auto.
Qed.

(** *** What a step leaves alone *)

#[local] Instance untouched_preorder id : PreOrder (untouched (Sp := Sp) id).
Proof. unfold untouched. split; [done|]. intros s1 s2 s3 [A1 A2] [B1 B2]. split; congruence. Qed.

Lemma untouched_with id id' f : id ≠ id' → steps (untouched (Sp := Sp) id) (with_pipeline id' f).
Proof. intros Hne s. split; [|done]. change (alter f id' (pipes s) !! id = pipes s !! id). by rewrite lookup_alter_ne. Qed.
Lemma untouched_assign id id' a : id ≠ id' → steps (untouched (Sp := Sp) id) (assign id' a).
Proof. intros Hne s. split; [done|]. change (<[id' := a]> (se_assignments (x_engine s)) !! id = se_assignments (x_engine s) !! id). by rewrite lookup_insert_ne. Qed.
Lemma untouched_unassign id id' : id ≠ id' → steps (untouched (Sp := Sp) id) (unassign id').
Proof. intros Hne s. split; [done|]. change (delete id' (se_assignments (x_engine s)) !! id = se_assignments (x_engine s) !! id). by rewrite lookup_delete_ne. Qed.
Lemma untouched_drop id id' : id ≠ id' → steps (untouched (Sp := Sp) id) (drop_pipeline id').
Proof. intros Hne s. split; [|done]. change (delete id' (pipes s) !! id = pipes s !! id). by rewrite lookup_delete_ne. Qed.
Lemma untouched_in_world {A} id (m : M World A) : steps (untouched (Sp := Sp) id) (in_world m).
Proof. intros s. unfold in_world. by destruct (m (x_world s)). Qed.
Lemma untouched_resolve id m : steps (untouched (Sp := Sp) id) (resolve_source m).
Proof. intros s. unfold resolve_source. by destruct (ModelSource.resolve _ _ _). Qed.
#[local] Hint Resolve untouched_with untouched_assign untouched_unassign untouched_drop untouched_in_world untouched_resolve : steps.

Lemma untouched_send id id' source p shard w step :
  id ≠ id' → steps (untouched (Sp := Sp) id) (send_shard id' source p shard w step).
Proof.
  intros Hne s. unfold send_shard. destruct (MinerRegistry.get _ _); [|done]. revert s.
  do 2 (apply steps_bind; [typeclasses eauto|by auto with steps|intros _]). apply steps_ignore; [typeclasses eauto|]. auto with steps.
Qed.

Lemma untouched_dispatch id id' source : id ≠ id' → steps (untouched (Sp := Sp) id) (dispatch_current id' source).
Proof.
  intros Hne s. unfold dispatch_current. destruct (pipes s !! id') as [p|]; [|done].
  destruct (current_shard p) as [shard|]; [|done]. destruct (p_moe_layer_walk p) as [[l w]|].
  - destruct (MinerRegistry.get _ _); [by apply untouched_send|]. revert s.
    apply steps_bind; [typeclasses eauto|by auto with steps|intros _; by auto with steps].
  - destruct (pick_next _ _) as [w|]; [|done]. revert s. apply steps_bind; [typeclasses eauto|by intros s|intros _].
    destruct (expert_group_for _ _); [|by apply untouched_send].
    apply steps_bind; [typeclasses eauto|by auto with steps|intros _; by apply untouched_send].
Qed.

Lemma untouched_retry id id' : id ≠ id' → steps (untouched (Sp := Sp) id) (retry_one id').
Proof.
  intros Hne. unfold retry_one. apply steps_bind; [typeclasses eauto|by intros s|]. intros [p|]; [|apply steps_ret; typeclasses eauto].
  apply steps_bind; [typeclasses eauto|auto with steps|]. intros [source|]; [by apply untouched_dispatch|apply steps_ret; typeclasses eauto].
Qed.

Lemma matches_answers a wallet r : assignment_matches a wallet r = true ↔ answers a wallet r.
Proof. unfold assignment_matches, answers. rewrite !andb_true_iff, !bool_decide_eq_true, !N.eqb_eq. tauto. Qed.

Lemma not_spec id (s : Sys) : not_speculative id s → match x_spec s with Some sp => spec_has_pipeline sp id | None => false end = false.
Proof. intros Hspec. destruct (x_spec s) as [sp|] eqn:E; [by apply Hspec|done]. Qed.

Lemma dense_next_shards w p r : p_shards (dense_next w p r) = p_shards p.
Proof. unfold dense_next. destruct (_ =? _)%nat; [|done]. by destruct (res_next_token_id r). Qed.
Lemma dense_run_shards p rs : p_shards (dense_run p rs) = p_shards p.
Proof.
  revert p. induction rs as [|wr rs IH]; intros p; [done|]. unfold dense_run in *. cbn [fold_left].
  by rewrite IH, dense_next_shards.
Qed.

(** One more result: a round ends exactly when every shard has answered. *)
Lemma round_step k n : 0 < n →
  (S (k `mod` n) = n ∧ S k `mod` n = 0 ∧ S k / n = S (k / n))
  ∨ (S (k `mod` n) ≠ n ∧ S k `mod` n = S (k `mod` n) ∧ S k / n = k / n).
Proof.
  intros Hn. pose proof (Nat.div_mod_eq k n) as Hk. pose proof (Nat.mod_upper_bound k n) as Hm.
  destruct (decide (S (k `mod` n) = n)) as [He|He]; [left|right]; (split; [done|]).
  - assert (S k = n * S (k / n) + 0) as Hs by nia. split.
    + symmetry. apply (Nat.mod_unique _ _ (S (k / n))); [lia|done].
    + symmetry. apply (Nat.div_unique _ _ _ 0); [lia|done].
  - assert (S k = n * (k / n) + S (k `mod` n)) as Hs by lia. split.
    + symmetry. apply (Nat.mod_unique _ _ (k / n)); [lia|done].
    + symmetry. apply (Nat.div_unique _ _ _ (S (k `mod` n))); [lia|done].
Qed.

Lemma alter_known {V} (f : V → V) (id : string) (m : gmap string V) x : m !! id = Some x → alter f id m = <[id := f x]> m.
Proof.
  intros Hm. apply map_eq. intros j. destruct (decide (j = id)) as [->|Hne].
  - by rewrite lookup_alter_eq, lookup_insert_eq, Hm.
  - by rewrite lookup_alter_ne, lookup_insert_ne.
Qed.

(** Taking an assignment and rewriting a known pipeline, one or several times. *)
Lemma with_pipeline_known id f p (s : Sys) :
  pipes s !! id = Some p → with_pipeline id f s = ((), set_engine s ((x_engine s) <| se_pipelines := <[id := f p]> (pipes s) |>)).
Proof. intros Hp. unfold with_pipeline, engine. by rewrite (alter_known f id _ p Hp). Qed.

Lemma unassign_with id f p (s : Sys) : pipes s !! id = Some p → with_pipeline id f (unassign id s).2 = ((), taken id (f p) s).
Proof. intros Hp. by rewrite (with_pipeline_known id f p). Qed.

Lemma with_taken id f p (s : Sys) : with_pipeline id f (taken id p s) = ((), taken id (f p) s).
Proof.
  rewrite (with_pipeline_known id f p) by apply lookup_insert_eq.
  change (pipes (taken id p s)) with (<[id := p]> (pipes s)). rewrite insert_insert_eq. done.
Qed.

Lemma resolve_source_local (s : Sys) m source :
  sources (se_model_sources (x_engine s)) !! m = Some source → resolve_source m s = (Some source, s).
Proof.
  intros Hs. unfold resolve_source. rewrite (proj2 (resolve_local (x_now s) m _) _ Hs).
  f_equal. destruct s as [w [] sp now]. done.
Qed.

Lemma with_log_self p : with_log (p_dispatch_log p) p = p.
Proof. by destruct p. Qed.
Lemma dense_next_log w p l r : dense_next w (with_log l p) r = with_log l (dense_next w p r).
Proof.
  unfold dense_next. change (p_pos (count_contribution w (with_log l p))) with (p_pos p).
  change (p_pos (count_contribution w p)) with (p_pos p).
  change (length (p_shards (count_contribution w (with_log l p)))) with (length (p_shards p)).
  change (length (p_shards (count_contribution w p))) with (length (p_shards p)).
  destruct (_ =? _)%nat; [|done]. by destruct (res_next_token_id r).
Qed.
Lemma dense_next_dense w p r : p_expert_groups (dense_next w p r) = p_expert_groups p ∧ p_max_tokens (dense_next w p r) = p_max_tokens p.
Proof. unfold dense_next. destruct (_ =? _)%nat; [|done]. by destruct (res_next_token_id r). Qed.
Lemma no_group p pos : p_expert_groups p = ∅ → expert_group_for p pos = None.
Proof. intros Hg. unfold expert_group_for. rewrite Hg. destruct (p_shards p !! pos); [|done]. cbn. by rewrite lookup_empty. Qed.

(** Dispatching a dense shard only adds to the pipeline's log. *)
Lemma send_shard_log id source p0 shard w step (s : Sys) p :
  pipes s !! id = Some p → ∃ l, pipes (send_shard id source p0 shard w step s).2 !! id = Some (with_log l p).
Proof.
  intros Hp. unfold send_shard. destruct (MinerRegistry.get _ _) as [tx|]; [|exists (p_dispatch_log p); by rewrite with_log_self].
  rewrite bind_run. cbn [assign engine]. rewrite bind_run.
  rewrite (with_pipeline_known id _ p) by exact Hp. cbv beta iota.
  eexists. rewrite (steps_ignore same_pipes _ (same_in_world _) _). apply lookup_insert_eq.
Qed.

Lemma dispatch_log id source (s : Sys) p :
  pipes s !! id = Some p → p_expert_groups p = ∅ → p_moe_layer_walk p = None →
  ∃ l, pipes (dispatch_current id source s).2 !! id = Some (with_log l p).
Proof.
  intros Hp Hg Hw. unfold dispatch_current. rewrite Hp, Hw.
  assert (Hself : ∃ l, pipes s !! id = Some (with_log l p)) by (exists (p_dispatch_log p); by rewrite with_log_self).
  destruct (current_shard p) as [shard|]; [|done]. destruct (pick_next _ _) as [w|]; [|done].
  rewrite bind_run, (no_group p (p_pos p) Hg). by apply send_shard_log.
Qed.

(** The fold over results: after [k] of them the pipeline stands at shard
    [k mod n] of token [k / n]. *)
Lemma dense_run_fields p rs :
  let n := length (p_shards p) in
  unstarted p → 0 < n → (N.of_nat (length rs) < 2 ^ 32)%N →
  (∀ i wr, rs !! i = Some wr → S i `mod` n = 0 → res_next_token_id wr.2 ≠ None) →
  let q := dense_run p rs in
  p_pos q = length rs `mod` n ∧ p_token_index q = N.of_nat (length rs / n)
  ∧ p_generated_token_ids q = round_tokens n rs
  ∧ ∀ w, default 0%N (p_contributions q !! w) = N.of_nat (length (filter (λ wr, wr.1 = w) rs)).
Proof.
  intros n (Hp0 & Ht0 & Hg0 & Hc0) Hn. induction rs as [|[w r] rs IH] using rev_ind; intros Hlen Htok q.
  { subst q. cbn. rewrite Hp0, Ht0, Hg0, Hc0. rewrite Nat.Div0.mod_0_l, Nat.Div0.div_0_l. split_and!; [done|done|done|].
    intros w. by rewrite lookup_empty. }
  rewrite length_app in Hlen. cbn [length] in Hlen.
  destruct IH as (P & T & G & C); [lia|intros i wr Hi; apply Htok; by apply lookup_app_l_Some|].
  assert (Hsh : p_shards (dense_run p rs) = p_shards p) by apply dense_run_shards.
  set (k := length rs) in *. unfold q, dense_run. rewrite fold_left_app. cbn [fold_left fst snd]. fold (dense_run p rs).
  set (p1 := dense_run p rs) in *. rewrite length_app. cbn [length]. fold k. rewrite Nat.add_1_r.
  assert (Hr : round_tokens n (rs ++ [(w, r)]) = round_tokens n rs ++ (if (S k `mod` n =? 0)%nat then option_list (res_next_token_id r) else [])).
  { unfold round_tokens. rewrite imap_app, omap_app. cbn. rewrite Nat.add_0_r. fold k.
    destruct (_ =? 0)%nat; [|done]. by destruct (res_next_token_id r). }
  rewrite Hr. unfold dense_next. set (p2 := count_contribution w p1).
  assert (Hc : ∀ w', default 0%N (p_contributions p2 !! w') = N.of_nat (length (filter (λ wr, wr.1 = w') (rs ++ [(w, r)])))).
  { intros w'. change (p_contributions p2) with (<[w := wrap32 (default 0%N (p_contributions p1 !! w) + 1)]> (p_contributions p1)).
    rewrite filter_app, length_app, Nat2N.inj_add, <-C. destruct (decide (w' = w)) as [->|Hne].
    - rewrite lookup_insert_eq, filter_cons_True, filter_nil by done. cbn [default length].
      unfold wrap32. rewrite N.mod_small; [done|]. rewrite C. pose proof (length_filter (λ wr : string * OpoiShardResult, wr.1 = w) rs).
      unfold u32_modulus. lia.
    - rewrite lookup_insert_ne, filter_cons_False, filter_nil by done. cbn. lia. }
  assert (Hp2 : p_pos p2 = k `mod` n ∧ p_token_index p2 = N.of_nat (k / n) ∧ p_generated_token_ids p2 = round_tokens n rs
                ∧ length (p_shards p2) = n) by (split_and!; [exact P|exact T|exact G|change (length (p_shards p1) = n); by rewrite Hsh]).
  destruct Hp2 as (P2 & T2 & G2 & N2). rewrite P2, N2.
  destruct (round_step k n Hn) as [(Hm & -> & ->)|(Hm & -> & ->)].
  - rewrite (proj2 (Nat.eqb_eq _ _) Hm). assert (res_next_token_id r ≠ None) as Hsome.
    { apply (Htok k (w, r)); [by rewrite lookup_app_r, Nat.sub_diag by lia|]. by destruct (round_step k n Hn) as [(_ & ? & _)|(Hm' & _)]. }
    destruct (res_next_token_id r) as [t|]; [|done]. split_and!; [done| |change (p_generated_token_ids p2 ++ [t] = round_tokens n rs ++ [t]); by rewrite G2|exact Hc].
    change (wrap32 (p_token_index p2 + 1) = N.of_nat (S (k / n))). rewrite T2. unfold wrap32, u32_modulus.
    pose proof (Nat.Div0.div_le_upper_bound k n k) as Hle. rewrite N.mod_small; [lia|]. assert (k / n ≤ k) by (apply Hle; nia). lia.
  - rewrite (proj2 (Nat.eqb_neq _ _) Hm). rewrite (proj2 (Nat.eqb_neq (S (k `mod` n)) 0)) by lia. rewrite app_nil_r.
    split_and!; [done|exact T2|exact G2|exact Hc].
Qed.

Lemma finished_run {A} res (m : M Sys A) (s s' : Sys) out : finished res m s = (out, s') → s' = (m s).2.
Proof. unfold finished. rewrite bind_run. destruct (m s) as [a s1]. by intros [= _ <-]. Qed.

(** What accepting a dense result before the last token does to its pipeline. *)
Lemma shard_done_dense id w source p r (s s' : Sys) :
  let q := count_contribution w p in
  pipes s !! id = Some q → p_expert_groups p = ∅ → (wrap32 (p_token_index p + 1) < p_max_tokens p)%N →
  shard_done id w source q r s = (Finished (Ok ()), s') → dense_outcome id w p r s'.
Proof.
  intros q Hp Hg Hlt. unfold shard_done, dense_outcome, dense_next. fold q.
  change (p_max_tokens q) with (p_max_tokens p). change (p_token_index q) with (p_token_index p).
  change (p_pos q) with (p_pos p). change (p_shards q) with (p_shards p).
  rewrite (proj2 (N.leb_gt _ _) Hlt), bind_run. cbv beta iota zeta delta [mret M_ret negb]. rewrite (no_group q (p_pos p) Hg).
  destruct (Nat.eqb_spec (S (p_pos p)) (length (p_shards p))) as [Hl|Hl]; cbv beta iota.
  - destruct (res_next_token_id r) as [t|].
    + rewrite bind_run, (with_pipeline_known id _ q s Hp). cbv beta iota. rewrite bind_run.
      erewrite with_pipeline_known by apply lookup_insert_eq. cbv beta iota.
      intros ->%finished_run. right.
    match goal with |- context [dispatch_current id source ?s1] => edestruct (dispatch_log id source s1) as [l Hl'] end;
      [exact (lookup_insert_eq _ _ _)|exact Hg|done|]. exists l. split; [exact Hl'|done].
    + intros ->%finished_run. left. apply lookup_delete_eq.
  - rewrite bind_run, (with_pipeline_known id _ q s Hp). cbv beta iota.
    intros ->%finished_run. right.
    match goal with |- context [dispatch_current id source ?s1] => edestruct (dispatch_log id source s1) as [l Hl'] end;
      [exact (lookup_insert_eq _ _ _)|exact Hg|done|]. exists l. split; [exact Hl'|done].
Qed.

Lemma shard_result_gone wallet r (s s' : Sys) :
  not_speculative (res_request_id r) s → pipes s !! res_request_id r = None →
  handle_shard_result_inner wallet r s ≠ (Finished (Ok ()), s').
Proof.
  intros Hspec Hp. unfold handle_shard_result_inner. cbv zeta. rewrite (not_spec _ s Hspec).
  destruct (se_assignments (x_engine s) !! _) as [a|]; [|done]. destruct (assignment_matches a wallet r); [|done].
  cbn [negb]. rewrite bind_run. set (s1 := (unassign (res_request_id r) s).2). change (unassign (res_request_id r) s) with ((), s1). cbv beta iota.
  rewrite bind_run. change (pipeline_of (res_request_id r) s1) with (pipes s !! res_request_id r, s1). by rewrite Hp.
Qed.

Lemma dense_run_dense p rs : p_expert_groups (dense_run p rs) = p_expert_groups p ∧ p_max_tokens (dense_run p rs) = p_max_tokens p.
Proof.
  revert p. induction rs as [|wr rs IH]; intros p; [done|]. unfold dense_run in *. cbn [fold_left].
  destruct (IH (dense_next wr.1 p wr.2)) as [-> ->]. apply dense_next_dense.
Qed.

(** As long as [n * (max - 1)] results were not exceeded the next is not the last token's. *)
Lemma not_last_token k n max : 0 < n → (N.of_nat (k + 1) ≤ N.of_nat n * (max - 1))%N → (wrap32 (N.of_nat (k / n) + 1) < max)%N.
Proof.
  intros Hn Hk. unfold wrap32. pose proof (N.Div0.mod_le (N.of_nat (k / n) + 1) u32_modulus) as Hw.
  pose proof (Nat.Div0.mul_div_le k n). assert (n * (k / n) < n * N.to_nat (max - 1)) as Hlt by lia.
  apply Nat.mul_lt_mono_pos_l in Hlt; [|done]. lia.
Qed.

Lemma shard_result_dense wallet r p (s s' : Sys) :
  let id := res_request_id r in
  not_speculative id s → pipes s !! id = Some p → p_expert_groups p = ∅ → (wrap32 (p_token_index p + 1) < p_max_tokens p)%N →
  handle_shard_result_inner wallet r s = (Finished (Ok ()), s') → dense_outcome id wallet p r s'.
Proof.
  intros id Hspec Hp Hg Hlt. unfold handle_shard_result_inner. cbv zeta. fold id. rewrite (not_spec id s Hspec).
  destruct (se_assignments (x_engine s) !! id) as [a|]; [|done]. destruct (assignment_matches a wallet r); [|done].
  cbn [negb]. rewrite bind_run. set (s1 := (unassign id s).2). change (unassign id s) with ((), s1). cbv beta iota.
  rewrite bind_run. change (pipeline_of id s1) with (pipes s !! id, s1). rewrite Hp. cbv beta iota.
  rewrite bind_run. pose proof (same_resolve (mm_model_id (p_manifest p)) s1) as Hs2.
  destruct (resolve_source (mm_model_id (p_manifest p)) s1) as [[source|] s2]; cbn [snd] in Hs2; [|done].
  rewrite bind_run. assert (Hp2 : pipes s2 !! id = Some p) by (rewrite Hs2; exact Hp).
  rewrite (with_pipeline_known id _ p s2 Hp2). cbv beta iota zeta. set (q := count_contribution wallet p).
  set (s3 := set_engine s2 _). assert (Hp3 : pipes s3 !! id = Some q) by apply lookup_insert_eq.
  pose proof (λ s', shard_done_dense id wallet source p r s3 s' Hp3 Hg Hlt) as Hdone.
  destruct (res_moe_layer_step r) as [l|]; [|apply Hdone]. destruct (current_shard q) as [shard|]; [|done].
  destruct (interior_step _ _ _); [|apply Hdone]. rewrite (no_group q (p_pos q) Hg).
  intros ->%finished_run. left. apply lookup_delete_eq.
Qed.

(** *** Calls for experts *)

Lemma await_experts_inv interior id w source ids l r (s s' : Sys) c :
  await_experts interior id w source ids l r s = (AwaitExperts c, s') →
  ∃ p shard, pipes s !! id = Some p ∧ current_shard p = Some shard
    ∧ call_for id w r p shard ids (se_assignments (x_engine s')) c ∧ ec_interior c = interior.
Proof.
  unfold await_experts. destruct (res_router_selection r) as [sels|]; [|done].
  destruct (bool_decide (sels = []) || _) eqn:He; [done|].
  destruct (existsb (existsb _) sels) eqn:Hreg; [done|]. destruct (hex_to_f32 _) as [vs|]; [|done].
  rewrite bind_run. unfold pipeline_of, ask. cbv beta iota. destruct (pipes s !! id) as [p|] eqn:Hp; [|done].
  cbn [fmap option_fmap option_map]. destruct (current_shard p) as [shard|] eqn:Hsh; [|done].
  rewrite bind_run. destruct (min_vram _ _ _ _ _ _ s) as [mb s1]. rewrite bind_run.
  set (m := match p_moe_layer_walk p with Some _ => _ | None => _ end). destruct (m s1) as [[] s2] eqn:Em.
  intros [= <- <-]. exists p, shard. apply orb_false_iff in He as [Hne%bool_decide_eq_false He].
  assert (Hlast : ∃ sel, List.last sels [] = sel ∧ sel ∈ sels).
  { eexists. split; [reflexivity|]. destruct (List.exists_last Hne) as (l1 & x & ->). rewrite List.last_last. set_solver. }
  destruct Hlast as (sel & Hsel & Hin). rewrite Hsel. split_and!; [done|done| |done].
  split; [done|done|done|done| |].
  - cbn. split.
    + intros Hnil. apply fmap_nil_inv in Hnil. rewrite Hnil in Hin.
      assert (existsb (λ l, bool_decide (l = [])) sels = true) as Hx; [|congruence].
      apply existsb_exists. exists []. split; [by apply list_elem_of_In|done].
    + intros e (ch & -> & Hch)%list_elem_of_fmap. cbn. destruct (decide (rc_expert_id ch ∈ ids)) as [|Hno]; [done|].
      assert (existsb (existsb (λ sel, negb (bool_decide (rc_expert_id sel ∈ ids)))) sels = true) as Hx; [|congruence].
      apply existsb_exists. exists sel. split; [by apply list_elem_of_In|]. apply existsb_exists. exists ch.
      split; [by apply list_elem_of_In|]. by rewrite bool_decide_eq_false_2.
  - intros l' pinned Hw. unfold m in Em. rewrite Hw in Em. injection Em as <-.
    change (<[id := mkShardAssignment pinned (res_shard_index r) (p_token_index p) (Some l)]> (se_assignments (x_engine s1)) !! id
      = Some (mkShardAssignment pinned (res_shard_index r) (p_token_index p) (Some l))). by rewrite lookup_insert_eq.
Qed.

Lemma shard_done_inv id w source p r (s s' : Sys) c :
  pipes s !! id = Some p → shard_done id w source p r s = (AwaitExperts c, s') →
  ∃ shard ids, current_shard p = Some shard ∧ expert_group_for p (p_pos p) = Some ids ∧ call_for id w r p shard ids (se_assignments (x_engine s')) c.
Proof.
  intros Hp. unfold shard_done. set (last := (p_max_tokens p <=? _)%N). rewrite bind_run.
  set (m := if last then _ else _). assert (Hm : pipes (m s).2 = pipes s).
  { unfold m. destruct last; [|done]. apply (steps_bind (same_pipes (Sp := Sp))); [auto|]. by intros a s0. }
  rewrite <-Hm in Hp. destruct (m s) as [sub s1]; cbn [snd] in *. clear m Hm s. destruct sub; [|done]. cbn [negb].
  destruct (Nat.eqb_spec (S (p_pos p)) (length (p_shards p))) as [Hl|Hl]; cbn [negb].
  - destruct (res_next_token_id r) as [t|]; [|by unfold finished; rewrite bind_run; destruct (drop_pipeline id s1)].
    rewrite bind_run. destruct (with_pipeline id _ s1) as [[] s2]. destruct last.
    + unfold finished. rewrite bind_run. by destruct (finalize_pipeline id s2).
    + rewrite bind_run. destruct (with_pipeline id _ s2) as [[] s3]. unfold finished. rewrite bind_run. by destruct (dispatch_current id source s3).
  - destruct (expert_group_for p (p_pos p)) as [ids|] eqn:Hg.
    + intros Ha. apply await_experts_inv in Ha as (p' & shard' & Hp' & Hsh' & Hcall & _).
      assert (p' = p) as -> by congruence. by exists shard', ids.
    + rewrite bind_run. destruct (with_pipeline id _ s1) as [[] s2]. unfold finished. rewrite bind_run. by destruct (dispatch_current id source s2).
Qed.

(** ** Theorems *)


(** C6. A shard result is acted on only when it answers, from the assigned
    wallet, exactly the step in flight: same shard, token and layer step.
    Anything else is refused and leaves no trace. *)
Theorem shard_result_guard wallet r (s : Sys) :
  not_speculative (res_request_id r) s →
  (¬ ∃ a, se_assignments (x_engine s) !! res_request_id r = Some a ∧ answers a wallet r) →
  handle_shard_result_inner wallet r s =
    (Finished (Err match se_assignments (x_engine s) !! res_request_id r with
                   | None => UnknownRequest
                   | Some _ => NotAssignedToCaller
                   end), s).
Proof.
  intros Hspec Hno. unfold handle_shard_result_inner.
  cbv zeta. rewrite (not_spec _ s Hspec).
  destruct (se_assignments (x_engine s) !! res_request_id r) as [a|] eqn:Ha; [|done].
  destruct (assignment_matches a wallet r) eqn:Hm; [|done]. exfalso. apply Hno. exists a. by rewrite <-matches_answers.
Qed.

(** A dense step before the last token: the accepted result moves the
    pipeline to [dense_next], and the next step is dispatched from there. *)
Theorem dense_result_step wallet r p source (s : Sys) :
  let id := res_request_id r in
  not_speculative id s →
  (∃ a, se_assignments (x_engine s) !! id = Some a ∧ answers a wallet r) →
  se_pipelines (x_engine s) !! id = Some p →
  p_pos p < length (p_shards p) → expert_group_for p (p_pos p) = None →
  res_moe_layer_step r = None → (wrap32 (p_token_index p + 1) < p_max_tokens p)%N →
  (S (p_pos p) = length (p_shards p) → res_next_token_id r ≠ None) →
  sources (se_model_sources (x_engine s)) !! mm_model_id (p_manifest p) = Some source →
  handle_shard_result_inner wallet r s
  = (Finished (Ok ()), (dispatch_current id source (taken id (dense_next wallet p r) s)).2).
Proof.
  intros id Hspec (a & Ha & Hans) Hp Hpos Hgrp Hstep Hlast Htok Hsrc. unfold handle_shard_result_inner.
  cbv zeta. fold id. rewrite (not_spec _ s Hspec). rewrite Ha, (proj2 (matches_answers a wallet r) Hans). cbn [negb]. rewrite bind_run.
  set (s1 := (unassign id s).2). change (unassign id s) with ((), s1). cbv beta iota.
  rewrite bind_run. change (pipeline_of id s1) with (pipes s !! id, s1). rewrite Hp. cbv beta iota.
  rewrite bind_run, (resolve_source_local s1 _ source Hsrc). cbv beta iota. rewrite bind_run.
  unfold s1. rewrite (unassign_with id _ p s Hp). cbv beta iota zeta. set (q := count_contribution wallet p).
  assert (Hq : p_pos q = p_pos p ∧ p_shards q = p_shards p ∧ p_max_tokens q = p_max_tokens p ∧ p_token_index q = p_token_index p
               ∧ p_expert_groups q = p_expert_groups p) by done.
  destruct Hq as (Q1 & Q2 & Q3 & Q4 & Q5). rewrite Hstep. unfold shard_done.
  rewrite Q3, Q4, (proj2 (N.leb_gt _ _) Hlast). rewrite bind_run. cbv beta iota zeta delta [mret M_ret negb].
  rewrite Q1, Q2. unfold dense_next. fold q. rewrite Q1, Q2.
  destruct (Nat.eqb_spec (S (p_pos p)) (length (p_shards p))) as [Hl|Hl]; cbv beta iota.
  - destruct (res_next_token_id r) as [t|]; [|by destruct (Htok Hl)]. rewrite bind_run, with_taken. cbv beta iota.
    rewrite bind_run, with_taken. cbv beta iota. unfold finished. rewrite bind_run.
    by destruct (dispatch_current id source _).
  - unfold expert_group_for in *. rewrite Q2, Q5, Hgrp. rewrite bind_run, with_taken. cbv beta iota. unfold finished. rewrite bind_run.
    by destruct (dispatch_current id source _).
Qed.


(** C8. A dense request, driven through the engine: after it accepted [k]
    results of a graph of [n] shards, all before the last token, the request, if
    it was not dropped, stands at shard [k mod n] of token [k / n], has generated
    exactly the tokens the last shard of each round reported, in order, and
    credits every wallet with the number of results it delivered. *)
Theorem dense_run_progress id (s0 s : Sys) p rs q :
  let n := length (p_shards p) in
  se_pipelines (x_engine s0) !! id = Some p → unstarted p → p_expert_groups p = ∅ → 0 < n →
  delivered id s0 rs s → (N.of_nat (length rs) ≤ N.of_nat n * (p_max_tokens p - 1))%N → (N.of_nat (length rs) < 2 ^ 32)%N →
  se_pipelines (x_engine s) !! id = Some q →
  p_pos q = length rs `mod` n ∧ p_token_index q = N.of_nat (length rs / n)
  ∧ p_generated_token_ids q = round_tokens n rs
  ∧ ∀ w, default 0%N (p_contributions q !! w) = N.of_nat (length (filter (λ wr, wr.1 = w) rs)).
Proof.
  intros n Hp0 Hun Hg Hn Hdel Hmax Hlen.
  assert (Hinv : pipes s !! id = None ∨
    ((∃ l, pipes s !! id = Some (with_log l (dense_run p rs)))
     ∧ ∀ i wr, rs !! i = Some wr → S i `mod` n = 0 → res_next_token_id wr.2 ≠ None)).
  { clear q. induction Hdel as [|rs wallet r s s' Hdel IH Hspec Hid Hr|rs s s' Hdel IH Hsame]; [| |by rewrite Hsame; apply IH].
    - right. split; [exists (p_dispatch_log p); by rewrite with_log_self|done].
    - rewrite length_app in Hmax, Hlen. cbn [length] in Hmax, Hlen. subst id.
      destruct IH as [Hnone|[[l Hl] Htok]]; [lia|lia|by destruct (shard_result_gone wallet r s s')|].
      destruct (dense_run_fields p rs Hun Hn) as (Fp & Ft & _); [lia|done|].
      destruct (dense_run_dense p rs) as [Dg Dm]. set (p1 := dense_run p rs) in *.
      destruct (shard_result_dense wallet r _ s s' Hspec Hl) as [Hnone|(l' & Hl' & Hnext)];
        [by rewrite <-Hg|change (wrap32 (p_token_index p1 + 1) < p_max_tokens p1)%N; rewrite Ft, Dm; by apply not_last_token|done|by left|].
      right. split.
      + exists l'. rewrite Hl', dense_next_log. unfold dense_run. by rewrite fold_left_app.
      + intros i wr [Hi|(Hi & Hwr)]%lookup_app_Some Hm; [by eapply Htok|].
        apply list_lookup_singleton_Some in Hwr as [Hi0 <-]. cbn. apply Hnext.
        change (S (p_pos p1) = length (p_shards p1)). rewrite Fp. unfold p1. rewrite dense_run_shards.
        assert (i = length rs) as -> by lia. by destruct (round_step (length rs) n Hn) as [[? _]|(_ & ? & _)]; [|lia]. }
  intros Hq. destruct Hinv as [Hnone|[[l Hl] Htok]]; [congruence|].
  assert (q = with_log l (dense_run p rs)) as -> by congruence. by apply (dense_run_fields p rs).
Qed.


(** The tick that redispatches stalled pipelines leaves every request whose
    current step is assigned exactly as it is: no second dispatch can race a
    step in flight, nor one whose experts are still being waited for. *)
Theorem retry_respects_assignments id a (s : Sys) :
  se_assignments (x_engine s) !! id = Some a → untouched id s (retry_stalled_pipelines s).2.
Proof.
  intros Ha. unfold retry_stalled_pipelines. rewrite bind_run. unfold ask. cbv beta iota.
  set (stalled := filter _ _). assert (Hnot : id ∉ stalled).
  { unfold stalled. rewrite list_elem_of_filter. intros [Hn _]. congruence. }
  clearbody stalled. revert s Ha. intros s _. revert s. apply steps_for_each; [typeclasses eauto|].
  intros id' Hin. apply untouched_retry. set_solver.
Qed.
End proofs.

(** ** Witnesses, and what the proofs brought out *)

Section examples.
Existing Instances shard_csd empty_market sample_http table_order in_order key_iter toy_crypto toy_hex_error.

(** While the experts of a step run, its request stays marked as assigned to the
    pinned wallet, and the comment there says a second result for that step
    "can't arrive".  A second copy (the wallet may hold two connections) is
    accepted: it is counted, dispatched and resumed too, and the second
    [pos += 1] skips a shard; a third runs past the last one. *)
Lemma duplicate_result_skips_shard out :
  let r1 := handle_shard_result_inner "a" moe_result ticked in
  let r2 := handle_shard_result_inner "a" moe_result r1.2 in
  let r3 := handle_shard_result_inner "a" moe_result r2.2 in
  (r1.1 = AwaitExperts moe_call ∧ r2.1 = AwaitExperts moe_call ∧ r3.1 = AwaitExperts moe_call)
    ∧ let s1 := (resume moe_call (Ok out) r3.2).2 in
      let s2 := (resume moe_call (Ok out) s1).2 in
      let s3 := (resume moe_call (Ok out) s2).2 in
      (λ s, p_pos <$> se_pipelines (x_engine s) !! "m") <$> [s1; s2; s3] = [Some 1; Some 2; Some 3]
      ∧ (λ s, as_shard_index <$> se_assignments (x_engine s) !! "m") <$> [s1; s2] = [Some 1; Some 2]%N
      ∧ (λ p, length (p_shards p)) <$> se_pipelines (x_engine s3) !! "m" = Some 3.
Proof. vm_compute. split_and!; reflexivity. Qed.

(** The mark is meant to last until the next dispatch replaces it.  When the
    experts of a range's last layer are combined but no miner can be picked, the
    mark of the finished step stays, and the tick never dispatches the request
    again, even when a miner that could serve it connects. *)
Lemma stale_mark_stalls out :
  let r1 := handle_shard_result_inner "a" moe_result ticked in
  let reg := w_reg (x_world r1.2) in
  let banned := fold_left (λ g m, ban m g) ["a"; "b"; "c"] reg in
  let with_reg := λ g (s : ShardSys Empty_set), set_world s ((x_world s) <| w_reg := g |>) in
  r1.1 = AwaitExperts moe_call
    ∧ let s := with_reg (register "e" 0%N banned) (resume moe_call (Ok out) (with_reg banned r1.2)).2 in
      let s' := (retry_stalled_pipelines s).2 in
      (λ s, (p_pos <$> se_pipelines (x_engine s) !! "m", se_assignments (x_engine s) !! "m")) <$> [s; s']
      = let stuck := (Some 1, Some (mkShardAssignment "a" 0 0 (Some 0%N))) in [stuck; stuck].
Proof. vm_compute. split; reflexivity. Qed.


Lemma shard_result_guard_witness :
  handle_shard_result_inner "c" (dense_result 0 0 None) ticked = (Finished (Err NotAssignedToCaller), ticked).
Proof.
  rewrite (shard_result_guard "c" (dense_result 0 0 None) ticked); [by vm_compute|by intros []|].
  intros (a & Ha & Hw & _). vm_compute in Ha. injection Ha as <-. done.
Defined.

Lemma dense_result_step_witness :
  ∃ p, se_pipelines (x_engine ticked) !! "d" = Some p
    ∧ handle_shard_result_inner "b" (dense_result 0 0 None) ticked
      = (Finished (Ok ()), (dispatch_current "d" moe_source (taken "d" (dense_next "b" p (dense_result 0 0 None)) ticked)).2).
Proof.
  eexists. split; [vm_compute; reflexivity|].
  refine (dense_result_step "b" (dense_result 0 0 None) _ moe_source ticked _ _ _ _ _ _ _ _ _);
    [by intros []| |vm_compute; reflexivity|cbn; lia|by vm_compute|done|by vm_compute|done|by vm_compute].
  exists (mkShardAssignment "b" 0 0 None). split; by vm_compute.
Defined.

Lemma dense_run_progress_witness :
  let rs := [("b", dense_result 0 0 None); ("c", dense_result 1 0 (Some 5%N))] in
  ∃ q, se_pipelines (x_engine (answered "c" (dense_result 1 0 (Some 5%N)) (answered "b" (dense_result 0 0 None) ticked))) !! "d" = Some q
    ∧ p_pos q = 0 ∧ p_token_index q = 1%N ∧ p_generated_token_ids q = [5%N]
    ∧ ∀ w, default 0%N (p_contributions q !! w) = N.of_nat (length (filter (λ wr, wr.1 = w) rs)).
Proof.
  intros rs. eexists. split; [vm_compute; reflexivity|].
  unshelve refine (dense_run_progress "d" ticked (answered "c" (dense_result 1 0 (Some 5%N)) (answered "b" (dense_result 0 0 None) ticked))
    dense_pipe rs _ _ _ _ _ _ _ _ _).
  - by vm_compute.
  - by split_and!; vm_compute.
  - by vm_compute.
  - vm_compute. lia.
  - apply (del_result "d" ticked [("b", dense_result 0 0 None)] "c" _ (answered "b" (dense_result 0 0 None) ticked));
      [|by intros []|done|by vm_compute].
    apply (del_result "d" ticked [] "b" _ ticked); [apply del_start|by intros []|done|by vm_compute].
  - by vm_compute.
  - done.
  - by vm_compute.
Defined.


Lemma retry_respects_assignments_witness :
  is_Some (se_assignments (x_engine ticked) !! "d") ∧ untouched "d" ticked (retry_stalled_pipelines ticked).2.
Proof.
  split; [by eexists; vm_compute|]. apply (retry_respects_assignments "d" (mkShardAssignment "b" 0 0 None)). by vm_compute.
Defined.
End examples.
