(* ===== verification/Speculative.v ===== *)
(** * Speculative decoding ([src/opoi/speculative_engine.rs])

    A draft miner proposes tokens, one batched pass through the shards verifies
    them, and greedy acceptance keeps those the target model agrees with.  Every
    handler of the source is one step here.  [None] as a handler's answer is the
    panic of its [assert_eq!].  The tokenizer crate and the download of its file
    are outside the repository ([Tokenizers]); writing the downloaded file is
    taken to succeed. *)

From S2P Require Export ShardEngine.
From S2P Require Import MinerRegistry OpoiEngine Tensor ExpertDispatch.

(** A tokenizer file by URL, and how many tokens a text has under one. *)
Class Tokenizers := {
  download : string → option bytes;
  encode_len : bytes → string → option nat
}.

(** ** Verifying a round *)

Record RoundOutcome := mkRoundOutcome { accepted_count : nat; settle_token : N; full_accept : bool }.

Fixpoint verify_loop (expected : N) (accepted : nat) (draft_token_ids target_logits : list N) : RoundOutcome :=
  match target_logits, draft_token_ids with
  | logit :: target_logits, d :: draft_token_ids =>
    if (d =? expected)%N then verify_loop logit (S accepted) draft_token_ids target_logits
    else mkRoundOutcome accepted expected false
  | _, _ => mkRoundOutcome accepted expected true
  end.

(** [None]: the lengths do not match and the assertion panics. *)
Definition greedy_verify_round (carry : option N) (expected0 : N) (draft_token_ids target_logits : list N) : option RoundOutcome :=
  let carry_len := match carry with Some _ => 1 | None => 0 end in
  if (length target_logits =? length draft_token_ids + carry_len)%nat then
    Some match carry, target_logits with
         | Some _, logit :: rest => verify_loop logit 0 draft_token_ids rest
         | _, _ => verify_loop expected0 0 draft_token_ids target_logits
         end
  else None.

Definition kv_keep_len (base_start : nat) (carry : option N) (accepted : nat) : nat :=
  base_start + match carry with Some _ => 1 | None => 0 end + accepted.

Definition MIN_K : N := 2.
Definition MAX_K : N := 8.
Definition clamp (lo hi x : N) : N := if (x <? lo)%N then lo else if (hi <? x)%N then hi else x.
Definition next_k (current_k : N) (accepted k_this_round : nat) : N :=
  if (k_this_round =? 0)%nat then clamp MIN_K MAX_K current_k
  else
    let rate := f64_div (f64_of_N (N.of_nat accepted)) (f64_of_N (N.of_nat k_this_round)) in
    let next := if f_lt (f64_lit 7 10) rate then wrap32 (current_k + 1)
                else if f_lt rate (f64_lit 1 2) then (current_k - 1)%N
                else current_k in
    clamp MIN_K MAX_K next.

(** ** The engine's state *)

Record DraftModelSource := mkDraftModelSource {
  draft_model_id : string;
  draft_gguf_url : string;
  draft_gguf_sha256 : string;
  draft_tokenizer_url : string;
  draft_tokenizer_sha256 : string;
  draft_total_layers : N
}.

(** Lengths ([usize]) are [nat]: they count tokens held in memory. *)
Record RollbackState := mkRollbackState {
  rb_pending : gset N;
  rb_accepted_count : nat;
  rb_k_this_round : nat;
  rb_settle_token : N;
  rb_keep_len : nat;
  rb_is_finalizing_round : bool
}.

Inductive Phase : Type :=
| PromptProcessing (pos : nat) (current_input : ShardInputWire)
| AwaitingDraft
| Verifying (pos : nat) (current_input : ShardInputWire) (draft_token_ids : list N)
| AwaitingRollback (state : RollbackState).

Record SpecPipeline := mkSpecPipeline {
  q_shards : list ShardDescriptor;
  q_manifest : ModelManifest;
  q_source : ModelSource;
  q_draft_source : DraftModelSource;
  q_max_tokens : N;
  q_prompt_hash : string;
  q_prompt_hex : string;
  q_draft_wallet : option string;
  q_base : nat;
  q_carry : option N;
  q_expected0 : N;
  q_k : N;
  q_round : N;
  q_phase : Phase;
  q_generated_token_ids : list N;
  q_contributions : gmap string N
}.

Record ShardStepAssignment := mkStepAssignment { ssa_wallet : string; ssa_shard_index : N }.

(** What the handlers spawn. *)
Inductive SpecTask : Type :=
| SubmitShard (request_id : string) (shard_index : N) (hash : string)
| Commit (t : CommitTask).

Record SpeculativeEngine := mkSpeculativeEngine {
  sx_stake_pool : StakePool;
  sx_draft_sources : gmap string DraftModelSource;
  sx_tokenizer_cache : gmap string bytes;
  sx_pipelines : gmap string SpecPipeline;
  sx_shard_assignments : gmap string ShardStepAssignment;
  sx_draft_assignments : gmap string string;
  sx_last_shard_wallet : option string;
  sx_tasks : list SpecTask
}.
Abbreviation SpecSys := (World * SpeculativeEngine)%type.

Definition new_speculative_engine (pool : StakePool) (sources : gmap string DraftModelSource) : SpeculativeEngine :=
  {| sx_stake_pool := pool; sx_draft_sources := sources; sx_tokenizer_cache := ∅; sx_pipelines := ∅;
     sx_shard_assignments := ∅; sx_draft_assignments := ∅; sx_last_shard_wallet := None; sx_tasks := [] |}.

Section speculative.
Context `{Csd, RowOrder, Crypto, MapIter, Tokenizers}.

Definition spec (f : SpeculativeEngine → SpeculativeEngine) : M SpecSys () := λ s, ((), (s.1, f s.2)).
Definition world {A} (m : M World A) : M SpecSys A := λ s, let '(a, w) := m s.1 in (a, (w, s.2)).
Definition spec_pipeline (request_id : string) : M SpecSys (option SpecPipeline) := gets (λ s, sx_pipelines s.2 !! request_id).
Definition update (request_id : string) (f : SpecPipeline → SpecPipeline) : M SpecSys () :=
  spec (λ e, e <| sx_pipelines := alter f request_id (sx_pipelines e) |>).
Definition remove_pipeline (request_id : string) : M SpecSys () :=
  spec (λ e, e <| sx_pipelines := delete request_id (sx_pipelines e) |>).
Definition spawn (t : SpecTask) : M SpecSys () := spec (λ e, e <| sx_tasks := sx_tasks e ++ [t] |>).

(** [registry.get(wallet)] then [tx.send(line)], its result dropped. *)
Definition tell (wallet : string) (m : down_msg) : M SpecSys () := ignore (world (send_to wallet m)).

Definition is_eligible (target_model_id : string) : M SpecSys bool := gets (λ s,
  bool_decide (is_Some (sx_draft_sources s.2 !! target_model_id))
  && bool_decide (is_Some (pick_draft_capable None (w_reg s.1)))).

Definition has_pipeline (e : SpeculativeEngine) (request_id : string) : bool :=
  bool_decide (is_Some (sx_pipelines e !! request_id)).

(** ** The relay through the shards *)

Definition step_assign (request_id : string) (p : SpecPipeline) (pos : nat) (current_input : ShardInputWire)
    (is_prompt_processing : bool) (shard : ShardDescriptor) : OpoiShardAssign :=
  let fetch := (pos =? 0)%nat && is_prompt_processing in {|
  sa_request_id := request_id; sa_model_id := mm_model_id (q_manifest p); sa_shard_index := sd_shard_index shard;
  sa_layer_start := layer_start_of shard; sa_layer_end := layer_end_of shard; sa_total_layers := mm_num_layers (q_manifest p);
  sa_token_index := 0; sa_max_tokens := u32_max; sa_input := current_input;
  sa_model_gguf_url := ms_gguf_url (q_source p); sa_model_gguf_sha256 := mm_backbone_pom_root (q_manifest p);
  sa_model_tokenizer_url := if fetch then Some (ms_tokenizer_url (q_source p)) else None;
  sa_model_tokenizer_sha256 := if fetch then Some (ms_tokenizer_sha256 (q_source p)) else None;
  sa_moe_layer_step := None |}.

(** A position out of range would panic; [spec_reachable_ok] excludes it. *)
Definition dispatch_shard_step (request_id : string) : M SpecSys () := λ s,
  match sx_pipelines s.2 !! request_id with
  | None => ((), s)
  | Some p =>
    match match q_phase p with
          | PromptProcessing pos input => Some (pos, input, true)
          | Verifying pos input _ => Some (pos, input, false)
          | _ => None
          end with
    | None => ((), s)
    | Some (pos, input, is_prompt) =>
      match q_shards p !! pos with
      | None => ((), s)
      | Some shard =>
        match pick_next (sx_last_shard_wallet s.2) (w_reg s.1) with
        | None => ((), s)
        | Some wallet =>
          (_ ← spec (λ e, e <| sx_last_shard_wallet := Some wallet |>);
           tx ← gets (λ s, MinerRegistry.get wallet (w_reg s.1));
           match tx with
           | None => mret ()
           | Some tx =>
             _ ← spec (λ e, e <| sx_shard_assignments :=
                          <[request_id := mkStepAssignment wallet (sd_shard_index shard)]> (sx_shard_assignments e) |>);
             ignore (world (net (net_send tx (MShardAssign (step_assign request_id p pos input is_prompt shard)))))
           end) s
        end
      end
    end
  end.

Definition start_spec_pipeline (request_id : string) (manifest : ModelManifest) (shards : list ShardDescriptor) (max_tokens : N)
    (prompt_hex prompt_hash : string) (source : ModelSource) : M SpecSys () :=
  found ← gets (λ s, sx_draft_sources s.2 !! mm_model_id manifest);
  match found with
  | None => mret ()
  | Some draft_source =>
    _ ← spec (λ e, e <| sx_pipelines := <[request_id := {|
          q_shards := stable_sort by_shard_index shards; q_manifest := manifest; q_source := source;
          q_draft_source := draft_source; q_max_tokens := max_tokens; q_prompt_hash := prompt_hash;
          q_prompt_hex := prompt_hex; q_draft_wallet := None; q_base := 0; q_carry := None; q_expected0 := 0; q_k := 4;
          q_round := 0; q_phase := PromptProcessing 0 (Prompt prompt_hex); q_generated_token_ids := [];
          q_contributions := ∅ |}]> (sx_pipelines e) |>);
    dispatch_shard_step request_id
  end.

(** ** The draft *)

Definition draft_generate (request_id : string) (p : SpecPipeline) : OpoiDraftGenerate :=
  let d := q_draft_source p in {|
  dg_request_id := request_id; dg_model_id := draft_model_id d; dg_total_layers := draft_total_layers d;
  dg_k := match q_carry p with Some _ => N.max (q_k p - 1) 1 | None => q_k p end;
  dg_input := match q_carry p with Some c => DraftNextTokenId c | None => DraftPrompt (q_prompt_hex p) end;
  dg_model_gguf_url := draft_gguf_url d; dg_model_gguf_sha256 := draft_gguf_sha256 d;
  dg_model_tokenizer_url := if (q_round p =? 0)%N then Some (draft_tokenizer_url d) else None;
  dg_model_tokenizer_sha256 := if (q_round p =? 0)%N then Some (draft_tokenizer_sha256 d) else None |}.

Definition connected (wallet : string) (w : World) : bool := bool_decide (is_Some (MinerRegistry.get wallet (w_reg w))).

Definition dispatch_draft (request_id : string) : M SpecSys () := λ s,
  match sx_pipelines s.2 !! request_id with
  | None => ((), s)
  | Some p =>
    match q_phase p with
    | AwaitingDraft =>
      let pinned := match q_draft_wallet p with
                    | Some w => if connected w s.1 then Some w else None
                    | None => None
                    end in
      match match pinned with Some w => Some w | None => pick_draft_capable None (w_reg s.1) end with
      | None => ((), s)
      | Some wallet =>
        (_ ← update request_id (λ q, q <| q_draft_wallet := Some wallet |>);
         tx ← gets (λ s, MinerRegistry.get wallet (w_reg s.1));
         match tx with
         | None => mret ()
         | Some tx =>
           _ ← spec (λ e, e <| sx_draft_assignments := <[request_id := wallet]> (sx_draft_assignments e) |>);
           ignore (world (net (net_send tx (MDraftGenerate (draft_generate request_id p)))))
         end) s
      end
    | _ => ((), s)
    end
  end.

Definition handle_draft_result (wallet : string) (r : OpoiDraftResult) : M SpecSys () :=
  let request_id := dr_request_id r in
  a ← gets (λ s, sx_draft_assignments s.2 !! request_id);
  if negb (bool_decide (a = Some wallet)) then mret ()
  else
    _ ← spec (λ e, e <| sx_draft_assignments := delete request_id (sx_draft_assignments e) |>);
    if bool_decide (dr_draft_token_ids r = []) then mret ()
    else
      found ← spec_pipeline request_id;
      match found with
      | None => mret ()
      | Some p =>
        let batch := match q_carry p with Some c => [c] | None => [] end ++ dr_draft_token_ids r in
        _ ← update request_id (λ q, q <| q_round := wrap32 (q_round q + 1) |>
              <| q_phase := Verifying 0 (TokenIds batch) (dr_draft_token_ids r) |>);
        dispatch_shard_step request_id
      end.

(** ** Rollback and the end of a round *)

Definition rollback_msg (request_id : string) (shard_index : N) (keep_len : nat) (finalize : bool) : down_msg :=
  MKvRollback (mkOpoiKvRollback request_id shard_index (wrap32 (N.of_nat keep_len)) finalize).

(** Every shard's line goes to whoever [pick_next] would choose now. *)
Definition begin_rollback (request_id : string) (o : RoundOutcome) (keep_len k_this_round : nat) (is_finalizing_round : bool)
    : M SpecSys () :=
  found ← spec_pipeline request_id;
  match found with
  | None => mret ()
  | Some p =>
    _ ← for_each (λ shard,
          w ← gets (λ s, pick_next (sx_last_shard_wallet s.2) (w_reg s.1));
          match w with
          | Some wallet => tell wallet (rollback_msg request_id (sd_shard_index shard) keep_len is_finalizing_round)
          | None => mret ()
          end) (q_shards p);
    _ ← match q_draft_wallet p with
        | Some wallet => tell wallet (rollback_msg request_id DRAFT_SESSION_SHARD_INDEX keep_len false)
        | None => mret ()
        end;
    update request_id (λ q, q <| q_phase := AwaitingRollback {|
      rb_pending := list_to_set (sd_shard_index <$> q_shards p) ∪ {[DRAFT_SESSION_SHARD_INDEX]};
      rb_accepted_count := accepted_count o; rb_k_this_round := k_this_round; rb_settle_token := settle_token o;
      rb_keep_len := keep_len; rb_is_finalizing_round := is_finalizing_round |} |>)
  end.

Definition finalize_spec_pipeline (request_id : string) : M SpecSys () :=
  found ← spec_pipeline request_id;
  match found with
  | None => mret ()
  | Some p =>
    _ ← remove_pipeline request_id;
    match select_winning_wallet (q_contributions p) with
    | None => mret ()
    | Some winning_wallet =>
      let '(response_hash, response_hex) := build_response (q_generated_token_ids p) in
      let token_count := wrap32 (N.of_nat (length (q_generated_token_ids p))) in
      r ← world (db (create_submission winning_wallet request_id (Some (mm_model_id (q_manifest p))) (Some (q_prompt_hash p))
                       None None response_hash response_hex (as_i32 token_count)));
      match r with
      | Ok id => spawn (Commit (mkCommitTask id request_id response_hash token_count))
      | Err _ => mret ()
      end
    end
  end.

(** The sender is not looked at: any wallet's ack counts. *)
Definition handle_kv_rollback_ack (_wallet : string) (ack : OpoiKvRollbackAck) : M SpecSys () :=
  let request_id := ka_request_id ack in
  found ← spec_pipeline request_id;
  match found with
  | None => mret ()
  | Some p =>
    match q_phase p with
    | AwaitingRollback st =>
      _ ← match ka_finalized_hash ack with
          | Some hash =>
            if negb (ka_shard_index ack =? DRAFT_SESSION_SHARD_INDEX)%N && rb_is_finalizing_round st
            then spawn (SubmitShard request_id (ka_shard_index ack) hash)
            else mret ()
          | None => mret ()
          end;
      let pending := rb_pending st ∖ {[ka_shard_index ack]} in
      _ ← update request_id (λ q, q <| q_phase := AwaitingRollback (st <| rb_pending := pending |>) |>);
      if negb (bool_decide (pending = ∅)) then mret ()
      else if rb_is_finalizing_round st then finalize_spec_pipeline request_id
      else
        _ ← update request_id (λ q, q <| q_base := rb_keep_len st |> <| q_carry := Some (rb_settle_token st) |>
              <| q_expected0 := rb_settle_token st |>
              <| q_k := next_k (q_k q) (rb_accepted_count st) (rb_k_this_round st) |> <| q_phase := AwaitingDraft |>);
        dispatch_draft request_id
    | _ => mret ()
    end
  end.

(** ** Results of the shards *)

Definition ensure_tokenizer_cached (url sha256_hex : string) : M SpecSys (option bytes) := λ s,
  match sx_tokenizer_cache s.2 !! sha256_hex with
  | Some file => (Some file, s)
  | None =>
    match download url with
    | None => (None, s)
    | Some file =>
      if bool_decide (hex_encode (sha256 file) = sha256_hex)
      then (Some file, (s.1, s.2 <| sx_tokenizer_cache := <[sha256_hex := file]> (sx_tokenizer_cache s.2) |>))
      else (None, s)
    end
  end.

Definition count_prompt_tokens (url sha256_hex prompt_hex : string) : M SpecSys (option nat) :=
  match hex_decode prompt_hex ≫= from_utf8 with
  | None => mret None
  | Some prompt =>
    file ← ensure_tokenizer_cached url sha256_hex;
    mret (file ≫= λ f, encode_len f prompt)
  end.

Definition count_spec_contribution (wallet : string) (p : SpecPipeline) : SpecPipeline :=
  p <| q_contributions := <[wallet := wrap32 (default 0%N (q_contributions p !! wallet) + 1)]> (q_contributions p) |>.

(** The prompt pass reached its last shard. *)
Definition prompt_done (request_id : string) (p : SpecPipeline) (current_input : ShardInputWire) (r : OpoiShardResult)
    : M SpecSys (option (result () AppError)) :=
  match res_next_token_id r with
  | None => _ ← remove_pipeline request_id; mret (Some (Ok ()))
  | Some t0 =>
    let prompt_hex := match current_input with Prompt prompt_hex => prompt_hex | _ => "" end in
    base ← count_prompt_tokens (ms_tokenizer_url (q_source p)) (ms_tokenizer_sha256 (q_source p)) prompt_hex;
    match base with
    | None => _ ← remove_pipeline request_id; mret (Some (Ok ()))
    | Some n =>
      _ ← update request_id (λ q, q <| q_base := n |> <| q_expected0 := t0 |> <| q_phase := AwaitingDraft |>);
      _ ← dispatch_draft request_id;
      mret (Some (Ok ()))
    end
  end.

Definition finalizes (base accepted : nat) (max_tokens : N) : bool := (max_tokens <=? wrap32 (N.of_nat (base + accepted + 1)))%N.

(** A verify pass reached its last shard. *)
Definition verify_done (request_id : string) (p : SpecPipeline) (draft_token_ids : list N) (r : OpoiShardResult)
    : M SpecSys (option (result () AppError)) :=
  match res_next_token_ids r with
  | None => _ ← remove_pipeline request_id; mret (Some (Ok ()))
  | Some target_logits =>
    match greedy_verify_round (q_carry p) (q_expected0 p) draft_token_ids target_logits with
    | None => mret None
    | Some o =>
      let keep_len := kv_keep_len (q_base p) (q_carry p) (accepted_count o) in
      _ ← update request_id (λ q, q <| q_generated_token_ids :=
            q_generated_token_ids q ++ take (accepted_count o) draft_token_ids ++ [settle_token o] |>);
      _ ← begin_rollback request_id o keep_len (length draft_token_ids) (finalizes (q_base p) (accepted_count o) (q_max_tokens p));
      mret (Some (Ok ()))
    end
  end.

Definition next_shard (request_id : string) (phase : Phase) : M SpecSys (option (result () AppError)) :=
  _ ← update request_id (λ q, q <| q_phase := phase |>);
  _ ← dispatch_shard_step request_id;
  mret (Some (Ok ())).

Definition handle_spec_shard_result (wallet : string) (r : OpoiShardResult) : M SpecSys (option (result () AppError)) := λ s,
  let request_id := res_request_id r in
  match sx_shard_assignments s.2 !! request_id with
  | None => (Some (Err UnknownRequest), s)
  | Some a =>
    if negb (bool_decide (ssa_wallet a = wallet) && (ssa_shard_index a =? res_shard_index r)%N)
    then (Some (Err NotAssignedToCaller), s)
    else
      (_ ← spec (λ e, e <| sx_shard_assignments := delete request_id (sx_shard_assignments e) |>);
       _ ← update request_id (count_spec_contribution wallet);
       found ← spec_pipeline request_id;
       match found with
       | None => mret (Some (Err UnknownRequest))
       | Some p =>
         let tensor := Tensor (so_shape (res_output r)) (so_data_hex (res_output r)) in
         let last pos := (S pos =? length (q_shards p))%nat in
         match q_phase p with
         | PromptProcessing pos input =>
           if last pos then prompt_done request_id p input r else next_shard request_id (PromptProcessing (S pos) tensor)
         | Verifying pos input drafts =>
           if last pos then verify_done request_id p drafts r else next_shard request_id (Verifying (S pos) tensor drafts)
         | _ => mret (Some (Ok ()))
         end
       end) s
  end.

(** ** Ticks, disconnects and spawned tasks *)

Definition in_shard_phase (p : SpecPipeline) : bool := match q_phase p with PromptProcessing _ _ | Verifying _ _ _ => true | _ => false end.
Definition in_draft_phase (p : SpecPipeline) : bool := match q_phase p with AwaitingDraft => true | _ => false end.

(** The keys of the pipelines in a phase with no assignment in [m]. *)
Definition stalled {V} (phase : SpecPipeline → bool) (m : gmap string V) (e : SpeculativeEngine) : list string :=
  filter (λ id, match sx_pipelines e !! id with Some p => phase p && bool_decide (m !! id = None) | None => false end = true)
    (iter_keys (sx_pipelines e)).

Definition retry_stalled_tick : M SpecSys () :=
  stalled_shard ← gets (λ s, stalled in_shard_phase (sx_shard_assignments s.2) s.2);
  _ ← for_each dispatch_shard_step stalled_shard;
  stalled_draft ← gets (λ s, stalled in_draft_phase (sx_draft_assignments s.2) s.2);
  for_each dispatch_draft stalled_draft.

Definition on_spec_disconnect (wallet : string) : M SpecSys () := spec (λ e, e
  <| sx_shard_assignments := filter (λ kv, ssa_wallet kv.2 ≠ wallet) (sx_shard_assignments e) |>
  <| sx_draft_assignments := filter (λ kv, kv.2 ≠ wallet) (sx_draft_assignments e) |>
  <| sx_pipelines := filter (λ kv, q_draft_wallet kv.2 ≠ Some wallet) (sx_pipelines e) |>).

Definition spec_pool_try {T} (f : string → M csd_log (result T AppError)) : M SpecSys (result (string * T) AppError) := λ s,
  let '(r, (pool, log)) := try_each f (sx_stake_pool s.2, w_csd s.1) in
  (r, (s.1 <| w_csd := log |>, s.2 <| sx_stake_pool := pool |>)).

Definition run_spec_task `{Schedule} (t : SpecTask) : M SpecSys () :=
  match t with
  | SubmitShard request_id shard_index hash =>
    ignore (spec_pool_try (λ addr, submit_shard_result request_id shard_index addr hash 0))
  | Commit c =>
    pool ← gets (λ s, sx_stake_pool s.2);
    world (do_commit (addresses pool) (ct_submission_id c) (ct_request_id c) (ct_response_hash c) (ct_token_count c))
  end.

#[export] Instance speculative_engine : SpecEngine SpeculativeEngine := {|
  spec_is_eligible := is_eligible;
  spec_has_pipeline := has_pipeline;
  spec_start_pipeline := start_spec_pipeline;
  spec_handle_shard_result := handle_spec_shard_result
|}.
End speculative.

(** ** What is to hold *)

(** Greedy decoding with a target model [next]: [n] tokens after [ctx]. *)
Fixpoint greedy (next : list N → N) (ctx : list N) (n : nat) : list N :=
  match n with
  | O => []
  | S n => next ctx :: greedy next (ctx ++ [next ctx]) n
  end.
(** The target's prediction after each token of a batch. *)
Fixpoint predictions (next : list N → N) (ctx batch : list N) : list N :=
  match batch with
  | [] => []
  | b :: batch => next (ctx ++ [b]) :: predictions next (ctx ++ [b]) batch
  end.

Definition carried (carry : option N) : list N := match carry with Some c => [c] | None => [] end.

(** The length of the longest common prefix. *)
Fixpoint agreement (xs ys : list N) : nat :=
  match xs, ys with
  | x :: xs, y :: ys => if (x =? y)%N then S (agreement xs ys) else 0
  | _, _ => 0
  end.

(** ** The rounds, abstractly

    A pipeline's life without the dispatching: what may follow what, given what
    may be believed of the target's answers. *)
Section rounds.
(** The first token after a prompt; the logits of a batch after what was
    generated, the last token of which is carried into the batch. *)
Context (first_ok : string → N → Prop) (logits_ok : string → option N → list N → list N → list N → Prop).

Inductive pipe_step : SpecPipeline → SpecPipeline → Prop :=
| ps_count wallet p : pipe_step p (count_spec_contribution wallet p)
| ps_pin wallet p : q_phase p = AwaitingDraft → pipe_step p (p <| q_draft_wallet := Some wallet |>)
| ps_relay_prompt p pos input shape d : q_phase p = PromptProcessing pos input → S pos ≠ length (q_shards p) →
    pipe_step p (p <| q_phase := PromptProcessing (S pos) (Tensor shape d) |>)
| ps_prompt_done p pos input n t0 : q_phase p = PromptProcessing pos input → S pos = length (q_shards p) →
    first_ok (q_prompt_hex p) t0 →
    pipe_step p (p <| q_base := n |> <| q_expected0 := t0 |> <| q_phase := AwaitingDraft |>)
| ps_draft p drafts : q_phase p = AwaitingDraft → drafts ≠ [] →
    pipe_step p (p <| q_round := wrap32 (q_round p + 1) |>
                   <| q_phase := Verifying 0 (TokenIds (carried (q_carry p) ++ drafts)) drafts |>)
| ps_relay_verify p pos input drafts shape d : q_phase p = Verifying pos input drafts → S pos ≠ length (q_shards p) →
    pipe_step p (p <| q_phase := Verifying (S pos) (Tensor shape d) drafts |>)
| ps_verified p pos input drafts logits o : q_phase p = Verifying pos input drafts → S pos = length (q_shards p) →
    logits_ok (q_prompt_hex p) (q_carry p) (q_generated_token_ids p) drafts logits →
    greedy_verify_round (q_carry p) (q_expected0 p) drafts logits = Some o →
    pipe_step p (p <| q_generated_token_ids := q_generated_token_ids p ++ take (accepted_count o) drafts ++ [settle_token o] |>
      <| q_phase := AwaitingRollback {|
           rb_pending := list_to_set (sd_shard_index <$> q_shards p) ∪ {[DRAFT_SESSION_SHARD_INDEX]};
           rb_accepted_count := accepted_count o; rb_k_this_round := length drafts; rb_settle_token := settle_token o;
           rb_keep_len := kv_keep_len (q_base p) (q_carry p) (accepted_count o);
           rb_is_finalizing_round := finalizes (q_base p) (accepted_count o) (q_max_tokens p) |} |>)
| ps_ack p st i : q_phase p = AwaitingRollback st → rb_pending st ∖ {[i]} ≠ ∅ →
    pipe_step p (p <| q_phase := AwaitingRollback (st <| rb_pending := rb_pending st ∖ {[i]} |>) |>)
| ps_next_round p st i : q_phase p = AwaitingRollback st → rb_pending st ∖ {[i]} = ∅ → rb_is_finalizing_round st = false →
    pipe_step p (p <| q_base := rb_keep_len st |> <| q_carry := Some (rb_settle_token st) |>
      <| q_expected0 := rb_settle_token st |> <| q_k := next_k (q_k p) (rb_accepted_count st) (rb_k_this_round st) |>
      <| q_phase := AwaitingDraft |>).

(** A pipeline as it starts. *)
Definition fresh (p : SpecPipeline) : Prop :=
  q_shards p ≠ [] ∧ q_phase p = PromptProcessing 0 (Prompt (q_prompt_hex p)) ∧ q_carry p = None ∧ q_k p = 4%N
  ∧ q_generated_token_ids p = [] ∧ q_draft_wallet p = None.

Inductive life : option SpecPipeline → option SpecPipeline → Prop :=
| life_start p : fresh p → life None (Some p)
| life_step p p' : pipe_step p p' → life (Some p) (Some p')
| life_end p : life (Some p) None.
End rounds.

(** Who a draft is awaited from is pinned and in its phase. *)
Definition drafts_ok (e : SpeculativeEngine) : Prop :=
  ∀ id w, sx_draft_assignments e !! id = Some w →
    ∃ p, sx_pipelines e !! id = Some p ∧ q_phase p = AwaitingDraft ∧ q_draft_wallet p = Some w.

Section spec_steps.
Context `{Csd, RowOrder, Crypto, MapIter, Tokenizers, Schedule}.
Context (first_ok : string → N → Prop) (logits_ok : string → option N → list N → list N → list N → Prop).

(** A result that ends a pass says what the target may say. *)
Definition result_ok (e : SpeculativeEngine) (r : OpoiShardResult) : Prop :=
  ∀ p, sx_pipelines e !! res_request_id r = Some p →
    match q_phase p with
    | PromptProcessing pos _ => S pos = length (q_shards p) → ∀ t, res_next_token_id r = Some t → first_ok (q_prompt_hex p) t
    | Verifying pos _ drafts => S pos = length (q_shards p) →
        ∀ l, res_next_token_ids r = Some l → logits_ok (q_prompt_hex p) (q_carry p) (q_generated_token_ids p) drafts l
    | _ => True
    end.

Inductive spec_step : SpecSys → SpecSys → Prop :=
| sp_start id m shards mt prompt hash source s : sx_pipelines s.2 !! id = None → shards ≠ [] →
    spec_step s (start_spec_pipeline id m shards mt prompt hash source s).2
| sp_shard wallet r s : result_ok s.2 r → spec_step s (handle_spec_shard_result wallet r s).2
| sp_draft wallet r s : spec_step s (handle_draft_result wallet r s).2
| sp_ack wallet ack s : spec_step s (handle_kv_rollback_ack wallet ack s).2
| sp_tick s : spec_step s (retry_stalled_tick s).2
| sp_disconnect wallet s : spec_step s (on_spec_disconnect wallet s).2
| sp_task t s : spec_step s (run_spec_task t s).2
| sp_world w s : spec_step s (w, s.2).
End spec_steps.

(** Every request's pipeline follows the abstract rounds. *)
Definition follows (first_ok : string → N → Prop) (logits_ok : string → option N → list N → list N → list N → Prop)
    (e e' : SpeculativeEngine) : Prop :=
  ∀ id, rtc (life first_ok logits_ok) (sx_pipelines e !! id) (sx_pipelines e' !! id).

Definition good (first_ok : string → N → Prop) (logits_ok : string → option N → list N → list N → list N → Prop)
    (s s' : SpecSys) : Prop := drafts_ok s.2 → drafts_ok s'.2 ∧ follows first_ok logits_ok s.2 s'.2.
(** One pipeline is rewritten, nothing else. *)
Definition core_alter (id : string) (f : SpecPipeline → SpecPipeline) (s s' : SpecSys) : Prop :=
  sx_pipelines s'.2 = alter f id (sx_pipelines s.2) ∧ sx_draft_assignments s'.2 = sx_draft_assignments s.2.

(** What every pipeline satisfies, whatever the miners answer. *)
Record spec_ok (p : SpecPipeline) : Prop := {
  spo_shards : q_shards p ≠ [];
  spo_pos : match q_phase p with PromptProcessing pos _ | Verifying pos _ _ => pos < length (q_shards p) | _ => True end;
  spo_k : (MIN_K ≤ q_k p ≤ MAX_K)%N;
  spo_first : match q_phase p with PromptProcessing _ _ => q_carry p = None ∧ q_generated_token_ids p = [] | _ => True end;
  spo_carry : match q_phase p with
              | AwaitingRollback st => last (q_generated_token_ids p) = Some (rb_settle_token st)
              | _ => last (q_generated_token_ids p) = q_carry p
              end;
  spo_batch : match q_phase p with
              | Verifying 0 input drafts => drafts ≠ [] ∧ input = TokenIds (carried (q_carry p) ++ drafts)
              | _ => True
              end;
  spo_pending : match q_phase p with AwaitingRollback st => rb_pending st ≠ ∅ | _ => True end
}.

(** The adaptation of [k] in integers: up above 70% accepted, down below half. *)
Definition adapt_k (k : N) (accepted k_this_round : nat) : N :=
  clamp MIN_K MAX_K
    (if (k_this_round =? 0)%nat then k
     else if (7 * k_this_round <? 10 * accepted)%nat then wrap32 (k + 1)
     else if (2 * accepted <? k_this_round)%nat then (k - 1)%N else k).
(** All pairs [a <= n <= 64]. *)
Definition ratios : list (nat * nat) := n ← seq 0 65; a ← seq 0 (S n); [(a, n)].

(** The shards compute the target model [next] on the prompt's [tokens]. *)
Definition target_first (next : list N → N) (tokens : string → list N) (prompt : string) (t : N) : Prop := t = next (tokens prompt).
Definition target_logits (next : list N → N) (tokens : string → list N) (prompt : string) (carry : option N) (generated drafts l : list N)
    : Prop :=
  l = predictions next (tokens prompt ++ match carry with Some _ => removelast generated | None => generated end)
        (carried carry ++ drafts).

(** Nothing but greedy decoding was generated. *)
Definition lossless (next : list N → N) (tokens : string → list N) (p : SpecPipeline) : Prop :=
  q_generated_token_ids p = greedy next (tokens (q_prompt_hex p)) (length (q_generated_token_ids p))
  ∧ match q_phase p, q_carry p with
    | AwaitingDraft, None | Verifying _ _ _, None => q_expected0 p = next (tokens (q_prompt_hex p))
    | _, _ => True
    end.

(** Neither the pipelines nor the drafts awaited change. *)
Definition same_core (s s' : SpecSys) : Prop :=
  sx_pipelines s'.2 = sx_pipelines s.2 ∧ sx_draft_assignments s'.2 = sx_draft_assignments s.2.

(** ** Sample environment *)

(** Every file is empty and every character a token. *)
Definition toy_tokenizers : Tokenizers := {| download := λ _, Some []; encode_len := λ _ s, Some (String.length s) |}.
Definition tok_sha : string := hex_encode (Crypto := toy_crypto) (sha256 (Crypto := toy_crypto) []).
Definition spec_source : ModelSource := mkModelSource "http://host/t.gguf" "http://host/tok" tok_sha.
(** Hosts "a", "b" and "c", of which "c" drafts. *)
Definition spec_world : World := host_world <| w_reg := mark_draft_capable "c" host_registry |>.
Definition spec_engine : SpeculativeEngine :=
  new_speculative_engine {| addresses := ["addr"]; next := 0 |} {["t" := mkDraftModelSource "d" "" "" "" "" 1]}.
Definition spec_manifest : ModelManifest := mkModelManifest "t" "llama" 2 "root" "ACTIVE".
(** The target's next token is the number of tokens so far; the prompt, "hi" in
    hex, is two tokens. *)
Definition count_next (l : list N) : N := N.of_nat (length l).
Definition two_tokens (_ : string) : list N := [0; 1]%N.
Definition spec_result (shard : N) (next : option N) (nexts : option (list N)) : OpoiShardResult :=
  mkOpoiShardResult "r" shard 0 "h" (mkShardOutputWire [1%N] "0000803f") next nexts None None.

Section spec_sample.
Existing Instances shard_csd table_order toy_crypto key_iter toy_tokenizers.
(** Started on the graph [shards]; the prompt pass over one shard answered; the
    draft proposed; the batch verified. *)
Definition started (shards : list ShardDescriptor) : SpecSys :=
  (start_spec_pipeline "r" spec_manifest shards 50 "6869" "ph" spec_source (spec_world, spec_engine)).2.
Definition one_shard : list ShardDescriptor := [mkShardDescriptor 0 "DENSE" (Some 0%N) (Some 2%N) None].
Definition two_shards : list ShardDescriptor :=
  [mkShardDescriptor 0 "DENSE" (Some 0%N) (Some 1%N) None; mkShardDescriptor 1 "DENSE" (Some 1%N) (Some 2%N) None].
Definition prompted : SpecSys := (handle_spec_shard_result "a" (spec_result 0 (Some 2%N) None) (started one_shard)).2.
Definition drafted : SpecSys := (handle_draft_result "c" (mkOpoiDraftResult "r" [2; 3; 9]%N) prompted).2.
Definition verified : SpecSys := (handle_spec_shard_result "b" (spec_result 0 None (Some [3; 4; 5]%N)) drafted).2.
End spec_sample.

(** ** Lemmas *)

Lemma greedy_app next ctx n m : greedy next ctx (n + m) = greedy next ctx n ++ greedy next (ctx ++ greedy next ctx n) m.
Proof.
  revert ctx. induction n as [|n IH]; intros ctx; [by rewrite app_nil_r|]. cbn [Nat.add greedy app].
  by rewrite IH, <-app_assoc.
Qed.
Lemma greedy_length next ctx n : length (greedy next ctx n) = n.
Proof. revert ctx. induction n as [|n IH]; intros ctx; [done|]. cbn. by rewrite IH. Qed.

(** The loop accepts the longest prefix on which the draft agrees with greedy
    decoding, and settles on greedy decoding's next token. *)
Lemma verify_loop_greedy next ctx acc drafts :
  let n := agreement drafts (greedy next ctx (length drafts)) in
  verify_loop (next ctx) acc drafts (predictions next ctx drafts)
  = mkRoundOutcome (acc + n) (next (ctx ++ take n drafts)) (n =? length drafts)%nat
  ∧ take n drafts ++ [next (ctx ++ take n drafts)] = greedy next ctx (S n).
Proof.
  revert ctx acc. induction drafts as [|d drafts IH]; intros ctx acc n; [subst n; cbn; by rewrite app_nil_r, Nat.add_0_r|].
  subst n. cbn [length greedy predictions verify_loop agreement]. destruct (N.eqb_spec d (next ctx)) as [->|Hne].
  - destruct (IH (ctx ++ [next ctx]) (S acc)) as [-> Hg]. set (n := agreement _ _) in *.
    split.
    + cbn [take]. rewrite <-(app_assoc ctx [next ctx]). f_equal. lia.
    + cbn [take app greedy]. f_equal. cbn [greedy] in Hg. by rewrite <-(app_assoc ctx [next ctx]) in Hg.
  - cbn. by rewrite app_nil_r, Nat.add_0_r.
Qed.

(** A whole round against a target that answers truthfully. *)
Lemma round_greedy next prefix carry expected0 drafts :
  (carry = None → expected0 = next prefix) →
  let ctx := prefix ++ carried carry in
  let n := agreement drafts (greedy next ctx (length drafts)) in
  ∃ o, greedy_verify_round carry expected0 drafts (predictions next prefix (carried carry ++ drafts)) = Some o
    ∧ accepted_count o = n
    ∧ take n drafts ++ [settle_token o] = greedy next ctx (S n)
    ∧ full_accept o = (n =? length drafts)%nat.
Proof.
  intros He ctx n. unfold greedy_verify_round. destruct (verify_loop_greedy next ctx 0 drafts) as [Hv Hg]. fold n in Hv, Hg.
  assert (Hlen : ∀ p b, length (predictions next p b) = length b).
  { intros p b. revert p. induction b as [|x b IH]; intros p; [done|]. cbn. by rewrite IH. }
  rewrite Hlen, length_app. destruct carry as [c|]; cbn [carried length app predictions].
  - rewrite Nat.add_comm, Nat.eqb_refl. eexists. split; [done|]. subst ctx. cbn [carried] in *. rewrite Hv. by cbn.
  - rewrite He, Nat.add_0_r, Nat.eqb_refl by done. eexists. split; [done|]. subst ctx. cbn [carried] in *. rewrite app_nil_r in *.
    rewrite Hv. by cbn.
Qed.

Lemma agreement_le xs ys : agreement xs ys ≤ length xs.
Proof. revert ys. induction xs as [|x xs IH]; intros [|y ys]; cbn; [lia|lia|lia|]. destruct (_ =? _)%N; [specialize (IH ys)|]; lia. Qed.

Lemma next_k_range k a n : (MIN_K ≤ next_k k a n ≤ MAX_K)%N.
Proof.
  assert (Hc : ∀ x, (MIN_K ≤ clamp MIN_K MAX_K x ≤ MAX_K)%N).
  { intros x. unfold clamp, MIN_K, MAX_K. destruct (N.ltb_spec x 2); [lia|]. destruct (N.ltb_spec 8 x); lia. }
  unfold next_k. by destruct (n =? 0)%nat.
Qed.

Lemma ratios_spec a n : a ≤ n ≤ 64 → (a, n) ∈ ratios.
Proof.
  intros Hn. unfold ratios. apply list_elem_of_bind. exists n. split; [|apply list_elem_of_In, in_seq; lia].
  apply list_elem_of_bind. exists a. split; [by left|apply list_elem_of_In, in_seq; lia].
Qed.

(** The float comparisons decide what the integers do. *)
Lemma ratio_thresholds a n : a ≤ n ≤ 64 → n ≠ 0 →
  let rate := f64_div (f64_of_N (N.of_nat a)) (f64_of_N (N.of_nat n)) in
  f_lt (f64_lit 7 10) rate = (7 * n <? 10 * a)%nat ∧ f_lt rate (f64_lit 1 2) = (2 * a <? n)%nat.
Proof.
  intros Hn Hn0.
  assert (Hall : forallb (λ '(a, n), let rate := f64_div (f64_of_N (N.of_nat a)) (f64_of_N (N.of_nat n)) in
    (n =? 0)%nat || (eqb (f_lt (f64_lit 7 10) rate) (7 * n <? 10 * a)%nat && eqb (f_lt rate (f64_lit 1 2)) (2 * a <? n)%nat)) ratios = true)
    by (vm_compute; reflexivity).
  rewrite forallb_forall in Hall. specialize (Hall (a, n)). cbv beta iota zeta in Hall.
  rewrite (proj2 (Nat.eqb_neq n 0) Hn0) in Hall. cbn [orb] in Hall.
  apply andb_true_iff in Hall as [H1 H2]; [|by apply list_elem_of_In, ratios_spec]. split; by apply eqb_prop.
Qed.

(** *** The rounds *)

Lemma pipe_step_ok first_ok logits_ok p p' : pipe_step first_ok logits_ok p p' → spec_ok p → spec_ok p'.
Proof.
  destruct 1 as [w p|w p Hph|p pos inp sh d Hph Hl|p pos inp n t0 Hph Hl Hf|p ds Hph Hd|p pos inp ds sh d Hph Hl
    |p pos inp ds lg o Hph Hl Hlg Ho|p st i Hph Hp|p st i Hph Hp Hfin]; intros [S P K F C B N]; destruct p; cbn in *; subst;
    split; cbn; unfold constant; try done; try lia; try apply next_k_range.
  - destruct q_shards0; [done|cbn; lia].
  - by rewrite app_assoc, last_snoc.
  - set_solver.
Qed.

Lemma last_removelast (l : list N) c : last l = Some c → l = removelast l ++ [c].
Proof.
  intros Hl. destruct l as [|x l _] using rev_ind; [done|]. rewrite last_snoc in Hl. injection Hl as ->.
  by rewrite removelast_last.
Qed.

(** Accepting a verified round extends the greedy decoding. *)
Lemma verified_greedy next tokens prompt carry generated drafts logits expected0 o :
  target_logits next tokens prompt carry generated drafts logits →
  greedy_verify_round carry expected0 drafts logits = Some o →
  last generated = carry → generated = greedy next (tokens prompt) (length generated) →
  (carry = None → expected0 = next (tokens prompt)) →
  let generated' := generated ++ take (accepted_count o) drafts ++ [settle_token o] in
  generated' = greedy next (tokens prompt) (length generated').
Proof.
  intros -> Ho Hl Hg He.
  set (prefix := tokens prompt ++ match carry with Some _ => removelast generated | None => generated end) in *.
  assert (Hctx : prefix ++ carried carry = tokens prompt ++ generated).
  { unfold prefix. destruct carry as [c|]; cbn [carried]; [|by rewrite app_nil_r].
    rewrite <-app_assoc. f_equal. symmetry. by apply last_removelast. }
  destruct (round_greedy next prefix carry expected0 drafts) as (o' & Ho' & Hacc & Hgr & _).
  { intros ->. rewrite He by done. unfold prefix. apply last_None in Hl as ->. by rewrite app_nil_r. }
  assert (o' = o) as -> by congruence. rewrite Hctx in *. rewrite Hacc. intros generated'. unfold generated'. rewrite Hgr.
  rewrite length_app, greedy_length, greedy_app. by rewrite <-Hg.
Qed.

Lemma pipe_step_lossless next tokens p p' :
  pipe_step (target_first next tokens) (target_logits next tokens) p p' → spec_ok p → lossless next tokens p → lossless next tokens p'.
Proof.
  destruct 1 as [w p|w p Hph|p pos inp sh d Hph Hl|p pos inp n t0 Hph Hl Hf|p ds Hph Hd|p pos inp ds sh d Hph Hl
    |p pos inp ds lg o Hph Hl Hlg Ho|p st i Hph Hp|p st i Hph Hp Hfin]; intros [S P K F C B N] [G E]; destruct p; cbn in *; subst;
    split; cbn; unfold constant; try done.
  - by destruct F as [-> ->].
  - eapply verified_greedy; [done|done|done|done|]. intros Hn. by rewrite Hn in E.
Qed.

(** *** The engine follows the rounds *)

Section follows.
Context `{Csd, RowOrder, Crypto, MapIter, Tokenizers, Schedule}.
Context (first_ok : string → N → Prop) (logits_ok : string → option N → list N → list N → list N → Prop).
Notation pipes s := (sx_pipelines s.2).
Notation follows := (follows first_ok logits_ok).
Notation life := (life first_ok logits_ok).
Notation good := (good first_ok logits_ok).
Notation pipe_step := (pipe_step first_ok logits_ok).
Notation drafts s := (sx_draft_assignments s.2).

#[local] Instance follows_preorder : PreOrder follows.
Proof. split; [intros e id; apply rtc_refl|]. intros e1 e2 e3 H12 H23 id. etrans; [apply H12|apply H23]. Qed.

#[local] Instance same_core_preorder : PreOrder same_core.
Proof. split; [done|]. intros s1 s2 s3 [A1 A2] [B1 B2]. split; congruence. Qed.

Lemma core_world {A} (m : M World A) : steps same_core (world m).
Proof. intros s. unfold world. by destruct (m s.1). Qed.
Lemma core_gets {A} (f : SpecSys → A) : steps same_core (gets f).
Proof. by intros s. Qed.
Lemma core_tell w m : steps same_core (tell w m).
Proof. apply steps_ignore; [typeclasses eauto|apply core_world]. Qed.
Lemma core_spawn t : steps same_core (spawn t).
Proof. by intros s. Qed.
#[local] Hint Resolve core_world core_gets core_tell core_spawn : steps.

Lemma core_dispatch_shard id : steps same_core (dispatch_shard_step id).
Proof.
  intros s. unfold dispatch_shard_step. destruct (pipes s !! id) as [p|]; [|done].
  destruct (match q_phase p with PromptProcessing _ _ => _ | _ => _ end) as [[[pos inp] b]|]; [|done].
  destruct (q_shards p !! pos) as [shard|]; [|done]. destruct (pick_next _ _) as [w|]; [|done].
  revert s. apply steps_bind; [typeclasses eauto|by intros s|intros _].
  apply steps_bind; [typeclasses eauto|by intros s|]. intros [tx|]; [|apply steps_ret; typeclasses eauto].
  apply steps_bind; [typeclasses eauto|by intros s|intros _]. apply steps_ignore; [typeclasses eauto|apply core_world].
Qed.

Lemma core_count_tokens url sha h : steps same_core (count_prompt_tokens url sha h).
Proof.
  unfold count_prompt_tokens. destruct (hex_decode h ≫= from_utf8) as [x|]; [|apply steps_ret; typeclasses eauto].
  apply steps_bind; [typeclasses eauto| |intros f; apply steps_ret; typeclasses eauto].
  intros s. unfold ensure_tokenizer_cached. destruct (_ !! sha); [done|]. destruct (download url); [|done]. by case_bool_decide.
Qed.

#[local] Instance good_preorder : PreOrder good.
Proof.
  split; [by intros s Hok|]. intros s1 s2 s3 H12 H23 Hok. destruct (H12 Hok) as [Hok2 F12]. destruct (H23 Hok2) as [Hok3 F23].
  split; [done|by etrans].
Qed.

Lemma core_good s s' : same_core s s' → good s s'.
Proof.
  intros [Hp Hd] Hok. split; [intros id w; rewrite Hd, Hp; apply Hok|]. intros id. rewrite Hp. apply rtc_refl.
Qed.
Lemma good_core {A} (m : M SpecSys A) : steps same_core m → steps good m.
Proof. apply steps_weaken, core_good. Qed.

Lemma no_draft (s : SpecSys) id p : drafts_ok s.2 → pipes s !! id = Some p → q_phase p ≠ AwaitingDraft → drafts s !! id = None.
Proof.
  intros Hok Hp Hph. destruct (drafts s !! id) as [w|] eqn:Hd; [|done]. destruct (Hok id w Hd) as (p' & Hp' & ? & _). congruence.
Qed.

Lemma good_undrafted id (s : SpecSys) p s' :
  pipes s !! id = Some p → q_phase p ≠ AwaitingDraft → (drafts s !! id = None → good s s') → good s s'.
Proof. intros Hp Hph Hg Hd. apply Hg; [|done]. by eapply no_draft. Qed.

(** One abstract step of one pipeline. *)
Lemma alter_good id f p s s' :
  core_alter id f s s' → pipes s !! id = Some p → pipe_step p (f p) →
  drafts s !! id = None ∨ (q_phase (f p) = q_phase p ∧ q_draft_wallet (f p) = q_draft_wallet p) → good s s'.
Proof.
  intros [Hp' Hd'] Hp Hstep Hdr Hok. split.
  - intros id' w Hw. rewrite Hd' in Hw. destruct (Hok id' w Hw) as (q & Hq & Hph & Hdw). rewrite Hp'.
    destruct (decide (id' = id)) as [->|Hne]; [|rewrite lookup_alter_ne by done; eauto].
    rewrite lookup_alter_eq, Hp. assert (q = p) as -> by congruence. destruct Hdr as [?|[E1 E2]]; [congruence|].
    exists (f p). by rewrite E1, E2.
  - intros id'. rewrite Hp'. destruct (decide (id' = id)) as [->|Hne]; [|rewrite lookup_alter_ne by done; apply rtc_refl].
    rewrite lookup_alter_eq, Hp. apply rtc_once. by constructor.
Qed.

(** A pipeline ends. *)
Lemma drop_good id (s s' : SpecSys) :
  pipes s' = delete id (pipes s) → drafts s' = drafts s → drafts s !! id = None → good s s'.
Proof.
  intros Hp' Hd' Hd Hok. split.
  - intros id' w Hw. rewrite Hd' in Hw. destruct (Hok id' w Hw) as (q & Hq & ?). exists q. split; [|done].
    rewrite Hp', lookup_delete_ne; [done|]. congruence.
  - intros id'. rewrite Hp'. destruct (decide (id' = id)) as [->|Hne]; [|rewrite lookup_delete_ne by done; apply rtc_refl].
    rewrite lookup_delete_eq. destruct (pipes s !! id); [apply rtc_once; constructor|apply rtc_refl].
Qed.
Lemma remove_good id (s : SpecSys) : drafts s !! id = None → good s (remove_pipeline id s).2.
Proof. by apply drop_good. Qed.

Lemma update_alter id f (s : SpecSys) : core_alter id f s (update id f s).2.
Proof. done. Qed.
Lemma alter_then_core id f (s s1 s2 : SpecSys) : core_alter id f s s1 → same_core s1 s2 → core_alter id f s s2.
Proof. intros [A B] [C D]. split; congruence. Qed.
Lemma core_then_alter id f (s s1 s2 : SpecSys) : same_core s s1 → core_alter id f s1 s2 → core_alter id f s s2.
Proof. intros [A B] [C D]. split; congruence. Qed.
Lemma alter_then_alter id f g (s s1 s2 : SpecSys) : core_alter id f s s1 → core_alter id g s1 s2 → core_alter id (g ∘ f) s s2.
Proof.
  intros [A B] [C D]. split; [|congruence]. rewrite C, A. apply map_eq. intros j.
  destruct (decide (j = id)) as [->|Hne]; [rewrite !lookup_alter_eq|by rewrite !lookup_alter_ne].
  by destruct (pipes s !! id).
Qed.

(** *** The operations *)

(** Runs a unit operation at the head of the handler, naming the state after. *)
Ltac run_unit s1 :=
  rewrite bind_run;
  match goal with |- context [match ?m ?s with pair _ _ => _ end] => set (s1 := (m s).2); change (m s) with ((), s1); cbv beta iota end.

Lemma dispatch_draft_good id (s : SpecSys) : drafts s !! id = None → good s (dispatch_draft id s).2.
Proof.
  intros Hd. unfold dispatch_draft. destruct (pipes s !! id) as [p|] eqn:Hp; [|done]. destruct (q_phase p) eqn:Hph; try done.
  destruct (match _ with Some w => Some w | None => _ end) as [wallet|]; [|done].
  run_unit s1.
  set (f := λ q : SpecPipeline, q <| q_draft_wallet := Some wallet |>) in *.
  assert (Hs1 : core_alter id f s s1) by done. assert (Hg : good s s1).
  { apply (alter_good id f p); [done|done|by apply ps_pin|by left]. }
  rewrite bind_run. unfold gets. destruct (MinerRegistry.get wallet _) as [tx|]; [|exact Hg].
  run_unit s2.
  intros Hok. assert (Hok2 : drafts_ok s2.2).
  { intros id' w Hw. change (<[id := wallet]> (drafts s) !! id' = Some w) in Hw. change (sx_pipelines s2.2) with (alter f id (pipes s)).
    destruct (decide (id' = id)) as [->|Hne].
    - rewrite lookup_insert_eq in Hw. injection Hw as <-. exists (f p). by rewrite lookup_alter_eq, Hp.
    - rewrite lookup_insert_ne in Hw by done. rewrite lookup_alter_ne by done. by apply Hok. }
  pose proof (good_core _ (steps_ignore same_core _ (core_world (net (net_send tx (MDraftGenerate (draft_generate id p)))))) s2 Hok2) as [Hok3 Hf3].
  split; [exact Hok3|]. etrans; [exact (proj2 (Hg Hok))|exact Hf3].
Qed.

Lemma dispatch_draft_others id j (s : SpecSys) : j ≠ id → drafts (dispatch_draft id s).2 !! j = drafts s !! j.
Proof.
  intros Hne. unfold dispatch_draft. destruct (pipes s !! id) as [p|]; [|done]. destruct (q_phase p); try done.
  destruct (match _ with Some w => Some w | None => _ end) as [wallet|]; [|done]. run_unit s1.
  rewrite bind_run. unfold gets. destruct (MinerRegistry.get wallet _) as [tx|]; [|done]. run_unit s2.
  rewrite (proj2 (steps_ignore same_core _ (core_world (net (net_send tx (MDraftGenerate (draft_generate id p))))) s2)).
  change (<[id := wallet]> (drafts s) !! j = drafts s !! j). by rewrite lookup_insert_ne.
Qed.

Lemma start_good id m shards mt prompt hash source (s : SpecSys) :
  pipes s !! id = None → shards ≠ [] → good s (start_spec_pipeline id m shards mt prompt hash source s).2.
Proof.
  intros Hp Hs. unfold start_spec_pipeline. rewrite bind_run. unfold gets. destruct (_ !! mm_model_id m) as [d|]; [|done].
  run_unit s1.
  set (p := mkSpecPipeline _ _ _ _ _ _ _ _ _ _ _ _ _ _ _ _) in s1.
  transitivity s1; [|apply core_good, core_dispatch_shard]. intros Hok. split.
  - intros id' w Hw. change (sx_pipelines s1.2) with (<[id := p]> (pipes s)). destruct (Hok id' w Hw) as (q & Hq & ?).
    exists q. split; [|done]. rewrite lookup_insert_ne; [done|]. congruence.
  - intros id'. change (sx_pipelines s1.2) with (<[id := p]> (pipes s)). destruct (decide (id' = id)) as [->|Hne].
    + rewrite lookup_insert_eq, Hp. apply rtc_once. constructor. split_and!; try done. cbn.
      intros Hnil. pose proof (stable_sort_perm by_shard_index shards) as Hperm. rewrite Hnil in Hperm.
      by apply Permutation_nil in Hperm.
    + rewrite lookup_insert_ne by done. apply rtc_refl.
Qed.

Lemma draft_result_good wallet r : steps good (handle_draft_result wallet r).
Proof.
  intros s Hok. unfold handle_draft_result. rewrite bind_run. unfold gets. cbv beta iota.
  destruct (bool_decide _) eqn:Ha; [|done]. apply bool_decide_eq_true in Ha. cbn [negb]. set (id := dr_request_id r) in *.
  destruct (Hok id wallet Ha) as (p & Hp & Hph & _).
  run_unit s1.
  assert (Hg1 : good s s1).
  { intros _. split; [|intros id'; apply rtc_refl]. intros id' w Hw. change (delete id (drafts s) !! id' = Some w) in Hw.
    apply lookup_delete_Some in Hw as [_ Hw]. by apply Hok. }
  case_bool_decide as He; [by apply Hg1|]. rewrite bind_run. unfold spec_pipeline, gets. change (sx_pipelines s1.2) with (pipes s).
  rewrite Hp. set (f := λ q : SpecPipeline, q <| q_round := _ |> <| q_phase := _ |>).
  run_unit s2.
  assert (good s (dispatch_shard_step id s2).2) as Hg; [|by apply Hg].
  transitivity s1; [done|]. transitivity s2; [|apply core_good, core_dispatch_shard].
  apply (alter_good id f p); [done|exact Hp|by apply ps_draft|]. left. apply lookup_delete_eq.
Qed.

Lemma finalize_drops id (s : SpecSys) :
  let s' := (finalize_spec_pipeline id s).2 in pipes s' = delete id (pipes s) ∧ drafts s' = drafts s.
Proof.
  cbv zeta. unfold finalize_spec_pipeline. rewrite !bind_run. unfold spec_pipeline, gets. cbv beta iota.
  destruct (pipes s !! id) as [p|] eqn:Hp; [|by split; [symmetry; apply delete_id|]]. rewrite !bind_run.
  set (s1 := (remove_pipeline id s).2). change (remove_pipeline id s) with ((), s1). cbv beta iota.
  match goal with |- pipes (?m s1).2 = _ ∧ _ => enough (steps same_core m) as Hm by (destruct (Hm s1) as [-> ->]; done) end.
  destruct (select_winning_wallet _) as [w|]; [|apply steps_ret; typeclasses eauto].
  destruct (build_response _) as [h x]. apply steps_bind; [typeclasses eauto|apply core_world|].
  intros [i|e]; [apply core_spawn|apply steps_ret; typeclasses eauto].
Qed.

Lemma begin_rollback_alter id o keep k fin p (s : SpecSys) : pipes s !! id = Some p →
  core_alter id (λ q, q <| q_phase := AwaitingRollback {|
      rb_pending := list_to_set (sd_shard_index <$> q_shards p) ∪ {[DRAFT_SESSION_SHARD_INDEX]};
      rb_accepted_count := accepted_count o; rb_k_this_round := k; rb_settle_token := settle_token o;
      rb_keep_len := keep; rb_is_finalizing_round := fin |} |>) s (begin_rollback id o keep k fin s).2.
Proof.
  intros Hp. unfold begin_rollback. rewrite bind_run. unfold spec_pipeline, gets at 1. rewrite Hp.
  rewrite bind_run. match goal with |- context [for_each ?f ?l s] => assert (steps same_core (for_each f l)) as Hf end.
  { apply steps_for_each; [typeclasses eauto|]. intros x _. apply steps_bind; [typeclasses eauto|apply core_gets|].
    intros [w|]; [apply core_tell|apply steps_ret; typeclasses eauto]. }
  specialize (Hf s). destruct (for_each _ _ s) as [[] s1]. cbn [snd] in Hf. rewrite bind_run.
  match goal with |- context [match ?m s1 with pair _ _ => _ end] => assert (steps same_core m) as Hg end.
  { destruct (q_draft_wallet p); [apply core_tell|apply steps_ret; typeclasses eauto]. }
  specialize (Hg s1). match goal with |- context [match ?m s1 with pair _ _ => _ end] => destruct (m s1) as [[] s2] end. cbn [snd] in Hg.
  apply (core_then_alter _ _ _ s2); [by etrans|done].
Qed.

Lemma verify_done_good id p pos inp ds r (s : SpecSys) :
  pipes s !! id = Some p → q_phase p = Verifying pos inp ds → S pos = length (q_shards p) →
  (∀ l, res_next_token_ids r = Some l → logits_ok (q_prompt_hex p) (q_carry p) (q_generated_token_ids p) ds l) →
  good s (verify_done id p ds r s).2.
Proof.
  intros Hp Hph Hl Hok. apply (good_undrafted id s p); [done|congruence|]. intros Hnd. unfold verify_done. destruct (res_next_token_ids r) as [lg|].
  - destruct (greedy_verify_round _ _ ds lg) as [o|] eqn:Ho; [|done].
    set (f := λ q : SpecPipeline, q <| q_generated_token_ids := _ |>). run_unit s1.
    rewrite bind_run. pose proof (begin_rollback_alter id o (kv_keep_len (q_base p) (q_carry p) (accepted_count o)) (length ds)
      (finalizes (q_base p) (accepted_count o) (q_max_tokens p)) (f p) s1) as Hb.
    destruct (begin_rollback _ _ _ _ _ s1) as [[] s2]. cbn [snd mret M_ret] in *.
    assert (Hp1 : pipes s1 !! id = Some (f p)).
    { change (alter f id (pipes s) !! id = Some (f p)). by rewrite lookup_alter_eq, Hp. }
    eapply (alter_good id _ p); [exact (alter_then_alter id _ _ s s1 s2 (update_alter id f s) (Hb Hp1))|done| |by left].
    apply (ps_verified first_ok logits_ok p pos inp ds lg o); auto.
  - run_unit s1. by apply remove_good.
Qed.

Lemma prompt_done_good id p pos inp r (s : SpecSys) :
  pipes s !! id = Some p → q_phase p = PromptProcessing pos inp → S pos = length (q_shards p) →
  (∀ t, res_next_token_id r = Some t → first_ok (q_prompt_hex p) t) → good s (prompt_done id p inp r s).2.
Proof.
  intros Hp Hph Hl Hok. apply (good_undrafted id s p); [done|congruence|]. intros Hnd. unfold prompt_done.
  destruct (res_next_token_id r) as [t0|]; [|run_unit s1; by apply remove_good].
  rewrite bind_run. match goal with |- context [count_prompt_tokens ?u ?h ?x s] => pose proof (core_count_tokens u h x s) as Hc;
    destruct (count_prompt_tokens u h x s) as [[n|] s1] end; cbn [snd] in Hc; (etrans; [apply core_good, Hc|]).
  - destruct Hc as [Hp1 Hd1]. set (f := λ q : SpecPipeline, q <| q_base := _ |> <| q_expected0 := _ |> <| q_phase := _ |>).
    run_unit s2. rewrite bind_run. pose proof (dispatch_draft_good id s2) as Hdd.
    destruct (dispatch_draft id s2) as [[] s3]. cbn [snd mret M_ret] in *. transitivity s2; [|apply Hdd; change (drafts s1 !! id = None); congruence].
    apply (alter_good id f p); [done|congruence| |left; congruence]. apply (ps_prompt_done _ _ p pos inp n t0); auto.
  - run_unit s2. apply remove_good. destruct Hc. congruence.
Qed.

Lemma next_shard_good id p ph (s : SpecSys) :
  pipes s !! id = Some p → pipe_step p (p <| q_phase := ph |>) → q_phase p ≠ AwaitingDraft → good s (next_shard id ph s).2.
Proof.
  intros Hp Hst Hph. apply (good_undrafted id s p); [done|congruence|]. intros Hnd. unfold next_shard. set (f := λ q : SpecPipeline, q <| q_phase := ph |>).
  run_unit s1. rewrite bind_run. pose proof (core_dispatch_shard id s1) as Hc. destruct (dispatch_shard_step id s1) as [[] s2].
  cbn [snd mret M_ret] in *. transitivity s1; [|by apply core_good]. apply (alter_good id f p); [done|done|done|by left].
Qed.

Lemma shard_result_good wallet r (s : SpecSys) :
  result_ok first_ok logits_ok s.2 r → good s (handle_spec_shard_result wallet r s).2.
Proof.
  intros Hres. unfold handle_spec_shard_result. set (id := res_request_id r). destruct (_ !! id) as [a|]; [|done].
  destruct (bool_decide (ssa_wallet a = wallet) && _); [|done]. cbn [negb]. run_unit s1.
  set (c := count_spec_contribution wallet). run_unit s2. rewrite bind_run. unfold spec_pipeline, gets.
  assert (Hp2 : pipes s2 = alter c id (pipes s)) by done. rewrite Hp2, lookup_alter_eq.
  destruct (pipes s !! id) as [p|] eqn:Hp; cbn [fmap option_fmap option_map].
  - assert (Hg2 : good s s2) by (apply (alter_good id c p); [done|done|apply ps_count|by right]).
    assert (Hq : pipes s2 !! id = Some (c p)) by (by rewrite Hp2, lookup_alter_eq, Hp).
    etrans; [exact Hg2|]. specialize (Hres p Hp).
    change (q_shards (c p)) with (q_shards p). change (q_phase (c p)) with (q_phase p).
    destruct (q_phase p) as [pos inp| |pos inp ds|st] eqn:Hph; try done; destruct (Nat.eqb_spec (S pos) (length (q_shards p))) as [Hl|Hl].
    + apply (prompt_done_good id (c p) pos); auto.
    + eapply next_shard_good; [done|by eapply ps_relay_prompt|]. change (q_phase p ≠ AwaitingDraft). congruence.
    + apply (verify_done_good id (c p) pos inp ds); auto.
    + eapply next_shard_good; [done|by eapply ps_relay_verify|]. change (q_phase p ≠ AwaitingDraft). congruence.
  - apply core_good. split; [|done]. cbn [snd mret M_ret]. rewrite Hp2. apply map_eq. intros j.
    destruct (decide (j = id)) as [->|Hne]; [by rewrite lookup_alter_eq, Hp|by rewrite lookup_alter_ne].
Qed.

Lemma ack_good wallet ack : steps good (handle_kv_rollback_ack wallet ack).
Proof.
  intros s. unfold handle_kv_rollback_ack. set (id := ka_request_id ack). set (i := ka_shard_index ack).
  rewrite bind_run. unfold spec_pipeline, gets. cbv beta iota. destruct (pipes s !! id) as [p|] eqn:Hp; [|done].
  destruct (q_phase p) as [| | |st] eqn:Hph; try done. rewrite bind_run.
  match goal with |- context [match ?m s with pair _ _ => _ end] => assert (steps same_core m) as Hm end.
  { destruct (ka_finalized_hash ack); [|apply steps_ret; typeclasses eauto].
    destruct (_ && _); [apply core_spawn|apply steps_ret; typeclasses eauto]. }
  specialize (Hm s). match goal with |- context [match ?m s with pair _ _ => _ end] => destruct (m s) as [[] s1] end. cbn [snd] in Hm.
  assert (Hp1 : pipes s1 !! id = Some p) by (by rewrite (proj1 Hm)). transitivity s1; [by apply core_good|].
  apply (good_undrafted id s1 p); [done|congruence|]. intros Hnd.
  clear Hm Hp. clear s. set (g := λ q : SpecPipeline, q <| q_phase := _ |>). run_unit s2.
  case_bool_decide as Hpend; cbn [negb]; [|by apply (alter_good id g p); [|..|apply (ps_ack _ _ p st i)|left]].
  destruct (rb_is_finalizing_round st) eqn:Hfin.
  - destruct (finalize_drops id s2) as [Hp2 Hd2]. apply (drop_good id); [|by rewrite Hd2|done].
    rewrite Hp2. change (pipes s2) with (alter g id (pipes s1)). apply map_eq. intros j.
    destruct (decide (j = id)) as [->|Hne]; [by rewrite !lookup_delete_eq|by rewrite !lookup_delete_ne, lookup_alter_ne].
  - set (h := λ q : SpecPipeline, q <| q_base := _ |> <| q_carry := _ |> <| q_expected0 := _ |> <| q_k := _ |> <| q_phase := _ |>).
    run_unit s3. transitivity s3; [|by apply dispatch_draft_good].
    apply (alter_good id (h ∘ g) p); [by apply (alter_then_alter id g h s1 s2 s3)|done|by apply (ps_next_round _ _ p st i)|by left].
Qed.

Lemma retry_good : steps good retry_stalled_tick.
Proof.
  unfold retry_stalled_tick. apply steps_bind; [typeclasses eauto|by intros s|]. intros l1.
  apply steps_bind; [typeclasses eauto| |intros _].
  { apply steps_for_each; [typeclasses eauto|]. intros id _. apply good_core, core_dispatch_shard. }
  intros s. rewrite bind_run. unfold gets. cbv beta iota.
  set (l := stalled _ _ _). assert (Hl : ∀ id, id ∈ l → drafts s !! id = None).
  { intros id [Hs _]%list_elem_of_filter. destruct (pipes s !! id); [|done]. apply andb_true_iff in Hs as [_ Hs]. by apply bool_decide_eq_true in Hs. }
  assert (Hnd : NoDup l) by (apply NoDup_filter; rewrite iter_keys_perm; apply NoDup_fst_map_to_list).
  clearbody l. revert s Hl. induction Hnd as [|id l Hni _ IH]; intros s Hl; [done|]. cbn [for_each].
  rewrite bind_run. pose proof (dispatch_draft_good id s (Hl id (list_elem_of_here _ _))) as Hg.
  pose proof (λ j, dispatch_draft_others id j s) as Hoth.
  destruct (dispatch_draft id s) as [[] s1]. cbn [snd] in *. etrans; [exact Hg|]. apply IH.
  intros j Hj. rewrite Hoth; [apply Hl; by right|]. by intros ->.
Qed.

Lemma disconnect_good wallet : steps good (on_spec_disconnect wallet).
Proof.
  intros s Hok. set (s' := (on_spec_disconnect wallet s).2).
  assert (Hp : pipes s' = filter (λ kv, q_draft_wallet kv.2 ≠ Some wallet) (pipes s)) by done.
  assert (Hd : drafts s' = filter (λ kv, kv.2 ≠ wallet) (drafts s)) by done. split.
  - intros id w Hw. rewrite Hd in Hw. apply map_lookup_filter_Some in Hw as [Hw Hne]. destruct (Hok id w Hw) as (p & Hpp & Hph & Hdw).
    exists p. split; [|done]. rewrite Hp. apply map_lookup_filter_Some. split; [done|]. cbn in *. congruence.
  - intros id. rewrite Hp. destruct (pipes s !! id) as [p|] eqn:Hpp.
    + destruct (decide (q_draft_wallet p = Some wallet)) as [He|Hne].
      * rewrite (proj2 (map_lookup_filter_None _ _ _)); [apply rtc_once; constructor|]. right. intros q Hq. cbn. naive_solver.
      * rewrite (proj2 (map_lookup_filter_Some _ _ _ p)); [apply rtc_refl|done].
    + rewrite (proj2 (map_lookup_filter_None _ _ _)); [apply rtc_refl|by left].
Qed.

Lemma task_good t : steps good (run_spec_task t).
Proof.
  apply good_core. destruct t as [id i h|c].
  - apply steps_ignore; [typeclasses eauto|]. intros s. unfold spec_pool_try. by destruct (try_each _ _) as [r [pool log]].
  - unfold run_spec_task. apply steps_bind; [typeclasses eauto|apply core_gets|]. intros pool. apply core_world.
Qed.

(** The engine refines the rounds. *)
Lemma spec_step_good s s' : spec_step first_ok logits_ok s s' → good s s'.
Proof.
  destruct 1 as [id m shards mt pr h src s Hp Hs|w r s Hr|w r s|w a s|s|w s|t s|w s].
  - by apply start_good.
  - by apply shard_result_good.
  - apply draft_result_good.
  - apply ack_good.
  - apply retry_good.
  - apply disconnect_good.
  - apply task_good.
  - by apply core_good.
Qed.

Lemma steps_follow s0 s : drafts_ok s0.2 → rtc (spec_step first_ok logits_ok) s0 s → drafts_ok s.2 ∧ follows s0.2 s.2.
Proof.
  intros Hok Hr. revert Hok. induction Hr as [s|s0 s1 s2 Hs _ IH]; intros Hok; [split; [done|intros id; apply rtc_refl]|].
  destruct (spec_step_good _ _ Hs Hok) as [Hok1 Hf1]. destruct (IH Hok1) as [Hok2 Hf2].
  split; [done|]. intros id. etrans; [apply Hf1|apply Hf2].
Qed.
End follows.

(** *** Invariants of the rounds *)

Lemma life_invariant first_ok logits_ok (I : SpecPipeline → Prop) o o' :
  (∀ p, fresh p → I p) → (∀ p p', pipe_step first_ok logits_ok p p' → I p → I p') →
  rtc (life first_ok logits_ok) o o' → (∀ p, o = Some p → I p) → ∀ p, o' = Some p → I p.
Proof.
  intros Hf Hs Hr. induction Hr as [o|o o1 o2 Hl _ IH]; intros Ho; [done|]. apply IH. intros q Hq.
  destruct Hl as [p Hp|p p' Hp|p]; [|injection Hq as <-; eapply Hs; [done|by apply Ho]|done].
  injection Hq as <-. by apply Hf.
Qed.

Lemma fresh_ok p : fresh p → spec_ok p.
Proof. intros (Hs & Hph & Hc & Hk & Hg & _). split; rewrite ?Hph, ?Hc, ?Hg, ?Hk; try done. destruct (q_shards p); [done|cbn; lia]. Qed.
Lemma fresh_lossless next tokens p : fresh p → lossless next tokens p.
Proof. intros (_ & Hph & _ & _ & Hg & _). unfold lossless. by rewrite Hph, Hg. Qed.

(** ** Theorems *)




(** The adaptive batch size: computed with floats in the source, it is the
    integer rule for every batch of up to 64 tokens, and it is always between two
    and eight. *)
Theorem next_k_adapts k a n : a ≤ n ≤ 64 → next_k k a n = adapt_k k a n ∧ (MIN_K ≤ next_k k a n ≤ MAX_K)%N.
Proof.
  intros Hn. split; [|apply next_k_range]. unfold next_k, adapt_k. destruct (Nat.eqb_spec n 0) as [->|Hn0]; [done|].
  by destruct (ratio_thresholds a n Hn Hn0) as [-> ->].
Qed.


(** ** Witnesses, and what the proofs brought out *)

Section examples.
Existing Instances shard_csd table_order in_order toy_crypto key_iter toy_tokenizers.

(** The run of the sample, with a target that answers truthfully. *)
Lemma sample_run : rtc (spec_step (target_first count_next two_tokens) (target_logits count_next two_tokens))
  (spec_world, spec_engine) verified.
Proof.
  eapply rtc_l; [apply (sp_start _ _ "r" spec_manifest one_shard 50 "6869" "ph" spec_source); by vm_compute|].
  eapply rtc_l; [apply (sp_shard _ _ "a" (spec_result 0 (Some 2%N) None))|].
  { intros p Hp. vm_compute in Hp. injection Hp as <-. intros _ t [= <-]. by vm_compute. }
  eapply rtc_l; [apply (sp_draft _ _ "c" (mkOpoiDraftResult "r" [2; 3; 9]%N))|].
  eapply rtc_l; [apply (sp_shard _ _ "b" (spec_result 0 None (Some [3; 4; 5]%N)))|apply rtc_refl].
  intros p Hp. vm_compute in Hp. injection Hp as <-. intros _ l [= <-]. by vm_compute.
Qed.




Lemma next_k_adapts_witness : next_k 4 3 4 = 5%N.
Proof. rewrite (proj1 (next_k_adapts 4 3 4 ltac:(lia))). by vm_compute. Defined.


(** The length of the prompt is taken from the input of the last shard of the
    prompt pass.  With two shards that is the first one's tensor, and it is the
    empty text that is counted. *)
Lemma prompt_counted_as_empty :
  let pass := λ s, (handle_spec_shard_result "b" (spec_result 1 (Some 2%N) None)
                     (handle_spec_shard_result "a" (spec_result 0 None None) s).2).2 in
  q_base <$> sx_pipelines prompted.2 !! "r" = Some 2
  ∧ q_base <$> sx_pipelines (pass (started two_shards)).2 !! "r" = Some 0.
Proof. by vm_compute. Qed.

(** The limit is compared with the length of the prompt and the output together:
    a prompt as long as [max_tokens] is cut off after one round. *)
Lemma limit_counts_prompt base accepted max_tokens :
  (max_tokens ≤ N.of_nat base)%N → (N.of_nat (base + accepted + 1) < 2 ^ 32)%N → finalizes base accepted max_tokens = true.
Proof. intros Hm Hb. unfold finalizes, wrap32, u32_modulus. rewrite N.mod_small by done. apply N.leb_le. lia. Qed.

(** Every shard's rollback is sent to the miner [pick_next] would take now, which
    with three miners is not the one that holds the shard's session: "b" (channel
    1) served the only shard, "c" (channel 2) is told. *)
Lemma rollback_misses_worker :
  default "" (sx_last_shard_wallet verified.2) = "b"
  ∧ (λ m, match m with (ch, MKvRollback r) => [(ch, kr_shard_index r)] | _ => [] end) <$> sent (w_net verified.1)
    = [[]; []; []; [(2, 0)]; [(2, DRAFT_SESSION_SHARD_INDEX)]]%N.
Proof. by vm_compute. Qed.

(** A verify result with the wrong number of tokens panics the handler. *)
Lemma wrong_length_panics : (handle_spec_shard_result "b" (spec_result 0 None (Some [3; 4]%N)) drafted).1 = None.
Proof. by vm_compute. Qed.
End examples.
