(* ===== verification/B3LiteAudit.v ===== *)
(** * The B3-lite auditor ([src/opoi/b3lite_audit.rs])

    Replays sampled receipts, on a trusted miner or in a local process, and
    applies the consequences of a divergence.  [audit_tick] awaits each verdict
    before the next receipt: a run that waits is kept in the state ([au_run])
    and continued by the event it waits for, so everything else the bridge does
    may come in between.  The process is outside the repository; the command it
    is given is the source's, its outcome is an event. *)

From S2P Require Export World Bytes ModelSource.
From S2P Require Import Pipeline.

Definition audit_position_value (p : AuditPositionWire) : Value :=
  Object [("step", u (ap_step p)); ("committed_token_id", u (ap_committed_token_id p));
          ("auditor_token_id", u (ap_auditor_token_id p)); ("admissible", Bool (ap_admissible p))].

(** [AuditStdoutJson] *)
Definition parse_audit_stdout : Value → option (list AuditPositionWire) :=
  of_struct (field "positions" None (of_list parse_audit_position)).

Definition all_admissible (positions : list AuditPositionWire) : bool :=
  negb (bool_decide (positions = [])) && forallb ap_admissible positions.

Definition EJECT_AFTER_DIVERGENCES : Z := 3.

(** What the local process is started with. *)
Record AuditCommand := mkAuditCommand { cmd_bin : string; cmd_args : list string; cmd_request : Value }.

(** How it ended; [Exited]'s texts are the printed status and standard error. *)
Inductive process_outcome : Type :=
| CacheDirFailed (e : string)
| WriteFailed (e : string)
| SpawnFailed (e : string)
| Exited (status stderr : string)
| Stdout (body : option Value) (parse_error : string).

(** A one-shot channel. *)
Inductive verdict_chan : Type :=
| Open
| Delivered (positions : list AuditPositionWire)
| SenderDropped.

Inductive AuditStage : Type :=
| AwaitingVerdict (wallet : string) (rx : nat)
| AwaitingProcess (cmd : AuditCommand).

(** A receipt under audit, and the receipts of the same tick after it. *)
Record AuditRun := mkAuditRun {
  run_receipt : B3LiteReceipt;
  run_source : ModelSource;
  run_prompt_text : string;
  run_token_ids : list N;
  run_stage : AuditStage;
  run_rest : list B3LiteReceipt
}.

(** [au_pending] holds the sender of a channel: its index in [au_chans]. *)
Record B3LiteAuditor := mkAuditor {
  au_model_sources : ModelSourceConfig;
  au_cs_miner_bin : string;
  au_cache_dir : string;
  au_trusted_wallets : list string;
  au_assignments : gmap string string;
  au_pending : gmap string nat;
  au_chans : list verdict_chan;
  au_run : option AuditRun
}.
Abbreviation AuditSys := (World * B3LiteAuditor)%type.

Definition new_auditor (sources : ModelSourceConfig) (bin cache_dir : string) (trusted : list string) : B3LiteAuditor :=
  {| au_model_sources := sources; au_cs_miner_bin := bin; au_cache_dir := cache_dir; au_trusted_wallets := trusted;
     au_assignments := ∅; au_pending := ∅; au_chans := []; au_run := None |}.

Section audit.
Context `{Csd, RowOrder, Crypto, MapIter, Marketplace}.

Definition set_run (r : option AuditRun) : M AuditSys () := own (λ a, a <| au_run := r |>).

(** Taking a sender out of [pending] and dropping it: the channel is dropped
    unless it was used. *)
Definition drop_sender (request_id : string) (a : B3LiteAuditor) : B3LiteAuditor :=
  match au_pending a !! request_id with
  | None => a
  | Some i => a <| au_pending := delete request_id (au_pending a) |>
                <| au_chans := <[i := SenderDropped]> (au_chans a) |>
  end.
Definition forget_dispatch (request_id : string) : M AuditSys () := own (λ a,
  drop_sender request_id (a <| au_assignments := delete request_id (au_assignments a) |>)).

Definition decode_prompt_hex (h : string) : option string := hex_decode h ≫= from_utf8.

(** ** Verdicts *)

Definition mark_inconclusive (receipt_id : N) (detail : string) : M AuditSys () :=
  ignore (in_world (db (mark_b3lite_audit_result receipt_id "INCONCLUSIVE" detail))).

Definition consequence (receipt : B3LiteReceipt) (action reason : string) : M AuditSys () :=
  ignore (in_world (db (insert_b3lite_consequence (b_id receipt) (b_miner_wallet receipt) (b_request_id receipt) action reason))).

Definition divergence_reason (receipt : B3LiteReceipt) : string :=
  "B3-lite audit found a real divergence for request_id=" +:+ b_request_id receipt.
Definition eject_reason (n : Z) : string :=
  pretty n +:+ " confirmed B3-lite divergences (threshold " +:+ pretty EJECT_AFTER_DIVERGENCES +:+ ")".

Definition apply_consequence (receipt : B3LiteReceipt) : M AuditSys () :=
  _ ← consequence receipt "WITHHOLD_PAY" (divergence_reason receipt);
  _ ← consequence receipt "REPUTATION_FLAG" (divergence_reason receipt);
  n ← in_world (db (count_withhold_consequences (b_miner_wallet receipt)));
  match n with
  | Ok n =>
    if (EJECT_AFTER_DIVERGENCES <=? n)%Z then
      _ ← in_world (reg (ban (b_miner_wallet receipt)));
      consequence receipt "EJECTED" (eject_reason n)
    else mret ()
  | Err _ => mret ()
  end.

(** The end of [run_one]. *)
Definition conclude (receipt : B3LiteReceipt) (verdict_result : result (list AuditPositionWire) string) : M AuditSys () :=
  match verdict_result with
  | Err e => mark_inconclusive (b_id receipt) e
  | Ok positions =>
    let admissible := all_admissible positions in
    let status := if admissible then "ADMISSIBLE" else "DIVERGENT" in
    let detail := print_json (Array (audit_position_value <$> positions)) in
    _ ← ignore (in_world (db (mark_b3lite_audit_result (b_id receipt) status detail)));
    if admissible then mret () else apply_consequence receipt
  end.

(** ** Dispatching *)

Definition audit_assign (receipt : B3LiteReceipt) (source : ModelSource) (prompt_text : string) (ids : list N) : OpoiAuditAssign := {|
  aa_request_id := b_request_id receipt; aa_model_id := b_model_id receipt; aa_gguf_url := ms_gguf_url source;
  aa_gguf_sha256 := b_gguf_sha256 receipt; aa_tokenizer_url := ms_tokenizer_url source;
  aa_tokenizer_sha256 := ms_tokenizer_sha256 source; aa_prompt_hex := hex_encode (as_bytes prompt_text);
  aa_committed_token_ids := ids; aa_total_layers := Z.to_N (b_total_layers receipt `mod` 2 ^ 32) |}.

(** Up to the [await]: [Ok] is the receiver that is then awaited. *)
Definition dispatch_via_stratum (wallet : string) (receipt : B3LiteReceipt) (source : ModelSource) (prompt_text : string)
    (ids : list N) : M AuditSys (result nat string) :=
  tx ← in_world (gets (λ w, MinerRegistry.get wallet (w_reg w)));
  match tx with
  | None => mret (Err ("wallet " +:+ wallet +:+ " not connected"))
  | Some tx =>
    let request_id := b_request_id receipt in
    rx ← own_gets (λ a, length (au_chans a));
    _ ← own (λ a, a <| au_chans := au_chans a ++ [Open] |> <| au_assignments := <[request_id := wallet]> (au_assignments a) |>);
    _ ← own (λ a, (drop_sender request_id a) <| au_pending := <[request_id := rx]> (au_pending a) |>);
    ok ← in_world (net (net_send tx (MAuditAssign (audit_assign receipt source prompt_text ids))));
    if (ok : bool) then mret (Ok rx)
    else
      _ ← forget_dispatch request_id;
      mret (Err ("wallet " +:+ wallet +:+ "'s downstream channel is closed"))
  end.

(** [Path::join] with a file name. *)
Definition path_join (dir file : string) : string :=
  match last (as_bytes dir) with
  | None => file
  | Some c => if Ascii.eqb c "/" then dir +:+ file else dir +:+ "/" +:+ file
  end.

Definition audit_command (a : B3LiteAuditor) (receipt : B3LiteReceipt) (source : ModelSource) (prompt_text : string)
    (ids : list N) : AuditCommand :=
  let tmp_path := path_join (au_cache_dir a) ("audit_req_" +:+ pretty (b_id receipt) +:+ ".json") in {|
  cmd_bin := au_cs_miner_bin a;
  cmd_args := ["--address"; "b3lite-auditor"; "--worker"; "b3lite-auditor"; "--pool"; "127.0.0.1:1"; "--audit-request"; tmp_path];
  cmd_request := Object
    [("model_id", Str (b_model_id receipt)); ("gguf_url", Str (ms_gguf_url source));
     ("gguf_sha256", Str (b_gguf_sha256 receipt)); ("tokenizer_url", Str (ms_tokenizer_url source));
     ("tokenizer_sha256", Str (ms_tokenizer_sha256 source)); ("cache_dir", Str (au_cache_dir a));
     ("prompt_text", Str prompt_text); ("committed_token_ids", Array (u <$> ids));
     ("total_layers", i (b_total_layers receipt))] |}.

(** The end of [dispatch_via_subprocess]. *)
Definition subprocess_verdict (bin : string) (o : process_outcome) : result (list AuditPositionWire) string :=
  match o with
  | CacheDirFailed e => Err ("could not create cache_dir: " +:+ e)
  | WriteFailed e => Err ("could not write request file: " +:+ e)
  | SpawnFailed e => Err ("could not spawn auditor subprocess (" +:+ bin +:+ "): " +:+ e)
  | Exited status stderr => Err ("auditor subprocess exited " +:+ status +:+ ": " +:+ stderr)
  | Stdout body parse_error =>
    match body ≫= parse_audit_stdout with
    | Some positions => Ok positions
    | None => Err ("could not parse auditor stdout: " +:+ parse_error)
    end
  end.

(** Up to the [await] of the process. *)
Definition dispatch_via_subprocess (receipt : B3LiteReceipt) (source : ModelSource) (prompt_text : string) (ids : list N)
    (rest : list B3LiteReceipt) : M AuditSys () :=
  cmd ← own_gets (λ a, audit_command a receipt source prompt_text ids);
  set_run (Some (mkAuditRun receipt source prompt_text ids (AwaitingProcess cmd) rest)).

Definition resolve_model (now : N) (model_id : string) : M AuditSys (option ModelSource) := λ s,
  let '(r, c) := ModelSource.resolve now model_id (au_model_sources s.2) in (r, (s.1, s.2 <| au_model_sources := c |>)).

(** [run_one] until it waits ([true]) or ends. *)
Definition run_one (now : N) (receipt : B3LiteReceipt) (rest : list B3LiteReceipt) : M AuditSys bool :=
  source ← resolve_model now (b_model_id receipt);
  match source with
  | None => _ ← mark_inconclusive (b_id receipt) "no ModelSource entry for this model_id"; mret false
  | Some source =>
    match decode_prompt_hex (b_prompt_hex receipt) with
    | None => _ ← mark_inconclusive (b_id receipt) "prompt_hex did not decode to valid UTF-8"; mret false
    | Some prompt_text =>
      match decode_token_ids_hex (b_generated_token_ids_hex receipt) with
      | None => _ ← mark_inconclusive (b_id receipt) "generated_token_ids_hex was not a multiple of 4 bytes"; mret false
      | Some ids =>
        trusted ← own_gets au_trusted_wallets;
        auditor ← in_world (gets (λ w, pick_auditor_capable trusted (b_miner_wallet receipt) (w_reg w)));
        _ ← match auditor with
            | None => dispatch_via_subprocess receipt source prompt_text ids rest
            | Some wallet =>
              rx ← dispatch_via_stratum wallet receipt source prompt_text ids;
              match rx with
              | Ok rx => set_run (Some (mkAuditRun receipt source prompt_text ids (AwaitingVerdict wallet rx) rest))
              | Err _ => dispatch_via_subprocess receipt source prompt_text ids rest
              end
            end;
        mret true
      end
    end
  end.

Fixpoint run_all (now : N) (receipts : list B3LiteReceipt) : M AuditSys () :=
  match receipts with
  | [] => mret ()
  | receipt :: rest =>
    waits ← run_one now receipt rest;
    if (waits : bool) then mret () else run_all now rest
  end.

(** The loop that calls it awaits the end of the previous tick. *)
Definition audit_tick (now : N) : M AuditSys () :=
  pending ← in_world (db list_pending_b3lite_audits);
  match pending with
  | Ok rows => run_all now rows
  | Err _ => mret ()
  end.

(** [timeout(STRATUM_AUDIT_TIMEOUT, result_rx)] is polled: the channel first. *)
Definition poll_verdict (now : N) (elapsed : bool) : M AuditSys () :=
  run ← own_gets au_run;
  match run with
  | Some (mkAuditRun receipt source prompt_text ids (AwaitingVerdict wallet rx) rest) =>
    c ← own_gets (λ a, default SenderDropped (au_chans a !! rx));
    match match c with
          | Delivered positions => Some (Some positions)
          | SenderDropped => Some None
          | Open => if elapsed then Some None else None
          end with
    | None => mret ()
    | Some outcome =>
      _ ← forget_dispatch (b_request_id receipt);
      match outcome with
      | Some positions =>
        _ ← set_run None;
        _ ← conclude receipt (Ok positions);
        run_all now rest
      | None => dispatch_via_subprocess receipt source prompt_text ids rest
      end
    end
  | _ => mret ()
  end.

(** The process ended. *)
Definition process_ended (now : N) (o : process_outcome) : M AuditSys () :=
  run ← own_gets au_run;
  match run with
  | Some (mkAuditRun receipt source prompt_text ids (AwaitingProcess cmd) rest) =>
    _ ← set_run None;
    _ ← conclude receipt (subprocess_verdict (cmd_bin cmd) o);
    run_all now rest
  | _ => mret ()
  end.

(** ** The handlers *)

Definition handle_audit_result (wallet : string) (r : OpoiAuditResult) : M AuditSys (result () AppError) := λ s,
  let request_id := ar_request_id r in
  match au_assignments s.2 !! request_id with
  | None => (Err UnknownRequest, s)
  | Some assigned =>
    if negb (bool_decide (assigned = wallet)) then (Err NotAssignedToCaller, s)
    else
      match au_pending s.2 !! request_id with
      | None => (Ok (), s)
      | Some tx => (Ok (), (s.1, s.2 <| au_pending := delete request_id (au_pending s.2) |>
                                    <| au_chans := <[tx := Delivered (ar_positions r)]> (au_chans s.2) |>))
      end
  end.

Definition on_disconnect (wallet : string) : M AuditSys () :=
  stale ← own_gets (λ a, filter (λ id, au_assignments a !! id = Some wallet) (iter_keys (au_assignments a)));
  for_each forget_dispatch stale.

(** [main]: the bans are rebuilt from the consequence table. *)
Definition restore_bans : M World () :=
  wallets ← db list_ejected_wallets;
  match wallets with
  | Ok wallets => for_each (λ w, reg (ban w)) wallets
  | Err _ => mret ()
  end.
End audit.

(** ** Events *)

(** What happens to the auditor; [EvWorld] is anything the rest of the bridge
    does to what they share. *)
Inductive audit_event : Type :=
| EvTick (now : N)
| EvPoll (now : N) (elapsed : bool)
| EvProcess (now : N) (o : process_outcome)
| EvReply (wallet : string) (r : OpoiAuditResult)
| EvDisconnect (wallet : string)
| EvWorld (f : World → World).

Section events.
Context `{Csd, RowOrder, Crypto, MapIter, Marketplace}.

Definition audit_event_step (e : audit_event) : M AuditSys () :=
  match e with
  | EvTick now =>
    run ← own_gets au_run;
    match run with Some _ => mret () | None => audit_tick now end
  | EvPoll now elapsed => poll_verdict now elapsed
  | EvProcess now o => process_ended now o
  | EvReply wallet r => ignore (handle_audit_result wallet r)
  | EvDisconnect wallet => on_disconnect wallet
  | EvWorld f => λ s, ((), (f s.1, s.2))
  end.

Definition after (evs : list audit_event) (s : AuditSys) : AuditSys := (for_each audit_event_step evs s).2.

(** ** What is to hold *)

Definition quiet (a : B3LiteAuditor) : Prop := au_assignments a = ∅ ∧ au_pending a = ∅.

(** A verdict is awaited from [wallet]: only its reply counts, only once. *)
Record verdict_awaited (a : B3LiteAuditor) (receipt : B3LiteReceipt) (wallet : string) (rx : nat) : Prop := {
  va_trusted : wallet ∈ au_trusted_wallets a;
  va_other : wallet ≠ b_miner_wallet receipt;
  va_assigned : ∀ id w, au_assignments a !! id = Some w → id = b_request_id receipt ∧ w = wallet;
  va_chan :
    match au_chans a !! rx with
    | Some Open => au_assignments a !! b_request_id receipt = Some wallet ∧ au_pending a = {[b_request_id receipt := rx]}
    | Some _ => au_pending a = ∅
    | None => False
    end
}.

(** What is replayed is what the receipt says; the receipts left are pending. *)
Record run_ok (a : B3LiteAuditor) (r : AuditRun) : Prop := {
  ro_prompt : decode_prompt_hex (b_prompt_hex (run_receipt r)) = Some (run_prompt_text r);
  ro_ids : decode_token_ids_hex (b_generated_token_ids_hex (run_receipt r)) = Some (run_token_ids r);
  ro_pending : Forall (λ b, b_sampled b = true ∧ b_audit_status b = "PENDING") (run_receipt r :: run_rest r);
  ro_stage :
    match run_stage r with
    | AwaitingVerdict wallet rx => verdict_awaited a (run_receipt r) wallet rx
    | AwaitingProcess cmd =>
      quiet a ∧ cmd = audit_command a (run_receipt r) (run_source r) (run_prompt_text r) (run_token_ids r)
    end
}.

Definition audit_ok (a : B3LiteAuditor) : Prop :=
  match au_run a with Some r => run_ok a r | None => quiet a end.

(** The channel of a run is still open. *)
Definition rx_open (a : B3LiteAuditor) : Prop :=
  match au_run a with
  | Some r => match run_stage r with AwaitingVerdict _ rx => au_chans a !! rx = Some Open | AwaitingProcess _ => True end
  | None => True
  end.

(** ** Lemmas *)

Definition same_auditor (s s' : AuditSys) : Prop := s'.2 = s.2.
#[local] Instance same_auditor_preorder : PreOrder same_auditor.
Proof. split; [by intros s|intros s1 s2 s3; unfold same_auditor; congruence]. Qed.

Lemma audit_same_in_world {A} (m : M World A) : steps same_auditor (in_world m).
Proof. intros s. unfold in_world, same_auditor. by destruct (m s.1). Qed.
#[local] Hint Resolve audit_same_in_world : steps.

Lemma same_mark id detail : steps same_auditor (mark_inconclusive id detail).
Proof. unfold mark_inconclusive. auto with steps. Qed.
Lemma same_consequence r a x : steps same_auditor (consequence r a x).
Proof. unfold consequence. auto with steps. Qed.
#[local] Hint Resolve same_mark same_consequence : steps.
Lemma same_apply r : steps same_auditor (apply_consequence r).
Proof.
  unfold apply_consequence. apply steps_bind; auto with steps. intros _. apply steps_bind; auto with steps. intros _.
  apply steps_bind; auto with steps. intros [n|e]; [|auto with steps].
  destruct (_ <=? n)%Z; [|auto with steps]. apply steps_bind; auto with steps.
Qed.
#[local] Hint Resolve same_apply : steps.
Lemma same_conclude r v : steps same_auditor (conclude r v).
Proof.
  unfold conclude. destruct v as [ps|e]; [|auto with steps]. apply steps_bind; auto with steps.
  intros _. destruct (all_admissible ps); auto with steps.
Qed.

Lemma same_run {A} (m : M AuditSys A) s : steps same_auditor m → (m s).2.2 = s.2.
Proof. intros Hm. apply (Hm s). Qed.

(** *** Starting a run *)

Definition pending_rows (rows : list B3LiteReceipt) : Prop := Forall (λ b, b_sampled b = true ∧ b_audit_status b = "PENDING") rows.

Lemma list_pending_rows d rows : (list_pending_b3lite_audits d).1 = Ok rows → pending_rows rows.
Proof.
  unfold list_pending_b3lite_audits, select, exec. destruct (pop_fault d) as [f d1]. destruct f; [|done..].
  intros [= <-]. unfold pending_rows. rewrite row_order_perm. apply Forall_forall. intros b Hb.
  by apply list_elem_of_filter in Hb as [? _].
Qed.

Lemma quiet_drop a id : quiet a → drop_sender id a = a.
Proof. intros [_ Hp]. unfold drop_sender. by rewrite Hp, lookup_empty. Qed.

(** A run that is about to wait for the process. *)
Lemma subprocess_ok receipt source text ids rest s :
  quiet s.2 → pending_rows (receipt :: rest) → decode_prompt_hex (b_prompt_hex receipt) = Some text →
  decode_token_ids_hex (b_generated_token_ids_hex receipt) = Some ids →
  let s' := (dispatch_via_subprocess receipt source text ids rest s).2 in audit_ok s'.2 ∧ rx_open s'.2.
Proof. intros Hq Hp Ht Hi. split; [|done]. by constructor. Qed.

(** What a dispatch to a trusted miner leaves. *)
Lemma stratum_ok wallet receipt source text ids s :
  quiet s.2 → au_run s.2 = None →
  let '(r, s') := dispatch_via_stratum wallet receipt source text ids s in
  au_run s'.2 = None ∧ au_trusted_wallets s'.2 = au_trusted_wallets s.2 ∧ s'.1.(w_reg) = s.1.(w_reg) ∧
  match r with
  | Ok rx => au_assignments s'.2 = {[b_request_id receipt := wallet]} ∧ au_pending s'.2 = {[b_request_id receipt := rx]}
             ∧ au_chans s'.2 !! rx = Some Open
  | Err _ => quiet s'.2
  end.
Proof.
  intros Hq Hr. unfold dispatch_via_stratum. rewrite bind_run. unfold in_world at 1, gets at 1. cbn [fst snd].
  destruct s as [w a]. cbn [fst snd] in *. destruct (MinerRegistry.get wallet (w_reg w)) as [tx|]; [|by cbn].
  cbv [own own_gets in_world net zoom net_send mbind M_bind mret M_ret forget_dispatch drop_sender].
  destruct a as [src bin dir trusted asg pend chans run]. destruct Hq as [Ha Hp]. cbn in *. subst asg pend run.
  rewrite lookup_empty. cbn. case_bool_decide; cbn; unfold constant.
  - repeat split; try done. cbn. rewrite lookup_app_r, Nat.sub_diag by done. done.
  - destruct w. rewrite lookup_insert_eq. cbn. by repeat split; cbn; rewrite delete_insert_id.
Qed.

(** [ready a]: whatever runs is well formed and has only just started. *)
Definition ready (a : B3LiteAuditor) : Prop := audit_ok a ∧ rx_open a.

Lemma ready_quiet a : au_run a = None → quiet a → ready a.
Proof. intros Hr Hq. unfold ready, audit_ok, rx_open. by rewrite Hr. Qed.

Lemma run_one_ok now receipt rest s :
  quiet s.2 → au_run s.2 = None → pending_rows (receipt :: rest) →
  let '(waits, s') := run_one now receipt rest s in ready s'.2 ∧ (waits = false → quiet s'.2 ∧ au_run s'.2 = None).
Proof.
  intros Hq Hr Hp. unfold run_one. rewrite bind_run. unfold resolve_model. destruct (ModelSource.resolve _ _ _) as [src c].
  set (s1 := (s.1, _)). assert (Hq1 : quiet s1.2) by done. assert (Hr1 : au_run s1.2 = None) by done. clearbody s1. clear s Hq Hr.
  assert (Hinc : ∀ e, ready (mark_inconclusive (b_id receipt) e s1).2.2 ∧ quiet (mark_inconclusive (b_id receipt) e s1).2.2
                      ∧ au_run (mark_inconclusive (b_id receipt) e s1).2.2 = None).
  { intros e. rewrite (same_run (mark_inconclusive (b_id receipt) e) s1 (same_mark _ e)). split_and!; [by apply ready_quiet|apply Hq1|done]. }
  assert (Hend : ∀ e, let '(waits, s') := (_ ← mark_inconclusive (b_id receipt) e; mret false) s1 in
            ready s'.2 ∧ (waits = false → quiet s'.2 ∧ au_run s'.2 = None)).
  { intros e. rewrite bind_run. specialize (Hinc e). destruct (mark_inconclusive _ _ s1) as [[] s2]. split; [apply Hinc|intros _; apply Hinc]. }
  destruct src as [source|]; [|apply Hend]. destruct (decode_prompt_hex _) as [text|] eqn:Ht; [|apply Hend].
  destruct (decode_token_ids_hex _) as [ids|] eqn:Hi; [|apply Hend]. clear Hend Hinc.
  rewrite bind_run. cbn [own_gets]. rewrite bind_run. unfold in_world at 1, gets at 1. destruct s1 as [w a]. cbn [fst snd] in *.
  destruct (pick_auditor_capable _ _ _) as [wallet|] eqn:Hw; [|by split; [apply subprocess_ok|]].
  rewrite bind_run, bind_run. pose proof (stratum_ok wallet receipt source text ids (w, a) Hq1 Hr1) as Hd.
  destruct (dispatch_via_stratum _ _ _ _ _ _) as [[rx|e] s2]; destruct Hd as (Hr2 & Ht2 & _ & Hd); [|by split; [apply subprocess_ok|]].
  cbn -[ready]. split; [|done]. destruct Hd as (Ha & Hpe & Hc).
  assert (Hpick : wallet ∈ au_trusted_wallets a ∧ wallet ≠ b_miner_wallet receipt).
  { unfold pick_auditor_capable in Hw. apply find_first_Some in Hw as [Hin Hb].
    split; [done|]. destruct (decide (wallet = b_miner_wallet receipt)) as [->|]; [|done].
    by rewrite bool_decide_true in Hb. }
  destruct Hpick as [Hin Hne]. split; [|done]. unfold audit_ok. cbn. constructor; [done..|]. cbn.
  constructor; [change (wallet ∈ au_trusted_wallets s2.2); by rewrite Ht2|done| |].
  - intros id w' Hl. change (au_assignments s2.2 !! id = Some w') in Hl. rewrite Ha in Hl. apply lookup_singleton_Some in Hl as [<- <-]. done.
  - change (au_chans _) with (au_chans s2.2). rewrite Hc. change (au_assignments _) with (au_assignments s2.2).
    rewrite Ha. split; [apply lookup_singleton_eq|done].
Qed.

Lemma run_all_ok now rows s : quiet s.2 → au_run s.2 = None → pending_rows rows → ready (run_all now rows s).2.2.
Proof.
  revert s. induction rows as [|receipt rest IH]; intros s Hq Hr Hp; [by apply ready_quiet|]. cbn [run_all]. rewrite bind_run.
  pose proof (run_one_ok now receipt rest s Hq Hr Hp) as Hone. destruct (run_one _ _ _ _) as [[] s1]; [apply Hone|].
  destruct Hone as [_ Hn]. destruct (Hn eq_refl). apply IH; [done..|]. by inversion Hp.
Qed.

(** *** Continuing it *)

Definition forgotten (id : string) (a : B3LiteAuditor) : B3LiteAuditor :=
  drop_sender id (a <| au_assignments := delete id (au_assignments a) |>).
Lemma forget_run id s : forget_dispatch id s = ((), (s.1, forgotten id s.2)).
Proof. done. Qed.

Lemma forgotten_fields id a :
  au_assignments (forgotten id a) = delete id (au_assignments a) ∧ au_pending (forgotten id a) = delete id (au_pending a)
  ∧ au_trusted_wallets (forgotten id a) = au_trusted_wallets a ∧ au_run (forgotten id a) = au_run a
  ∧ au_chans (forgotten id a) = match au_pending a !! id with Some i => <[i := SenderDropped]> (au_chans a) | None => au_chans a end.
Proof.
  destruct a as [src bin dir trusted asg pend chans run]. unfold forgotten, drop_sender. cbn. unfold constant.
  destruct (pend !! id) eqn:Hp; cbn; unfold constant; [done|]. by rewrite (delete_id pend).
Qed.

Lemma forgotten_command id a : audit_command (forgotten id a) = audit_command a.
Proof.
  destruct a as [src bin dir trusted asg pend chans run]. unfold forgotten, drop_sender. cbn. unfold constant.
  by destruct (pend !! id).
Qed.

Lemma forgotten_quiet a receipt wallet rx : verdict_awaited a receipt wallet rx → quiet (forgotten (b_request_id receipt) a).
Proof.
  intros [_ _ Ha Hc]. destruct (forgotten_fields (b_request_id receipt) a) as (E1 & E2 & _). split.
  - rewrite E1. apply map_empty. intros id. destruct (au_assignments a !! id) as [w|] eqn:Hl.
    + destruct (Ha _ _ Hl) as [-> _]. apply lookup_delete_eq.
    + rewrite lookup_delete_None. by right.
  - rewrite E2. destruct (au_chans a !! rx) as [[]|]; [|by rewrite Hc, delete_empty..|done].
    destruct Hc as [_ ->]. apply delete_singleton_eq.
Qed.

(** Forgetting any dispatch keeps the auditor well formed. *)
Lemma forgotten_ok id a : audit_ok a → audit_ok (forgotten id a).
Proof.
  destruct (forgotten_fields id a) as (E1 & E2 & E3 & E4 & E5). unfold audit_ok. rewrite E4.
  assert (Hq : quiet a → quiet (forgotten id a)) by (intros [Ha Hp]; split; [by rewrite E1, Ha, delete_empty|by rewrite E2, Hp, delete_empty]).
  destruct (au_run a) as [r|]; [|exact Hq]. intros [H1' H2' H3' Hs]. constructor; [done..|].
  destruct (run_stage r) as [wallet rx|cmd]; [|destruct Hs as [? ->]; split; [by apply Hq|by rewrite forgotten_command]].
  destruct Hs as [Ht Ho Ha Hc]. constructor; [by rewrite E3|done| |].
  - intros id' w. rewrite E1, lookup_delete_Some. intros [_ Hl]. by apply Ha.
  - rewrite E5. destruct (au_chans a !! rx) as [c|] eqn:Hrx; [|done]. destruct c as [|ps|].
    + destruct Hc as [Hc1 Hc2]. rewrite Hc2. destruct (decide (id = b_request_id (run_receipt r))) as [->|Hne].
      * rewrite lookup_singleton_eq, list_lookup_insert_eq by (by eapply lookup_lt_Some). by rewrite E2, Hc2, delete_singleton_eq.
      * rewrite lookup_singleton_ne by done. rewrite Hrx, E1, lookup_delete_ne by done. split; [done|].
        by rewrite E2, Hc2, delete_singleton_ne.
    + rewrite Hc, lookup_empty, Hrx. by rewrite E2, Hc, delete_empty.
    + rewrite Hc, lookup_empty, Hrx. by rewrite E2, Hc, delete_empty.
Qed.

Lemma conclude_run_all receipt v now rest s :
  quiet s.2 → pending_rows rest →
  ready ((_ ← set_run None; _ ← conclude receipt v; run_all now rest) s).2.2.
Proof.
  intros Hq Hp. rewrite bind_run. cbn [set_run own]. rewrite bind_run.
  pose proof (same_run (conclude receipt v) (s.1, s.2 <| au_run := None |>) (same_conclude receipt v)) as Hc.
  destruct (conclude _ _ _) as [[] s1]. cbn [fst snd] in Hc. apply run_all_ok; [by rewrite Hc|by rewrite Hc|done].
Qed.

Lemma poll_ok now elapsed s : audit_ok s.2 → (poll_verdict now elapsed s).2 = s ∨ ready (poll_verdict now elapsed s).2.2.
Proof.
  intros Hok. unfold poll_verdict. rewrite bind_run. cbn [own_gets]. unfold audit_ok in Hok.
  destruct (au_run s.2) as [[receipt source text ids [wallet rx|cmd] rest]|] eqn:Hr; [|by left..].
  destruct Hok as [Ht Hi Hp Hs]. cbn in Ht, Hi, Hp, Hs. apply Forall_cons in Hp as [Hp1 Hp2].
  rewrite bind_run. cbn [own_gets].
  assert (Hq : quiet (forgotten (b_request_id receipt) s.2)) by (by eapply forgotten_quiet).
  assert (Hsub : ready ((_ ← forget_dispatch (b_request_id receipt); dispatch_via_subprocess receipt source text ids rest) s).2.2).
  { rewrite bind_run, forget_run. apply subprocess_ok; [done|by constructor|done..]. }
  destruct (default SenderDropped _) as [|ps|] eqn:Hc.
  - destruct elapsed; [right; exact Hsub|by left].
  - right. rewrite bind_run, forget_run. by apply conclude_run_all.
  - right. exact Hsub.
Qed.

Lemma process_ok now o s : audit_ok s.2 → (process_ended now o s).2 = s ∨ ready (process_ended now o s).2.2.
Proof.
  intros Hok. unfold process_ended. rewrite bind_run. cbn [own_gets]. unfold audit_ok in Hok.
  destruct (au_run s.2) as [[receipt source text ids [wallet rx|cmd] rest]|] eqn:Hr; [by left| |by left].
  right. destruct Hok as [_ _ Hp [Hq _]]. apply conclude_run_all; [done|]. by inversion Hp.
Qed.

Lemma tick_ok now s : audit_ok s.2 → (audit_event_step (EvTick now) s).2 = s ∨ ready (audit_event_step (EvTick now) s).2.2.
Proof.
  intros Hok. cbn [audit_event_step]. rewrite bind_run. cbn [own_gets]. unfold audit_ok in Hok.
  destruct (au_run s.2) eqn:Hr; [by left|]. right. unfold audit_tick. rewrite bind_run. unfold in_world, db, zoom.
  pose proof (list_pending_rows (w_db s.1)) as Hl. destruct (list_pending_b3lite_audits (w_db s.1)) as [[rows|e] d]; cbn [snd].
  - apply run_all_ok; [done..|]. by apply Hl.
  - by apply ready_quiet.
Qed.

(** *** The handlers *)

Lemma reply_run wallet r s : au_run (handle_audit_result wallet r s).2.2 = au_run s.2.
Proof.
  unfold handle_audit_result. destruct (_ !! _); [|done]. destruct (negb _); [done|]. by destruct (au_pending s.2 !! _).
Qed.

Lemma reply_ok wallet r s : audit_ok s.2 → audit_ok (handle_audit_result wallet r s).2.2.
Proof.
  intros Hok. unfold handle_audit_result. destruct (au_assignments s.2 !! _) as [w|] eqn:Ha; [|done].
  destruct (negb _); [done|]. destruct (au_pending s.2 !! _) as [tx|] eqn:Hp; [|done].
  unfold audit_ok in *. change (au_run (_ : AuditSys).2) with (au_run s.2).
  destruct (au_run s.2) as [run|]; [|by destruct Hok as [_ Hq]; rewrite Hq, lookup_empty in Hp].
  destruct Hok as [H1' H2' H3' Hs]. constructor; [done..|].
  destruct (run_stage run) as [wl rx|cmd]; [|by destruct Hs as [[_ Hq] _]; rewrite Hq, lookup_empty in Hp].
  destruct Hs as [Ht Ho Has Hc]. constructor; [done..|]. cbn. unfold constant.
  destruct (au_chans s.2 !! rx) as [c|] eqn:Hrx; [|done].
  destruct c as [|ps|]; [|by rewrite Hc, lookup_empty in Hp..]. destruct Hc as [_ Hc].
  rewrite Hc in Hp. apply lookup_singleton_Some in Hp as [Hid <-]. rewrite list_lookup_insert_eq by (by eapply lookup_lt_Some).
  by rewrite Hc, Hid, delete_singleton_eq.
Qed.

Lemma for_each_forget ids s : ∃ a, (for_each forget_dispatch ids s).2 = (s.1, a) ∧ (audit_ok s.2 → audit_ok a) ∧ au_run a = au_run s.2
  ∧ ∀ rx ps, au_chans a !! rx = Some (Delivered ps) → au_chans s.2 !! rx = Some (Delivered ps).
Proof.
  revert s. induction ids as [|id ids IH]; intros s; [exists s.2; by destruct s|]. cbn [for_each]. rewrite bind_run, forget_run.
  destruct (IH (s.1, forgotten id s.2)) as (a & -> & Hok & Hr & Hc). cbn [fst snd] in *.
  destruct (forgotten_fields id s.2) as (_ & _ & _ & E4 & E5).
  exists a. split; [done|]. split; [intros; by apply Hok, forgotten_ok|]. split; [by rewrite Hr, E4|].
  intros rx ps Hl. apply Hc in Hl. rewrite E5 in Hl. destruct (au_pending s.2 !! id) as [j|]; [|done].
  apply list_lookup_insert_Some in Hl as [(_ & ? & _)|[_ Hl]]; done.
Qed.

Lemma disconnect_run wallet s :
  ∃ a, (on_disconnect wallet s).2 = (s.1, a) ∧ (audit_ok s.2 → audit_ok a) ∧ au_run a = au_run s.2
  ∧ ∀ rx ps, au_chans a !! rx = Some (Delivered ps) → au_chans s.2 !! rx = Some (Delivered ps).
Proof. unfold on_disconnect. rewrite bind_run. cbn [own_gets]. apply for_each_forget. Qed.

Lemma event_ok e s : audit_ok s.2 → audit_ok (audit_event_step e s).2.2.
Proof.
  intros Hok. destruct e as [now|now el|now o|wallet r|wallet|f].
  - destruct (tick_ok now s Hok) as [->|[? _]]; done.
  - cbn [audit_event_step]. destruct (poll_ok now el s Hok) as [->|[? _]]; done.
  - cbn [audit_event_step]. destruct (process_ok now o s Hok) as [->|[? _]]; done.
  - cbn [audit_event_step]. unfold ignore. rewrite bind_run. pose proof (reply_ok wallet r s Hok).
    by destruct (handle_audit_result wallet r s).
  - cbn [audit_event_step]. destruct (disconnect_run wallet s) as (a & -> & Ha & _). by apply Ha.
  - done.
Qed.

Lemma after_snoc evs e s : after (evs ++ [e]) s = (audit_event_step e (after evs s)).2.
Proof.
  unfold after. revert s. induction evs as [|e' evs IH]; intros s; cbn [app for_each]; rewrite !bind_run.
  - cbn [mret M_ret snd]. by destruct (audit_event_step e s) as [[] s1].
  - destruct (audit_event_step e' s) as [[] s1]. apply IH.
Qed.

Lemma after_ok evs s : audit_ok s.2 → audit_ok (after evs s).2.
Proof.
  intros Hok. induction evs as [|e evs IH] using rev_ind; [done|]. rewrite after_snoc. by apply event_ok.
Qed.

(** A verdict that is there was there, or has just been sent by the auditor. *)
Lemma delivered_step e s r wallet rx ps :
  audit_ok s.2 → let s' := (audit_event_step e s).2 in
  au_run s'.2 = Some r → run_stage r = AwaitingVerdict wallet rx → au_chans s'.2 !! rx = Some (Delivered ps) →
  au_run s.2 = Some r ∧
  (au_chans s.2 !! rx = Some (Delivered ps) ∨ e = EvReply wallet (mkOpoiAuditResult (b_request_id (run_receipt r)) ps)).
Proof.
  intros Hok s' Hr Hst Hc.
  assert (Hready : s' = s ∨ ready s'.2 → au_run s.2 = Some r ∧ au_chans s.2 !! rx = Some (Delivered ps)).
  { intros [Heq|[_ Ho]]; [by rewrite <-Heq|]. unfold rx_open in Ho. rewrite Hr, Hst in Ho. congruence. }
  destruct e as [now|now el|now o|w res|w|f].
  - destruct Hready as [? ?]; [by apply tick_ok|]. auto.
  - destruct Hready as [? ?]; [by apply poll_ok|]. auto.
  - destruct Hready as [? ?]; [by apply process_ok|]. auto.
  - assert (Hs' : s' = (handle_audit_result w res s).2).
    { subst s'. cbn [audit_event_step]. unfold ignore. rewrite bind_run. by destruct (handle_audit_result w res s). }
    rewrite Hs' in Hr, Hc. rewrite reply_run in Hr. split; [done|]. clear Hs' Hready s'.
    unfold handle_audit_result in Hc. destruct (au_assignments s.2 !! _) as [w'|] eqn:Ha; [|by left].
    case_bool_decide as Hw; cbn [negb] in Hc; [|by left]. destruct (au_pending s.2 !! _) as [tx|] eqn:Hp; [|by left].
    cbn in Hc. unfold constant in Hc. unfold audit_ok in Hok. rewrite Hr in Hok. destruct Hok as [_ _ _ Hs]. rewrite Hst in Hs.
    destruct Hs as [_ _ Has _]. destruct (Has _ _ Ha) as [Hid ->]. subst w.
    apply list_lookup_insert_Some in Hc as [(_ & [= <-] & _)|[_ Hc]]; [right|by left].
    rewrite <-Hid. by destruct res.
  - destruct (disconnect_run w s) as (a & Ha & _ & Hra & Hca). subst s'. cbn [audit_event_step] in *. rewrite Ha in Hr, Hc.
    cbn [snd] in Hr, Hc. split; [congruence|]. left. by apply Hca.
  - auto.
Qed.

(** *** The operator's settings never change *)

Definition same_config (s s' : AuditSys) : Prop :=
  au_trusted_wallets s'.2 = au_trusted_wallets s.2 ∧ au_cs_miner_bin s'.2 = au_cs_miner_bin s.2 ∧ au_cache_dir s'.2 = au_cache_dir s.2.
#[local] Instance same_config_preorder : PreOrder same_config.
Proof. split; [by intros s|]. intros s1 s2 s3 (?&?&?) (?&?&?). unfold same_config. split_and!; congruence. Qed.

Lemma config_auditor {A} (m : M AuditSys A) : steps same_auditor m → steps same_config m.
Proof. apply steps_weaken. intros s s' Hs. unfold same_config. by rewrite Hs. Qed.
Lemma config_own_gets {A} (f : B3LiteAuditor → A) : steps same_config (own_gets f).
Proof. by intros s. Qed.
Lemma config_set_run r : steps same_config (set_run r).
Proof. by intros s. Qed.
Lemma config_own f : (∀ a, au_trusted_wallets (f a) = au_trusted_wallets a ∧ au_cs_miner_bin (f a) = au_cs_miner_bin a ∧ au_cache_dir (f a) = au_cache_dir a)
  → steps same_config (own f).
Proof. intros Hf s. apply Hf. Qed.
Lemma config_drop id (a : B3LiteAuditor) : au_trusted_wallets (drop_sender id a) = au_trusted_wallets a
  ∧ au_cs_miner_bin (drop_sender id a) = au_cs_miner_bin a ∧ au_cache_dir (drop_sender id a) = au_cache_dir a.
Proof. unfold drop_sender. by destruct (au_pending a !! id). Qed.
Lemma config_forget id : steps same_config (forget_dispatch id).
Proof. apply config_own. intros a. destruct (config_drop id (a <| au_assignments := delete id (au_assignments a) |>)) as (-> & -> & ->). by destruct a. Qed.
Lemma config_resolve now id : steps same_config (resolve_model now id).
Proof. intros s. unfold resolve_model. by destruct (ModelSource.resolve _ _ _). Qed.
#[local] Hint Resolve config_auditor config_own_gets config_set_run config_forget config_resolve same_conclude : steps.

Lemma config_subprocess r src t ids rest : steps same_config (dispatch_via_subprocess r src t ids rest).
Proof. unfold dispatch_via_subprocess. peel. Qed.
Lemma config_stratum w r src t ids : steps same_config (dispatch_via_stratum w r src t ids).
Proof.
  unfold dispatch_via_stratum. peel; apply config_own; [done|]. intros b. destruct (config_drop (b_request_id r) b) as (<- & <- & <-). by destruct (drop_sender (b_request_id r) b).
Qed.
#[local] Hint Resolve config_subprocess config_stratum : steps.
Lemma config_run_one now r rest : steps same_config (run_one now r rest).
Proof. unfold run_one. peel. Qed.
#[local] Hint Resolve config_run_one : steps.
Lemma config_run_all now rows : steps same_config (run_all now rows).
Proof. induction rows; cbn [run_all]; peel. Qed.
#[local] Hint Resolve config_run_all : steps.
Lemma config_event e : (∀ f, e ≠ EvWorld f) → steps same_config (audit_event_step e).
Proof.
  intros Hw. destruct e as [now|now el|now o|w res|w|f]; cbn [audit_event_step]; [| | | | |by destruct (Hw f)].
  - unfold audit_tick. peel.
  - unfold poll_verdict. peel.
  - unfold process_ended. peel.
  - intros s. unfold ignore, handle_audit_result. rewrite bind_run. destruct (_ !! _); [|done]. destruct (negb _); [done|].
    by destruct (au_pending s.2 !! _).
  - unfold on_disconnect. peel.
Qed.

Lemma after_config evs s : same_config s (after evs s).
Proof.
  induction evs as [|e evs IH] using rev_ind; [done|]. rewrite after_snoc. etrans; [exact IH|].
  destruct e; try (apply config_event; congruence). by unfold same_config.
Qed.
End events.

(** ** Properties *)

Section properties.
Context `{Csd, RowOrder, Crypto, MapIter, Marketplace}.

(** Whatever happens to the auditor and to the rest of the bridge, what it
    replays is the prompt and the tokens its receipt commits to, of a sampled
    receipt that was pending; a verdict is awaited only from a trusted wallet
    other than the one under audit, by a single live dispatch; and nothing is
    left registered when no verdict is awaited. *)
Theorem audit_reachable_ok (sources : ModelSourceConfig) (bin dir : string) (trusted : list string) (w : World)
    (evs : list audit_event) :
  let s := after evs (w, new_auditor sources bin dir trusted) in
  audit_ok s.2 ∧ au_trusted_wallets s.2 = trusted.
Proof.
  split; [|apply (after_config evs (w, new_auditor sources bin dir trusted))]. by apply after_ok.
Qed.

(** C29. A verdict by stratum is authentic: when one is there to be concluded,
    the wallet the audit was dispatched to sent exactly those positions for
    exactly that request, while that very dispatch was waiting; the wallet is one
    the operator trusts and not the one under audit. *)
Theorem audit_verdict_authentic (sources : ModelSourceConfig) (bin dir : string) (trusted : list string) (w : World)
    (evs : list audit_event) (run : AuditRun) (wallet : string) (rx : nat) (positions : list AuditPositionWire) :
  let start := (w, new_auditor sources bin dir trusted) in
  let s := after evs start in
  au_run s.2 = Some run → run_stage run = AwaitingVerdict wallet rx → au_chans s.2 !! rx = Some (Delivered positions) →
  wallet ∈ trusted ∧ wallet ≠ b_miner_wallet (run_receipt run) ∧
  ∃ evs1 evs2, evs = evs1 ++ EvReply wallet (mkOpoiAuditResult (b_request_id (run_receipt run)) positions) :: evs2
    ∧ au_run (after evs1 start).2 = Some run.
Proof.
  intros start s Hr Hst Hc. assert (Hok : ∀ l, audit_ok (after l start).2) by (intros l; by apply after_ok).
  pose proof (Hok evs) as Hs. unfold audit_ok in Hs. fold s in Hs. rewrite Hr in Hs. destruct Hs as [_ _ _ Hs]. rewrite Hst in Hs.
  destruct (after_config evs start) as (Ht & _). fold s in Ht. cbn in Ht.
  split; [rewrite <-Ht; apply Hs|]. split; [apply Hs|]. clear Hs Ht. subst s. revert Hr Hc.
  induction evs as [|e evs IH] using rev_ind; intros Hr Hc; [done|]. rewrite after_snoc in Hr, Hc.
  destruct (delivered_step e (after evs start) run wallet rx positions (Hok evs) Hr Hst Hc) as [Hr' [Hc'| ->]].
  - destruct (IH Hr' Hc') as (evs1 & evs2 & -> & He). exists evs1, (evs2 ++ [e]). by rewrite <-app_assoc.
  - by exists evs, [].
Qed.
End properties.
