(* ===== verification/AuditPolicy.v ===== *)
(** * What an audit verdict does ([src/opoi/b3lite_audit.rs]: [run_one]'s end, [apply_consequence])

    The rows a verdict writes, when it ejects, that a restart restores the
    ejections, and that every pending receipt gets a verdict. *)

From S2P Require Import Pipeline B3LiteAudit.

(** ** What is to hold *)

Definition penalty (q : Consequence) : string * string * string := (q_miner_wallet q, q_request_id q, q_action q).

(** The confirmed divergences of a wallet. *)
Definition divergences (wallet : string) (d : Database) : nat :=
  length (filter (λ q, q_miner_wallet q = wallet ∧ q_action q = "WITHHOLD_PAY") (consequences d)).

(** A stored receipt: its row is there and its columns hold what they were given. *)
Definition receipt_stored (receipt : B3LiteReceipt) (d : Database) : Prop :=
  b_id receipt ∈ b_id <$> receipts d ∧ text (b_miner_wallet receipt) = Some (b_miner_wallet receipt)
  ∧ varchar 64 (b_request_id receipt) = Some (b_request_id receipt).

Definition verdict_status (v : result (list AuditPositionWire) string) : string :=
  match v with
  | Err _ => "INCONCLUSIVE"
  | Ok positions => if all_admissible positions then "ADMISSIBLE" else "DIVERGENT"
  end.
Definition divergent (v : result (list AuditPositionWire) string) : bool :=
  match v with Ok positions => negb (all_admissible positions) | Err _ => false end.

(** The third confirmed divergence, or a later one. *)
Definition ejects (wallet : string) (d : Database) : bool := (2 <=? divergences wallet d)%nat.

Definition penalties_due (receipt : B3LiteReceipt) (v : result (list AuditPositionWire) string) (d : Database)
    : list (string * string * string) :=
  let due action := (b_miner_wallet receipt, b_request_id receipt, action) in
  if divergent v then due <$> ["WITHHOLD_PAY"; "REPUTATION_FLAG"] ++ (if ejects (b_miner_wallet receipt) d then ["EJECTED"] else [])
  else [].

(** The row of the audited receipt after the verdict. *)
Definition judged (receipt : B3LiteReceipt) (status detail : string) (now : N) (b : B3LiteReceipt) : B3LiteReceipt :=
  if bool_decide (b_id b = b_id receipt)
  then b <| b_audit_status := status |> <| b_audit_detail := Some detail |> <| b_audited_at := Some now |>
  else b.

Definition verdict_detail `{Csd} (v : result (list AuditPositionWire) string) : string :=
  match v with Err e => e | Ok positions => print_json (Array (audit_position_value <$> positions)) end.

Section policy.
Context `{Csd, RowOrder, Crypto, MapIter, Marketplace}.

(** ** Lemmas *)

(** What one consequence row changes: the row, nothing else. *)
Record penalised (s s' : AuditSys) (p : string * string * string) : Prop := {
  pe_row : ∃ q, consequences (w_db s'.1) = consequences (w_db s.1) ++ [q] ∧ penalty q = p;
  pe_receipts : receipts (w_db s'.1) = receipts (w_db s.1);
  pe_submissions : submissions (w_db s'.1) = submissions (w_db s.1);
  pe_faults : faults (w_db s'.1) = [];
  pe_reg : w_reg s'.1 = w_reg s.1;
  pe_net : w_net s'.1 = w_net s.1;
  pe_auditor : s'.2 = s.2
}.

Lemma consequence_run receipt action reason s :
  faults (w_db s.1) = [] → receipt_stored receipt (w_db s.1) → varchar 24 action = Some action → text reason = Some reason →
  penalised s (consequence receipt action reason s).2 (b_miner_wallet receipt, b_request_id receipt, action).
Proof.
  intros Hf (Hin & Hw & Hr) Ha Hx. unfold consequence, ignore. rewrite bind_run. unfold in_world, db, zoom, insert_b3lite_consequence.
  rewrite exec_no_faults by done. rewrite Hw, Hr, Ha, Hx. cbn [mbind option_bind]. rewrite bool_decide_true by done.
  destruct s as [[c d r n] a]. destruct d. cbn in *. subst. constructor; cbn; eauto.
Qed.

Lemma stored_penalised receipt s s' p : penalised s s' p → receipt_stored receipt (w_db s.1) → receipt_stored receipt (w_db s'.1).
Proof. intros [] (?&?&?). unfold receipt_stored. by rewrite pe_receipts0. Qed.

Lemma reason_text receipt d : receipt_stored receipt d → text (divergence_reason receipt) = Some (divergence_reason receipt).
Proof. intros (_ & _ & Hr). apply text_app; [done|]. by eapply varchar_text. Qed.
Lemma eject_reason_text n : text (eject_reason n) = Some (eject_reason n).
Proof. unfold eject_reason. repeat apply text_app; try done; apply text_pretty_Z. Qed.

Lemma divergences_penalised wallet s s' w r a : penalised s s' (w, r, a) →
  divergences wallet (w_db s'.1) = divergences wallet (w_db s.1) + (if bool_decide (w = wallet ∧ a = "WITHHOLD_PAY") then 1 else 0).
Proof.
  intros [(q & Hq & [= <- _ <-]) _ _ _ _ _ _]. unfold divergences. rewrite Hq, filter_app, length_app. f_equal.
  case_bool_decide; [by rewrite filter_cons_True|by rewrite filter_cons_False].
Qed.

Lemma judged_run receipt status detail s :
  faults (w_db s.1) = [] → varchar 16 status = Some status → text detail = Some detail →
  let s' := (ignore (in_world (E:=B3LiteAuditor) (db (mark_b3lite_audit_result (b_id receipt) status detail))) s).2 in
  s' = (s.1 <| w_db := (w_db s.1) <| receipts := judged receipt status detail (clock (w_db s.1)) <$> receipts (w_db s.1) |> |>, s.2).
Proof.
  intros Hf Hs Ht. unfold ignore. rewrite bind_run. unfold in_world, db, zoom, mark_b3lite_audit_result.
  rewrite exec_no_faults by done. rewrite Hs, Ht. by destruct s as [[c [] r n] a].
Qed.

Lemma judged_ids receipt status detail now (l : list B3LiteReceipt) : b_id <$> (judged receipt status detail now <$> l) = b_id <$> l.
Proof. rewrite <-list_fmap_compose. apply list_fmap_ext. intros _ b _. unfold judged. cbn. by case_bool_decide. Qed.

Lemma penalised_trans s1 s2 s3 p q :
  penalised s1 s2 p → penalised s2 s3 q →
  penalty <$> consequences (w_db s3.1) = (penalty <$> consequences (w_db s1.1)) ++ [p; q].
Proof.
  intros [(x & Hx & <-) _ _ _ _ _ _] [(y & Hy & <-) _ _ _ _ _ _]. by rewrite Hy, Hx, !fmap_app, <-app_assoc.
Qed.

Lemma count_run receipt s : faults (w_db s.1) = [] → receipt_stored receipt (w_db s.1) →
  in_world (E:=B3LiteAuditor) (db (count_withhold_consequences (b_miner_wallet receipt))) s
  = (Ok (Z.of_nat (divergences (b_miner_wallet receipt) (w_db s.1))), s).
Proof.
  intros Hf (_ & Hw & _). unfold in_world, db, zoom, count_withhold_consequences.
  rewrite exec_no_faults by done. rewrite Hw. by destruct s as [[] a].
Qed.
Lemma reg_run f (s : AuditSys) : in_world (reg f) s = ((), (s.1 <| w_reg := f (w_reg s.1) |>, s.2)).
Proof. done. Qed.

Lemma eject_threshold n : (EJECT_AFTER_DIVERGENCES <=? Z.of_nat (S n))%Z = (2 <=? n)%nat.
Proof.
  unfold EJECT_AFTER_DIVERGENCES. destruct (Nat.leb_spec 2 n); [apply Z.leb_le|apply Z.leb_gt]; lia.
Qed.

(** The penalties of a confirmed divergence. *)
Lemma apply_run receipt s :
  faults (w_db s.1) = [] → receipt_stored receipt (w_db s.1) →
  let s' := (apply_consequence receipt s).2 in
  let due action := (b_miner_wallet receipt, b_request_id receipt, action) in
  let out := ejects (b_miner_wallet receipt) (w_db s.1) in
  penalty <$> consequences (w_db s'.1)
    = (penalty <$> consequences (w_db s.1)) ++ (due <$> ["WITHHOLD_PAY"; "REPUTATION_FLAG"] ++ (if out then ["EJECTED"] else []))
  ∧ receipts (w_db s'.1) = receipts (w_db s.1) ∧ submissions (w_db s'.1) = submissions (w_db s.1)
  ∧ w_reg s'.1 = (if out then ban (b_miner_wallet receipt) (w_reg s.1) else w_reg s.1) ∧ w_net s'.1 = w_net s.1 ∧ s'.2 = s.2
  ∧ faults (w_db s'.1) = [].
Proof.
  intros Hf Hst s' due out. subst s'. unfold apply_consequence.
  pose proof (consequence_run receipt "WITHHOLD_PAY" _ s Hf Hst eq_refl (reason_text _ _ Hst)) as P1.
  rewrite bind_run. destruct (consequence _ "WITHHOLD_PAY" _ s) as [[] s1]. cbn [snd] in P1.
  pose proof (stored_penalised _ _ _ _ P1 Hst) as Hst1.
  pose proof (consequence_run receipt "REPUTATION_FLAG" _ s1 (pe_faults _ _ _ P1) Hst1 eq_refl (reason_text _ _ Hst1)) as P2.
  rewrite bind_run. destruct (consequence _ "REPUTATION_FLAG" _ s1) as [[] s2]. cbn [snd] in P2.
  pose proof (stored_penalised _ _ _ _ P2 Hst1) as Hst2. set (w := b_miner_wallet receipt) in *.
  assert (Hd : divergences w (w_db s2.1) = S (divergences w (w_db s.1))).
  { rewrite (divergences_penalised w _ _ _ _ _ P2), (divergences_penalised w _ _ _ _ _ P1).
    rewrite (bool_decide_false (w = w ∧ "REPUTATION_FLAG" = _)) by (by intros [_ ?]). rewrite bool_decide_true by done. lia. }
  rewrite bind_run. pose proof (count_run receipt s2 (pe_faults _ _ _ P2) Hst2) as Hcount. fold w in Hcount. rewrite Hcount, Hd.
  pose proof (penalised_trans _ _ _ _ _ P1 P2) as Hpen. subst out. unfold ejects.
  rewrite (eject_threshold (divergences w (w_db s.1))).
  destruct (2 <=? divergences w (w_db s.1))%nat.
  - rewrite bind_run, reg_run. set (s3 := (_, s2.2)).
    assert (Es : w_db s3.1 = w_db s2.1 ∧ w_reg s3.1 = ban w (w_reg s2.1) ∧ w_net s3.1 = w_net s2.1 ∧ s3.2 = s2.2)
      by (subst s3; by destruct s2 as [[] ?]).
    clearbody s3. destruct Es as (Es1 & Es2 & Es3 & Es4).
    assert (Hst3 : receipt_stored receipt (w_db s3.1)) by (by rewrite Es1).
    assert (Hf3 : faults (w_db s3.1) = []) by (rewrite Es1; apply P2).
    pose proof (consequence_run receipt "EJECTED" _ s3 Hf3 Hst3 eq_refl (eject_reason_text (Z.of_nat (S (divergences w (w_db s.1)))))) as P3.
    destruct (consequence _ "EJECTED" _ s3) as [[] s4]. cbn [snd] in *. destruct P3 as [(q & Hq & Hpq) E1 E2 E3 E4 E5 E6].
    rewrite Hq, fmap_app. change (penalty <$> [q]) with [penalty q]. rewrite Hpq, E1, E2, E3, E4, E5, E6, Es1, Es2, Es3, Es4, Hpen, <-app_assoc. destruct P1, P2.
    split_and!; (done || congruence).
  - destruct P1, P2. cbn [mret M_ret snd] in *. split_and!; (done || congruence || exact Hpen).
Qed.
(** The row marked, the penalties written. *)
Lemma divergent_run receipt positions s :
  faults (w_db s.1) = [] → receipt_stored receipt (w_db s.1) →
  text (verdict_detail (Ok positions)) = Some (verdict_detail (Ok positions)) → all_admissible positions = false →
  let s' := (conclude receipt (Ok positions) s).2 in
  let d := w_db s.1 in
  let w := b_miner_wallet receipt in
  receipts (w_db s'.1) = judged receipt "DIVERGENT" (verdict_detail (Ok positions)) (clock d) <$> receipts d
  ∧ penalty <$> consequences (w_db s'.1) = (penalty <$> consequences d) ++ penalties_due receipt (Ok positions) d
  ∧ w_reg s'.1 = (if ejects w d then ban w (w_reg s.1) else w_reg s.1)
  ∧ submissions (w_db s'.1) = submissions d ∧ w_net s'.1 = w_net s.1 ∧ s'.2 = s.2.
Proof.
  intros Hf Hst Ht Ha s' d w. subst s'. pose proof (judged_run receipt "DIVERGENT" _ s Hf eq_refl Ht) as Hj. cbv zeta in Hj.
  unfold conclude. rewrite bind_run, Ha. fold (verdict_detail (Ok positions)). destruct (ignore _ s) as [[] s1].
  cbn [snd] in Hj. assert (E : receipts (w_db s1.1) = judged receipt "DIVERGENT" (verdict_detail (Ok positions)) (clock d) <$> receipts d
    ∧ consequences (w_db s1.1) = consequences d ∧ w_reg s1.1 = w_reg s.1 ∧ submissions (w_db s1.1) = submissions d
    ∧ w_net s1.1 = w_net s.1 ∧ s1.2 = s.2 ∧ faults (w_db s1.1) = []) by (subst s1 d; by destruct s as [[? [] ? ?] ?]).
  clear Hj. destruct E as (E1 & E2 & E3 & E4 & E5 & E6 & E7).
  assert (Hst1 : receipt_stored receipt (w_db s1.1)).
  { destruct Hst as (Hin & Hw & Hr). unfold receipt_stored. rewrite E1. split; [|done]. by rewrite judged_ids. }
  destruct (apply_run receipt s1 E7 Hst1) as (A1 & A2 & A3 & A4 & A5 & A6 & _). cbv zeta in *.
  assert (Hej : ejects w (w_db s1.1) = ejects w d) by (unfold ejects, divergences; by rewrite E2).
  rewrite A1, A2, A3, A4, A5, A6. fold w. rewrite Hej, E1, E2, E3, E4, E5, E6.
  unfold penalties_due, divergent. by rewrite Ha.
Qed.

(** *** Withheld and ejected *)

Lemma withheld_penalty w r d : (w, r, "WITHHOLD_PAY") ∈ penalty <$> consequences d → r ∈ withheld d.
Proof.
  intros (q & [= -> -> Ha] & Hq)%list_elem_of_fmap. unfold withheld. apply list_elem_of_fmap. exists q. split; [done|].
  by apply list_elem_of_filter.
Qed.

Lemma db_steps_keep d d' : rtc db_step d d' → kept_consequences d d'.
Proof. induction 1 as [d|d1 d2 d3 H1' _ IH]; [by apply kept_same|]. eapply kept_trans; [by apply db_step_keeps|done]. Qed.

Lemma list_unpaid_rows d rows : (list_unpaid_published d).1 = Ok rows → Forall (λ sub, s_request_id sub ∉ withheld d) rows.
Proof.
  intros Hl. unfold list_unpaid_published in Hl. match type of Hl with context [select ?q d] => destruct (select_outcome q d) as (fs & _ & Hok) end.
  rewrite (Hok _ Hl). apply Forall_forall. intros sub [(_ & _ & Hs) _]%list_elem_of_filter. exact Hs.
Qed.

(** *** The bans *)

Lemma registry_step_banned w r r' : registry_step r r' → w ∈ banned r → w ∈ banned r'.
Proof.
  destruct 1; unfold mark_draft_capable, mark_auditor_capable, mark_expert_capable;
    try destruct (contains_key _ _); cbn; set_solver.
Qed.

Definition never_picked (w : string) (r : MinerRegistry) : Prop :=
  (∀ last, pick_next last r ≠ Some w) ∧ (∀ last, pick_draft_capable last r ≠ Some w)
  ∧ (∀ trusted excl, pick_auditor_capable trusted excl r ≠ Some w) ∧ (∀ min excl n, w ∉ pick_expert_hosts_top_n min excl n r).

Lemma banned_never_picked w r : w ∈ banned r → never_picked w r.
Proof.
  intros Hw. assert (Hb : bool_decide (w ∈ banned r) = true) by (by apply bool_decide_true). split_and!.
  - intros last. rewrite pick_next_eq. intros [_ Hp]%find_first_Some. by rewrite Hb in Hp.
  - intros last. unfold pick_draft_capable. destruct (inner r) as [|x l]; [done|]. destruct (bool_decide (draft_capable r = ∅)); [done|].
    rewrite round_robin_rotation. intros [_ Hp]%find_first_Some. rewrite Hb in Hp. by rewrite andb_false_r in Hp.
  - intros trusted excl. unfold pick_auditor_capable. intros [_ Hp]%find_first_Some. rewrite Hb in Hp. by rewrite andb_false_r in Hp.
  - intros min excl n. unfold pick_expert_hosts_top_n. destruct n as [|n]; [by apply not_elem_of_nil|].
    intros ([w' v] & -> & Hin)%list_elem_of_fmap. apply elem_of_take in Hin as (j & Hin & _).
    apply list_elem_of_lookup_2 in Hin. rewrite stable_sort_perm in Hin. apply list_elem_of_filter in Hin as [Hel _].
    apply expert_eligible_spec in Hel as (_ & _ & Hn & _). by apply Hn.
Qed.

Lemma for_each_ban ws w : let w' := (for_each (λ x, reg (ban x)) ws w).2 in
  w_db w' = w_db w ∧ w_csd w' = w_csd w ∧ w_net w' = w_net w ∧ inner (w_reg w') = inner (w_reg w)
  ∧ ∀ x, x ∈ banned (w_reg w') ↔ x ∈ ws ∨ x ∈ banned (w_reg w).
Proof.
  revert w. induction ws as [|x ws IH]; intros w; [by split_and!; [..|set_solver]|]. cbn [for_each]. rewrite bind_run.
  cbn [reg modify]. destruct (IH (w <| w_reg := ban x (w_reg w) |>)) as (E1 & E2 & E3 & E4 & E5). cbv zeta in *.
  rewrite E1, E2, E3, E4. destruct w as [c d r n]. split_and!; [done..|]. intros y. rewrite E5. cbn. set_solver.
Qed.

(** The startup pass bans exactly the ejected wallets, on top of the bans there. *)
Lemma restore_bans_run w : faults (w_db w) = [] → let w' := (restore_bans w).2 in
  w_db w' = w_db w ∧ ∀ x, x ∈ banned (w_reg w') ↔ x ∈ banned (w_reg w) ∨ ∃ r, (x, r, "EJECTED") ∈ penalty <$> consequences (w_db w).
Proof.
  intros Hf. unfold restore_bans. rewrite bind_run. unfold db, zoom, list_ejected_wallets, select.
  rewrite exec_no_faults by done. set (ws := row_order _). set (w0 := w <| w_db := w_db w |>).
  assert (w0 = w) as -> by (by destruct w). destruct (for_each_ban ws w) as (E1 & _ & _ & _ & E5). cbv zeta in *.
  split; [done|]. intros x. rewrite E5. subst ws. rewrite row_order_perm, elem_of_remove_dups.
  rewrite (comm or). f_equiv. split.
  - intros (q & -> & [Ha Hq]%list_elem_of_filter)%list_elem_of_fmap. exists (q_request_id q). apply list_elem_of_fmap.
    exists q. split; [|done]. unfold penalty. by rewrite Ha.
  - intros (r & (q & [= -> _ Ha] & Hq)%list_elem_of_fmap). apply list_elem_of_fmap. exists q. split; [done|].
    by apply list_elem_of_filter.
Qed.
End policy.

(** ** Every pending receipt gets a verdict *)

Section settling.
Context `{Csd, RowOrder, Crypto, MapIter, Marketplace}.
(** How the local process ends on each command. *)
Context (answers : AuditCommand → process_outcome).

(** The wait of the current run ends: the verdict's time elapses, or the process ends. *)
Definition advance (now : N) (s : AuditSys) : AuditSys :=
  match au_run s.2 with
  | None => s
  | Some r =>
    match run_stage r with
    | AwaitingVerdict _ _ => (poll_verdict now true s).2
    | AwaitingProcess cmd => (process_ended now (answers cmd) s).2
    end
  end.

Definition rows_left (a : B3LiteAuditor) : list B3LiteReceipt :=
  match au_run a with Some r => run_receipt r :: run_rest r | None => [] end.
(** How many waits are left at most. *)
Definition waits_left (a : B3LiteAuditor) : nat :=
  match au_run a with
  | None => 0
  | Some r => 2 * length (run_rest r) + match run_stage r with AwaitingVerdict _ _ => 2 | AwaitingProcess _ => 1 end
  end.

(** The receipts still pending are among [rows]. *)
Definition pending_among (rows : list B3LiteReceipt) (d : Database) : Prop :=
  ∀ b, b ∈ receipts d → b_sampled b = true → b_audit_status b = "PENDING" → b_id b ∈ b_id <$> rows.

Definition calm (s s' : AuditSys) : Prop :=
  faults (w_db s.1) = [] → faults (w_db s'.1) = [] ∧ receipts (w_db s'.1) = receipts (w_db s.1).
#[local] Instance calm_preorder : PreOrder calm.
Proof.
  split; [by intros s|]. intros s1 s2 s3 H12 H23 Hf. destruct (H12 Hf) as [Hf2 <-]. by apply H23.
Qed.

Definition settling (rows : list B3LiteReceipt) (s : AuditSys) : Prop := faults (w_db s.1) = [] ∧ pending_among rows (w_db s.1).

Lemma calm_settling rows s s' : calm s s' → settling rows s → settling rows s'.
Proof. intros Hc [Hf Hp]. destruct (Hc Hf) as [Hf' Hr]. split; [done|]. unfold pending_among. by rewrite Hr. Qed.

Lemma calm_own f : steps calm (own f).
Proof. by intros s. Qed.
Lemma calm_own_gets {A} (f : B3LiteAuditor → A) : steps calm (own_gets f).
Proof. by intros s. Qed.
Lemma calm_gets {A} (f : World → A) : steps calm (in_world (gets f)).
Proof. by intros s. Qed.
Lemma calm_reg f : steps calm (in_world (reg f)).
Proof. by intros [[] a]. Qed.
Lemma calm_net {A} (m : M Net A) : steps calm (in_world (net m)).
Proof. intros [[c d r n] a]. unfold in_world, net, zoom. cbn. by destruct (m n). Qed.
Lemma calm_set_run r : steps calm (set_run r).
Proof. apply calm_own. Qed.
Lemma calm_resolve now id : steps calm (resolve_model now id).
Proof. intros s. unfold resolve_model. by destruct (ModelSource.resolve _ _ _). Qed.
Lemma calm_forget id : steps calm (forget_dispatch id).
Proof. apply calm_own. Qed.
Lemma calm_db {A} (op : Database → option (A * Database)) :
  (∀ d a d', op d = Some (a, d') → faults d' = faults d ∧ receipts d' = receipts d) → steps calm (in_world (db (exec op))).
Proof.
  intros Hop [[c d r n] a] Hf. cbn in Hf. unfold in_world, db, zoom. cbn. rewrite exec_no_faults by done.
  destruct (op d) as [[x d']|] eqn:E; [|done]. destruct (Hop _ _ _ E) as [E1 E2]. cbn. unfold constant. by rewrite E1, E2.
Qed.
#[local] Hint Resolve calm_own calm_own_gets calm_gets calm_reg calm_net calm_set_run calm_resolve calm_forget : steps.

Lemma calm_consequence r a x : steps calm (consequence r a x).
Proof.
  unfold consequence. apply steps_ignore; [typeclasses eauto|]. apply calm_db. intros d u d' Hop.
  apply bind_Some in Hop as (? & _ & Hop). apply bind_Some in Hop as (? & _ & Hop).
  apply bind_Some in Hop as (? & _ & Hop). apply bind_Some in Hop as (? & _ & Hop).
  destruct (bool_decide _); [|done]. by injection Hop as _ <-.
Qed.
Lemma calm_count w : steps calm (in_world (db (count_withhold_consequences w))).
Proof. apply calm_db. intros d n d' Hop. apply bind_Some in Hop as (? & _ & Hop). by injection Hop as _ <-. Qed.
#[local] Hint Resolve calm_consequence calm_count : steps.
Lemma calm_apply r : steps calm (apply_consequence r).
Proof. unfold apply_consequence. peel. Qed.
Lemma calm_subprocess r src t ids rest : steps calm (dispatch_via_subprocess r src t ids rest).
Proof. unfold dispatch_via_subprocess. peel. Qed.
Lemma calm_stratum w r src t ids : steps calm (dispatch_via_stratum w r src t ids).
Proof. unfold dispatch_via_stratum. peel. Qed.

Lemma mark_settling receipt status detail rows s :
  settling (receipt :: rows) s → varchar 16 status = Some status → text detail = Some detail → status ≠ "PENDING" →
  settling rows (ignore (in_world (E:=B3LiteAuditor) (db (mark_b3lite_audit_result (b_id receipt) status detail))) s).2.
Proof.
  intros [Hf Hp] Hs Ht Hne. rewrite (judged_run receipt status detail s Hf Hs Ht). destruct s as [[c d r n] a].
  split; [by destruct d|]. intros b Hb Hsam Hst. assert (Hb' : b ∈ judged receipt status detail (clock d) <$> receipts d) by (by destruct d).
  apply list_elem_of_fmap in Hb' as (b' & -> & Hb'). unfold judged in *. case_bool_decide as Hid; [by destruct b'|].
  specialize (Hp b' Hb' Hsam Hst). rewrite fmap_cons, elem_of_cons in Hp. by destruct Hp.
Qed.

Lemma conclude_settling receipt v rows s :
  settling (receipt :: rows) s → text (verdict_detail v) = Some (verdict_detail v) → settling rows (conclude receipt v s).2.
Proof.
  intros Hs Ht. unfold conclude, mark_inconclusive. destruct v as [positions|e]; [|by apply mark_settling].
  rewrite bind_run. set (status := if all_admissible positions then _ else _).
  assert (Hstat : varchar 16 status = Some status ∧ status ≠ "PENDING") by (subst status; by destruct (all_admissible _)).
  pose proof (mark_settling receipt status _ rows s Hs (proj1 Hstat) Ht (proj2 Hstat)) as Hm. cbn [verdict_detail] in Hm.
  destruct (ignore _ s) as [[] s1]. destruct (all_admissible positions); [done|]. eapply calm_settling; [apply calm_apply|done].
Qed.

Lemma run_one_settling now receipt rest s :
  settling (receipt :: rest) s → au_run s.2 = None →
  let '(waits, s') := run_one now receipt rest s in
  if waits then settling (receipt :: rest) s' ∧ rows_left s'.2 = receipt :: rest ∧ waits_left s'.2 ≤ 2 * S (length rest)
  else settling rest s' ∧ au_run s'.2 = None.
Proof.
  intros Hs Hr. unfold run_one. rewrite bind_run.
  assert (Hr1 : au_run (resolve_model now (b_model_id receipt) s).2.2 = None) by (unfold resolve_model; by destruct (ModelSource.resolve _ _ _)).
  pose proof (calm_settling _ _ _ (calm_resolve now (b_model_id receipt) s) Hs) as Hs1.
  destruct (resolve_model _ _ s) as [src s1]. cbn [snd] in Hr1, Hs1. clear s Hs Hr.
  assert (Hinc : ∀ e, text e = Some e → let '(waits, s') := (_ ← mark_inconclusive (b_id receipt) e; mret false) s1 in
            if waits then settling (receipt :: rest) s' ∧ rows_left s'.2 = receipt :: rest ∧ waits_left s'.2 ≤ 2 * S (length rest)
            else settling rest s' ∧ au_run s'.2 = None).
  { intros e He. rewrite bind_run. pose proof (mark_settling receipt "INCONCLUSIVE" e rest s1 Hs1 eq_refl He ltac:(done)) as Hm.
    pose proof (same_run _ s1 (same_mark (b_id receipt) e)) as Hsame. fold (mark_inconclusive (b_id receipt) e) in Hm.
    destruct (mark_inconclusive _ _ s1) as [[] s2]. cbn in *. by rewrite Hsame. }
  destruct src as [source|]; [|by apply Hinc]. destruct (decode_prompt_hex _) as [text|]; [|by apply Hinc].
  destruct (decode_token_ids_hex _) as [ids|]; [|by apply Hinc]. clear Hinc.
  assert (Hsub : ∀ s2, settling (receipt :: rest) s2 → let s' := (dispatch_via_subprocess receipt source text ids rest s2).2 in
            settling (receipt :: rest) s' ∧ rows_left s'.2 = receipt :: rest ∧ waits_left s'.2 ≤ 2 * S (length rest)).
  { intros s2 Hs2. split; [exact Hs2|]. split; [done|]. change (2 * length rest + 1 ≤ 2 * S (length rest)). lia. }
  rewrite bind_run. cbn [own_gets]. rewrite bind_run. cbn [in_world gets fst snd]. destruct s1 as [w a]. cbn [fst snd] in *.
  destruct (pick_auditor_capable _ _ _) as [wallet|]; [|by apply Hsub]. rewrite bind_run, bind_run.
  pose proof (calm_settling _ _ _ (calm_stratum wallet receipt source text ids (w, a)) Hs1) as Hs2.
  destruct (dispatch_via_stratum _ _ _ _ _ _) as [[rx|e] s2]; [|by apply Hsub]. cbn [snd] in Hs2.
  split; [exact Hs2|]. split; [done|]. change (2 * length rest + 2 ≤ 2 * S (length rest)). lia.
Qed.

Lemma run_all_settling now rows s :
  settling rows s → au_run s.2 = None →
  let s' := (run_all now rows s).2 in settling (rows_left s'.2) s' ∧ waits_left s'.2 ≤ 2 * length rows.
Proof.
  revert s. induction rows as [|receipt rest IH]; intros s Hs Hr; cbn [run_all].
  - cbn. unfold rows_left, waits_left. rewrite Hr. by split.
  - rewrite bind_run. pose proof (run_one_settling now receipt rest s Hs Hr) as Hone.
    destruct (run_one _ _ _ _) as [[] s1]; cbn beta iota zeta in *.
    + destruct Hone as (Hs1 & Hl & Hw). cbn [mret M_ret snd]. by rewrite Hl.
    + destruct Hone as [Hs1 Hr1]. destruct (IH s1 Hs1 Hr1) as [? ?]. split; [done|]. cbn [length]. lia.
Qed.

(** JSON text and the process's messages have no NUL byte. *)
Context (json_text : ∀ v, text (print_json v) = Some (print_json v)).
Context (error_text : ∀ cmd e, subprocess_verdict (cmd_bin cmd) (answers cmd) = Err e → text e = Some e).

Lemma conclude_then_settling now receipt v rest s :
  settling (receipt :: rest) s → text (verdict_detail v) = Some (verdict_detail v) →
  let s' := (_ ← set_run None; _ ← conclude receipt v; run_all now rest) s in
  settling (rows_left s'.2.2) s'.2 ∧ waits_left s'.2.2 ≤ 2 * length rest.
Proof.
  intros Hs Ht. rewrite bind_run. cbn [set_run own]. rewrite bind_run. set (s1 := (s.1, _)).
  pose proof (conclude_settling receipt v rest s1 Hs Ht) as Hc. pose proof (same_run _ s1 (same_conclude receipt v)) as Hr.
  destruct (conclude receipt v s1) as [[] s2]. cbn [snd] in *. apply run_all_settling; [done|]. by rewrite Hr.
Qed.

Lemma advance_settling now s :
  settling (rows_left s.2) s → au_run s.2 ≠ None →
  settling (rows_left (advance now s).2) (advance now s) ∧ waits_left (advance now s).2 < waits_left s.2.
Proof.
  intros Hs Hr. unfold advance, rows_left, waits_left in *.
  destruct (au_run s.2) as [[receipt source prompt ids stage rest]|] eqn:E; [|done]. cbn [run_receipt run_rest run_stage] in *.
  assert (Hv : ∀ v, text (verdict_detail v) = Some (verdict_detail v) →
     let s' := (_ ← set_run None; _ ← conclude receipt v; run_all now rest) s in
     settling (rows_left s'.2.2) s'.2 ∧ waits_left s'.2.2 ≤ 2 * length rest) by (intros v; by apply conclude_then_settling).
  destruct stage as [wallet rx|cmd].
  - unfold poll_verdict. rewrite bind_run. cbn [own_gets]. rewrite E, bind_run. cbn [own_gets].
    pose proof (calm_settling _ _ _ (calm_forget (b_request_id receipt) s) Hs) as Hs1. rewrite forget_run in Hs1.
    destruct (default SenderDropped _) as [|positions|]; rewrite bind_run, forget_run.
    + split; [exact Hs1|]. change (2 * length rest + 1 < 2 * length rest + 2). lia.
    + destruct (conclude_then_settling now receipt (Ok positions) rest (s.1, forgotten (b_request_id receipt) s.2) Hs1 (json_text _)).
      split; [done|]. unfold waits_left in *. lia.
    + split; [exact Hs1|]. change (2 * length rest + 1 < 2 * length rest + 2). lia.
  - unfold process_ended. rewrite bind_run. cbn [own_gets]. rewrite E.
    assert (Ht : text (verdict_detail (subprocess_verdict (cmd_bin cmd) (answers cmd))) = Some (verdict_detail (subprocess_verdict (cmd_bin cmd) (answers cmd)))).
    { destruct (subprocess_verdict _ _) as [positions|e] eqn:Ev; [apply json_text|by eapply error_text]. }
    destruct (Hv _ Ht). split; [done|]. unfold waits_left in *. lia.
Qed.

Lemma iter_advance_settling now n s :
  settling (rows_left s.2) s → waits_left s.2 ≤ n →
  let s' := Nat.iter n (advance now) s in au_run s'.2 = None ∧ settling [] s'.
Proof.
  revert s. induction n as [|n IH]; intros s Hs Hw; rewrite ?Nat.iter_succ_r.
  - cbn. unfold waits_left, rows_left in *. destruct (au_run s.2) as [r|]; [|done]. destruct (run_stage r); lia.
  - destruct (au_run s.2) as [r|] eqn:E.
    + destruct (advance_settling now s Hs) as [Hs' Hlt]; [by rewrite E|]. apply IH; [done|lia].
    + assert (advance now s = s) as -> by (unfold advance; by rewrite E). apply IH; [done|]. unfold waits_left. rewrite E. lia.
Qed.

Lemma tick_settling now s :
  faults (w_db s.1) = [] → au_run s.2 = None →
  let s' := (audit_tick now s).2 in
  settling (rows_left s'.2) s' ∧ waits_left s'.2 ≤ 2 * length (filter (λ b, b_sampled b = true ∧ b_audit_status b = "PENDING") (receipts (w_db s.1))).
Proof.
  intros Hf Hr. unfold audit_tick. rewrite bind_run. unfold in_world, db, zoom, list_pending_b3lite_audits, select.
  rewrite exec_no_faults by done. set (rows := row_order _). assert (Hrows : rows ≡ₚ filter (λ b, b_sampled b = true ∧ b_audit_status b = "PENDING") (receipts (w_db s.1)))
    by apply row_order_perm. set (s1 := (_, s.2)). assert (Hs1 : s1 = s) by (by destruct s as [[] a]). rewrite Hs1. clear s1 Hs1.
  rewrite <-Hrows. apply run_all_settling; [|done]. split; [done|]. intros b Hb Hsam Hst. rewrite Hrows. apply list_elem_of_fmap_2.
  by apply list_elem_of_filter.
Qed.
End settling.

(** ** Samples *)

Definition sample_receipt : B3LiteReceipt :=
  mkB3LiteReceipt 1 "req" "bob" "M" "sha" None "6869" "rh" "01000000" 2 "sig" true "PENDING" None 0 None.
Definition sample_db (fs : list fault) : Database :=
  (empty_db fs) <| receipts := [sample_receipt] |> <| next_id := 2%N |>.
Definition sample_world (fs : list fault) (r : MinerRegistry) : World :=
  mkWorld [] (sample_db fs) r (mkNet {[7%N]} []).
Definition sample_auditor : B3LiteAuditor :=
  new_auditor (mkModelSources {["M" := mkModelSource "gguf" "tok" "tsha"]} None) "cs-miner" "cache" ["ada"].
(** [ada] is connected and announced the auditor capability. *)
Definition sample_registry : MinerRegistry := mark_auditor_capable "ada" (register "ada" 7%N new_registry).
Definition verdict_json (ok : bool) : Value :=
  Object [("positions", Array [Object [("step", u 0); ("committed_token_id", u 1); ("auditor_token_id", u 2); ("admissible", Bool ok)]])].
Definition bad_position : AuditPositionWire := mkAuditPositionWire 0 1 2 false.

(** Two divergences on record, of other receipts of the same wallet. *)
Definition two_strikes : list Consequence :=
  [mkConsequence 3 1 "bob" "r1" "WITHHOLD_PAY" ""; mkConsequence 4 1 "bob" "r2" "WITHHOLD_PAY" ""].
Definition struck_world : World := (sample_world [] sample_registry) <| w_db := (sample_db []) <| consequences := two_strikes |> |>.

(** ** Properties *)

Section properties.
Context `{Csd, RowOrder, Crypto, MapIter, Marketplace}.

(** C28. What a verdict does, on every branch: the receipt's row gets the status
    and the detail, an inconclusive or admissible verdict changes nothing else,
    and a divergent one withholds the pay, flags the wallet and, from the third
    confirmed divergence on, ejects it: exactly these rows, and the ban exactly
    then. *)
Theorem conclude_spec (receipt : B3LiteReceipt) (v : result (list AuditPositionWire) string) (s : AuditSys)
    (Hf : faults (w_db s.1) = []) (Hst : receipt_stored receipt (w_db s.1)) (Ht : text (verdict_detail v) = Some (verdict_detail v)) :
  let s' := (conclude receipt v s).2 in
  let d := w_db s.1 in
  let w := b_miner_wallet receipt in
  receipts (w_db s'.1) = judged receipt (verdict_status v) (verdict_detail v) (clock d) <$> receipts d
  ∧ penalty <$> consequences (w_db s'.1) = (penalty <$> consequences d) ++ penalties_due receipt v d
  ∧ w_reg s'.1 = (if divergent v && ejects w d then ban w (w_reg s.1) else w_reg s.1)
  ∧ submissions (w_db s'.1) = submissions d ∧ w_net s'.1 = w_net s.1 ∧ s'.2 = s.2.
Proof.
  intros s' d w. subst s'. destruct v as [positions|e]; [destruct (all_admissible positions) eqn:Ha|].
  - pose proof (judged_run receipt "ADMISSIBLE" _ s Hf eq_refl Ht) as Hj. cbv zeta in Hj.
    unfold conclude, penalties_due, divergent, verdict_status. rewrite bind_run, Ha. fold (verdict_detail (Ok positions)).
    destruct (ignore _ s) as [[] s1]. cbn [snd] in Hj. subst s1 d. cbn [mret M_ret snd negb andb]. rewrite app_nil_r.
    by destruct s as [[? [] ? ?] ?].
  - pose proof (divergent_run receipt positions s Hf Hst Ht Ha) as Hd. cbv zeta in Hd. unfold divergent, verdict_status. by rewrite Ha.
  - pose proof (judged_run receipt "INCONCLUSIVE" _ s Hf eq_refl Ht) as Hj. cbv zeta in Hj.
    unfold conclude, mark_inconclusive, penalties_due, divergent, verdict_status.
    change (ignore _ s) with (ignore (in_world (E:=B3LiteAuditor) (db (mark_b3lite_audit_result (b_id receipt) "INCONCLUSIVE" (verdict_detail (Err e))))) s).
    rewrite Hj. subst d. cbn [negb andb]. rewrite app_nil_r. by destruct s as [[? [] ? ?] ?].
Qed.


(** A confirmed divergence costs the pay for good: whatever the bridge writes
    afterwards, no payout query returns a submission of that request. *)
Theorem divergent_never_paid (receipt : B3LiteReceipt) (positions : list AuditPositionWire) (s : AuditSys) (later : Database)
    (rows : list Submission) :
  faults (w_db s.1) = [] → receipt_stored receipt (w_db s.1) → text (verdict_detail (Ok positions)) = Some (verdict_detail (Ok positions)) →
  all_admissible positions = false → rtc db_step (w_db (conclude receipt (Ok positions) s).2.1) later →
  (list_unpaid_published later).1 = Ok rows → Forall (λ sub, s_request_id sub ≠ b_request_id receipt) rows.
Proof.
  intros Hf Hst Ht Ha Hlater Hrows. destruct (divergent_run receipt positions s Hf Hst Ht Ha) as (_ & Hpen & _). cbv zeta in Hpen.
  apply db_steps_keep in Hlater as [l Hl]. assert (Hw : b_request_id receipt ∈ withheld later).
  { unfold withheld. apply (withheld_penalty (b_miner_wallet receipt)). rewrite Hl, fmap_app, Hpen.
    unfold penalties_due, divergent. rewrite Ha. set_solver. }
  apply list_unpaid_rows in Hrows. eapply Forall_impl; [exact Hrows|]. intros sub Hsub Heq. apply Hsub. cbv beta. by rewrite Heq.
Qed.

(** C31. An ejection survives restarts: once the third divergence ejected a wallet,
    a bridge that restarts on any later database, with an empty or any other
    registry, bans it before serving, and no pick ever returns it, whatever
    connects, leaves or announces afterwards. *)
Theorem ejection_survives_restart (receipt : B3LiteReceipt) (positions : list AuditPositionWire) (s : AuditSys) (restarted : World)
    (r : MinerRegistry) :
  faults (w_db s.1) = [] → receipt_stored receipt (w_db s.1) → text (verdict_detail (Ok positions)) = Some (verdict_detail (Ok positions)) →
  all_admissible positions = false → 2 ≤ divergences (b_miner_wallet receipt) (w_db s.1) →
  rtc db_step (w_db (conclude receipt (Ok positions) s).2.1) (w_db restarted) → faults (w_db restarted) = [] →
  rtc registry_step (w_reg (restore_bans restarted).2) r → never_picked (b_miner_wallet receipt) r.
Proof.
  intros Hf Hst Ht Ha Hdiv Hlater Hf' Hreg. destruct (divergent_run receipt positions s Hf Hst Ht Ha) as (_ & Hpen & _). cbv zeta in Hpen.
  apply db_steps_keep in Hlater as [l Hl]. destruct (restore_bans_run restarted Hf') as [_ Hb].
  assert (Hin : b_miner_wallet receipt ∈ banned (w_reg (restore_bans restarted).2)).
  { apply Hb. right. exists (b_request_id receipt). rewrite Hl, fmap_app, Hpen. unfold penalties_due, divergent, ejects. rewrite Ha.
    rewrite (proj2 (Nat.leb_le _ _) Hdiv). set_solver. }
  apply banned_never_picked. clear -Hin Hreg. induction Hreg as [|r1 r2 r3 Hs _ IH]; [done|]. apply IH. by eapply registry_step_banned.
Qed.

End properties.

(** ** Witnesses *)

#[local] Existing Instance yes_csd.
#[local] Existing Instance table_order.
#[local] Existing Instance toy_crypto.
#[local] Existing Instance key_iter.
#[local] Existing Instance empty_market.

(** A verdict whose row could not be stored is reached again on the next tick,
    and its penalties are written again: three failures of that one statement
    eject a wallet for a single divergent answer. *)
Lemma lost_mark_ejects :
  let lost := [NoFault; FailsBefore "io"; NoFault; NoFault; NoFault] in
  let s := after (flat_map (λ _, [EvTick 0; EvProcess 0 (Stdout (Some (verdict_json false)) "")]) [1; 2; 3])
             (sample_world (lost ++ lost ++ lost) new_registry, sample_auditor) in
  is_banned "bob" (w_reg s.1) = true ∧ b_audit_status <$> receipts (w_db s.1) = ["PENDING"]
  ∧ divergences "bob" (w_db s.1) = 3.
Proof. vm_compute. done. Qed.

Lemma audit_verdict_authentic_witness :
  let evs := [EvTick 0; EvReply "ada" (mkOpoiAuditResult "req" [bad_position])] in
  "ada" ∈ ["ada"] ∧ "ada" ≠ "bob" ∧ ∃ evs1 evs2, evs = evs1 ++ EvReply "ada" (mkOpoiAuditResult "req" [bad_position]) :: evs2
    ∧ au_run (after evs1 (sample_world [] sample_registry, sample_auditor)).2
      = Some (mkAuditRun sample_receipt (mkModelSource "gguf" "tok" "tsha") "hi" [1%N] (AwaitingVerdict "ada" 0) []).
Proof.
  apply (audit_verdict_authentic _ "cs-miner" "cache" ["ada"] (sample_world [] sample_registry)
    [EvTick 0; EvReply "ada" (mkOpoiAuditResult "req" [bad_position])]
    (mkAuditRun sample_receipt (mkModelSource "gguf" "tok" "tsha") "hi" [1%N] (AwaitingVerdict "ada" 0) []) "ada" 0 [bad_position]);
    vm_compute; exact eq_refl.
Defined.

Lemma sample_stored : receipt_stored sample_receipt (w_db struck_world).
Proof. split; [by left|]. split; vm_compute; exact eq_refl. Qed.

Lemma sample_detail : text (verdict_detail (Ok [bad_position])) = Some (verdict_detail (Ok [bad_position])).
Proof. vm_compute. exact eq_refl. Qed.

Lemma conclude_spec_witness :
  let s' := (conclude sample_receipt (Ok [bad_position]) (struck_world, sample_auditor)).2 in
  penalty <$> consequences (w_db s'.1) = [("bob", "r1", "WITHHOLD_PAY"); ("bob", "r2", "WITHHOLD_PAY"); ("bob", "req", "WITHHOLD_PAY");
    ("bob", "req", "REPUTATION_FLAG"); ("bob", "req", "EJECTED")] ∧ w_reg s'.1 = ban "bob" sample_registry.
Proof.
  destruct (conclude_spec sample_receipt (Ok [bad_position]) (struck_world, sample_auditor) eq_refl sample_stored sample_detail)
    as (_ & Hp & Hr & _). split; [rewrite Hp|rewrite Hr]; vm_compute; exact eq_refl.
Defined.

Lemma divergent_never_paid_witness :
  let s := (struck_world, sample_auditor) in
  let later := w_db (conclude sample_receipt (Ok [bad_position]) s).2.1 in
  Forall (λ sub, s_request_id sub ≠ "req") (match (list_unpaid_published later).1 with Ok rows => rows | Err _ => [] end).
Proof.
  cbv zeta. eapply (divergent_never_paid sample_receipt [bad_position] (struck_world, sample_auditor) _ _ eq_refl sample_stored sample_detail eq_refl).
  - apply rtc_refl.
  - vm_compute. exact eq_refl.
Defined.

Lemma ejection_survives_restart_witness :
  let d := w_db (conclude sample_receipt (Ok [bad_position]) (struck_world, sample_auditor)).2.1 in
  never_picked "bob" (register "bob" 7%N (w_reg (restore_bans (mkWorld [] d new_registry (mkNet ∅ []))).2)).
Proof.
  cbv zeta. refine (ejection_survives_restart sample_receipt [bad_position] (struck_world, sample_auditor) (mkWorld [] _ new_registry (mkNet ∅ [])) _
    eq_refl sample_stored sample_detail eq_refl _ (rtc_refl _ _) _ (rtc_once _ _ (rs_register _ _ _))).
  - vm_compute. lia.
  - vm_compute. exact eq_refl.
Defined.

