(* ===== verification/Kept.v ===== *)
(** * What the components keep

    One relation says what an operation may do to the world the components
    share: the schema, the registry, past consequences and bans survive, the
    channels' log only grows, and the ledger moves by its own steps, by the
    owner of each row ([Ledger]).  Every operation of every engine is shown to
    stay within it, mostly by peeling its definition ([keeps]). *)

From S2P Require Export OpoiEngine ExpertDispatch ModelSource Pipeline ShardEngine Speculative B3LiteAudit AuditPolicy Payout Columns.

(** ** The relations *)

Record world_facts (w w' : World) : Prop := {
  wk_db : db_wf (w_db w) → db_wf (w_db w');
  wk_consequences : kept_consequences (w_db w) (w_db w');
  wk_registry : registry_wf (w_reg w) → registry_wf (w_reg w');
  wk_banned : banned (w_reg w) ⊆ banned (w_reg w');
  wk_sent : ∃ l, sent (w_net w') = sent (w_net w) ++ l
}.
#[export] Instance world_facts_preorder : PreOrder world_facts.
Proof.
  split.
  - intros w. split; try done; [by apply kept_same|]. exists []. by rewrite app_nil_r.
  - intros x y z [A1 A2 A3 A4 [la A5]] [B1 B2 B3 B4 [lb B5]]. split; [tauto|by eapply kept_trans|tauto|set_solver|].
    exists (la ++ lb). by rewrite B5, A5, app_assoc.
Qed.

(** The operation starts with the tokens [own] and ends with [own'], whoever
    has the others; [P] limits what the others may be. *)
Definition token_flow (P : token → Prop) (own own' : list token) (d d' : Database) : Prop :=
  ∀ ts, Forall P ts → flow d (own ++ ts) d' (own' ++ ts).
Definition any (_ : token) : Prop := True.
Definition waiting (t : token) : Prop := t.2 = Received.
Definition nobody (_ : token) : Prop := False.

Record moved (P : token → Prop) (own own' : list token) (w w' : World) : Prop := {
  mv_facts : world_facts w w';
  mv_flow : token_flow P own own' (w_db w) (w_db w')
}.
Notation world_kept := (moved any [] []).

Record db_moved (own own' : list token) (d d' : Database) : Prop := {
  dk_wf : db_wf d → db_wf d';
  dk_consequences : kept_consequences d d';
  dk_flow : token_flow any own own' d d'
}.
Notation db_kept := (db_moved [] []).

(** A state with the world and tasks in it. *)
Record view (S : Type) := mkView {
  v_world : S → World;
  v_tokens : S → list token;
  v_sound : S → Prop
}.
Arguments mkView {S}.
Arguments v_world {S}.
Arguments v_tokens {S}.
Arguments v_sound {S}.
Record sees_for {S} (P : token → Prop) (v : view S) (s s' : S) : Prop := {
  see_moved : moved P (v_tokens v s) (v_tokens v s') (v_world v s) (v_world v s');
  see_sound : v_sound v s → v_sound v s'
}.
Notation sees := (sees_for any).

(** ** Composing them *)

Lemma token_flow_refl P ts d : token_flow P ts ts d d.
Proof. intros ts' _. apply flow_refl. Qed.
Lemma token_flow_trans P t1 t2 t3 d1 d2 d3 : token_flow P t1 t2 d1 d2 → token_flow P t2 t3 d2 d3 → token_flow P t1 t3 d1 d3.
Proof. intros H12 H23 ts Hts. eapply flow_trans; [by apply H12|by apply H23]. Qed.
Lemma flow_perm d d' ts1 ts2 ts1' ts2' : ts1 ≡ₚ ts2 → ts1' ≡ₚ ts2' → flow d ts1 d' ts1' → flow d ts2 d' ts2'.
Proof.
  intros H1 H2 Hf. eapply flow_trans; [apply (flow_drop d ts2 ts1)|]; [by rewrite H1|].
  eapply flow_trans; [exact Hf|]. apply flow_drop. by rewrite H2.
Qed.
Lemma token_flow_perm P d d' a a' b b' : a ≡ₚ a' → b ≡ₚ b' → token_flow P a b d d' → token_flow P a' b' d d'.
Proof. intros Ha Hb Hf ts Hts. eapply flow_perm; [| |by apply (Hf ts)]; by f_equiv. Qed.
(** More tokens in the same hands. *)
Lemma token_flow_frame P a b c d d' : token_flow any a b d d' → token_flow P (a ++ c) (b ++ c) d d'.
Proof. intros Hf ts _. rewrite <-!app_assoc. apply Hf. apply Forall_forall. done. Qed.
Lemma token_flow_any P a b d d' : token_flow any a b d d' → token_flow P a b d d'.
Proof. intros Hf ts _. apply Hf. by apply Forall_forall. Qed.

Lemma moved_refl P ts w : moved P ts ts w w.
Proof. split; [reflexivity|apply token_flow_refl]. Qed.
Lemma moved_trans P a b c w1 w2 w3 : moved P a b w1 w2 → moved P b c w2 w3 → moved P a c w1 w3.
Proof. intros [H1 H2] [H3 H4]. split; [by etrans|by eapply token_flow_trans]. Qed.
#[export] Instance moved_preorder P ts : PreOrder (moved P ts ts).
Proof. split; [intros w; apply moved_refl|intros x y z; apply moved_trans]. Qed.
Lemma moved_frame P a b c w w' : moved any a b w w' → moved P (a ++ c) (b ++ c) w w'.
Proof. intros [H1 H2]. split; [done|by apply token_flow_frame]. Qed.
Lemma moved_any P a b w w' : moved any a b w w' → moved P a b w w'.
Proof. intros [H1 H2]. split; [done|by apply token_flow_any]. Qed.
Lemma moved_perm P a a' b b' w w' : a ≡ₚ a' → b ≡ₚ b' → moved P a b w w' → moved P a' b' w w'.
Proof. intros Ha Hb [H1 H2]. split; [done|by eapply token_flow_perm]. Qed.
Lemma moved_own P ts w w' : world_kept w w' → moved P ts ts w w'.
Proof. apply (moved_frame P [] []). Qed.
Lemma moved_drop P a b w : b ⊆+ a → moved P a b w w.
Proof. intros Hsub. split; [reflexivity|]. intros ts _. apply flow_drop. by apply submseteq_app. Qed.

#[export] Instance db_kept_preorder : PreOrder db_kept.
Proof.
  split.
  - intros d. split; [done|by apply kept_same|apply token_flow_refl].
  - intros x y z [A1 A2 A3] [B1 B2 B3]. split; [tauto|by eapply kept_trans|by eapply token_flow_trans].
Qed.
#[export] Instance sees_preorder {S} P (v : view S) : PreOrder (sees_for P v).
Proof.
  split.
  - intros s. split; [apply moved_refl|done].
  - intros x y z [A1 A2] [B1 B2]. split; [by eapply moved_trans|tauto].
Qed.

(** A computation whose tokens at the end depend on its answer. *)
Definition gives {A} (P : token → Prop) (own : list token) (post : A → list token) (m : M World A) : Prop :=
  ∀ w, let '(a, w') := m w in moved P own (post a) w w'.
Lemma gives_bind {A B} P own (mid : A → list token) (post : B → list token) (m : M World A) (k : A → M World B) :
  gives P own mid m → (∀ a, gives P (mid a) post (k a)) → gives P own post (m ≫= k).
Proof.
  intros Hm Hk w. unfold mbind, M_bind. specialize (Hm w). destruct (m w) as [a w1]. specialize (Hk a w1).
  destruct (k a w1) as [b w2]. by eapply moved_trans.
Qed.
Lemma gives_own {A} P ts (m : M World A) : steps world_kept m → gives P ts (λ _, ts) m.
Proof. intros Hm w. specialize (Hm w). destruct (m w) as [a w']. by apply moved_own. Qed.
Lemma gives_ret {A} P ts (a : A) : gives P ts (λ _, ts) (mret a).
Proof. intros w. apply moved_refl. Qed.
Lemma gives_drop {A} P ts (a : A) : gives P ts (λ _, []) (mret a).
Proof. intros w. apply moved_drop, submseteq_nil_l. Qed.
Lemma gives_steps {A} P own own' (m : M World A) : gives P own (λ _, own') m ↔ steps (moved P own own') m.
Proof. split; intros Hm w; specialize (Hm w); by destruct (m w). Qed.
Lemma gives_ignore {A} P own own' (m : M World A) : steps (moved P own own') m → gives P own (λ _, own') (ignore m).
Proof. intros Hm. apply (gives_bind _ _ (λ _, own')); [by apply gives_steps|]. intros _. apply gives_ret. Qed.
Lemma gives_any {A} P own (post : A → list token) m : gives any own post m → gives P own post m.
Proof. intros Hm w. specialize (Hm w). destruct (m w) as [a w']. by apply moved_any. Qed.
(** One token is used up at a time. *)
Lemma gives_for_each {A} (f : A → M World ()) (tok : A → token) l :
  (∀ x, x ∈ l → gives any [tok x] (λ _, []) (f x)) → gives any (tok <$> l) (λ _, []) (for_each f l).
Proof.
  induction l as [|x l IH]; intros Hf; [apply gives_ret|]. csimpl.
  apply (gives_bind _ _ (λ _, tok <$> l)); [|intros _; apply IH; intros y Hy; apply Hf; by right].
  intros w. specialize (Hf x (list_elem_of_here _ _) w). destruct (f x w) as [[] w']. by apply (moved_frame any [tok x] []).
Qed.

(** ** The repository *)

Lemma db_moved_step own own' d d' : db_step d d' → token_flow any own own' d d' → db_moved own own' d d'.
Proof. intros Hs Hf. split; [by apply db_step_wf|by apply db_step_keeps|done]. Qed.
Lemma select_kept {A} `{RowOrder} (q : Database → list A) : steps db_kept (select q).
Proof.
  intros d. destruct (select_outcome q d) as (fs & E & _). rewrite E.
  split; [by apply db_wf_faults|by apply kept_same|intros ts _; apply flow_faults].
Qed.
Lemma read_kept {A} (op : Database → option (A * Database)) :
  (∀ d a d', op d = Some (a, d') → d' = d) → steps db_kept (exec op).
Proof.
  intros Hop d. split.
  - apply exec_preserves; [intros; by apply db_wf_faults|]. by intros d1 a d' Hd ->%Hop.
  - apply kept_exec. intros d1 a d' ->%Hop. by apply kept_same.
  - intros ts _. apply flow_exec; [done|]. intros fs a d' d1 ->%Hop. apply flow_refl.
Qed.
(** A table next to the submissions is written. *)
Lemma elsewhere_kept {A} (m : M Database (result A AppError)) (op : Database → option (A * Database)) :
  (∀ d, db_step d (m d).2) → m = exec op →
  (∀ d a d', op d = Some (a, d') → submissions d' = submissions d ∧ (next_id d ≤ next_id d')%N) → steps db_kept m.
Proof.
  intros Hstep -> Hop d. apply db_moved_step; [done|]. intros ts _ Hd. specialize (Hstep d).
  destruct (exec_outcome op d) as (fs & Hst & _). destruct (exec op d) as [r d']. cbn [snd] in *.
  assert (submissions d' = submissions d ∧ (next_id d ≤ next_id d')%N) as [Es En].
  { destruct Hst as [->|[a Ha]]; [done|]. by apply Hop in Ha. }
  revert Hd. apply flow_same; [by apply db_step_wf|done..].
Qed.

#[local] Ltac a_write := intros ?; first [apply st_attempt_ok|apply st_attempt_err|apply st_attempt_revealed|apply st_receipt|apply st_audit
  |apply st_consequence|apply st_event|apply st_committed|apply st_failed|apply st_revealed|apply st_published|apply st_paid].
#[local] Ltac elsewhere := eapply elsewhere_kept;
  [a_write|reflexivity|intros ??? Hop; strip_checks Hop; unfold upsert_attempt in Hop;
   repeat case_bool_decide; repeat case_match; try done; apply Some_inj, pair_inj in Hop as [_ <-];
   (split; [done|first [exact (N.le_refl _)|exact (N.le_add_r _ 1)]])].
Lemma kept_attempt_ok sid addr tx nonce hgt : steps db_kept (upsert_commit_attempt_success sid addr tx nonce hgt).
Proof. elsewhere. Qed.
Lemma kept_attempt_err sid addr reason : steps db_kept (upsert_commit_attempt_failure sid addr reason).
Proof. elsewhere. Qed.
Lemma kept_attempt_revealed aid tx : steps db_kept (mark_attempt_revealed aid tx).
Proof. elsewhere. Qed.
Lemma kept_receipt r w m g p x h t l sg sm : steps db_kept (create_b3lite_receipt r w m g p x h t l sg sm).
Proof. elsewhere. Qed.
Lemma kept_audit id st dt : steps db_kept (mark_b3lite_audit_result id st dt).
Proof. elsewhere. Qed.
Lemma kept_consequence id w r a x : steps db_kept (insert_b3lite_consequence id w r a x).
Proof. elsewhere. Qed.
Lemma kept_event e t x : steps db_kept (log_stake_event e t x).
Proof. elsewhere. Qed.
Lemma kept_find id : steps db_kept (find_active_by_request_id id).
Proof. apply read_kept. intros d a d' Hop. strip_checks Hop. congruence. Qed.
Lemma kept_count w : steps db_kept (count_withhold_consequences w).
Proof. apply read_kept. intros d a d' Hop. strip_checks Hop. congruence. Qed.

(** The owner's writes. *)
Lemma own_committed id tx nonce hgt : steps (db_moved [(id, Received)] []) (mark_committed id tx nonce hgt).
Proof. intros d. apply db_moved_step; [constructor|]. intros ts _. apply flow_committed. Qed.
Lemma own_failed id reason : steps (db_moved [(id, Received)] []) (mark_failed id reason).
Proof. intros d. apply db_moved_step; [constructor|]. intros ts _. apply flow_failed. Qed.
Lemma own_revealed id tx : steps (db_moved [(id, Committed)] []) (mark_revealed id tx).
Proof. intros d. apply db_moved_step; [constructor|]. intros ts _. apply flow_revealed. Qed.
Lemma own_published id rew : steps (db_moved [(id, Revealed)] []) (mark_published id rew).
Proof. intros d. apply db_moved_step; [constructor|]. intros ts _. apply flow_published. Qed.

(** A batch pays requests that have a published, unpaid answer. *)
Lemma kept_paid ids tx d :
  (∀ r, r ∈ ids → Exists (λ u, s_request_id u = r ∧ s_status u = Published ∧ s_paid u = false) (submissions d)) →
  db_kept d (mark_paid ids tx d).2.
Proof. intros Hids. apply db_moved_step; [constructor|]. intros ts _. by apply flow_paid. Qed.

(** PostgreSQL and its clock. *)
Lemma db_weather_kept fs now : steps db_kept (modify (λ d, d <| faults := fs |> <| clock := now |>)).
Proof.
  intros d. assert (db_wf d → db_wf (d <| faults := fs |> <| clock := now |>)) as Hw.
  { intros Hd. eapply db_step_wf; [apply st_time|by apply db_wf_faults]. }
  split; [exact Hw|by apply kept_same|]. intros ts _. by apply flow_same.
Qed.

(** ** The world *)

Lemma world_moved w w' : w_db w' = w_db w → (registry_wf (w_reg w) → registry_wf (w_reg w')) → banned (w_reg w) ⊆ banned (w_reg w') →
  (∃ l, sent (w_net w') = sent (w_net w) ++ l) → world_kept w w'.
Proof. intros Ed Hr Hb Hs. split; [split|]; try done; rewrite Ed; [done|by apply kept_same|apply token_flow_refl]. Qed.
Lemma world_same w w' : w_db w' = w_db w → w_reg w' = w_reg w → w_net w' = w_net w → world_kept w w'.
Proof. intros Ed Er En. apply world_moved; rewrite ?Er, ?En; [done..|]. exists []. by rewrite app_nil_r. Qed.
Lemma csd_kept {A} (m : M csd_log A) : steps world_kept (csd m).
Proof. intros w. unfold csd, zoom. destruct (m (w_csd w)). by apply world_same. Qed.
Lemma db_world_at {A} own own' (m : M Database A) w : db_moved own own' (w_db w) (m (w_db w)).2 → moved any own own' w (db m w).2.
Proof.
  intros Hm. unfold db, zoom. destruct (m (w_db w)) as [a d]. destruct Hm as [Hwf Hk Hf].
  split; [split|]; try done. exists []. by rewrite app_nil_r.
Qed.
Lemma db_world {A} own own' (m : M Database A) : steps (db_moved own own') m → steps (moved any own own') (db m).
Proof. intros Hm w. apply db_world_at, Hm. Qed.
Lemma net_send_kept tx m : steps world_kept (net (net_send tx m)).
Proof.
  intros [c d r [o l]]. unfold net, zoom, net_send. cbn. case_bool_decide; (apply world_moved; [done..|cbn]); [by eexists|].
  exists []. by rewrite app_nil_r.
Qed.
Lemma net_modify_kept f : (∀ n, sent (f n) = sent n) → steps world_kept (net (modify f)).
Proof. intros Hf w. apply world_moved; [done..|]. exists []. rewrite app_nil_r. apply (Hf (w_net w)). Qed.
Lemma gets_kept {A} (f : World → A) : steps world_kept (gets f).
Proof. apply steps_gets. typeclasses eauto. Qed.
Lemma reg_kept f : (∀ r, registry_wf r → registry_wf (f r)) → (∀ r, banned r ⊆ banned (f r)) → steps world_kept (reg f).
Proof. intros Hf Hb w. apply world_moved; [done|apply Hf|apply Hb|]. exists []. by rewrite app_nil_r. Qed.

Lemma ban_kept w : steps world_kept (reg (ban w)).
Proof. apply reg_kept; intros r; [intros []; by split|cbn; set_solver]. Qed.
Lemma register_kept w tx : steps world_kept (reg (register w tx)).
Proof. apply reg_kept; [apply register_wf|done]. Qed.
Lemma unregister_kept w : steps world_kept (reg (unregister w)).
Proof. apply reg_kept; [apply unregister_wf|done]. Qed.
Lemma mark_draft_kept w : steps world_kept (reg (mark_draft_capable w)).
Proof. apply reg_kept; [apply mark_draft_wf|intros r; unfold mark_draft_capable; by destruct (contains_key _ _)]. Qed.
Lemma mark_auditor_kept w : steps world_kept (reg (mark_auditor_capable w)).
Proof. apply reg_kept; [apply mark_auditor_wf|intros r; unfold mark_auditor_capable; by destruct (contains_key _ _)]. Qed.
Lemma mark_expert_kept w v : steps world_kept (reg (mark_expert_capable w v)).
Proof. apply reg_kept; [apply mark_expert_wf|intros r; unfold mark_expert_capable; by destruct (contains_key _ _)]. Qed.

#[export] Hint Resolve csd_kept gets_kept db_world net_send_kept select_kept ban_kept register_kept unregister_kept mark_draft_kept
  mark_auditor_kept mark_expert_kept : kept.
#[export] Hint Resolve kept_attempt_ok kept_attempt_err kept_attempt_revealed kept_receipt kept_audit kept_consequence kept_event
  kept_find kept_count : kept.
#[export] Hint Extern 2 (steps world_kept (net (modify _))) => by apply net_modify_kept : kept.
#[export] Hint Extern 1 (steps db_kept ?m) => (let h := get_head m in unfold h; apply select_kept) : kept.

(** Peels a definition down to operations that are known to keep the world. *)
Ltac keeps := repeat first
  [ progress intros
  | progress cbv zeta
  | solve [auto with kept]
  | match goal with |- steps _ (match ?x with _ => _ end) => destruct x end
  | apply steps_ret; typeclasses eauto
  | apply steps_gets; typeclasses eauto
  | apply steps_bind; [typeclasses eauto| |]
  | apply steps_try; [typeclasses eauto| |]
  | apply steps_ignore; [typeclasses eauto|]
  | apply steps_for_each; [typeclasses eauto|]
  | apply steps_mapM; [typeclasses eauto|]
  | match goal with |- steps _ ?m => let h := get_head m in unfold h end ].

(** An operation that looks at the state before it starts. *)
Lemma sees_refl {S A} P (v : view S) (a : A) (s : S) : sees_for P v s (a, s).2.
Proof. reflexivity. Qed.
Lemma sees_run {S A} P (v : view S) (m : M S A) (s : S) : steps (sees_for P v) m → sees_for P v s (m s).2.
Proof. intros Hm. apply Hm. Qed.
Ltac keeps_at :=
  intros ?; match goal with |- sees_for _ _ _ (?m).2 => let h := get_head m in unfold h end; cbv zeta;
  repeat match goal with |- sees_for _ _ _ (match ?x with _ => _ end).2 => destruct x end;
  try first [apply sees_refl | solve [split; [apply moved_refl|done]] | apply sees_run; solve [keeps]].

(** ** The engines keep it *)

Section engines.
Context `{Csd, RowOrder, Crypto, HexError, MapIter, HttpGet, Marketplace, Tokenizers, Schedule, DisplayF64}.

Lemma send_to_kept w m : steps world_kept (send_to w m).
Proof. keeps. Qed.
#[local] Hint Resolve send_to_kept : kept.

(** *** Whole-model requests *)

Lemma renew_one_kept addr : steps world_kept (renew_one addr).
Proof. keeps. Qed.
#[local] Hint Resolve renew_one_kept : kept.
Lemma renew_tick_kept addrs n : steps world_kept (renew_tick addrs n).
Proof. keeps. Qed.
Lemma ensure_others_kept addrs : steps world_kept (ensure_others addrs).
Proof. induction addrs; keeps. Qed.
#[local] Hint Resolve ensure_others_kept : kept.
Lemma ensure_stake_kept addrs txid vout ep m : steps world_kept (ensure_stake addrs txid vout ep m).
Proof. keeps. Qed.
Lemma commit_with_kept rid h tc addr : steps world_kept (commit_with rid h tc addr).
Proof. keeps. Qed.
Lemma record_attempt_kept sid p : steps world_kept (record_attempt sid p).
Proof. keeps. Qed.
Lemma reactivate_kept addr : steps world_kept (reactivate addr).
Proof. keeps. Qed.
#[local] Hint Resolve commit_with_kept record_attempt_kept reactivate_kept : kept.
(** A commit is run by the owner of a received answer. *)
Lemma commit_rounds_own n addrs sid rid h tc : gives any [(sid, Received)] (λ _, []) (commit_rounds n addrs sid rid h tc).
Proof.
  induction n as [|n IH]; cbn [commit_rounds]; [by apply gives_ignore, db_world, own_failed|].
  eapply gives_bind; [apply gives_own; keeps|]. intros started. cbv beta zeta.
  eapply gives_bind; [apply gives_own; keeps|]. intros ?. cbv beta. destruct (first_success _) as [r|].
  - apply gives_ignore, db_world, own_committed.
  - eapply gives_bind; [apply gives_own; keeps|]. intros ?. exact IH.
Qed.
Lemma do_commit_own addrs sid rid h tc : gives any [(sid, Received)] (λ _, []) (do_commit addrs sid rid h tc).
Proof. apply commit_rounds_own. Qed.

(** *** The ticks that look for rows to move *)

(** Whoever finds rows in a status, and is the only one to look for it, may move them. *)
Lemma moved_claim st ids P w :
  (st ≠ Received ∧ P = waiting) ∨ P = nobody → (db_wf (w_db w) → NoDup ids) →
  (∀ id, id ∈ ids → ∃ s, s ∈ submissions (w_db w) ∧ s_id s = id ∧ s_status s = st) →
  moved P [] ((λ id, (id, st)) <$> ids) w w.
Proof.
  intros HP Hn Hids. split; [reflexivity|]. intros ts Hts [Hw Hp Hd Hh]. split; [|done]. specialize (Hn Hw).
  pose proof (wf_ids _ Hw) as Hi. pose proof (wf_fresh _ Hw) as Hlt. cbn [app] in *.
  assert (Forall (λ t, t.2 ≠ st) ts) as Hother.
  { eapply Forall_impl; [exact Hts|]. intros t Ht. destruct HP as [[? ->]| ->]; [unfold waiting in Ht; congruence|done]. }
  rewrite Forall_forall in Hh. rewrite Forall_forall in Hlt. rewrite Forall_forall in Hother. split; [done..| |].
  - rewrite fmap_app, <-list_fmap_compose. change (NoDup ((id <$> ids) ++ ts.*1)). rewrite list_fmap_id. apply NoDup_app. split_and!; [done| |done].
    intros x Hin (t & -> & Ht)%list_elem_of_fmap. destruct (Hids _ Hin) as (s & Hs & E & Es).
    destruct (Hh t Ht) as [_ Hrow]. rewrite Forall_forall in Hrow. apply (Hother t Ht). by rewrite <-(Hrow s Hs E).
  - apply Forall_forall. intros t [(x & -> & Hin)%list_elem_of_fmap|Ht]%elem_of_app; [|by apply Hh].
    destruct (Hids _ Hin) as (s & Hs & <- & Es). split; [by apply Hlt|]. apply Forall_forall. intros s' Hs' E.
    assert (s' = s) as ->; [|done]. apply list_elem_of_lookup_1 in Hs as [i Hsi], Hs' as [j Hsj].
    assert (i = j); [|congruence]. apply (NoDup_lookup (s_id <$> submissions (w_db w)) i j (s_id s)); [done|..];
      rewrite list_lookup_fmap; [by rewrite Hsi|by rewrite Hsj; cbn; rewrite E].
Qed.
(** A tick that starts with a query on the submissions. *)
Lemma steps_select {A B} P (q : Database → list A) (k : list A → M World (result B AppError)) :
  (∀ l w, l ≡ₚ q (w_db w) → moved P [] [] w (k l w).2) → steps (moved P [] []) (try_bind (db (select q)) k).
Proof.
  intros Hk w. pose proof (db_world _ _ _ (select_kept q) w) as Hw. unfold try_bind, mbind, M_bind.
  assert (∀ l, (db (select q) w).1 = Ok l → l ≡ₚ q (w_db (db (select q) w).2)) as Hok.
  { unfold db, zoom. destruct (select_outcome q (w_db w)) as (fs & E & Hok). destruct (select q (w_db w)) as [r d]. cbn in *. by rewrite E. }
  destruct (db (select q) w) as [[l|e] w1]; cbn [fst snd] in *; [|by apply moved_any].
  eapply moved_trans; [by apply moved_any|]. by apply Hk, Hok.
Qed.
Lemma gives_run {A} P own own' (m : M World A) w w0 : moved P [] own w0 w → gives P own (λ _, own') m → moved P [] own' w0 (m w).2.
Proof. intros Hstart Hm. eapply moved_trans; [exact Hstart|]. by apply gives_steps. Qed.

Lemma filter_ids (P : Submission → Prop) `{∀ s, Decision (P s)} l d :
  l ≡ₚ filter P (submissions d) → db_wf d → NoDup (s_id <$> l).
Proof.
  intros -> Hw. eapply sublist_NoDup; [exact (wf_ids _ Hw)|]. apply fmap_sublist, sublist_filter.
Qed.
Lemma recover_own addrs : steps (moved nobody [] []) (recover_on_startup addrs).
Proof.
  unfold recover_on_startup, list_received. apply steps_select. intros l w Hl.
  eapply (gives_run _ ((λ id, (id, Received)) <$> (s_id <$> completion l)) []).
  - apply moved_claim; [by right| |].
    + intros Hw. eapply filter_ids; [|exact Hw]. etrans; [apply completion_perm|exact Hl].
    + intros id (s & -> & Hs)%list_elem_of_fmap. rewrite completion_perm, Hl in Hs. apply list_elem_of_filter in Hs as [? ?]. eauto.
  - rewrite <-list_fmap_compose. eapply gives_bind.
    + apply gives_any, gives_for_each. intros s _. apply do_commit_own.
    + intros ?. apply gives_own. keeps.
Qed.

Lemma try_reveal_own id l : (∀ c, c ∈ l → c_submission_id c = id) → gives any [(id, Committed)] (λ _, []) (try_reveal_any l).
Proof.
  induction l as [|c l IH]; intros Hl; cbn [try_reveal_any]; [apply gives_drop|].
  eapply gives_bind; [apply gives_own; keeps|]. intros [tx|e]; [|apply IH; intros c' Hc'; apply Hl; by right].
  eapply gives_bind; [apply gives_own; keeps|]. intros ?. rewrite <-(Hl c) by by left. apply gives_ignore, db_world, own_revealed.
Qed.
Lemma do_publish_own sub : gives any [(s_id sub, Revealed)] (λ _, []) (do_publish sub).
Proof.
  unfold do_publish. destruct (s_response_hex sub); [|apply gives_drop].
  eapply gives_bind; [apply gives_own; keeps|]. intros [[]|e]; [|apply gives_drop].
  eapply gives_bind; [apply gives_own; keeps|]. intros q. apply gives_ignore, db_world, own_published.
Qed.
(** The candidates of one submission stay together. *)
Lemma group_candidates_ids l id cs : group_candidates l !! id = Some cs → cs ≠ [] ∧ ∀ c, c ∈ cs → c ∈ l ∧ c_submission_id c = id.
Proof.
  unfold group_candidates. revert id cs. induction l as [|c l IH] using rev_ind; intros id cs; [cbn [fold_left]; by rewrite lookup_empty|].
  rewrite fold_left_app. cbn [fold_left]. set (m := fold_left _ l ∅) in *. rewrite lookup_insert. case_decide as E.
  - intros [= <-]. split; [by destruct (default _ _)|]. intros c' [Hc|Hc%list_elem_of_singleton]%elem_of_app; [|subst c'; set_solver].
    destruct (m !! c_submission_id c) as [cs|] eqn:Hm; [|by apply elem_of_nil in Hc]. destruct (IH _ _ Hm) as [_ IHm].
    destruct (IHm c' Hc) as [Hin Hs]. split; [set_solver|congruence].
  - intros Hm. destruct (IH _ _ Hm) as [Hne IHm]. split; [done|]. intros c' Hc. destruct (IHm c' Hc). set_solver.
Qed.
(** What the reveal tick finds, it may move. *)
Definition claims_committed (l : list RevealCandidate) : list token := (λ id, (id, Committed)) <$> iter_keys (group_candidates l).
Definition claims_revealed (l : list Submission) : list token := (λ id, (id, Revealed)) <$> (s_id <$> l).
Lemma claim_candidates height l w : l ≡ₚ candidates_at height (w_db w) → moved waiting [] (claims_committed l) w w.
Proof.
  intros Hl. apply moved_claim; [by left|intros _; rewrite iter_keys_perm; apply NoDup_fst_map_to_list|]. intros id Hid. rewrite iter_keys_perm in Hid.
  apply list_elem_of_fmap in Hid as ([id' cs] & -> & Hcs%elem_of_map_to_list). apply group_candidates_ids in Hcs as [Hne Hcs].
  destruct cs as [|c cs]; [done|]. destruct (Hcs c) as [Hc <-]; [by left|]. rewrite Hl in Hc. cbn [fst].
  apply list_elem_of_bind in Hc as (a & (s & Hc & [Es Hs]%list_elem_of_filter)%list_elem_of_bind & Ha).
  destruct (a_status a), (a_commit_window_closes_at_height a) as [hh|], (s_status s) eqn:St; try by apply elem_of_nil in Hc.
  destruct (hh <=? _)%Z; [|by apply elem_of_nil in Hc]. apply list_elem_of_singleton in Hc as ->. eauto.
Qed.
Lemma claim_revealed l w : l ≡ₚ filter (λ s, s_status s = Revealed ∧ s_content_published s = false) (submissions (w_db w)) →
  moved waiting [] (claims_revealed l) w w.
Proof.
  intros Hl. apply moved_claim; [by left|intros Hw; by eapply filter_ids|]. intros x (s & -> & Hs)%list_elem_of_fmap. rewrite Hl in Hs.
  apply list_elem_of_filter in Hs as [[? ?] ?]. eauto.
Qed.
(** A submission's candidates are its own. *)
Lemma group_of l id c : c ∈ default [] (group_candidates l !! id) → c_submission_id c = id.
Proof.
  intros Hc. destruct (group_candidates l !! id) as [cs|] eqn:Hm; [|by apply elem_of_nil in Hc]. by apply (group_candidates_ids l id cs Hm).
Qed.
Lemma poll_reveal_own : steps (moved waiting [] []) poll_reveal_tick.
Proof.
  unfold poll_reveal_tick. apply steps_try; [typeclasses eauto|intros w; apply moved_any, csd_kept|]. intros height.
  apply steps_select. intros l w Hl. cbv zeta. eapply (gives_run _ (claims_committed l) []); [by eapply claim_candidates|].
  eapply gives_bind.
  - apply gives_any, gives_for_each. intros id Hid. apply try_reveal_own. apply group_of.
  - intros ?. apply gives_steps. apply steps_select. clear. intros l w Hl.
    eapply (gives_run _ (claims_revealed l) []); [by apply claim_revealed|]. unfold claims_revealed.
    rewrite <-list_fmap_compose. eapply gives_bind; [apply gives_any, gives_for_each; intros s _; apply do_publish_own|].
    intros ?. apply gives_ret.
Qed.

(** The payout settles what it found published and unpaid. *)
Lemma payout_run_kept addr mn fee : steps world_kept (Payout.run addr mn fee).
Proof.
  unfold Payout.run, list_unpaid_published. apply steps_select. intros l w Hl. destruct l as [|u0 us]; [apply moved_refl|].
  destruct (plan_payout mn fee (u0 :: us)) as [amounts ids] eqn:Hplan. destruct amounts as [|am ams]; [apply moved_refl|]. cbv zeta.
  unfold try_bind at 1, mbind, M_bind. pose proof (csd_kept (send_many addr (am :: ams)) w) as Hc.
  assert (w_db (csd (send_many addr (am :: ams)) w).2 = w_db w) as Ed by (unfold csd, zoom; by destruct (send_many _ _ _)).
  destruct (csd _ w) as [[txid|e] w1]; cbn [snd] in *; [|exact Hc]. eapply moved_trans; [exact Hc|]. clear Hc.
  assert (world_kept w1 (db (mark_paid ids txid) w1).2) as Hpay.
  { apply db_world_at, kept_paid. intros r Hr. rewrite (plan_ids_settled _ _ _ _ _ _ Hplan) in Hr. destruct Hr as (u & Hu & Er & _).
    rewrite Ed. apply Exists_exists. exists u. rewrite Hl in Hu. by apply list_elem_of_filter in Hu as [(? & ? & _) ?]. }
  unfold try_bind, mbind, M_bind. by destruct (db (mark_paid ids txid) w1) as [[[]|e] w2].
Qed.
Lemma payout_kept addr mn fee : steps world_kept (payout_tick addr mn fee).
Proof. apply steps_ignore; [typeclasses eauto|apply payout_run_kept]. Qed.
Lemma restore_bans_kept : steps world_kept restore_bans.
Proof. keeps. Qed.

Definition commit_token (t : CommitTask) : token := (ct_submission_id t, Received).
Definition opoi_view : view OpoiEngine.Sys := mkView sy_world (λ s, commit_token <$> OpoiEngine.tasks (sy_engine s)) (λ _, True).
Notation opoi_kept := (steps (sees opoi_view)).
Lemma opoi_world {A} (m : M World A) : steps world_kept m → opoi_kept (OpoiEngine.world m).
Proof.
  intros Hm s. unfold OpoiEngine.world, zoom. specialize (Hm (sy_world s)). destruct (m (sy_world s)). split; [|done]. by apply moved_own.
Qed.
Lemma opoi_eng f : (∀ e, OpoiEngine.tasks (f e) = OpoiEngine.tasks e) → opoi_kept (eng f).
Proof.
  intros Hf s. split; [|done]. change (moved any (v_tokens opoi_view s) (commit_token <$> OpoiEngine.tasks (f (sy_engine s))) (sy_world s) (sy_world s)).
  rewrite Hf. apply moved_refl.
Qed.
#[local] Hint Resolve opoi_world : kept.
#[local] Hint Extern 2 (opoi_kept (eng _)) => by apply opoi_eng : kept.
(** A recorded answer is queued with its token. *)
Lemma create_world w r m p pb fee h x tc :
  gives any [] (λ res, match res with Ok id => [(id, Received)] | Err _ => [] end) (db (create_submission w r m p pb fee h x tc)).
Proof.
  intros wd. pose proof (st_create w r m p pb fee h x tc (w_db wd)) as Hs.
  assert (∀ ts, let '(res, d') := create_submission w r m p pb fee h x tc (w_db wd) in
    flow (w_db wd) ts d' (match res with Ok id => (id, Received) :: ts | Err _ => ts end)) as Hf by (intros ts; apply flow_created).
  unfold db, zoom. destruct (create_submission _ _ _ _ _ _ _ _ _ (w_db wd)) as [res d']. cbn [snd] in Hs.
  split; [split|]; try done; [by apply db_step_wf|by apply db_step_keeps|exists []; by rewrite app_nil_r|].
  intros ts _. specialize (Hf ts). by destruct res.
Qed.
Lemma opoi_record w r m p pb fee h x tc (f : N → OpoiEngine.OpoiEngine → OpoiEngine.OpoiEngine) (t : N → CommitTask) :
  (∀ id e, ct_submission_id (t id) = id ∧ OpoiEngine.tasks (f id e) = OpoiEngine.tasks e ++ [t id]) →
  opoi_kept (id ←? OpoiEngine.world (db (create_submission w r m p pb fee h x tc)); _ ← eng (f id); mret (Ok id)).
Proof.
  intros Hf s. pose proof (create_world w r m p pb fee h x tc (sy_world s)) as Hc. unfold try_bind, mbind, M_bind, OpoiEngine.world, zoom.
  destruct (db _ (sy_world s)) as [[id|e] w']; (split; [|done]).
  - change (moved any (v_tokens opoi_view s) (commit_token <$> OpoiEngine.tasks (f id (sy_engine s))) (sy_world s) w').
    destruct (Hf id (sy_engine s)) as [Eid ->]. rewrite fmap_app. cbn [fmap list_fmap]. unfold commit_token at 2. rewrite Eid.
    eapply moved_perm; [reflexivity| |apply (moved_frame any [] [(id, Received)] (commit_token <$> OpoiEngine.tasks (sy_engine s))), Hc].
    apply (Permutation_app_comm [_]).
  - by apply moved_own.
Qed.
#[local] Hint Extern 1 (opoi_kept (try_bind (OpoiEngine.world (db (create_submission _ _ _ _ _ _ _ _ _))) _)) =>
  (eapply opoi_record; intros ? ?; split; cycle 1; reflexivity) : kept.
Lemma cache_requests_kept l : opoi_kept (cache_requests l).
Proof. induction l; keeps. Qed.
Lemma assign_to_kept rid w a : opoi_kept (assign_to rid w a).
Proof. keeps. Qed.
#[local] Hint Resolve cache_requests_kept assign_to_kept : kept.
Lemma assign_candidates_kept l : opoi_kept (assign_candidates l).
Proof. induction l; keeps. Qed.
#[local] Hint Resolve assign_candidates_kept : kept.
Lemma poll_assign_kept : opoi_kept OpoiEngine.poll_and_assign_tick.
Proof. keeps. Qed.
Lemma submit_result_kept w p : opoi_kept (OpoiEngine.handle_submit_result w p).
Proof. keeps. Qed.
Lemma opoi_disconnect_kept w : opoi_kept (OpoiEngine.on_disconnect w).
Proof. keeps. Qed.
Lemma opoi_prompt_kept rid x m t : opoi_kept (OpoiEngine.receive_prompt rid x m t).
Proof. keeps. Qed.
(** A task runs with the token it was queued with. *)
Lemma moved_task P (q : list CommitTask) i t w w' : q !! i = Some t → moved any [commit_token t] [] w w' →
  moved P (commit_token <$> q) (commit_token <$> delete i q) w w'.
Proof.
  intros Hi Hm. eapply moved_perm; [| |apply (moved_frame P [commit_token t] [] (commit_token <$> delete i q)), Hm]; [|done].
  cbn [app]. rewrite <-fmap_cons. apply Permutation_map. symmetry. by apply delete_Permutation.
Qed.
Lemma run_task_world t s : (OpoiEngine.run_task t s).2
  = s <| sy_world := (do_commit (pool_addresses (sy_engine s)) (ct_submission_id t) (ct_request_id t) (ct_response_hash t) (ct_token_count t) (sy_world s)).2 |>.
Proof. unfold OpoiEngine.run_task, OpoiEngine.world, zoom, mbind, M_bind, the, gets. cbv beta iota. by destruct (do_commit _ _ _ _ _ _). Qed.
Lemma opoi_queue_kept i : opoi_kept (q ← the OpoiEngine.tasks;
  match q !! i with
  | None => mret ()
  | Some t => _ ← eng (λ e, e <| OpoiEngine.tasks := delete i q |>); OpoiEngine.run_task t
  end).
Proof.
  intros s. unfold the, mbind, M_bind, gets. destruct (OpoiEngine.tasks (sy_engine s) !! i) as [t|] eqn:Ht; [|apply sees_refl].
  cbv beta iota. set (s1 := s <| sy_engine := (sy_engine s) <| OpoiEngine.tasks := delete i (OpoiEngine.tasks (sy_engine s)) |> |>). change (sees opoi_view s (OpoiEngine.run_task t s1).2). rewrite run_task_world. split; [|done].
  apply (moved_task _ (OpoiEngine.tasks (sy_engine s)) i t); [done|]. apply gives_steps, do_commit_own.
Qed.

(** *** Expert dispatch *)

Definition disp_view : view Disp := mkView d_world (λ _, []) (λ _, True).
Notation disp_kept := (steps (sees disp_view)).
Lemma disp_modify f : (∀ d, d_world (f d) = d_world d) → disp_kept (modify f).
Proof. intros Hf d. split; [|done]. cbn. rewrite Hf. reflexivity. Qed.
Lemma drop_sender_world k d : d_world (ExpertDispatch.drop_sender k d) = d_world d.
Proof. unfold ExpertDispatch.drop_sender. by destruct (_ !! k). Qed.
Lemma enter_kept k w : disp_kept (modify (enter k w)).
Proof. apply disp_modify. intros d. apply (drop_sender_world k). Qed.
Lemma forget_kept k : disp_kept (modify (forget k)).
Proof. apply disp_modify. intros d. apply (drop_sender_world k). Qed.
Lemma resolve_kept c st : disp_kept (modify (ExpertDispatch.resolve c st)).
Proof. by apply disp_modify. Qed.
Lemma disp_net {A} (m : M World A) : steps world_kept m → disp_kept (zoom d_world (λ w d, d <| d_world := w |>) m).
Proof. intros Hm d. unfold zoom. specialize (Hm (d_world d)). by destruct (m (d_world d)). Qed.
#[local] Hint Resolve enter_kept forget_kept resolve_kept disp_net : kept.
#[local] Hint Extern 2 (disp_kept (modify _)) => by apply disp_modify : kept.
Lemma send_one_kept j sel w : disp_kept (dispatch_one_send j sel w).
Proof. keeps. Qed.
#[local] Hint Resolve send_one_kept : kept.
Lemma dispatch_failed_kept n j t e : disp_kept (dispatch_failed n j t e).
Proof. revert t e. induction n; keeps. Qed.
#[local] Hint Resolve dispatch_failed_kept : kept.
Lemma dispatch_group_kept j ex mb pre : disp_kept (dispatch_group j ex mb pre).
Proof. keeps. Qed.
Lemma poll_task_kept j o t : disp_kept (poll_task j o t).
Proof. keeps. Qed.
Lemma expert_result_kept w r : disp_kept (ExpertDispatch.handle_expert_result w r).
Proof. keeps. Qed.
Lemma expert_disconnect_kept w : disp_kept (ExpertDispatch.on_disconnect w).
Proof. keeps. Qed.

(** *** Audits *)

Definition audit_view : view AuditSys := mkView fst (λ _, []) (λ _, True).
Notation audit_kept := (steps (sees audit_view)).
Lemma audit_in_world {A} (m : M World A) : steps world_kept m → audit_kept (in_world m).
Proof. intros Hm s. unfold in_world. specialize (Hm s.1). by destruct (m s.1). Qed.
Lemma audit_own f : audit_kept (own f).
Proof. intros s. split; [apply moved_refl|done]. Qed.
Lemma audit_gets {A} (f : B3LiteAuditor → A) : audit_kept (own_gets f).
Proof. intros s. split; [apply moved_refl|done]. Qed.
#[local] Hint Resolve audit_in_world audit_own audit_gets : kept.
Lemma resolve_model_kept now m : audit_kept (resolve_model now m).
Proof. intros s. unfold resolve_model. destruct (ModelSource.resolve _ _ _). split; [apply moved_refl|done]. Qed.
#[local] Hint Resolve resolve_model_kept : kept.
Lemma conclude_kept receipt v : audit_kept (conclude receipt v).
Proof. keeps. Qed.
#[local] Hint Resolve conclude_kept : kept.
Lemma run_one_kept now r l : audit_kept (run_one now r l).
Proof. keeps. Qed.
#[local] Hint Resolve run_one_kept : kept.
Lemma run_all_kept now l : audit_kept (run_all now l).
Proof. induction l; keeps. Qed.
#[local] Hint Resolve run_all_kept : kept.
Lemma audit_tick_kept now : audit_kept (audit_event_step (EvTick now)).
Proof. keeps. Qed.
Lemma poll_verdict_kept now o : audit_kept (poll_verdict now o).
Proof. keeps. Qed.
Lemma process_ended_kept now o : audit_kept (process_ended now o).
Proof. keeps. Qed.
Lemma audit_result_kept w r : audit_kept (B3LiteAudit.handle_audit_result w r).
Proof. keeps_at. Qed.
Lemma audit_disconnect_kept w : audit_kept (B3LiteAudit.on_disconnect w).
Proof. keeps. Qed.

(** *** Speculative decoding *)

Definition spec_token (t : SpecTask) : option token := match t with Commit c => Some (commit_token c) | SubmitShard _ _ _ => None end.
Definition spec_tokens (e : SpeculativeEngine) : list token := omap spec_token (sx_tasks e).
Definition spec_view : view SpecSys := mkView fst (λ s, spec_tokens s.2) (λ _, True).
Notation spec_kept := (steps (sees spec_view)).
Lemma spec_world {A} (m : M World A) : steps world_kept m → spec_kept (Speculative.world m).
Proof. intros Hm s. unfold Speculative.world. specialize (Hm s.1). destruct (m s.1). split; [|done]. by apply moved_own. Qed.
Lemma spec_own f : (∀ e, spec_tokens (f e) = spec_tokens e) → spec_kept (spec f).
Proof.
  intros Hf s. split; [|done]. change (moved any (spec_tokens s.2) (spec_tokens (f s.2)) s.1 s.1). rewrite Hf. apply moved_refl.
Qed.
#[local] Hint Resolve spec_world : kept.
#[local] Hint Extern 2 (spec_kept (spec _)) => by apply spec_own : kept.
Lemma spawn_kept id k h : spec_kept (spawn (SubmitShard id k h)).
Proof.
  apply spec_own. intros e. change (omap spec_token (sx_tasks e ++ [SubmitShard id k h]) = spec_tokens e).
  by rewrite omap_app, app_nil_r.
Qed.
#[local] Hint Resolve spawn_kept : kept.
Lemma spec_record w r m p pb fee h x tc (t : N → CommitTask) :
  (∀ id, ct_submission_id (t id) = id) →
  spec_kept (res ← Speculative.world (db (create_submission w r m p pb fee h x tc));
             match res with Ok id => spawn (Commit (t id)) | Err _ => mret () end).
Proof.
  intros Hf s. pose proof (create_world w r m p pb fee h x tc s.1) as Hc. unfold mbind, M_bind, Speculative.world.
  destruct (db _ s.1) as [[id|e] w']; (split; [|done]).
  - change (moved any (spec_tokens s.2) (omap spec_token (sx_tasks s.2 ++ [Commit (t id)])) s.1 w'). rewrite omap_app.
    cbn [omap list_omap spec_token]. unfold commit_token. rewrite (Hf id).
    eapply moved_perm; [reflexivity| |apply (moved_frame any [] [(id, Received)] (spec_tokens s.2)), Hc]. apply (Permutation_app_comm [_]).
  - by apply moved_own.
Qed.
#[local] Hint Extern 1 (spec_kept (Speculative.world (db (create_submission _ _ _ _ _ _ _ _ _)) ≫= _)) => by eapply spec_record : kept.
Lemma shard_step_kept id : spec_kept (dispatch_shard_step id).
Proof. keeps_at. Qed.
Lemma draft_kept id : spec_kept (dispatch_draft id).
Proof. keeps_at. Qed.
#[local] Hint Resolve shard_step_kept draft_kept : kept.
Lemma start_spec_kept id m sh mt p h src : spec_kept (start_spec_pipeline id m sh mt p h src).
Proof. keeps. Qed.
Lemma draft_result_kept w r : spec_kept (Speculative.handle_draft_result w r).
Proof. keeps. Qed.
Lemma finalize_spec_kept id : spec_kept (finalize_spec_pipeline id).
Proof. keeps. Qed.
Lemma begin_rollback_kept id o n k b : spec_kept (begin_rollback id o n k b).
Proof. keeps. Qed.
#[local] Hint Resolve finalize_spec_kept begin_rollback_kept : kept.
Lemma rollback_ack_kept w a : spec_kept (Speculative.handle_kv_rollback_ack w a).
Proof. keeps. Qed.
Lemma tokenizer_kept url h : spec_kept (ensure_tokenizer_cached url h).
Proof. keeps_at. Qed.
#[local] Hint Resolve tokenizer_kept : kept.
Lemma spec_result_kept w r : spec_kept (handle_spec_shard_result w r).
Proof. keeps_at. Qed.
Lemma spec_retry_kept : spec_kept retry_stalled_tick.
Proof. keeps. Qed.
Lemma spec_disconnect_kept w : spec_kept (on_spec_disconnect w).
Proof. keeps. Qed.
Lemma spec_try_kept {T} (f : string → M csd_log (result T AppError)) : spec_kept (spec_pool_try f).
Proof.
  intros s. unfold spec_pool_try. destruct (try_each f _) as [r [pool log]]. split; [|done]. apply moved_own. by apply world_same.
Qed.
#[local] Hint Resolve spec_try_kept : kept.
Lemma submit_shard_kept id k h : spec_kept (run_spec_task (SubmitShard id k h)).
Proof. keeps. Qed.
Lemma run_commit_spec c s : (run_spec_task (Commit c) s).2
  = ((do_commit (addresses (sx_stake_pool s.2)) (ct_submission_id c) (ct_request_id c) (ct_response_hash c) (ct_token_count c) s.1).2, s.2).
Proof. unfold run_spec_task, Speculative.world, mbind, M_bind, gets. cbv beta iota. by destruct (do_commit _ _ _ _ _ _). Qed.
Lemma spec_queue_kept i : spec_kept (q ← gets (λ s, sx_tasks s.2);
  match q !! i with
  | None => mret ()
  | Some t => _ ← spec (λ e, e <| sx_tasks := delete i q |>); run_spec_task t
  end).
Proof.
  intros s. unfold mbind, M_bind, gets. destruct (sx_tasks s.2 !! i) as [t|] eqn:Ht; [|apply sees_refl]. cbv beta iota.
  set (s1 := (s.1, (s.2 <| sx_tasks := delete i (sx_tasks s.2) |>)) : SpecSys). change (sees spec_view s (run_spec_task t s1).2).
  assert (spec_tokens s.2 ≡ₚ omap spec_token (t :: delete i (sx_tasks s.2))) as Hp.
  { apply omap_Permutation. by apply delete_Permutation. }
  destruct t as [id k h|c].
  - etrans; [|apply submit_shard_kept]. split; [|done]. apply moved_drop. change (v_tokens spec_view s) with (spec_tokens s.2). by rewrite Hp.
  - rewrite run_commit_spec. split; [|done]. eapply moved_perm; [symmetry; exact Hp|reflexivity|].
    apply (moved_frame any [commit_token c] []). apply gives_steps, do_commit_own.
Qed.

(** *** Shards *)

Definition shard_tokens (s : ShardSys SpeculativeEngine) : list token :=
  (commit_token <$> se_tasks (x_engine s)) ++ match x_spec s with Some sp => spec_tokens sp | None => [] end.
Definition shard_view : view (ShardSys SpeculativeEngine) := mkView x_world shard_tokens (λ s, is_Some (x_spec s)).
Notation shard_kept := (steps (sees shard_view)).
Lemma shard_in_world {A} (m : M World A) : steps world_kept m → shard_kept (ShardEngine.in_world m).
Proof.
  intros Hm s. unfold ShardEngine.in_world. specialize (Hm (x_world s)). destruct (m (x_world s)). split; [|done]. by apply moved_own.
Qed.
Lemma shard_engine f : (∀ e, se_tasks (f e) = se_tasks e) → shard_kept (engine f).
Proof.
  intros Hf s. split; [|done]. change (moved any (shard_tokens s) ((commit_token <$> se_tasks (f (x_engine s))) ++
    match x_spec s with Some sp => spec_tokens sp | None => [] end) (x_world s) (x_world s)). rewrite Hf. apply moved_refl.
Qed.
#[local] Hint Extern 2 (shard_kept (engine _)) => by apply shard_engine : kept.
Lemma shard_ask {A} (f : ShardEngine.ShardEngine → A) : shard_kept (ask f).
Proof. intros s. split; [apply moved_refl|done]. Qed.
Lemma shard_resolve m : shard_kept (resolve_source m).
Proof. intros s. unfold resolve_source. destruct (ModelSource.resolve _ _ _). split; [apply moved_refl|done]. Qed.
Lemma shard_try {T} (f : string → M csd_log (result T AppError)) : shard_kept (pool_try f).
Proof.
  intros s. unfold pool_try. destruct (try_each f _) as [r [pool log]]. split; [|done]. apply moved_own. by apply world_same.
Qed.
Lemma shard_vram m u h a b n : shard_kept (min_vram m u h a b n).
Proof. intros s. unfold min_vram. destruct (min_vram_mb_for_range _ _ _ _ _ _ _). split; [apply moved_refl|done]. Qed.
Lemma shard_spec {A} (none : A) (m : M SpecSys A) : spec_kept m → shard_kept (with_spec none m).
Proof.
  intros Hm s. unfold with_spec. destruct (x_spec s) as [sp|] eqn:Hsp; [|apply sees_refl].
  specialize (Hm (x_world s, sp)). destruct (m (x_world s, sp)) as [a [w sp']]. destruct Hm as [Hm _]. split; [|by intros _; eexists].
  cbn [v_tokens shard_view]. unfold shard_tokens. rewrite Hsp. eapply moved_perm; [apply Permutation_app_comm|apply Permutation_app_comm|].
  by apply moved_frame.
Qed.
Lemma spec_handle_kept w r : spec_kept (spec_handle_shard_result w r).
Proof. apply spec_result_kept. Qed.
Lemma spec_start_kept id m sh mt p h src : spec_kept (spec_start_pipeline id m sh mt p h src).
Proof. apply start_spec_kept. Qed.
Lemma spec_eligible_kept m : spec_kept (spec_is_eligible m).
Proof. intros s. apply sees_refl. Qed.
#[local] Hint Resolve spec_handle_kept spec_start_kept spec_eligible_kept : kept.
#[local] Hint Resolve shard_in_world shard_ask shard_resolve shard_try shard_vram shard_spec start_spec_kept spec_result_kept : kept.
Lemma send_shard_kept id src p sh w l : shard_kept (send_shard id src p sh w l).
Proof. keeps_at. Qed.
#[local] Hint Resolve send_shard_kept : kept.
Lemma dispatch_current_kept id src : shard_kept (dispatch_current id src).
Proof. keeps_at. Qed.
#[local] Hint Resolve dispatch_current_kept : kept.
Lemma receipt_kept c id w p h : steps world_kept (record_b3lite_receipt c id w p h).
Proof. keeps. Qed.
#[local] Hint Resolve receipt_kept : kept.
Lemma await_experts_kept b id w src ids l r : shard_kept (await_experts b id w src ids l r).
Proof. keeps. Qed.
Lemma shard_record w r m p pb fee h x tc (f : N → ShardEngine.ShardEngine → ShardEngine.ShardEngine) (t : N → CommitTask) :
  (∀ id e, ct_submission_id (t id) = id ∧ se_tasks (f id e) = se_tasks e ++ [t id]) →
  shard_kept (res ← ShardEngine.in_world (db (create_submission w r m p pb fee h x tc));
              match res with Ok id => engine (f id) | Err _ => mret () end).
Proof.
  intros Hf s. pose proof (create_world w r m p pb fee h x tc (x_world s)) as Hc. unfold mbind, M_bind, ShardEngine.in_world.
  destruct (db _ (x_world s)) as [[id|e] w']; (split; [|done]).
  - set (sp := match x_spec s with Some sp => spec_tokens sp | None => [] end).
    change (moved any (shard_tokens s) ((commit_token <$> se_tasks (f id (x_engine s))) ++ sp) (x_world s) w').
    destruct (Hf id (x_engine s)) as [Eid ->]. rewrite fmap_app. cbn [fmap list_fmap]. unfold commit_token at 2. rewrite Eid.
    eapply moved_perm; [reflexivity| |apply (moved_frame any [] [(id, Received)] (shard_tokens s)), Hc]. unfold shard_tokens. fold sp.
    rewrite <-app_assoc. apply (Permutation_app_swap_app [_]).
  - by apply moved_own.
Qed.
#[local] Hint Extern 1 (shard_kept (ShardEngine.in_world (db (create_submission _ _ _ _ _ _ _ _ _)) ≫= _)) =>
  (eapply shard_record; intros ? ?; split; cycle 1; reflexivity) : kept.
Lemma finalize_kept id : shard_kept (finalize_pipeline id).
Proof. keeps. Qed.
#[local] Hint Resolve await_experts_kept finalize_kept : kept.
Lemma resume_kept c o : shard_kept (resume c o).
Proof. keeps. Qed.
Lemma shard_done_kept id w src p r : shard_kept (shard_done id w src p r).
Proof. keeps. Qed.
#[local] Hint Resolve shard_done_kept : kept.
Lemma shard_result_kept w r : shard_kept (handle_shard_result_inner w r).
Proof. keeps_at. Qed.
Lemma shard_disconnect_kept w : shard_kept (ShardEngine.on_disconnect w).
Proof. keeps. Qed.
Lemma start_request_kept q : shard_kept (start_request q).
Proof. keeps. Qed.
#[local] Hint Resolve start_request_kept : kept.
Lemma poll_start_kept : shard_kept poll_and_start_tick.
Proof. keeps. Qed.
Lemma shard_prompt_kept id x : shard_kept (ShardEngine.receive_prompt id x).
Proof. keeps. Qed.
Lemma active_ids_kept : shard_kept active_request_ids.
Proof. keeps. Qed.
Lemma run_shard_world t (s : ShardSys SpeculativeEngine) : (run_shard_task t s).2
  = set_world s (do_commit (addresses (se_stake_pool (x_engine s))) (ct_submission_id t) (ct_request_id t) (ct_response_hash t) (ct_token_count t) (x_world s)).2.
Proof. unfold run_shard_task, ShardEngine.in_world, mbind, M_bind, ask, gets. cbv beta iota. by destruct (do_commit _ _ _ _ _ _). Qed.
Lemma shard_queue_kept i : shard_kept (q ← ask se_tasks;
  match q !! i with
  | None => mret ()
  | Some t => _ ← engine (λ e, e <| se_tasks := delete i q |>); run_shard_task t
  end).
Proof.
  intros s. unfold ask, mbind, M_bind, gets. destruct (se_tasks (x_engine s) !! i) as [t|] eqn:Ht; [|apply sees_refl]. cbv beta iota.
  set (s1 := set_engine s ((x_engine s) <| se_tasks := delete i (se_tasks (x_engine s)) |>)).
  change (sees shard_view s (run_shard_task t s1).2). rewrite run_shard_world. split; [|done].
  change (v_tokens shard_view s) with (shard_tokens s). unfold shard_tokens.
  match goal with |- moved _ (_ ++ ?sp) _ _ _ => set (other := sp) end.
  change (moved any ((commit_token <$> se_tasks (x_engine s)) ++ other) ((commit_token <$> delete i (se_tasks (x_engine s))) ++ other) (x_world s)
    (do_commit (addresses (se_stake_pool (x_engine s))) (ct_submission_id t) (ct_request_id t) (ct_response_hash t) (ct_token_count t) (x_world s)).2).
  apply moved_frame, (moved_task _ _ i t); [done|]. apply gives_steps, do_commit_own.
Qed.
End engines.

