(* ===== verification/Session.v ===== *)
(** * The stratum proxy's sessions ([src/proxy/session.rs], [src/opoi/handler.rs])

    One session relays a miner's connection to the real pool, answers the OPoI
    methods itself and learns the miner's wallet from the pool's acceptance of
    [mining.authorize].  It knows the engines only through the traits of
    [handler.rs], which are the classes here; [S] is whatever they share.

    A line is read when the previous one is dealt with: a shard result that waits
    for experts keeps the session busy.  Turning a line into JSON is serde_json's
    ([JsonText]). *)

From S2P Require Export World Bytes Lines.

Class JsonText := { json_parse : string → option Value }.

(** ** The traits *)

(** What the sessions and the engines share has a world in it. *)
Class SharedWorld (S : Type) := {
  world_of : S → World;
  with_world : World → S → S;
  world_of_with : ∀ w s, world_of (with_world w s) = w
}.
Definition in_shared {S : Type} `{SharedWorld S} {A : Type} (m : M World A) : M S A := zoom world_of with_world m.

Class OpoiHandler (S : Type) := {
  handle_submit_result : string → OpoiSubmitResultParams → M S (result N AppError);
  opoi_on_disconnect : string → M S ()
}.

(** A handler answers, waits (on what [W] says), or panics. *)
Inductive shard_answer (W : Type) : Type :=
| Answered (r : result () AppError)
| Suspended (w : W)
| HandlerPanicked.
Arguments Answered {W}.
Arguments Suspended {W}.
Arguments HandlerPanicked {W}.

Class ShardHandler (S W : Type) := {
  handle_shard_result : string → OpoiShardResult → M S (shard_answer W);
  shard_on_disconnect : string → M S ()
}.

Class SpeculativeHandler (S : Type) := {
  handle_draft_result : string → OpoiDraftResult → M S ();
  handle_kv_rollback_ack : string → OpoiKvRollbackAck → M S ();
  speculative_on_disconnect : string → M S ()
}.

Class AuditHandler (S : Type) := {
  handle_audit_result : string → OpoiAuditResult → M S (result () AppError);
  audit_on_disconnect : string → M S ()
}.

Class ExpertHandler (S : Type) := {
  handle_expert_result : string → OpoiExpertResult → M S (result () AppError);
  expert_on_disconnect : string → M S ()
}.

(** ** The session's state *)

(** [ss_pending] and [ss_confirmed] are the code's [AuthState]; [ss_up] is what
    was sent to the pool, oldest first; [ss_busy] is a shard result being
    handled, with its JSON id. *)
Record Session (W : Type) := mkSession {
  ss_chan : chan;
  ss_pending : option string;
  ss_confirmed : option string;
  ss_up : list string;
  ss_busy : option (Value * W);
  ss_open : bool
}.
Arguments mkSession {W}.
Arguments ss_chan {W}.
Arguments ss_pending {W}.
Arguments ss_confirmed {W}.
Arguments ss_up {W}.
Arguments ss_busy {W}.
Arguments ss_open {W}.

Definition new_session {W} (c : chan) : Session W := mkSession c None None [] None true.

(** ** Texts *)

Fixpoint strip_prefix (p s : string) : option string :=
  match p, s with
  | EmptyString, _ => Some s
  | String a p', String b s' => if Ascii.eqb a b then strip_prefix p' s' else None
  | String _ _, EmptyString => None
  end.
Definition starts_with (p s : string) : bool := bool_decide (is_Some (strip_prefix p s)).

(** [s.split('.').next()] *)
Fixpoint until_dot (s : string) : string :=
  match s with
  | EmptyString => EmptyString
  | String c s' => if Ascii.eqb c "."%char then EmptyString else String c (until_dot s')
  end.

(** The wallet of an authorize request's first parameter. *)
Definition wallet_only (addr_raw : string) : string := until_dot (default addr_raw (strip_prefix "SOLO:" addr_raw)).

Definition method_of (value : option Value) : option string := v ← value; m ← get_key "method" v; as_str m.
Definition param0 (value : option Value) : option Value := v ← value; p ← get_key "params" v; get_index 0 p.
Definition id_of (value : option Value) : Value := default Null (value ≫= get_key "id").

(** [writer_task]: what a queue of lines puts on the socket. *)
Definition framed (line : string) : string :=
  if bool_decide (last (ascii_list line) = Some "010"%char) then line else line +:+ newline.
Fixpoint written (queue : list string) : string :=
  match queue with [] => "" | line :: rest => framed line +:+ written rest end.

Definition malformed (method : string) : Value := Array [u 20; Str ("malformed " +:+ method); Null].

Section session.
Context {S W : Type} `{SharedWorld S, OpoiHandler S, ShardHandler S W, SpeculativeHandler S, AuditHandler S, ExpertHandler S, JsonText}.
Notation SS := (S * Session W)%type.

Definition shared {A} (m : M S A) : M SS A := λ x, let '(a, s) := m x.1 in (a, (s, x.2)).
Definition mine (f : Session W → Session W) : M SS () := λ x, ((), (x.1, f x.2)).
Definition my {A} (f : Session W → A) : M SS A := λ x, (f x.2, x).

(** [let _ = down_tx.send(line)] and [let _ = up_tx.send(line)]. *)
Definition down_send (m : down_msg) : M SS () :=
  tx ← my ss_chan;
  ignore (shared (in_shared (net (net_send tx m)))).
Definition up_send (line : string) : M SS () := mine (λ c, c <| ss_up := ss_up c ++ [line] |>).

(** ** Lines of the miner *)

(** The shape the four answered methods share. *)
Definition request {P} (method : string) (parse : Value → option P) (error : Value → Value → Value)
    (handle : Value → string → P → M SS ()) (value : option Value) : M SS () :=
  let id := id_of value in
  match param0 value ≫= parse with
  | None => down_send (MReply (error id (malformed method)))
  | Some params =>
    wallet ← my ss_confirmed;
    match wallet with
    | None => down_send (MReply (error id (error_triple (to_stratum_error Unauthorized))))
    | Some wallet => handle id wallet params
    end
  end.

(** The reply to the outcome of a handler. *)
Definition outcome_line {R} (ack : Value → R → Value) (error : Value → Value → Value) (id : Value) (r : result R AppError) : down_msg :=
  MReply (match r with Ok x => ack id x | Err e => error id (error_triple (to_stratum_error e)) end).

Definition on_submit_result : option Value → M SS () :=
  request "opoi.submit_result" parse_submit_result build_submit_result_error (λ id wallet params,
    r ← shared (handle_submit_result wallet params);
    down_send (outcome_line (λ id n, build_submit_result_ack id (Z.of_N n)) build_submit_result_error id r)).

Definition shard_line (id : Value) (r : result () AppError) : down_msg :=
  outcome_line (λ id _, build_shard_result_ack id) build_shard_result_error id r.

(** A panic unwinds the session's task: nothing of it runs any more, not the
    cleanup either. *)
Definition on_shard_result : option Value → M SS () :=
  request "opoi.shard_result" parse_shard_result build_shard_result_error (λ id wallet params,
    o ← shared (handle_shard_result wallet params);
    match o with
    | Answered r => down_send (shard_line id r)
    | Suspended w => mine (λ c, c <| ss_busy := Some (id, w) |>)
    | HandlerPanicked => mine (λ c, c <| ss_open := false |>)
    end).

Definition on_audit_result : option Value → M SS () :=
  request "opoi.audit_result" parse_audit_result build_audit_result_error (λ id wallet params,
    r ← shared (handle_audit_result wallet params);
    down_send (outcome_line (λ id _, build_audit_result_ack id) build_audit_result_error id r)).

Definition on_expert_result : option Value → M SS () :=
  request "opoi.expert_result" parse_expert_result build_expert_result_error (λ id wallet params,
    r ← shared (handle_expert_result wallet params);
    down_send (outcome_line (λ id _, build_expert_result_ack id) build_expert_result_error id r)).

(** No reply is sent for these. *)
Definition notification {P} (parse : Value → option P) (handle : string → P → M S ()) (value : option Value) : M SS () :=
  wallet ← my ss_confirmed;
  match param0 value ≫= parse, wallet with
  | Some params, Some wallet => shared (handle wallet params)
  | _, _ => mret ()
  end.

Definition caps_of (value : option Value) : list string :=
  omap as_str (default [] (p ← param0 value; c ← get_key "caps" p; as_array c)).
Definition announces (cap : string) (caps : list string) : bool := existsb (λ c, bool_decide (c = cap)) caps.

Definition on_capabilities (value : option Value) : M SS () :=
  wallet ← my ss_confirmed;
  match wallet with
  | None => mret ()
  | Some wallet =>
    let caps := caps_of value in
    _ ← (if announces "draft" caps then shared (in_shared (reg (mark_draft_capable wallet))) else mret ());
    _ ← (if announces "auditor" caps then shared (in_shared (reg (mark_auditor_capable wallet))) else mret ());
    if announces "expert" caps then
      match (p ← param0 value; v ← get_key "expert_vram_mb" p; as_u64 v) with
      | Some vram_mb => shared (in_shared (reg (mark_expert_capable wallet vram_mb)))
      | None => mret ()
      end
    else mret ()
  end.

Definition on_authorize (line : string) (value : option Value) : M SS () :=
  _ ← match param0 value ≫= as_str with
      | Some addr_raw => mine (λ c, c <| ss_pending := Some (wallet_only addr_raw) |>)
      | None => mret ()
      end;
  up_send line.

(** One turn of [down_reader_loop]. *)
Definition down_line (line : string) : M SS () :=
  let value := json_parse line in
  match method_of value with
  | None => up_send line
  | Some m =>
    if bool_decide (m = "opoi.submit_result") then on_submit_result value
    else if bool_decide (m = "opoi.shard_result") then on_shard_result value
    else if bool_decide (m = "opoi.audit_result") then on_audit_result value
    else if bool_decide (m = "opoi.expert_result") then on_expert_result value
    else if bool_decide (m = "opoi.draft_result") then notification parse_draft_result handle_draft_result value
    else if bool_decide (m = "opoi.kv_rollback_ack") then notification parse_kv_rollback_ack handle_kv_rollback_ack value
    else if bool_decide (m = "opoi.capabilities") then on_capabilities value
    else if bool_decide (m = "mining.authorize") then on_authorize line value
    else up_send line
  end.

(** ** Lines of the pool *)

(** [id == 2] and [result == true]. *)
Definition accepts (value : option Value) : bool :=
  bool_decide ((v ← value; i ← get_key "id" v; as_i64 i) = Some 2%Z)
  && bool_decide ((v ← value; r ← get_key "result" v; as_bool r) = Some true).

(** One turn of [up_reader_loop]. *)
Definition up_line (line : string) : M SS () :=
  let value := json_parse line in
  if match method_of value with Some m => starts_with "opoi." m | None => false end then mret ()
  else
    _ ← (if accepts value then
           candidate ← my ss_pending;
           _ ← mine (λ c, c <| ss_pending := None |>);
           match candidate with
           | None => mret ()
           | Some wallet =>
             _ ← mine (λ c, c <| ss_confirmed := Some wallet |>);
             tx ← my ss_chan;
             shared (in_shared (reg (register wallet tx)))
           end
         else mret ());
    down_send (MRelay line).

(** ** The end of the session *)

(** The wallet goes: out of the registry, then out of every engine. *)
Definition release (wallet : string) : M S () :=
  _ ← in_shared (reg (unregister wallet));
  _ ← opoi_on_disconnect wallet;
  _ ← shard_on_disconnect wallet;
  _ ← speculative_on_disconnect wallet;
  _ ← audit_on_disconnect wallet;
  expert_on_disconnect wallet.

(** Whichever reader ends first: the other one is dropped, and with it a shard
    result it was handling. *)
Definition end_session : M SS () :=
  _ ← mine (λ c, c <| ss_busy := None |>);
  confirmed_wallet ← my ss_confirmed;
  _ ← match confirmed_wallet with
      | None => mret ()
      | Some wallet => shared (release wallet)
      end;
  tx ← my ss_chan;
  _ ← shared (in_shared (net (modify (λ n, n <| open_chans := open_chans n ∖ {[tx]} |>))));
  mine (λ c, c <| ss_open := false |>).

(** A shard result that waited is dealt with; [None]: the handler panicked. *)
Definition shard_resumed (o : option (result () AppError)) : M SS () :=
  busy ← my ss_busy;
  match busy with
  | None => mret ()
  | Some (id, _) =>
    _ ← mine (λ c, c <| ss_busy := None |>);
    match o with
    | Some r => down_send (shard_line id r)
    | None => mine (λ c, c <| ss_open := false |>)
    end
  end.

(** ** Events of a session *)

Inductive session_event : Type :=
| Down (line : string)
| Up (line : string)
| Resumed (o : option (result () AppError))
| Closed.

(** The next line of the miner is read when the session is not busy. *)
Definition reads (c : Session W) (e : session_event) : bool :=
  ss_open c && match e with Down _ => bool_decide (ss_busy c = None) | _ => true end.

Definition session_event_run (e : session_event) : M SS () :=
  match e with
  | Down line => down_line line
  | Up line => up_line line
  | Resumed o => shard_resumed o
  | Closed => end_session
  end.
Definition session_step (e : session_event) : M SS () := λ x, if reads x.2 e then session_event_run e x else ((), x).
End session.

(** ** What is to hold *)

(** The methods the bridge keeps to itself. *)
Definition own_methods : list string :=
  ["opoi.submit_result"; "opoi.shard_result"; "opoi.audit_result"; "opoi.expert_result"; "opoi.draft_result";
   "opoi.kv_rollback_ack"; "opoi.capabilities"].
(** A miner's line that goes on to the pool. *)
Definition relayed `{JsonText} (line : string) : bool :=
  match method_of (json_parse line) with Some m => negb (bool_decide (m ∈ own_methods)) | None => true end.
(** The wallet a miner's line asks to authorize. *)
Definition authorizes `{JsonText} (line : string) : option string :=
  let value := json_parse line in
  match method_of value with
  | Some m => if bool_decide (m = "mining.authorize") then wallet_only <$> (p ← param0 value; as_str p) else None
  | None => None
  end.
Definition opoi_line `{JsonText} (line : string) : bool :=
  match method_of (json_parse line) with Some m => starts_with "opoi." m | None => false end.
(** A pool's line that confirms the authorization asked for. *)
Definition accepting `{JsonText} (line : string) : bool := negb (opoi_line line) && accepts (json_parse line).

Section runs.
Context {S W : Type} `{SharedWorld S, OpoiHandler S, ShardHandler S W, SpeculativeHandler S, AuditHandler S, ExpertHandler S, JsonText}.
Notation SS := (S * Session W)%type.

(** The session's events, the rest of the bridge doing anything in between. *)
Inductive session_run (x : SS) : list session_event → SS → Prop :=
| run_start : session_run x [] x
| run_event evs y e : session_run x evs y → reads y.2 e = true → session_run x (evs ++ [e]) (session_event_run e y).2
| run_other evs s s' c : session_run x evs (s, c) → session_run x evs (s', c).

Definition downs (evs : list session_event) : list string := omap (λ e, match e with Down l => Some l | _ => None end) evs.

(** Neither asks for another wallet nor confirms one. *)
Definition no_auth (e : session_event) : Prop :=
  match e with Down l => authorizes l = None | Up l => accepting l = false | _ => True end.

(** What an event does to the session's identity and to the lines for the pool. *)
Definition pending_after (e : session_event) (c : Session W) : option string :=
  match e with
  | Down l => match authorizes l with Some w => Some w | None => ss_pending c end
  | Up l => if accepting l then None else ss_pending c
  | _ => ss_pending c
  end.
Definition confirmed_after (e : session_event) (c : Session W) : option string :=
  match e with
  | Up l => if accepting l then match ss_pending c with Some w => Some w | None => ss_confirmed c end else ss_confirmed c
  | _ => ss_confirmed c
  end.
Definition up_after (e : session_event) : list string :=
  match e with Down l => if relayed l then [l] else [] | _ => [] end.

(** ** Lemmas *)

Definition same_identity (x y : SS) : Prop :=
  ss_chan y.2 = ss_chan x.2 ∧ ss_pending y.2 = ss_pending x.2 ∧ ss_confirmed y.2 = ss_confirmed x.2 ∧ ss_up y.2 = ss_up x.2.
#[local] Instance same_identity_preorder : PreOrder same_identity.
Proof. split; [by intros x|]. intros x y z (?&?&?&?) (?&?&?&?). unfold same_identity. split_and!; congruence. Qed.

Lemma identity_shared {A} (m : M S A) : steps same_identity (shared m).
Proof. intros x. unfold shared. by destruct (m x.1). Qed.
Lemma identity_my {A} (f : Session W → A) : steps same_identity (my f).
Proof. by intros x. Qed.
Lemma identity_mine f : (∀ c, ss_chan (f c) = ss_chan c ∧ ss_pending (f c) = ss_pending c ∧ ss_confirmed (f c) = ss_confirmed c
                              ∧ ss_up (f c) = ss_up c) → steps same_identity (mine f).
Proof. intros Hf x. apply Hf. Qed.
#[local] Hint Resolve identity_shared identity_my : steps.
Lemma identity_down_send m : steps same_identity (down_send m).
Proof. unfold down_send. peel. Qed.
#[local] Hint Resolve identity_down_send : steps.
#[local] Hint Extern 2 (steps same_identity (mine _)) => apply identity_mine; intros []; done : steps.

Lemma identity_request {P} method (parse : Value → option P) error handle value :
  (∀ id w p, steps same_identity (handle id w p)) → steps same_identity (request method parse error handle value).
Proof. intros Hh. unfold request. peel. Qed.
Lemma identity_notification {P} (parse : Value → option P) (handle : string → P → M S ()) value :
  steps same_identity (notification parse handle value).
Proof. unfold notification. peel. Qed.
Lemma identity_capabilities value : steps same_identity (on_capabilities value).
Proof. unfold on_capabilities. peel. Qed.
Lemma identity_submit value : steps same_identity (on_submit_result value).
Proof. apply identity_request. intros. peel. Qed.
Lemma identity_shard value : steps same_identity (on_shard_result value).
Proof. apply identity_request. intros. peel. Qed.
Lemma identity_audit value : steps same_identity (on_audit_result value).
Proof. apply identity_request. intros. peel. Qed.
Lemma identity_expert value : steps same_identity (on_expert_result value).
Proof. apply identity_request. intros. peel. Qed.
Lemma identity_resumed o : steps same_identity (shard_resumed o).
Proof. unfold shard_resumed. peel. Qed.
Lemma identity_end : steps same_identity end_session.
Proof. unfold end_session. peel. Qed.

Lemma up_send_session line (x : SS) :
  let c' := (up_send line x).2.2 in
  ss_chan c' = ss_chan x.2 ∧ ss_pending c' = ss_pending x.2 ∧ ss_confirmed c' = ss_confirmed x.2 ∧ ss_up c' = ss_up x.2 ++ [line].
Proof. by destruct x as [s []]. Qed.

(** A line of the miner: whose it is, and where it goes. *)
Lemma down_line_session line (x : SS) :
  let c' := (down_line line x).2.2 in
  ss_chan c' = ss_chan x.2 ∧ ss_pending c' = pending_after (Down line) x.2 ∧ ss_confirmed c' = ss_confirmed x.2
  ∧ ss_up c' = ss_up x.2 ++ up_after (Down line).
Proof.
  unfold down_line, pending_after, up_after, authorizes, relayed. set (value := json_parse line).
  destruct (method_of value) as [m|]; [|apply up_send_session].
  assert (Hsame : ∀ k : M SS (), steps same_identity k → m ∈ own_methods →
    let c' := (k x).2.2 in
    ss_chan c' = ss_chan x.2
    ∧ ss_pending c' = match (if bool_decide (m = "mining.authorize") then wallet_only <$> (p ← param0 value; as_str p) else None) with
                      | Some w => Some w | None => ss_pending x.2 end
    ∧ ss_confirmed c' = ss_confirmed x.2 ∧ ss_up c' = ss_up x.2 ++ (if negb (bool_decide (m ∈ own_methods)) then [line] else [])).
  { intros k Hk Hm. destruct (Hk x) as (E1 & E2 & E3 & E4). rewrite (bool_decide_true (m ∈ _)) by done.
    rewrite bool_decide_false by (intros ->; revert Hm; apply (bool_decide_unpack _); vm_compute; done). cbn. by rewrite E1, E2, E3, E4, app_nil_r. }
  assert (Hown : m ∈ own_methods ↔ m = "opoi.submit_result" ∨ m = "opoi.shard_result" ∨ m = "opoi.audit_result" ∨ m = "opoi.expert_result"
    ∨ m = "opoi.draft_result" ∨ m = "opoi.kv_rollback_ack" ∨ m = "opoi.capabilities").
  { unfold own_methods. rewrite !elem_of_cons, elem_of_nil. tauto. }
  destruct (bool_decide_reflect (m = "opoi.submit_result")) as [E|N1]; [apply Hsame; [apply identity_submit|tauto]|].
  destruct (bool_decide_reflect (m = "opoi.shard_result")) as [E|N2]; [apply Hsame; [apply identity_shard|tauto]|].
  destruct (bool_decide_reflect (m = "opoi.audit_result")) as [E|N3]; [apply Hsame; [apply identity_audit|tauto]|].
  destruct (bool_decide_reflect (m = "opoi.expert_result")) as [E|N4]; [apply Hsame; [apply identity_expert|tauto]|].
  destruct (bool_decide_reflect (m = "opoi.draft_result")) as [E|N5]; [apply Hsame; [apply identity_notification|tauto]|].
  destruct (bool_decide_reflect (m = "opoi.kv_rollback_ack")) as [E|N6]; [apply Hsame; [apply identity_notification|tauto]|].
  destruct (bool_decide_reflect (m = "opoi.capabilities")) as [E|N7]; [apply Hsame; [apply identity_capabilities|tauto]|]. clear Hsame.
  rewrite (bool_decide_false (m ∈ own_methods)) by tauto. cbn [negb].
  case_bool_decide; [|apply up_send_session]. unfold on_authorize. rewrite bind_run.
  change (param0 value ≫= as_str) with (p ← param0 value; as_str p). destruct x as [s []].
  by destruct (p ← param0 value; as_str p).
Qed.

Lemma down_send_same m (x : SS) : same_identity x (down_send m x).2.
Proof. apply identity_down_send. Qed.

Lemma up_line_session line (x : SS) :
  let c' := (up_line line x).2.2 in
  ss_chan c' = ss_chan x.2 ∧ ss_pending c' = pending_after (Up line) x.2 ∧ ss_confirmed c' = confirmed_after (Up line) x.2
  ∧ ss_up c' = ss_up x.2.
Proof.
  unfold up_line, pending_after, confirmed_after, accepting, opoi_line. set (value := json_parse line).
  destruct (match method_of value with Some m => _ | None => false end); [done|]. cbn [negb andb]. rewrite bind_run.
  destruct (accepts value); [|apply down_send_same]. rewrite bind_run. cbn [my]. rewrite bind_run. cbn [mine].
  destruct x as [s [tx [w|] conf up busy op]]; cbn [ss_pending fst snd].
  - rewrite bind_run. cbn [mine]. rewrite bind_run. cbn [my]. unfold shared. cbn [fst snd].
    destruct (in_shared _ s) as [[] s1]. destruct (down_send_same (MRelay line) (s1, mkSession tx None (Some w) up busy op)) as (E1 & E2 & E3 & E4).
    cbn in *. unfold constant in *. by rewrite E1, E2, E3, E4.
  - destruct (down_send_same (MRelay line) (s, mkSession tx None conf up busy op)) as (E1 & E2 & E3 & E4).
    cbn in *. unfold constant in *. by rewrite E1, E2, E3, E4.
Qed.

Lemma event_session e (x : SS) :
  let c' := (session_event_run e x).2.2 in
  ss_chan c' = ss_chan x.2 ∧ ss_pending c' = pending_after e x.2 ∧ ss_confirmed c' = confirmed_after e x.2
  ∧ ss_up c' = ss_up x.2 ++ up_after e.
Proof.
  destruct e as [line|line|o|]; cbn [session_event_run up_after].
  - apply down_line_session.
  - destruct (up_line_session line x) as (?&?&?&E). cbv zeta. by rewrite E, app_nil_r.
  - destruct (identity_resumed o x) as (?&?&?&E). cbv zeta. by rewrite E, app_nil_r.
  - destruct (identity_end x) as (?&?&?&E). cbv zeta. by rewrite E, app_nil_r.
Qed.

(** *** What a line does to the rest *)

Definition harmless (s : S) (c : Session W) (x' : SS) : Prop :=
  (x'.1 = s ∨ ∃ id err, x'.1 = (in_shared (net (net_send (ss_chan c) (MReply (reply id Null err)))) s).2)
  ∧ ss_confirmed x'.2 = ss_confirmed c ∧ ss_busy x'.2 = ss_busy c ∧ ss_open x'.2 = ss_open c.

Lemma harmless_send s c id err : harmless s c (down_send (MReply (reply id Null err)) (s, c)).2.
Proof.
  unfold down_send, ignore. rewrite bind_run. cbn [my fst snd]. rewrite bind_run. unfold shared. cbn [fst snd].
  split; [|by destruct (in_shared _ s)]. right. exists id, err. by destruct (in_shared _ s).
Qed.

Lemma net_send_sent tx m w :
  sent (w_net (net (net_send tx m) w).2) = sent (w_net w) ++ (if bool_decide (tx ∈ open_chans (w_net w)) then [(tx, m)] else []).
Proof. destruct w as [c d r [o l]]. unfold net, zoom, net_send. cbn. case_bool_decide; [done|]. by rewrite app_nil_r. Qed.

Lemma down_send_sent m (x : SS) :
  sent (w_net (world_of (down_send m x).2.1)) = sent (w_net (world_of x.1))
    ++ (if bool_decide (ss_chan x.2 ∈ open_chans (w_net (world_of x.1))) then [(ss_chan x.2, m)] else []).
Proof.
  unfold down_send, ignore. rewrite bind_run. cbn [my]. rewrite bind_run. unfold shared, in_shared, zoom. cbn [fst snd].
  rewrite <-net_send_sent. destruct (net (net_send (ss_chan x.2) m) (world_of x.1)) as [ok w]. cbn. by rewrite world_of_with.
Qed.

(** Granting a wallet touches the registry, no channel. *)
Lemma grant_net (b : bool) (y : SS) :
  let m := if b then
      candidate ← my ss_pending;
      _ ← mine (λ c, c <| ss_pending := None |>);
      match candidate with
      | None => mret ()
      | Some wallet =>
        _ ← mine (λ c, c <| ss_confirmed := Some wallet |>);
        tx ← my ss_chan;
        shared (in_shared (reg (register wallet tx)))
      end
    else mret () in
  w_net (world_of (m y).2.1) = w_net (world_of y.1) ∧ ss_chan (m y).2.2 = ss_chan y.2.
Proof.
  destruct b; [|done]. destruct y as [s [tx [w|] conf up busy op]]; [|done]. cbv zeta.
  rewrite bind_run. cbn [my]. rewrite bind_run. cbn [mine fst snd ss_pending]. rewrite bind_run. cbn [mine]. rewrite bind_run. cbn [my].
  unfold shared, in_shared, zoom, reg, modify. cbn [fst snd]. rewrite world_of_with. by destruct (world_of s).
Qed.

(** A miner asked for [w], and nothing about its identity happened since. *)
Definition asked (evs : list session_event) (w : string) : Prop :=
  ∃ e1 l e2, evs = e1 ++ Down l :: e2 ∧ authorizes l = Some w ∧ Forall no_auth e2.
(** The pool then accepted. *)
Definition granted (evs : list session_event) (w : string) : Prop :=
  ∃ e1 u e2, evs = e1 ++ Up u :: e2 ∧ asked e1 w ∧ accepting u = true.

Lemma asked_snoc evs e w : asked evs w → no_auth e → asked (evs ++ [e]) w.
Proof.
  intros (e1 & l & e2 & -> & Ha & Hf) He. exists e1, l, (e2 ++ [e]). rewrite <-app_assoc. split; [done|]. split; [done|].
  apply Forall_app. auto.
Qed.
Lemma granted_snoc evs e w : granted evs w → granted (evs ++ [e]) w.
Proof. intros (e1 & l & e2 & -> & Ha & Hu). exists e1, l, (e2 ++ [e]). by rewrite <-app_assoc. Qed.

(** A session is as it was asked to be, and keeps being so. *)
Definition vouched_for (evs : list session_event) (c : Session W) : Prop :=
  (∀ w, ss_pending c = Some w → asked evs w) ∧ (∀ w, ss_confirmed c = Some w → granted evs w).
Lemma vouched_step evs e (c c' : Session W) : vouched_for evs c →
  ss_pending c' = pending_after e c → ss_confirmed c' = confirmed_after e c → vouched_for (evs ++ [e]) c'.
Proof.
  intros [IHp IHc] Ep Ec. unfold vouched_for. rewrite Ep, Ec. clear Ep Ec. split; intros w.
  - unfold pending_after. destruct e as [l|u|o|]; try (intros Hw; apply asked_snoc; [by apply IHp|done]).
    + destruct (authorizes l) as [w'|] eqn:Ha; [|intros Hw; apply asked_snoc; [by apply IHp|done]].
      intros [= ->]. by exists evs, l, [].
    + destruct (accepting u) eqn:Ha; [done|]. intros Hw. apply asked_snoc; [by apply IHp|done].
  - unfold confirmed_after. destruct e as [l|u|o|]; try (intros Hw; by apply granted_snoc, IHc).
    destruct (accepting u) eqn:Ha; [|intros Hw; by apply granted_snoc, IHc].
    destruct (ss_pending c) as [w'|] eqn:Hp; [|intros Hw; by apply granted_snoc, IHc].
    intros [= ->]. exists evs, u, []. split; [done|]. split; [by apply IHp|done].
Qed.
Lemma run_identity s tx evs (y : SS) : session_run (s, new_session tx) evs y → vouched_for evs y.2.
Proof.
  induction 1 as [|evs y e Hrun IH Hr|evs s1 s2 c Hrun IH]; [done| |exact IH].
  destruct (event_session e y) as (_ & Ep & Ec & _). by eapply vouched_step.
Qed.

Lemma omap_app_downs evs e : omap (λ l, if relayed l then Some l else None) (downs (evs ++ [e]))
  = omap (λ l, if relayed l then Some l else None) (downs evs) ++ up_after e.
Proof. unfold downs. rewrite !omap_app. f_equal. destruct e as [l| | |]; try done. cbn. by destruct (relayed l). Qed.
End runs.

(** ** A sample bridge: a world, and engines that refuse everything *)

#[export] Instance world_shared : SharedWorld World := {| world_of := λ w, w; with_world := λ w _, w; world_of_with := λ _ _, eq_refl |}.
Definition sample_json (line : string) : option Value :=
  if bool_decide (line = "auth bob") then Some (Object [("id", u 2); ("method", Str "mining.authorize"); ("params", Array [Str "SOLO:bob.rig"])])
  else if bool_decide (line = "auth eve") then Some (Object [("id", u 2); ("method", Str "mining.authorize"); ("params", Array [Str "eve"])])
  else if bool_decide (line = "accept") then Some (Object [("id", u 2); ("result", Bool true)])
  else if bool_decide (line = "result") then Some (Object [("id", u 7); ("method", Str "opoi.submit_result"); ("params", Array [])])
  else None.
Definition sample_text : JsonText := {| json_parse := sample_json |}.
Definition quiet_opoi : OpoiHandler World := {| handle_submit_result := λ _ _ w, (Err UnknownRequest, w); opoi_on_disconnect := λ _, mret () |}.
Definition quiet_shard : ShardHandler World () := {| handle_shard_result := λ _ _ w, (Answered (Err UnknownRequest), w); shard_on_disconnect := λ _, mret () |}.
Definition quiet_spec : SpeculativeHandler World :=
  {| handle_draft_result := λ _ _, mret (); handle_kv_rollback_ack := λ _ _, mret (); speculative_on_disconnect := λ _, mret () |}.
Definition quiet_audit : AuditHandler World := {| handle_audit_result := λ _ _ w, (Err UnknownRequest, w); audit_on_disconnect := λ _, mret () |}.
Definition quiet_expert : ExpertHandler World := {| handle_expert_result := λ _ _ w, (Err UnknownRequest, w); expert_on_disconnect := λ _, mret () |}.
Definition two_channels : World := mkWorld [] (empty_db []) new_registry (mkNet {[1; 2]}%N []).

(** ** Properties *)

Section properties.
Context {S W : Type} `{SharedWorld S, OpoiHandler S, ShardHandler S W, SpeculativeHandler S, AuditHandler S, ExpertHandler S, JsonText}.
Notation SS := (S * Session W)%type.

(** C21. A session acts for a wallet only after the pool vouched for it: whatever
    lines come in and whatever the engines do, a confirmed wallet is one the miner
    asked for with [mining.authorize] and the pool accepted, with no other
    request or acceptance in between. *)
Theorem confirmed_by_pool (s : S) (tx : chan) (evs : list session_event) (y : SS) (w : string) :
  session_run (s, new_session tx) evs y → ss_confirmed y.2 = Some w →
  ∃ e1 l e2 u e3, evs = e1 ++ Down l :: e2 ++ Up u :: e3
    ∧ authorizes l = Some w ∧ Forall no_auth e2 ∧ accepting u = true.
Proof.
  intros Hrun Hw. destruct (run_identity s tx evs y Hrun) as [_ Hc]. destruct (Hc w Hw) as (a1 & u & e3 & -> & (e1 & l & e2 & -> & Ha & Hn) & Hu).
  exists e1, l, e2, u, e3. by rewrite <-app_assoc.
Qed.

(** C22. A connection the pool has not vouched for can do nothing: whatever it
    sends, no engine is called, no registry or database is touched; at most its
    own channel gets one error reply, and the line may go on to the pool. *)
Theorem unconfirmed_is_harmless (s : S) (c : Session W) (line : string) (Hc : ss_confirmed c = None) :
  let x' := (down_line line (s, c)).2 in
  (x'.1 = s ∨ ∃ id err, x'.1 = (in_shared (net (net_send (ss_chan c) (MReply (reply id Null err)))) s).2)
  ∧ ss_confirmed x'.2 = None ∧ ss_busy x'.2 = ss_busy c ∧ ss_open x'.2 = ss_open c.
Proof.
  assert (Hreq : ∀ P method (parse : Value → option P) error handle value, (∀ id err, error id err = reply id Null err) →
    harmless s c (request method parse error handle value (s, c)).2).
  { intros P method parse error handle value He. unfold request. destruct (param0 value ≫= parse) as [p|].
    - rewrite bind_run. cbn [my fst snd]. rewrite Hc, He. apply harmless_send.
    - rewrite He. apply harmless_send. }
  assert (Hstay : harmless s c (s, c)) by (split; [by left|done]).
  assert (Hup : harmless s c (up_send line (s, c)).2) by (destruct c; split; [by left|done]).
  enough (harmless s c (down_line line (s, c)).2) as [Hs (E1 & E2 & E3)] by (cbv zeta; by rewrite E1).
  unfold down_line. set (value := json_parse line). destruct (method_of value) as [m|]; [|exact Hup].
  do 4 (destruct (bool_decide _); [by apply Hreq|]).
  do 2 (destruct (bool_decide _); [unfold notification; rewrite bind_run; cbn [my fst snd]; rewrite Hc; by destruct (_ ≫= _)|]).
  destruct (bool_decide _); [unfold on_capabilities; rewrite bind_run; cbn [my fst snd]; by rewrite Hc|].
  destruct (bool_decide _); [|exact Hup]. unfold on_authorize. rewrite bind_run. destruct c.
  destruct (param0 value ≫= as_str); split; try (by left); done.
Qed.

(** Lines as the readers return them are written one per line. *)
Lemma written_clean ls : Forall clean ls → written ls = unlines ls.
Proof.
  induction 1 as [|l ls [Hn _] _ IH]; [done|]. cbn [written unlines]. rewrite IH. unfold framed.
  rewrite bool_decide_false by (by intros Hl%last_Some_elem_of). apply append_assoc.
Qed.

Lemma session_up x y evs : session_run x evs y →
  ss_up y.2 = ss_up x.2 ++ omap (λ l, if relayed l then Some l else None) (downs evs).
Proof.
  induction 1 as [|evs y e Hrun IH Hr|evs s1 s2 c Hrun IH]; [by rewrite app_nil_r| |exact IH].
  destruct (event_session e y) as (_ & _ & _ & E). cbv zeta in E. by rewrite E, IH, omap_app_downs, <-app_assoc.
Qed.

(** C23. The proxy is transparent: over a whole session the pool is sent exactly
    the miner's lines that are not the bridge's own methods, unchanged and in
    order; and of the pool's lines the miner gets every one, as it came, but
    those that claim to be [opoi.*]. *)
Theorem relay_transparent (x y : SS) (evs : list session_event) (Hrun : session_run x evs y) :
  ss_up y.2 = ss_up x.2 ++ omap (λ l, if relayed l then Some l else None) (downs evs)
  ∧ ∀ line, let sent_by z := sent (w_net (world_of (fst z))) in
      sent_by (up_line line y).2 = sent_by y ++
        (if negb (opoi_line line) && bool_decide (ss_chan y.2 ∈ open_chans (w_net (world_of y.1))) then [(ss_chan y.2, MRelay line)] else []).
Proof.
  split.
  - by apply session_up.
  - intros line. cbv zeta. unfold up_line. fold (opoi_line line). destruct (opoi_line line); [by rewrite app_nil_r|].
    cbn [negb andb]. rewrite bind_run. set (m := if accepts _ then _ else _).
    assert (Hm : w_net (world_of (m y).2.1) = w_net (world_of y.1) ∧ ss_chan (m y).2.2 = ss_chan y.2) by apply grant_net.
    destruct (m y) as [[] z]. cbn [snd] in Hm. destruct Hm as [En Ec]. rewrite <-En, <-Ec. apply down_send_sent.
Qed.
(** Down to the bytes: of a miner whose input has no carriage return, the pool
    reads the relayed lines as they were sent. *)
Theorem relayed_bytes (x y : SS) (evs : list session_event) (input : string) :
  session_run x evs y → ss_up x.2 = [] → "013"%char ∉ ascii_list input → downs evs `prefix_of` str_lines input →
  str_lines (written (ss_up y.2)) = omap (λ l, if relayed l then Some l else None) (downs evs).
Proof.
  intros Hrun Hx Hcr [rest Hin]. rewrite (session_up _ _ _ Hrun), Hx, app_nil_l.
  pose proof (lines_clean input Hcr) as Hc. rewrite Hin, Forall_app in Hc. destruct Hc as [Hc _].
  assert (Forall clean (omap (λ l, if relayed l then Some l else None) (downs evs))) as Ho.
  { apply Forall_forall. intros l (l' & Hl & He)%list_elem_of_omap. rewrite Forall_forall in Hc.
    destruct (relayed l'); [|done]. injection He as <-. by apply Hc. }
  by rewrite written_clean, lines_unlines.
Qed.
End properties.

(** ** Witnesses and examples *)

Section examples.
Existing Instances sample_text quiet_opoi quiet_shard quiet_spec quiet_audit quiet_expert.

Definition authorized_run : list session_event := [Down "auth bob"] ++ [Up "accept"].
Definition authorized_end : World * Session () :=
  (session_event_run (Up "accept") (session_event_run (Down "auth bob") (two_channels, new_session 1%N)).2).2.
Lemma authorized_session : session_run (two_channels, new_session 1%N) authorized_run authorized_end.
Proof.
  apply (run_event (W := ()) _ [Down "auth bob"] (session_event_run (Down "auth bob") (two_channels, new_session 1%N)).2 (Up "accept")); [|done].
  by apply (run_event (W := ()) _ [] (two_channels, new_session 1%N) (Down "auth bob")); [apply run_start|].
Qed.

(** Two connections authorized as one wallet: closing the first unregisters the
    wallet the second still serves. *)
Lemma first_close_unregisters_second :
  let a := (for_each session_event_run [Down "auth bob"; Up "accept"] (two_channels, new_session (W := ()) 1%N)).2 in
  let b := (for_each session_event_run [Down "auth bob"; Up "accept"] (a.1, new_session (W := ()) 2%N)).2 in
  let closed := (session_event_run Closed (b.1, a.2)).2 in
  MinerRegistry.get "bob" (w_reg b.1) = Some 2%N ∧ MinerRegistry.get "bob" (w_reg closed.1) = None
  ∧ ss_confirmed b.2 = Some "bob" ∧ ss_open b.2 = true.
Proof. vm_compute. done. Qed.

(** A connection that authorizes again as another wallet: the first wallet stays
    registered on its channel when the connection is gone, and is still picked. *)
Lemma reauthorize_leaks_wallet :
  let x := (for_each session_event_run [Down "auth bob"; Up "accept"; Down "auth eve"; Up "accept"; Closed]
              (two_channels, new_session (W := ()) 1%N)).2 in
  pick_next None (w_reg x.1) = Some "bob" ∧ MinerRegistry.get "bob" (w_reg x.1) = Some 1%N ∧ 1%N ∉ open_chans (w_net x.1).
Proof. split_and!; [vm_compute; done..|]. apply (bool_decide_unpack _). vm_compute. done. Qed.

Lemma confirmed_by_pool_witness :
  ∃ e1 l e2 u e3, authorized_run = e1 ++ Down l :: e2 ++ Up u :: e3
    ∧ authorizes l = Some "bob" ∧ Forall no_auth e2 ∧ accepting u = true.
Proof. refine (confirmed_by_pool two_channels 1%N authorized_run _ "bob" authorized_session _). vm_compute. exact eq_refl. Defined.

Lemma unconfirmed_is_harmless_witness :
  ss_confirmed (down_line "result" (two_channels, new_session (W := ()) 1%N)).2.2 = None.
Proof. exact (proj1 (proj2 (unconfirmed_is_harmless two_channels (new_session (W := ()) 1%N) "result" eq_refl))). Defined.

Lemma relay_transparent_witness :
  ss_up authorized_end.2 = ["auth bob"].
Proof. rewrite (proj1 (relay_transparent _ _ _ authorized_session)). vm_compute. exact eq_refl. Defined.
End examples.
