(* ===== verification/Bridge.v ===== *)
(** * The whole bridge ([src/main.rs], [src/proxy/listener.rs], [src/http/], [src/state.rs], [src/opoi/topology_report.rs])

    One state with every component, the engines as the handlers of the sessions,
    the requester-facing HTTP API, the topology report and the startup sequence.
    The engines run on what they share exactly as the [Arc]s of [main] have it:
    one database, registry, csd client and stake pool.

    A shard result that needs experts waits with the dispatches it made
    ([ExpertWait]); polling them is an event of its own. *)

From S2P Require Import MinerRegistry AssignmentTracker StakePool RateLimit Config OpoiEngine Tensor ExpertDispatch ModelSource.
From S2P Require Import Pipeline ShardEngine Speculative B3LiteAudit Payout.
From S2P Require Export Session.

(** A shard result in the join barrier of its experts. *)
Record ExpertWait := mkExpertWait { ew_call : ExpertCall; ew_tasks : list Task }.

Record Bridge := mkBridge {
  br_cfg : Config;
  br_world : World;
  br_pool : StakePool;
  br_opoi : OpoiEngine.OpoiEngine;
  br_shard : ShardEngine.ShardEngine;
  br_spec : SpeculativeEngine;
  br_audit : B3LiteAuditor;
  br_disp : ExpertDispatcher;
  br_oneshots : list oneshot;
  br_limiter : RateLimiter;
  br_sessions : gmap N (Session ExpertWait);
  br_posted : list (string * string * Value);
  br_now : N
}.

#[export] Instance bridge_world : SharedWorld Bridge.
Proof. refine {| world_of := br_world; with_world := λ w b, b <| br_world := w |> |}. by intros w []. Defined.

Section bridge.
Context `{Csd, RowOrder, Crypto, HexError, MapIter, HttpGet, Marketplace, Tokenizers, Schedule, DisplayF64, JsonText}.

(** ** Running a component *)

Definition on_opoi {A} (m : M OpoiEngine.Sys A) : M Bridge A := λ b,
  let '(a, s) := m (mkSys (br_world b) (br_opoi b) (br_now b)) in (a, b <| br_world := sy_world s |> <| br_opoi := sy_engine s |>).

(** The stake pool is shared: the engine takes it over for the call. *)
Definition on_shard {A} (m : M (ShardSys SpeculativeEngine) A) : M Bridge A := λ b,
  let e := (br_shard b) <| se_stake_pool := br_pool b |> in
  let '(a, s) := m (mkShardSys (br_world b) e (Some (br_spec b)) (br_now b)) in
  (a, b <| br_world := x_world s |> <| br_shard := x_engine s |> <| br_pool := se_stake_pool (x_engine s) |>
        <| br_spec := default (br_spec b) (x_spec s) |>).
Definition on_spec {A} (m : M SpecSys A) : M Bridge A := λ b,
  let e := (br_spec b) <| sx_stake_pool := br_pool b |> in
  let '(a, s) := m (br_world b, e) in
  (a, b <| br_world := s.1 |> <| br_spec := s.2 |> <| br_pool := sx_stake_pool s.2 |>).
Definition on_audit {A} (m : M AuditSys A) : M Bridge A := λ b,
  let '(a, s) := m (br_world b, br_audit b) in (a, b <| br_world := s.1 |> <| br_audit := s.2 |>).
Definition on_disp {A} (m : M Disp A) : M Bridge A := λ b,
  let '(a, d) := m (mkDisp (br_disp b) (br_oneshots b) (br_world b)) in
  (a, b <| br_world := d_world d |> <| br_disp := d_disp d |> <| br_oneshots := d_chans d |>).

(** ** The engines as handlers *)

#[export] Instance bridge_opoi : OpoiHandler Bridge := {|
  handle_submit_result := λ w p, on_opoi (OpoiEngine.handle_submit_result w p);
  opoi_on_disconnect := λ w, on_opoi (OpoiEngine.on_disconnect w) |}.
#[export] Instance bridge_spec : SpeculativeHandler Bridge := {|
  handle_draft_result := λ w r, on_spec (Speculative.handle_draft_result w r);
  handle_kv_rollback_ack := λ w r, on_spec (Speculative.handle_kv_rollback_ack w r);
  speculative_on_disconnect := λ w, on_spec (on_spec_disconnect w) |}.
#[export] Instance bridge_audit : AuditHandler Bridge := {|
  handle_audit_result := λ w r, on_audit (B3LiteAudit.handle_audit_result w r);
  audit_on_disconnect := λ w, on_audit (B3LiteAudit.on_disconnect w) |}.
#[export] Instance bridge_expert : ExpertHandler Bridge := {|
  handle_expert_result := λ w r, on_disp (ExpertDispatch.handle_expert_result w r);
  expert_on_disconnect := λ w, on_disp (ExpertDispatch.on_disconnect w) |}.

(** The join barrier, and the handler after it once every expert is done. *)
Definition settle (c : ExpertCall) (tasks : list Task) : M Bridge (shard_answer ExpertWait) :=
  match join_all tasks with
  | None => mret (Suspended (mkExpertWait c tasks))
  | Some outcomes =>
    match join_group outcomes with
    | None => mret HandlerPanicked
    | Some combined => r ← on_shard (resume c combined); mret (Answered r)
    end
  end.
Definition begin_experts (c : ExpertCall) : M Bridge (shard_answer ExpertWait) :=
  g ← on_disp (dispatch_group (ec_job c) (ec_experts c) (λ _, ec_min_vram_mb c) (ec_pre_excluded c));
  match g with
  | Err e => r ← on_shard (resume c (Err e)); mret (Answered r)
  | Ok tasks => settle c tasks
  end.
#[export] Instance bridge_shard : ShardHandler Bridge ExpertWait := {|
  handle_shard_result := λ w r,
    o ← on_shard (handle_shard_result_inner w r);
    match o with
    | Finished r => mret (Answered r)
    | Panicked => mret HandlerPanicked
    | AwaitExperts c => begin_experts c
    end;
  shard_on_disconnect := λ w, on_shard (ShardEngine.on_disconnect w) |}.

(** One expert's future is polled. *)
Definition poll_expert (w : ExpertWait) (i : nat) (timed_out : bool) : M Bridge (shard_answer ExpertWait) :=
  match ew_tasks w !! i with
  | None => mret (Suspended w)
  | Some t =>
    t' ← on_disp (poll_task (ec_job (ew_call w)) timed_out t);
    settle (ew_call w) (<[i := t']> (ew_tasks w))
  end.

(** ** Sessions *)

(** A miner connects, the pool was dialled: a new session on a new channel. *)
Definition connect (tx : N) : M Bridge () := λ b,
  match br_sessions b !! tx with
  | Some _ => ((), b)
  | None =>
    ((), b <| br_world := (br_world b) <| w_net := (w_net (br_world b)) <| open_chans := {[tx]} ∪ open_chans (w_net (br_world b)) |> |> |>
           <| br_sessions := <[tx := new_session tx]> (br_sessions b) |>)
  end.

(** One turn of the listener: a failed accept changes nothing, and a connection
    whose pool cannot be dialled is dropped. *)
Inductive Incoming : Type :=
| AcceptFailed
| DialFailed
| Dialled (tx : N).
Definition accept (o : Incoming) : M Bridge () :=
  match o with AcceptFailed | DialFailed => mret () | Dialled tx => connect tx end.

Definition on_session (tx : N) (m : M (Bridge * Session ExpertWait) ()) : M Bridge () := λ b,
  match br_sessions b !! tx with
  | None => ((), b)
  | Some c => let '(_, (b', c')) := m (b, c) in ((), b' <| br_sessions := <[tx := c']> (br_sessions b') |>)
  end.

(** The experts a session waits for make progress. *)
Definition session_expert (i : nat) (timed_out : bool) : M (Bridge * Session ExpertWait) () :=
  busy ← my ss_busy;
  match busy with
  | None => mret ()
  | Some (id, w) =>
    o ← shared (poll_expert w i timed_out);
    match o with
    | Suspended w' => mine (λ c, c <| ss_busy := Some (id, w') |>)
    | Answered r => session_step (Resumed (Some r))
    | HandlerPanicked => session_step (Resumed None)
    end
  end.

(** ** The HTTP API *)

Inductive http_body : Type :=
| Text (s : string)
| Accepted
| SubmissionJson (sub : Submission)
| PendingJson (l : list PendingSnapshotEntry)
| TopologyJson (t : TopologySnapshot).
Definition http_response : Type := N * http_body.

Record PromptRequest := mkPromptRequest {
  pq_request_id : string;
  pq_prompt : string;
  pq_model : option string;
  pq_max_tokens : option N
}.

Definition constant_time_eq (a b : bytes) : bool :=
  if negb (length a =? length b)%nat then false
  else (fold_left (λ acc xy, N.lor acc (N.lxor (N_of_ascii xy.1) (N_of_ascii xy.2))) (zip a b) 0 =? 0)%N.

Definition healthz : M Bridge http_response :=
  r ← in_shared (db (exec (λ d, Some ((), d))));
  mret match r with Ok _ => (200%N, Text "ok") | Err _ => (503%N, Text "database unreachable") end.

Definition submit_prompt (peer : IpAddr) (provided : option string) (body : PromptRequest) : M Bridge http_response :=
  allowed ← (λ b, let '(ok, l) := check peer (br_now b) (br_limiter b) in (ok, b <| br_limiter := l |>));
  if negb (allowed : bool) then mret (429%N, Text "rate limit exceeded, slow down")
  else
    key ← gets (λ b, opoi_requester_api_key (br_cfg b));
    if negb (match provided with Some p => constant_time_eq (as_bytes p) (as_bytes key) | None => false end)
    then mret (401%N, Text "missing or invalid x-opoi-api-key")
    else
      let prompt_hex := hex_encode (as_bytes (pq_prompt body)) in
      _ ← on_shard (ShardEngine.receive_prompt (pq_request_id body) prompt_hex);
      r ← on_opoi (OpoiEngine.receive_prompt (pq_request_id body) prompt_hex (pq_model body) (pq_max_tokens body));
      mret match r with
           | Ok true => (200%N, Accepted)
           | Ok false => (404%N, Text "request_id not found on-chain")
           | Err _ => (500%N, Text "internal error")
           end.

Definition get_submission (request_id : string) : M Bridge http_response :=
  r ← in_shared (db (find_active_by_request_id request_id));
  mret match r with
       | Ok (Some sub) => (200%N, SubmissionJson sub)
       | Ok None => (404%N, Text "no active submission for this request_id")
       | Err _ => (500%N, Text "internal error")
       end.

Definition list_pending : M Bridge http_response :=
  gets (λ b, (200%N, PendingJson (pending_snapshot (br_opoi b)))).

Definition topology (request_id : string) : M Bridge (option TopologySnapshot) := λ b,
  on_shard (topology_snapshot (br_disp b) request_id) b.
Definition get_topology (request_id : string) : M Bridge http_response :=
  t ← topology request_id;
  mret match t with
       | Some snapshot => (200%N, TopologyJson snapshot)
       | None => (404%N, Text "no shard pipeline for this request_id right now")
       end.

(** ** The topology report *)

Definition opt_value {A} (enc : A → Value) (o : option A) : Value := match o with Some x => enc x | None => Null end.
Definition topology_expert_value (e : TopologyExpert) : Value :=
  Object [("expert_id", u (te_expert_id e)); ("wallet", opt_value Str (te_wallet e)); ("vram_mb", opt_value u (te_vram_mb e));
          ("activated", Bool (te_activated e))].
Definition topology_part_value (p : TopologyPart) : Value :=
  Object [("kind", Str (tp_kind p)); ("shard_index", u (tp_shard_index p)); ("layer_start", u (tp_layer_start p));
          ("layer_end", u (tp_layer_end p)); ("status", Str (tp_status p)); ("primary_wallet", opt_value Str (tp_primary_wallet p));
          ("primary_vram_mb", opt_value u (tp_primary_vram_mb p)); ("experts", Array (topology_expert_value <$> tp_experts p))].
Definition miner_value (m : MinerSnapshot) : Value :=
  Object [("wallet", Str (snap_wallet m)); ("draft_capable", Bool (snap_draft_capable m));
          ("auditor_capable", Bool (snap_auditor_capable m)); ("expert_capable", Bool (snap_expert_capable m));
          ("expert_vram_mb", opt_value u (snap_expert_vram_mb m)); ("banned", Bool (snap_banned m))].
Definition topology_value (t : TopologySnapshot) : Value :=
  Object [("request_id", Str (ts_request_id t)); ("model_id", Str (ts_model_id t)); ("arch_type", Str (ts_arch_type t));
          ("num_layers", u (ts_num_layers t)); ("current_pos", u (N.of_nat (ts_current_pos t)));
          ("current_token_index", u (ts_current_token_index t)); ("parts", Array (topology_part_value <$> ts_parts t));
          ("connected_miners", Array (miner_value <$> ts_connected_miners t))].

(** [map.insert("pool_id", ..)]; the order of an object's keys means nothing. *)
Definition with_pool_id (snapshot_json : Value) (pool_id : string) : Value :=
  match snapshot_json with
  | Object fs => Object (filter (λ kv, kv.1 ≠ "pool_id") fs ++ [("pool_id", Str pool_id)])
  | v => v
  end.

(** The POST's outcome is only traced. *)
Definition report_one (report_url api_key pool_id request_id : string) : M Bridge () :=
  t ← topology request_id;
  match t with
  | None => mret ()
  | Some snapshot =>
    modify (λ b, b <| br_posted := br_posted b ++ [(trim_end_slashes report_url +:+ "/report", api_key, with_pool_id (topology_value snapshot) pool_id)] |>)
  end.
Definition report_tick (report_url api_key pool_id : string) : M Bridge () :=
  ids ← on_shard active_request_ids;
  for_each (report_one report_url api_key pool_id) ids.

(** ** Startup *)

(** [main] between the construction of the components and the loops: an error
    ends the process. *)
Definition startup : M Bridge (result () AppError) :=
  cfg ← gets br_cfg;
  addrs ← gets (λ b, addresses (br_pool b));
  _ ←? in_shared (csd get_chain_height);
  _ ←? in_shared (ensure_stake addrs (opoi_collateral_txid cfg) (opoi_collateral_vout cfg) (opoi_endpoint cfg) (opoi_model_id cfg));
  _ ←? in_shared (recover_on_startup addrs);
  _ ← in_shared restore_bans;
  mret (Ok ()).

(** 30 requests per address and minute, in nanoseconds. *)
Definition prompt_rate_limiter : RateLimiter := new_rate_limiter 30 60000000000.

(** The state [main] builds: [None] when the stake pool's constructor panics. *)
Definition initial (cfg : Config) (w : World) (sources audit_sources : ModelSourceConfig) (drafts : gmap string DraftModelSource)
    (now : N) : option Bridge :=
  pool ← new_stake_pool (opoi_address_list cfg);
  Some {|
    br_cfg := cfg; br_world := w <| w_reg := new_registry |>; br_pool := pool;
    br_opoi := new_engine pool (stake_renew_blocks cfg);
    br_shard := new_shard_engine pool sources (from_config cfg);
    br_spec := new_speculative_engine pool drafts;
    br_audit := new_auditor audit_sources (auditor_cs_miner_bin cfg) (auditor_cache_dir cfg) (auditor_trusted_wallet_list cfg);
    br_disp := new_dispatcher; br_oneshots := []; br_limiter := prompt_rate_limiter; br_sessions := ∅; br_posted := []; br_now := now |}.

(** ** The loops of [main] *)

Inductive Timer : Type := PollAssign | PollStart | RetrySpeculative | AuditTick | PollReveal | Renew | PayoutTick | ReportTick.

(** The loops [main] spawns, with their intervals in milliseconds. *)
Definition timers (cfg : Config) : list (Timer * N) :=
  [(PollAssign, poll_interval_ms cfg); (PollStart, poll_interval_ms cfg); (RetrySpeculative, poll_interval_ms cfg)]
  ++ (match from_config cfg with Some _ => [(AuditTick, b3lite_audit_poll_interval_ms cfg)] | None => [] end)
  ++ [(PollReveal, reveal_poll_interval_ms cfg); (Renew, renew_interval_ms cfg); (PayoutTick, payout_interval_ms cfg)]
  ++ (if admin_report_enabled cfg then [(ReportTick, admin_report_interval_ms cfg)] else []).

(** One tick; its error is only traced.  A loop waits for its tick: the auditor
    is not asked again while a replay is under way. *)
Definition run_timer (t : Timer) : M Bridge () :=
  cfg ← gets br_cfg;
  match t with
  | PollAssign => ignore (on_opoi OpoiEngine.poll_and_assign_tick)
  | PollStart => ignore (on_shard poll_and_start_tick)
  | RetrySpeculative => on_spec retry_stalled_tick
  | AuditTick => now ← gets br_now; on_audit (audit_event_step (EvTick now))
  | PollReveal => ignore (in_shared poll_reveal_tick)
  | Renew =>
    addrs ← gets (λ b, addresses (br_pool b));
    in_shared (renew_tick addrs (Config.stake_renew_blocks cfg))
  | PayoutTick => in_shared (payout_tick (effective_payout_address cfg) (min_payout_cs cfg) (pool_fee_percent cfg))
  | ReportTick => report_tick (admin_report_url cfg) (admin_report_api_key cfg) (effective_admin_report_pool_id cfg)
  end.

(** ** Requests and detached tasks *)

Inductive HttpRequest : Type :=
| GetHealth
| PostPrompt (peer : IpAddr) (provided : option string) (body : PromptRequest)
| GetSubmission (request_id : string)
| GetPending
| GetTopology (request_id : string).
Definition serve (q : HttpRequest) : M Bridge http_response :=
  match q with
  | GetHealth => healthz
  | PostPrompt peer provided body => submit_prompt peer provided body
  | GetSubmission id => get_submission id
  | GetPending => list_pending
  | GetTopology id => get_topology id
  end.

(** The detached task at a place of an engine's queue runs. *)
Definition run_opoi_task (i : nat) : M Bridge () := on_opoi (
  q ← the OpoiEngine.tasks;
  match q !! i with
  | None => mret ()
  | Some t => _ ← eng (λ e, e <| OpoiEngine.tasks := delete i q |>); OpoiEngine.run_task t
  end).
Definition run_shard_queue (i : nat) : M Bridge () := on_shard (
  q ← ask se_tasks;
  match q !! i with
  | None => mret ()
  | Some t => _ ← engine (λ e, e <| se_tasks := delete i q |>); run_shard_task t
  end).
Definition run_spec_queue (i : nat) : M Bridge () := on_spec (
  q ← gets (λ s, sx_tasks s.2);
  match q !! i with
  | None => mret ()
  | Some t => _ ← spec (λ e, e <| sx_tasks := delete i q |>); run_spec_task t
  end).

End bridge.

(** ** What is to hold *)

(** Everything the engines may have handed to a miner, and the miner it is with. *)
Inductive WorkItem : Type :=
| OpoiJob (request_id : string)
| ShardStep (request_id : string)
| VerifyStep (request_id : string)
| DraftStep (request_id : string)
| DraftPin (request_id : string)
| AuditJob (request_id : string)
| ExpertStep (key : ExpertAssignmentKey).
Definition worker (b : Bridge) (k : WorkItem) : option string :=
  match k with
  | OpoiJob id => miner_wallet <$> OpoiEngine.assignments (br_opoi b) !! id
  | ShardStep id => as_wallet <$> se_assignments (br_shard b) !! id
  | VerifyStep id => ssa_wallet <$> sx_shard_assignments (br_spec b) !! id
  | DraftStep id => sx_draft_assignments (br_spec b) !! id
  | DraftPin id => sx_pipelines (br_spec b) !! id ≫= q_draft_wallet
  | AuditJob id => au_assignments (br_audit b) !! id
  | ExpertStep key => ExpertDispatch.assignments (br_disp b) !! key
  end.

(** The engine knows the request, the daemon does, or the requester describes it. *)
Definition known_request `{Csd} (id : string) (model : option string) (max_tokens : option N) (s : OpoiEngine.Sys) : bool :=
  bool_decide (is_Some (OpoiEngine.pending (sy_engine s) !! id))
  || match (get_request id (w_csd (sy_world s))).1 with Ok _ => true | Err _ => false end
  || bool_decide (is_Some model ∧ is_Some max_tokens).

(** ** Lemmas *)

Section lemmas.
Context `{Csd, RowOrder, Crypto, HexError, MapIter, HttpGet, Marketplace, Tokenizers, Schedule, DisplayF64, JsonText}.

Lemma constant_time_eq_spec a b : constant_time_eq a b = bool_decide (a = b).
Proof.
  unfold constant_time_eq. destruct (Nat.eqb_spec (length a) (length b)) as [Hl|Hl]; cbn [negb];
    [|by rewrite bool_decide_false by congruence].
  assert (Hfold : ∀ acc, fold_left (λ acc xy, N.lor acc (N.lxor (N_of_ascii xy.1) (N_of_ascii xy.2))) (zip a b) acc = 0%N ↔ acc = 0%N ∧ a = b).
  { revert b Hl. induction a as [|x a IH]; intros [|y b] Hl acc; try done; [by split; [|intros []]|].
    cbn. rewrite IH by (by injection Hl). rewrite N.lor_eq_0_iff, N.lxor_eq_0_iff. split.
    - intros [[-> Hxy] ->]. split; [done|]. f_equal. by rewrite <-(ascii_N_embedding x), <-(ascii_N_embedding y), Hxy.
    - by intros [-> [= -> ->]]. }
  apply eq_true_iff_eq. rewrite bool_decide_eq_true, N.eqb_eq, Hfold. tauto.
Qed.

(** *** A wallet leaves *)

Lemma stale_keys {K} `{Countable K} {V} `{EqDecision V} (m : gmap K V) (v : V) k :
  k ∈ filter (λ k, m !! k = Some v) (iter_keys m) ↔ m !! k = Some v.
Proof.
  rewrite list_elem_of_filter. split; [by intros []|]. intros Hk. split; [done|].
  rewrite iter_keys_perm. apply list_elem_of_fmap. exists (k, v). split; [done|]. by apply elem_of_map_to_list.
Qed.

(** Removing the stale keys is keeping the entries of the others. *)
Lemma without_stale {K} `{Countable K} {V} `{EqDecision V} (m m' : gmap K V) (v : V) :
  (∀ k, m' !! k = if decide (k ∈ filter (λ k, m !! k = Some v) (iter_keys m)) then None else m !! k) →
  m' = filter (λ kv, kv.2 ≠ v) m.
Proof.
  intros Hm. apply map_eq. intros k. rewrite Hm, map_lookup_filter. destruct (decide _) as [Hk|Hk]; rewrite stale_keys in Hk.
  - rewrite Hk. cbn. case_guard; done.
  - destruct (m !! k) as [v'|] eqn:E; [|done]. cbn. case_guard as Hg; [done|]. destruct Hg. congruence.
Qed.

Lemma audit_forgets ids (s : AuditSys) :
  (for_each forget_dispatch ids s).2.1 = s.1
  ∧ ∀ id, au_assignments (for_each forget_dispatch ids s).2.2 !! id = if decide (id ∈ ids) then None else au_assignments s.2 !! id.
Proof.
  revert s. induction ids as [|x ids IH]; intros s; [by split|]. cbn [for_each]. rewrite bind_run, forget_run.
  destruct (IH (s.1, forgotten x s.2)) as [-> Ha]. split; [done|]. intros id. rewrite Ha. cbn [snd].
  rewrite (proj1 (forgotten_fields x s.2)). destruct (decide (id = x)) as [->|Hne].
  - rewrite lookup_delete_eq. rewrite (decide_True (P := x ∈ x :: ids)) by (by left). by destruct (decide _).
  - rewrite lookup_delete_ne by done. apply decide_ext. rewrite elem_of_cons. tauto.
Qed.

Lemma audit_disconnect_run w (s : AuditSys) :
  (B3LiteAudit.on_disconnect w s).2.1 = s.1
  ∧ au_assignments (B3LiteAudit.on_disconnect w s).2.2 = filter (λ kv, kv.2 ≠ w) (au_assignments s.2).
Proof.
  unfold B3LiteAudit.on_disconnect. rewrite bind_run. cbn [own_gets]. destruct (audit_forgets (filter (λ id, au_assignments s.2 !! id = Some w) (iter_keys (au_assignments s.2))) s) as [E1 E2].
  split; [done|]. by apply without_stale.
Qed.

Lemma expert_disconnect_run w (d : Disp) :
  d_world (ExpertDispatch.on_disconnect w d).2 = d_world d
  ∧ ExpertDispatch.assignments (d_disp (ExpertDispatch.on_disconnect w d).2) = filter (λ kv, kv.2 ≠ w) (ExpertDispatch.assignments (d_disp d)).
Proof.
  unfold ExpertDispatch.on_disconnect. rewrite bind_run. cbn [gets].
  set (stale := filter _ _). destruct (forgets_maps stale d) as (Ha & _ & _ & Hw). split; [exact Hw|]. by apply without_stale.
Qed.

Lemma on_audit_state {A} (m : M AuditSys A) b :
  (on_audit m b).2 = b <| br_world := (m (br_world b, br_audit b)).2.1 |> <| br_audit := (m (br_world b, br_audit b)).2.2 |>.
Proof. unfold on_audit. by destruct (m _). Qed.
Lemma on_disp_state {A} (m : M Disp A) b :
  let d := (m (mkDisp (br_disp b) (br_oneshots b) (br_world b))).2 in
  (on_disp m b).2 = b <| br_world := d_world d |> <| br_disp := d_disp d |> <| br_oneshots := d_chans d |>.
Proof. unfold on_disp. by destruct (m _). Qed.

Lemma bind_proj {S A B} (m : M S A) (f : A → M S B) s : (m ≫= f) s = f (m s).1 (m s).2.
Proof. rewrite bind_run. by destruct (m s). Qed.

(** The registry loses the wallet, each engine its assignments; the audits and the
    expert dispatches by their own handlers. *)
Lemma release_all (w : string) (b : Bridge) :
  let b' := (release (S := Bridge) (W := ExpertWait) w b).2 in
  br_world b' = (br_world b) <| w_reg := unregister w (w_reg (br_world b)) |>
  ∧ br_sessions b' = br_sessions b
  ∧ (∀ k w', worker b' k = Some w' ↔ w' ≠ w ∧ worker b k = Some w').
Proof.
  cbv zeta. unfold release. rewrite bind_proj. set (b1 := (in_shared (reg (unregister w)) b).2). rewrite bind_proj. set (b2 := (opoi_on_disconnect w b1).2).
  rewrite bind_proj. set (b3 := (shard_on_disconnect w b2).2). rewrite bind_proj. set (b4 := (speculative_on_disconnect w b3).2).
  rewrite bind_proj. cbn [audit_on_disconnect bridge_audit expert_on_disconnect bridge_expert]. rewrite on_disp_state, on_audit_state.
  subst b4 b3 b2 b1. destruct b as [cfg [wc wd wr wn] pool [] [] [] au ds os li ses po no]. cbn. unfold constant.
  match goal with |- context [B3LiteAudit.on_disconnect w ?s] => destruct (audit_disconnect_run w s) as [Ew Ea] end.
  cbn [fst snd] in Ew, Ea. rewrite Ew.
  match goal with |- context [ExpertDispatch.on_disconnect w ?d] => destruct (expert_disconnect_run w d) as [Dw Da] end.
  cbn [d_world d_disp] in Dw, Da. rewrite Dw. split; [done|]. split; [done|].
  intros [id|id|id|id|id|id|key] w'; cbn; rewrite ?Ea, ?Da; unfold release_for_wallet.
  all: rewrite ?fmap_Some, ?bind_Some; repeat setoid_rewrite map_lookup_filter_Some; cbn; naive_solver congruence.
Qed.

Lemma shared_state {A} (m : M Bridge A) (x : Bridge * Session ExpertWait) : shared m x = ((m x.1).1, ((m x.1).2, x.2)).
Proof. unfold shared. by destruct (m x.1). Qed.
Lemma end_session_run (b : Bridge) (c : Session ExpertWait) (w : string) : ss_confirmed c = Some w →
  (end_session (b, c)).2 =
    ((in_shared (net (modify (λ n, n <| open_chans := open_chans n ∖ {[ss_chan c]} |>))) (release (W := ExpertWait) w b).2).2,
     c <| ss_busy := None |> <| ss_open := false |>).
Proof.
  intros Hw. destruct c as [tx pend conf up busy op]. cbn in Hw. subst conf.
  unfold end_session. rewrite bind_proj. cbn [mine my fst snd]. rewrite bind_proj. cbn [my fst snd].
  change (ss_confirmed _) with (Some w). cbn iota.
  do 3 (rewrite bind_proj, ?shared_state; cbn [mine my fst snd ss_chan]). done.
Qed.

(** *** A prompt arrives *)

Lemma receive_prompt_run id hex model max_tokens (s : OpoiEngine.Sys) :
  let '(r, s') := OpoiEngine.receive_prompt id hex model max_tokens s in
  r = Ok (known_request id model max_tokens s)
  ∧ (known_request id model max_tokens s = false → sy_engine s' = sy_engine s)
  ∧ (known_request id model max_tokens s = true → ∃ e, OpoiEngine.pending (sy_engine s') !! id = Some e ∧ pr_prompt_hex e = Some hex)
  ∧ w_db (sy_world s') = w_db (sy_world s) ∧ w_reg (sy_world s') = w_reg (sy_world s) ∧ w_net (sy_world s') = w_net (sy_world s).
Proof.
  unfold OpoiEngine.receive_prompt, known_request. destruct s as [[wc wd wr wn] e now]. rewrite bind_run. cbn [the gets sy_engine].
  destruct (OpoiEngine.pending e !! id) as [e'|] eqn:Hp.
  - cbn. split_and!; try done. intros _. eexists. split; [apply lookup_insert_eq|done].
  - rewrite bind_run. unfold OpoiEngine.world, csd, zoom. cbn [sy_world w_csd]. destruct (get_request id wc) as [[q|er] log]; cbn.
    + split_and!; try done. intros _. eexists. split; [apply lookup_insert_eq|done].
    + destruct model as [m|], max_tokens as [t|]; cbn; split_and!; try done.
      intros _. eexists. split; [apply lookup_insert_eq|done].
Qed.
End lemmas.

(** ** Properties *)

Section properties.
Context `{Csd, RowOrder, Crypto, HexError, MapIter, HttpGet, Marketplace, Tokenizers, Schedule, DisplayF64, JsonText}.

(** C24. The end of a connection releases everything its wallet held, in every
    engine at once, and nothing of anybody else: afterwards no work item of the
    bridge is with that wallet, every other item is with whom it was, the wallet
    is unregistered, the channel is closed, and neither the database nor the
    daemon was involved. *)
Theorem session_end_releases (b : Bridge) (tx : N) (c : Session ExpertWait) (w : string)
    (Hc : br_sessions b !! tx = Some c) (Htx : ss_chan c = tx) (Hopen : ss_open c = true) (Hw : ss_confirmed c = Some w) :
  let b' := (on_session tx (session_step Closed) b).2 in
  (∀ k w', worker b' k = Some w' ↔ w' ≠ w ∧ worker b k = Some w')
  ∧ br_world b' = (br_world b) <| w_reg := unregister w (w_reg (br_world b)) |>
                               <| w_net := (w_net (br_world b)) <| open_chans := open_chans (w_net (br_world b)) ∖ {[tx]} |> |>
  ∧ br_sessions b' = <[tx := c <| ss_busy := None |> <| ss_open := false |>]> (br_sessions b).
Proof.
  cbv zeta. unfold on_session. rewrite Hc. pose proof (end_session_run b c w Hw) as Hend.
  unfold session_step, reads. cbn [snd]. rewrite Hopen. cbn [andb session_event_run].
  destruct (end_session (b, c)) as [[] [b' c']]. cbn [snd] in Hend. apply pair_equal_spec in Hend as [-> ->]. rewrite Htx.
  destruct (release_all w b) as (Ew & Es & Ek). cbv zeta in Ew, Es, Ek. revert Ew Es Ek.
  generalize ((release (W := ExpertWait) w b).2). intros b1 Ew Es Ek. rewrite <-Es. split_and!; [|clear Es Ek|reflexivity].
  - intros k w'. rewrite <-Ek. by destruct k.
  - transitivity ((br_world b1) <| w_net := (w_net (br_world b1)) <| open_chans := open_chans (w_net (br_world b1)) ∖ {[tx]} |> |>);
      [reflexivity|]. by rewrite Ew.
Qed.

End properties.

(** ** Witnesses *)

Section examples.
Existing Instances shard_csd empty_market sample_http table_order in_order key_iter toy_crypto toy_hex_error toy_tokenizers sample_text.
#[local] Instance plain_f64 : DisplayF64 := {| display_f64 := λ _, "" |}.

(** Bob, on channel 1, holds a whole-model job; Eve an audit. *)
Definition sample_pool : StakePool := default (mkStakePool [] 0) (new_stake_pool ["a"]).
Definition sample_bridge : Bridge := {|
  br_cfg := default_config;
  br_world := mkWorld [] (empty_db []) (register "eve" 2%N (register "bob" 1%N new_registry)) (mkNet {[1; 2]}%N []);
  br_pool := sample_pool;
  br_opoi := (new_engine sample_pool 10%N) <| OpoiEngine.assignments := {["r1" := mkAssignment "bob" 5%N]} |>;
  br_shard := new_shard_engine sample_pool (mkModelSources ∅ None) None;
  br_spec := (new_speculative_engine sample_pool ∅) <| sx_draft_assignments := {["r2" := "bob"]} |>;
  br_audit := (new_auditor (mkModelSources ∅ None) "" "" []) <| au_assignments := {["r3" := "eve"]} |>;
  br_disp := new_dispatcher; br_oneshots := []; br_limiter := new_rate_limiter 30%N 60%N;
  br_sessions := {[1%N := mkSession 1%N None (Some "bob") [] None true]}; br_posted := []; br_now := 7%N |}.

Lemma session_end_releases_witness :
  let b' := (on_session 1%N (session_step Closed) sample_bridge).2 in
  worker b' (OpoiJob "r1") ≠ Some "bob" ∧ worker b' (AuditJob "r3") = Some "eve".
Proof.
  destruct (session_end_releases sample_bridge 1%N (mkSession 1%N None (Some "bob") [] None true) "bob" eq_refl eq_refl eq_refl eq_refl) as [Hk _].
  split; [by rewrite Hk; intros []|]. apply Hk. split; [done|]. exact eq_refl.
Defined.

(** A prompt for a request the bridge does not know is refused, and kept all the same. *)
Definition unknown_prompt : PromptRequest := {| pq_request_id := "r9"; pq_prompt := "hi"; pq_model := None; pq_max_tokens := None |}.

Lemma refused_prompt_stays :
  let '(r, b') := submit_prompt (V4 0) (Some (opoi_requester_api_key default_config)) unknown_prompt sample_bridge in
  r.1 = 404%N ∧ se_prompt_cache (br_shard b') !! "r9" = Some "6869".
Proof. vm_compute. split; reflexivity. Qed.
End examples.
