(* ===== verification/Threads.v ===== *)
(** * Handlers that are interrupted

    An [async] handler gives up control at each [await], and between two locks
    another thread may run.  Here a handler is the tree of its atomic actions:
    [Act m k] does [m] at once and goes on as [k].  Run [alone] it is a
    computation of [M]; in company each of its actions is a turn of its own. *)

From S2P Require Export Prelude.

Inductive thread (S A : Type) : Type :=
| Done (a : A)
| Act {B : Type} (m : M S B) (k : B → thread S A).
Arguments Done {S A} a.
Arguments Act {S A B} m k.

Fixpoint thread_bind {S A B} (f : A → thread S B) (t : thread S A) : thread S B :=
  match t with
  | Done a => f a
  | Act m k => Act m (λ b, thread_bind f (k b))
  end.
#[export] Instance thread_mret S : MRet (thread S) := λ A a, Done a.
#[export] Instance thread_mbind S : MBind (thread S) := λ A B f t, thread_bind f t.

(** One action. *)
Definition act {S A} (m : M S A) : thread S A := Act m Done.
Definition try_thread {S A B E} (t : thread S (result A E)) (k : A → thread S (result B E)) : thread S (result B E) :=
  r ← t; match r with Ok a => k a | Err e => mret (Err e) end.
Definition ignored {S A} (t : thread S A) : thread S () := _ ← t; mret ().
Fixpoint each {S A} (f : A → thread S ()) (l : list A) : thread S () :=
  match l with [] => mret () | x :: l' => _ ← f x; each f l' end.
Fixpoint collect {S A B} (f : A → thread S B) (l : list A) : thread S (list B) :=
  match l with [] => mret [] | x :: l' => b ← f x; bs ← collect f l'; mret (b :: bs) end.

(** The next action; a thread that is done stays. *)
Definition turn {S A} (t : thread S A) : M S (thread S A) := λ s,
  match t with
  | Done a => (Done a, s)
  | Act m k => let '(b, s') := m s in (k b, s')
  end.
Definition ended {S A} (t : thread S A) : bool := match t with Done _ => true | Act _ _ => false end.

(** The handler of a component, in a larger state. *)
Fixpoint within {S T A} (getter : S → T) (setter : T → S → S) (t : thread T A) : thread S A :=
  match t with
  | Done a => Done a
  | Act m k => Act (zoom getter setter m) (λ b, within getter setter (k b))
  end.

(** ** Alone *)

Fixpoint alone {S A} (t : thread S A) : M S A :=
  match t with
  | Done a => mret a
  | Act m k => b ← m; alone (k b)
  end.

(** The handler without interruptions does what [m] does. *)
Definition runs_as {S A} (t : thread S A) (m : M S A) : Prop := ∀ s, alone t s = m s.

Lemma alone_bind {S A B} (f : A → thread S B) (t : thread S A) s : alone (t ≫= f) s = let '(a, s') := alone t s in alone (f a) s'.
Proof.
  change (t ≫= f) with (thread_bind f t). revert s. induction t as [a|C m k IH]; intros s; cbn; [done|].
  rewrite !bind_run. destruct (m s) as [b s']. apply IH.
Qed.
Lemma runs_done {S A} (a : A) : runs_as (S := S) (mret a) (mret a).
Proof. done. Qed.
Lemma runs_act {S A} (m : M S A) : runs_as (act m) m.
Proof. intros s. cbn. rewrite bind_run. by destruct (m s). Qed.
Lemma runs_bind {S A B} (t : thread S A) m (k : A → thread S B) f : runs_as t m → (∀ a, runs_as (k a) (f a)) → runs_as (t ≫= k) (m ≫= f).
Proof. intros Ht Hk s. rewrite alone_bind, Ht, bind_run. destruct (m s) as [a s']. apply Hk. Qed.
Lemma runs_try {S A B E} (t : thread S (result A E)) m (k : A → thread S (result B E)) f :
  runs_as t m → (∀ a, runs_as (k a) (f a)) → runs_as (try_thread t k) (try_bind m f).
Proof. intros Ht Hk. apply runs_bind; [done|]. by intros [a|e]. Qed.
Lemma runs_ignored {S A} (t : thread S A) m : runs_as t m → runs_as (ignored t) (ignore m).
Proof. intros Ht. by apply runs_bind. Qed.
Lemma runs_each {S A} (f : A → thread S ()) g l : (∀ x, runs_as (f x) (g x)) → runs_as (each f l) (for_each g l).
Proof. intros Hf. induction l as [|x l IH]; [done|]. cbn. by apply runs_bind. Qed.
Lemma runs_collect {S A B} (f : A → thread S B) g l : (∀ x, runs_as (f x) (g x)) → runs_as (collect f l) (mapM g l).
Proof.
  intros Hf. induction l as [|x l IH]; [done|]. apply (runs_bind _ _ _ (λ b, bs ← mapM g l; mret (b :: bs))); [done|].
  intros b. by apply runs_bind.
Qed.
Lemma runs_eq {S A} (t : thread S A) m m' : (∀ s, m s = m' s) → runs_as t m → runs_as t m'.
Proof. intros E Ht s. by rewrite Ht. Qed.

Create HintDb alone.
#[export] Hint Resolve runs_done runs_act runs_bind runs_try runs_ignored runs_each runs_collect : alone.
(** Walks a handler and its uninterrupted version side by side. *)
Ltac walk := repeat first
  [ progress intros
  | solve [auto with alone nocore]
  | match goal with |- runs_as (match ?x with _ => _ end) _ => destruct x end
  | apply runs_bind | apply runs_try | apply runs_ignored | apply runs_each | apply runs_collect
  | progress (match goal with |- runs_as ?t ?m => let h := get_head t in unfold h end)
  | match goal with |- runs_as _ ?m => let h := get_head m in unfold h end ].

(** ** What every action does *)

(** Each action stays within [R], whatever happened before it. *)
Fixpoint acts {S A} (R : relation S) (t : thread S A) : Prop :=
  match t with
  | Done _ => True
  | Act m k => steps R m ∧ ∀ b, acts R (k b)
  end.

Lemma acts_bind {S A B} (R : relation S) (t : thread S A) (f : A → thread S B) : acts R t → (∀ a, acts R (f a)) → acts R (t ≫= f).
Proof.
  intros Ht Hf. change (t ≫= f) with (thread_bind f t). induction t as [a|C m k IH]; [apply Hf|]. destruct Ht as [Hm Hk].
  split; [done|]. intros b. apply IH, Hk.
Qed.
Lemma acts_act {S A} (R : relation S) (m : M S A) : steps R m → acts R (act m).
Proof. intros Hm. split; [done|]. by intros b. Qed.
Lemma acts_done {S A} (R : relation S) (a : A) : acts (S := S) R (mret a).
Proof. done. Qed.
Lemma acts_try {S A B E} (R : relation S) (t : thread S (result A E)) (f : A → thread S (result B E)) :
  acts R t → (∀ a, acts R (f a)) → acts R (try_thread t f).
Proof. intros Ht Hf. apply acts_bind; [done|]. intros [a|e]; [apply Hf|done]. Qed.
Lemma acts_ignored {S A} (R : relation S) (t : thread S A) : acts R t → acts R (ignored t).
Proof. intros Ht. by apply acts_bind. Qed.
Lemma acts_each {S A} (R : relation S) (f : A → thread S ()) l : (∀ x, acts R (f x)) → acts R (each f l).
Proof. intros Hf. induction l as [|x l IH]; [done|]. by apply acts_bind. Qed.
Lemma acts_collect {S A B} (R : relation S) (f : A → thread S B) l : (∀ x, acts R (f x)) → acts R (collect f l).
Proof. intros Hf. induction l as [|x l IH]; [done|]. apply acts_bind; [done|]. intros b. by apply acts_bind. Qed.
Lemma acts_within {S T A} (R : relation S) (R' : relation T) (getter : S → T) setter (t : thread T A) :
  (∀ s t', R' (getter s) t' → R s (setter t' s)) → acts R' t → acts R (within getter setter t).
Proof.
  intros HR. induction t as [a|C m k IH]; [done|]. intros [Hm Hk]. split; [|intros b; apply IH, Hk].
  intros s. unfold zoom. specialize (Hm (getter s)). destruct (m (getter s)). by apply HR.
Qed.
(** ... also in company. *)
Lemma acts_turn {S A} (R : relation S) `{!PreOrder R} (t : thread S A) s : acts R t → acts R (turn t s).1 ∧ R s (turn t s).2.
Proof.
  intros Ht. destruct t as [a|C m k]; [by split|]. destruct Ht as [Hm Hk]. cbn. specialize (Hm s). destruct (m s) as [b s']. split; [apply Hk|done].
Qed.
(** Alone a handler stays within what its actions stay within. *)
Lemma acts_alone {S A} (R : relation S) `{!PreOrder R} (t : thread S A) : acts R t → steps R (alone t).
Proof.
  induction t as [a|C m k IH]; intros Ht; [by apply steps_ret|]. destruct Ht as [Hm Hk]. cbn. apply steps_bind; auto.
Qed.
