(* ===== verification/Interleaving.v ===== *)
(** * The handlers of the money path, interrupted at every step ([src/opoi/engine.rs], [src/payout/mod.rs])

    The engines' definitions run a handler in one go.  Here the handlers that
    touch the table of answers are threads ([Threads]): every statement on the
    database, every call of the daemon and every operation on a shared map is an
    action of its own, and between two of them anything may happen.  Alone a
    thread is the handler of [OpoiEngine] and [Payout] ([uninterrupted_is_atomic]),
    and [finalize_t] and [finalize_spec_t] what the end of a pipeline and its commit
    do to the world ([finalize_alone], [finalize_spec_alone]); in company any number of
    sessions, requests, commits, recordings and timers take turns, and the table
    of answers still moves by the steps of the ledger alone. *)

From S2P Require Import B3Lite Pipeline Payout ShardEngine Speculative Kept.
From S2P Require Import OpoiEngine AssignmentTracker.
From S2P Require Export Threads.

Section handlers.
Context `{Csd, RowOrder, Crypto, MapIter, Schedule, DisplayF64}.

(** ** Commit *)

Definition commit_with_t (request_id response_hash : string) (token_count : N) (addr : string)
    : thread World (string * result CommitResult AppError) :=
  res ← act (csd (submit_response_commit request_id response_hash addr token_count));
  mret (addr, res).

Definition record_attempt_t (submission_id : N) (p : string * result CommitResult AppError) : thread World () :=
  match p.2 with
  | Ok r => ignored (act (db (upsert_commit_attempt_success submission_id p.1 (cr_txid r) (cr_nonce_hex r)
                               (as_i32 (cr_commit_window_closes_at_height r)))))
  | Err e => ignored (act (db (upsert_commit_attempt_failure submission_id p.1 (error_to_string e))))
  end.

Definition reactivate_t (addr : string) : thread World () :=
  st ← act (csd (get_opoi_stake addr));
  match st with
  | Ok (Some stake) =>
    if bool_decide (stake_status stake = "SUSPENDED") then
      r ← act (csd (renew_opoi_stake addr));
      match r with
      | Ok txid => ignored (act (db (log_stake_event "RENEW" (Some txid) ("commit retry for " +:+ addr))))
      | Err _ => mret ()
      end
    else mret ()
  | _ => mret ()
  end.

(** The sleep between two rounds is an action without effect. *)
Definition pause : thread World () := act (mret ()).
Fixpoint commit_rounds_t (rounds : nat) (addrs : list string) (submission_id : N) (request_id response_hash : string)
    (token_count : N) : thread World () :=
  match rounds with
  | 0 => ignored (act (db (mark_failed submission_id "all stake-pool addresses failed to commit")))
  | S rounds_left =>
    started ← collect (commit_with_t request_id response_hash token_count) addrs;
    let results := completion started in
    _ ← each (record_attempt_t submission_id) results;
    match first_success results with
    | Some r => ignored (act (db (mark_committed submission_id (cr_txid r) (cr_nonce_hex r)
                                   (as_i32 (cr_commit_window_closes_at_height r)))))
    | None =>
      _ ← match rounds_left with 0 => mret () | S _ => _ ← each reactivate_t addrs; pause end;
      commit_rounds_t rounds_left addrs submission_id request_id response_hash token_count
    end
  end.
Definition do_commit_t (addrs : list string) (submission_id : N) (request_id response_hash : string) (token_count : N)
    : thread World () :=
  commit_rounds_t MAX_ROUNDS addrs submission_id request_id response_hash token_count.

(** ** Reveal and publish *)

Fixpoint try_reveal_any_t (candidates : list RevealCandidate) : thread World () :=
  match candidates with
  | [] => mret ()
  | c :: rest =>
    r ← act (csd (submit_response_reveal (c_request_id c) (c_response_hash c) (c_opoi_address c)
                    (i32_as_u32 (c_token_count c)) (c_nonce_hex c)));
    match r with
    | Ok txid =>
      _ ← ignored (act (db (mark_attempt_revealed (c_attempt_id c) txid)));
      ignored (act (db (mark_revealed (c_submission_id c) txid)))
    | Err _ => try_reveal_any_t rest
    end
  end.

Definition do_publish_t (sub : Submission) : thread World () :=
  match s_response_hex sub with
  | None => mret ()
  | Some response_hex =>
    r ← act (csd (submit_content (s_request_id sub) "RESPONSE" response_hex));
    match r with
    | Ok () =>
      q ← act (csd (get_request (s_request_id sub)));
      let reward := match q with Ok req => reward_of (s_token_count sub) req | Err _ => f64_zero end in
      ignored (act (db (mark_published (s_id sub) reward)))
    | Err _ => mret ()
    end
  end.

Definition poll_reveal_tick_t : thread World (result () AppError) :=
  height ← act (csd get_chain_height);
  match height with
  | Err e => mret (Err e)
  | Ok height =>
    candidates ← act (db (list_reveal_ready_candidates (Z.of_N height)));
    match candidates with
    | Err e => mret (Err e)
    | Ok candidates =>
      let by_submission := group_candidates candidates in
      _ ← each (λ id, try_reveal_any_t (default [] (by_submission !! id))) (iter_keys by_submission);
      subs ← act (db list_revealed_unpublished);
      match subs with
      | Err e => mret (Err e)
      | Ok subs => _ ← each do_publish_t subs; mret (Ok ())
      end
    end
  end.

(** ** Payout *)

Definition payout_run_t (payout_address : string) (min_payout_cs pool_fee_percent : f64)
    : thread World (result (option (string * nat * f64)) AppError) :=
  unpaid ← act (db list_unpaid_published);
  match unpaid with
  | Err e => mret (Err e)
  | Ok [] => mret (Ok None)
  | Ok unpaid =>
    let '(amounts, request_ids) := plan_payout min_payout_cs pool_fee_percent unpaid in
    match amounts with
    | [] => mret (Ok None)
    | _ =>
      let total := fold_left f64_add amounts.*2 f64_zero in
      txid ← act (csd (send_many payout_address amounts));
      match txid with
      | Err e => mret (Err e)
      | Ok txid =>
        paid ← act (db (mark_paid request_ids txid));
        match paid with Ok _ => mret (Ok (Some (txid, length amounts, total))) | Err e => mret (Err e) end
      end
    end
  end.

(** ** Stakes *)

Definition renew_one_t (address : string) : thread World () :=
  r ← act (csd (renew_opoi_stake address));
  match r with
  | Ok txid => ignored (act (db (log_stake_event "RENEW" (Some txid) ("periodic renewal for " +:+ address))))
  | Err e => ignored (act (db (log_stake_event "RENEW_ERROR" None (address +:+ ": " +:+ error_to_string e))))
  end.
Definition renew_tick_t (addrs : list string) (renew_blocks : N) : thread World () :=
  h ← act (csd get_chain_height);
  match h with
  | Err _ => mret ()
  | Ok height =>
    each (λ addr,
      r ← act (csd (get_opoi_stake addr));
      match r with
      | Ok (Some st) => if renewal_due renew_blocks height st then renew_one_t addr else mret ()
      | Ok None | Err _ => mret ()
      end) addrs
  end.

(** ** Intake and assignment *)

Definition world_t {A} (t : thread World A) : thread Sys A := within sy_world (λ x s, s <| sy_world := x |>) t.

Definition receive_prompt_t (request_id prompt_hex : string) (model : option string) (max_tokens : option N)
    : thread Sys (result bool AppError) :=
  known ← act (p ← the pending;
               match p !! request_id with
               | Some e =>
                 _ ← eng (λ s, s <| pending := <[request_id := e <| pr_prompt_hex := Some prompt_hex |>]> (pending s) |>);
                 mret true
               | None => mret false
               end);
  if (known : bool) then mret (Ok true)
  else
    r ← act (world (csd (get_request request_id)));
    match r, model, max_tokens with
    | Ok request, _, _ =>
      _ ← act (eng (λ s, s <| pending := <[request_id := mkPendingRequest request (Some prompt_hex)]> (pending s) |>));
      mret (Ok true)
    | Err _, Some model, Some max_tokens =>
      let request := mkOpoiRequest request_id model "" max_tokens f64_zero f64_zero None None in
      _ ← act (eng (λ s, s <| pending := <[request_id := mkPendingRequest request (Some prompt_hex)]> (pending s) |>));
      mret (Ok true)
    | Err _, _, _ => mret (Ok false)
    end.

Fixpoint cache_requests_t (reqs : list OpoiRequest) : thread Sys (result () AppError) :=
  match reqs with
  | [] => mret (Ok ())
  | req :: rest =>
    p ← act (the pending);
    match p !! rq_request_id req with
    | Some _ => cache_requests_t rest
    | None =>
      found ← act (world (db (find_active_by_request_id (rq_request_id req))));
      match found with
      | Err e => mret (Err e)
      | Ok (Some _) => cache_requests_t rest
      | Ok None =>
        _ ← act (eng (λ s, s <| pending := match pending s !! rq_request_id req with
                                           | Some _ => pending s
                                           | None => <[rq_request_id req := mkPendingRequest req None]> (pending s)
                                           end |>));
        cache_requests_t rest
      end
    end
  end.

(** [try_assign] holds the entry's lock, the choice of a wallet that of
    [last_assigned]; the registry is asked again for the channel. *)
Definition assign_to_t (request_id wallet : string) (a : OpoiAssign) : thread Sys () :=
  claimed ← act (now ← gets sy_now;
                 t ← the assignments;
                 let '(claimed, t') := try_assign request_id wallet now t in
                 _ ← eng (λ s, s <| assignments := t' |>);
                 mret claimed);
  if (claimed : bool) then
    tx ← act (gets (λ s, MinerRegistry.get wallet (w_reg (sy_world s))));
    ok ← match tx with Some tx => act (world (net (net_send tx (MAssign a)))) | None => mret false end;
    if (ok : bool) then mret () else act (eng (λ s, s <| assignments := AssignmentTracker.remove request_id (assignments s) |>))
  else mret ().

Definition choose_wallet : M Sys (option string) :=
  last ← the last_assigned;
  registry ← gets (λ s, w_reg (sy_world s));
  match pick_next last registry with
  | None => mret None
  | Some wallet => _ ← eng (λ s, s <| last_assigned := Some wallet |>); mret (Some wallet)
  end.

Fixpoint assign_candidates_t (candidates : list string) : thread Sys () :=
  match candidates with
  | [] => mret ()
  | request_id :: rest =>
    p ← act (the pending);
    match p !! request_id with
    | Some {| pr_request := req; pr_prompt_hex := Some prompt_hex |} =>
      manifest ← act (world (csd (get_model_manifest (rq_model req))));
      if whole_model manifest then
        chosen ← act choose_wallet;
        match chosen with
        | None => mret ()
        | Some wallet =>
          _ ← assign_to_t request_id wallet
                {| oa_request_id := request_id; oa_model := rq_model req; oa_prompt_hex := prompt_hex;
                   oa_max_tokens := rq_max_tokens req; oa_task_type := rq_task_type req;
                   oa_task_class := rq_task_class req |};
          assign_candidates_t rest
        end
      else assign_candidates_t rest
    | _ => assign_candidates_t rest
    end
  end.

Definition poll_and_assign_tick_t : thread Sys (result () AppError) :=
  reqs ← act (world (csd list_pending_requests));
  match reqs with
  | Err e => mret (Err e)
  | Ok reqs =>
    cached ← cache_requests_t reqs;
    match cached with
    | Err e => mret (Err e)
    | Ok _ =>
      s ← act (gets sy_engine);
      let candidates := filter (λ id, is_candidate s id = true) (iter_keys (pending s)) in
      _ ← assign_candidates_t candidates;
      mret (Ok ())
    end
  end.

(** ** Answers *)

Definition handle_submit_result_t (wallet : string) (params : OpoiSubmitResultParams) : thread Sys (result N AppError) :=
  t ← act (the assignments);
  match assignee (sr_request_id params) t with
  | None => mret (Err UnknownRequest)
  | Some assigned =>
    if negb (bool_decide (assigned = wallet)) then mret (Err NotAssignedToCaller)
    else
      found ← act (world (db (find_active_by_request_id (sr_request_id params))));
      match found with
      | Err e => mret (Err e)
      | Ok (Some _) => mret (Err (Rejected "request_id already has an active submission"))
      | Ok None =>
        match hex_decode (sr_response_hex params) with
        | None => mret (Err (Rejected "response_hex is not valid hex"))
        | Some raw =>
          if negb (eq_ignore_ascii_case (hex_encode (sha256 raw)) (sr_response_hash params))
          then mret (Err (Rejected "response_hash does not match sha256(response_hex)"))
          else
            p ← act (the pending);
            let entry := p !! sr_request_id params in
            id ← act (world (db (create_submission wallet (sr_request_id params)
                                   ((λ e, rq_model (pr_request e)) <$> entry)
                                   ((λ e, rq_prompt_hash (pr_request e)) <$> entry)
                                   None None (sr_response_hash params) (sr_response_hex params)
                                   (as_i32 (sr_token_count params)))));
            match id with
            | Err e => mret (Err e)
            | Ok id =>
              _ ← act (eng (λ s, s <| assignments := AssignmentTracker.remove (sr_request_id params) (assignments s) |>));
              _ ← act (eng (λ s, s <| pending := delete (sr_request_id params) (pending s) |>));
              _ ← act (eng (λ s, s <| tasks := tasks s ++ [mkCommitTask id (sr_request_id params) (sr_response_hash params)
                                                             (sr_token_count params)] |>));
              mret (Ok id)
            end
        end
      end
  end.

(** ** The end of a pipeline *)

(** A pipeline that has been taken out of its engine is recorded, and its commit
    runs ([finalize_pipeline], [finalize_spec_pipeline]). *)
Definition record_answer_t (addrs : list string) (winning_wallet request_id model_id prompt_hash : string) (generated : list N)
    : thread World () :=
  let '(response_hash, response_hex) := build_response generated in
  let token_count := wrap32 (N.of_nat (length generated)) in
  r ← act (db (create_submission winning_wallet request_id (Some model_id) (Some prompt_hash) None None response_hash response_hex
                 (as_i32 token_count)));
  match r with
  | Ok id => do_commit_t addrs id request_id response_hash token_count
  | Err _ => mret ()
  end.
Definition finalize_t (addrs : list string) (b3 : option B3LiteConfig) (request_id : string) (p : PipelineState) : thread World () :=
  match select_winning_wallet (p_contributions p) with
  | None => mret ()
  | Some winning_wallet =>
    let '(response_hash, _) := build_response (p_generated_token_ids p) in
    _ ← match b3 with
        | Some cfg => act (record_b3lite_receipt cfg request_id winning_wallet p response_hash)
        | None => mret ()
        end;
    record_answer_t addrs winning_wallet request_id (mm_model_id (p_manifest p)) (p_prompt_hash p) (p_generated_token_ids p)
  end.
Definition finalize_spec_t (addrs : list string) (request_id : string) (p : SpecPipeline) : thread World () :=
  match select_winning_wallet (q_contributions p) with
  | None => mret ()
  | Some winning_wallet =>
    record_answer_t addrs winning_wallet request_id (mm_model_id (q_manifest p)) (q_prompt_hash p) (q_generated_token_ids p)
  end.

(** ** Alone they are the handlers *)

Lemma commit_with_alone rid h tc addr : runs_as (commit_with_t rid h tc addr) (commit_with rid h tc addr).
Proof. walk. Qed.
Lemma record_attempt_alone sid p : runs_as (record_attempt_t sid p) (record_attempt sid p).
Proof. unfold record_attempt_t, record_attempt. destruct p.2; walk. Qed.
Lemma reactivate_alone addr : runs_as (reactivate_t addr) (reactivate addr).
Proof. walk. Qed.
#[local] Hint Resolve commit_with_alone record_attempt_alone reactivate_alone : alone.
Lemma retry_alone addrs : runs_as (_ ← each reactivate_t addrs; pause) (for_each reactivate addrs).
Proof.
  apply (runs_eq _ (_ ← for_each reactivate addrs; mret ())); [|walk].
  intros s. rewrite bind_run. by destruct (for_each reactivate addrs s) as [[] s'].
Qed.
#[local] Hint Resolve retry_alone : alone.
Lemma commit_rounds_alone n addrs sid rid h tc : runs_as (commit_rounds_t n addrs sid rid h tc) (commit_rounds n addrs sid rid h tc).
Proof. induction n as [|n IH]; cbn [commit_rounds_t commit_rounds]; walk; destruct n; walk. Qed.
Lemma do_commit_alone addrs sid rid h tc : runs_as (do_commit_t addrs sid rid h tc) (do_commit addrs sid rid h tc).
Proof. apply commit_rounds_alone. Qed.
Lemma try_reveal_alone l : runs_as (try_reveal_any_t l) (try_reveal_any l).
Proof. induction l; cbn [try_reveal_any_t try_reveal_any]; walk. Qed.
Lemma do_publish_alone sub : runs_as (do_publish_t sub) (do_publish sub).
Proof. unfold do_publish_t, do_publish. destruct (s_response_hex sub); walk. Qed.
#[local] Hint Resolve try_reveal_alone do_publish_alone : alone.
Lemma poll_reveal_alone : runs_as poll_reveal_tick_t poll_reveal_tick.
Proof. walk. Qed.
Lemma payout_run_alone addr mn fee : runs_as (payout_run_t addr mn fee) (Payout.run addr mn fee).
Proof. walk. Qed.
Lemma renew_one_alone addr : runs_as (renew_one_t addr) (renew_one addr).
Proof. walk. Qed.
#[local] Hint Resolve renew_one_alone : alone.
Lemma renew_tick_alone addrs n : runs_as (renew_tick_t addrs n) (renew_tick addrs n).
Proof. walk. Qed.

Lemma receive_prompt_alone rid x m t : runs_as (receive_prompt_t rid x m t) (receive_prompt rid x m t).
Proof.
  intros s. unfold receive_prompt_t, receive_prompt. rewrite alone_bind, runs_act, !bind_run. cbn [the gets].
  destruct (pending (sy_engine s) !! rid); [done|]. cbn [mret M_ret]. revert s.
  match goal with |- ∀ s, alone ?t s = ?f s => change (runs_as t f) end. walk.
Qed.
Lemma cache_requests_alone l : runs_as (cache_requests_t l) (cache_requests l).
Proof. induction l; cbn [cache_requests_t cache_requests]; walk. Qed.
Lemma assign_to_alone rid w a : runs_as (assign_to_t rid w a) (assign_to rid w a).
Proof.
  intros s. unfold assign_to_t, assign_to. rewrite alone_bind, runs_act, !bind_run. cbn [gets the]. rewrite !bind_run. cbn [gets the].
  destruct (try_assign rid w (sy_now s) (assignments (sy_engine s))) as [claimed t']. rewrite !bind_run. cbn [eng modify mret M_ret]. destruct claimed; [|done].
  rewrite alone_bind, runs_act. cbn [gets]. rewrite bind_run. unfold send_to, world, zoom. rewrite !bind_run. cbn [gets].
  match goal with |- context [MinerRegistry.get w (w_reg (sy_world ?s1))] => generalize s1; clear s t'; intros s end.
  rewrite alone_bind. destruct (MinerRegistry.get w (w_reg (sy_world s))) as [tx|].
  - rewrite runs_act. by destruct (net _ (sy_world s)) as [[] w'].
  - by destruct s.
Qed.
#[local] Hint Resolve receive_prompt_alone cache_requests_alone assign_to_alone : alone.
Lemma assign_candidates_alone l : runs_as (assign_candidates_t l) (assign_candidates l).
Proof.
  induction l as [|rid l IH]; [done|]. cbn [assign_candidates_t assign_candidates]. apply runs_bind; [apply runs_act|]. intros p.
  destruct (p !! rid) as [[req [x|]]|]; [|done..]. apply runs_bind; [apply runs_act|]. intros m. destruct (whole_model m); [|done].
  intros s. rewrite alone_bind, runs_act. unfold choose_wallet. rewrite !bind_run. cbn [the gets]. rewrite !bind_run. cbn [gets].
  destruct (pick_next _ _) as [w|]; [|done]. rewrite !bind_run. cbn [eng modify mret M_ret].
  match goal with |- alone ?t ?s = ?f ?s => generalize s; change (runs_as t f) end. walk.
Qed.
Lemma poll_and_assign_alone : runs_as poll_and_assign_tick_t poll_and_assign_tick.
Proof.
  unfold poll_and_assign_tick_t, poll_and_assign_tick. pose proof assign_candidates_alone. walk.
Qed.
Lemma handle_submit_alone w p : runs_as (handle_submit_result_t w p) (OpoiEngine.handle_submit_result w p).
Proof.
  unfold handle_submit_result_t, OpoiEngine.handle_submit_result. apply runs_bind; [apply runs_act|]. intros t.
  destruct (assignee _ t) as [a|]; [|done]. destruct (negb _); [done|]. apply runs_bind; [apply runs_act|]. intros [[f|]|e]; [done| |done].
  destruct (hex_decode _); [|done]. destruct (negb _); [done|]. apply runs_bind; [apply runs_act|]. intros q.
  apply runs_bind; [apply runs_act|]. by intros [id|e].
Qed.

(** *** The end of a pipeline, and the commit it spawned *)

Lemma record_answer_alone addrs wallet rid m h l w : (alone (record_answer_t addrs wallet rid m h l) w).2 =
  let '(response_hash, response_hex) := build_response l in
  let tc := wrap32 (N.of_nat (length l)) in
  let '(r, w1) := db (create_submission wallet rid (Some m) (Some h) None None response_hash response_hex (as_i32 tc)) w in
  match r with Ok id => (do_commit addrs id rid response_hash tc w1).2 | Err _ => w1 end.
Proof.
  unfold record_answer_t. destruct (build_response l) as [rh rx]. cbv zeta. rewrite alone_bind, runs_act.
  destruct (db _ w) as [[id|e] w1]; [|done]. by rewrite do_commit_alone.
Qed.
(** The world once the spawned commits have run. *)
Definition commits_done {Sp} (s : ShardSys Sp) : World := x_world (for_each run_shard_task (se_tasks (x_engine s)) s).2.
Lemma commits_none {Sp} (s : ShardSys Sp) : se_tasks (x_engine s) = [] → commits_done s = x_world s.
Proof. intros E. unfold commits_done. by rewrite E. Qed.
Lemma commits_one {Sp} (s : ShardSys Sp) t : se_tasks (x_engine s) = [t] → commits_done s =
  (do_commit (addresses (se_stake_pool (x_engine s))) (ct_submission_id t) (ct_request_id t) (ct_response_hash t) (ct_token_count t) (x_world s)).2.
Proof.
  intros E. unfold commits_done. rewrite E. cbn [for_each]. rewrite bind_run. unfold run_shard_task, ask, ShardEngine.in_world. rewrite bind_run.
  cbn iota beta. match goal with |- context [do_commit ?a ?b ?c ?d ?e ?w] => by destruct (do_commit a b c d e w) end.
Qed.
Lemma record_spawned {Sp} (s : ShardSys Sp) wallet rid m h l : se_tasks (x_engine s) = [] →
  let '(response_hash, response_hex) := build_response l in
  let tc := wrap32 (N.of_nat (length l)) in
  commits_done ((r ← ShardEngine.in_world (db (create_submission wallet rid (Some m) (Some h) None None response_hash response_hex (as_i32 tc)));
    match r with
    | Ok id => ShardEngine.engine (λ e, e <| se_tasks := se_tasks e ++ [mkCommitTask id rid response_hash tc] |>)
    | Err _ => mret ()
    end) s).2 = (alone (record_answer_t (addresses (se_stake_pool (x_engine s))) wallet rid m h l) (x_world s)).2.
Proof.
  intros Ht. pose proof (record_answer_alone (addresses (se_stake_pool (x_engine s))) wallet rid m h l (x_world s)) as Hr.
  destruct (build_response l) as [rh rx]. cbv zeta in *. rewrite Hr, bind_run. unfold ShardEngine.in_world.
  destruct (db _ (x_world s)) as [[id|e] w1]; cbn [mret M_ret snd]; [|by rewrite commits_none].
  unfold ShardEngine.engine. by erewrite commits_one by (cbn; by rewrite Ht).
Qed.
Lemma finalize_alone {Sp} rid p (s : ShardSys Sp) : se_pipelines (x_engine s) !! rid = Some p → se_tasks (x_engine s) = [] →
  commits_done (finalize_pipeline rid s).2
  = (alone (finalize_t (addresses (se_stake_pool (x_engine s))) (se_b3lite (x_engine s)) rid p) (x_world s)).2.
Proof.
  intros Hp Ht. unfold finalize_pipeline, pipeline_of, drop_pipeline, ask, engine. rewrite !bind_run, Hp, bind_run. unfold finalize_t.
  destruct (select_winning_wallet (p_contributions p)) as [wallet|]; [|by rewrite commits_none].
  match goal with |- context [set_engine s ?e] => set (s0 := set_engine s e) end.
  pose proof (λ w, record_spawned (set_world s0 w) wallet rid (mm_model_id (p_manifest p)) (p_prompt_hash p) (p_generated_token_ids p) Ht) as Hrec.
  destruct (build_response (p_generated_token_ids p)) as [rh rx]. rewrite alone_bind, bind_run. cbv zeta in *.
  rewrite !bind_run. change (se_b3lite (x_engine s0)) with (se_b3lite (x_engine s)).
  destruct (se_b3lite (x_engine s)) as [cfg|].
  - rewrite runs_act. unfold ShardEngine.in_world at 1. change (x_world s0) with (x_world s).
    destruct (record_b3lite_receipt cfg rid wallet p rh (x_world s)) as [[] w1]. exact (Hrec w1).
  - exact (Hrec (x_world s)).
Qed.

Definition spec_done (s : SpecSys) : World := (for_each run_spec_task (sx_tasks s.2) s).2.1.
Lemma spec_done_none (s : SpecSys) : sx_tasks s.2 = [] → spec_done s = s.1.
Proof. intros E. unfold spec_done. by rewrite E. Qed.
Lemma spec_done_one (s : SpecSys) c : sx_tasks s.2 = [Commit c] → spec_done s =
  (do_commit (addresses (sx_stake_pool s.2)) (ct_submission_id c) (ct_request_id c) (ct_response_hash c) (ct_token_count c) s.1).2.
Proof.
  intros E. unfold spec_done. rewrite E. cbn [for_each run_spec_task]. rewrite !bind_run. unfold gets, Speculative.world.
  by destruct (do_commit _ _ _ _ _ s.1).
Qed.
Lemma finalize_spec_alone rid p (s : SpecSys) : sx_pipelines s.2 !! rid = Some p → sx_tasks s.2 = [] →
  spec_done (finalize_spec_pipeline rid s).2 = (alone (finalize_spec_t (addresses (sx_stake_pool s.2)) rid p) s.1).2.
Proof.
  destruct s as [w e]. cbn [fst snd]. intros Hp Ht. unfold finalize_spec_pipeline, spec_pipeline, gets. rewrite !bind_run. cbn [snd]. rewrite Hp, bind_run.
  unfold finalize_spec_t. destruct (select_winning_wallet (q_contributions p)) as [wallet|]; [|by rewrite spec_done_none].
  pose proof (record_answer_alone (addresses (sx_stake_pool e)) wallet rid (mm_model_id (q_manifest p)) (q_prompt_hash p)
    (q_generated_token_ids p) w) as Hrec.
  destruct (build_response (q_generated_token_ids p)) as [rh rx]. cbv zeta in *. rewrite Hrec.
  unfold remove_pipeline, spec, modify. cbn [fst snd]. rewrite bind_run. unfold Speculative.world at 1. cbn [fst snd].
  destruct (db _ w) as [[id|er] w1]; cbn [mret M_ret snd]; [|by rewrite spec_done_none].
  unfold spawn, spec. by erewrite spec_done_one by exact (f_equal (λ l, l ++ _) Ht).
Qed.

End handlers.
