(* ===== verification/Concurrent.v ===== *)
(** * The money path in company

    Any number of sessions, prompts, ticks, recordings and commits, the loops
    that reveal and that pay, and whatever the rest of the bridge does, take
    turns one action at a time ([move_run]).  Each thread is entitled to the rows
    it moves ([owns]): a commit to the answer it was spawned for, the reveal loop
    to what it found committed and revealed; the payout relies on what it found
    published and unpaid, which nobody else changes. *)

From S2P Require Import B3Lite Pipeline ShardEngine Speculative Payout Kept.
From S2P Require Import OpoiEngine AssignmentTracker.
From S2P Require Export Interleaving.

(** ** The process *)

(** Something starts: a session's line or end, a prompt, a tick, the end of a
    pipeline, an audit's consequence. *)
Inductive job : Type :=
| JSubmit (wallet : string) (params : OpoiSubmitResultParams)
| JDisconnect (wallet : string)
| JPrompt (request_id prompt_hex : string) (model : option string) (max_tokens : option N)
| JPollAssign
| JRenew
| JFinalize (b3 : option B3LiteConfig) (request_id : string) (p : PipelineState)
| JFinalizeSpec (request_id : string) (p : SpecPipeline)
| JConsequence (receipt_id : N) (wallet request_id action reason : string).

(** What runs: the two loops that are alone in what they do, everything else. *)
Record Process := mkProcess {
  pr_sys : Sys;
  pr_reveal : thread World (result () AppError);
  pr_payout : thread World (result (option (string * nat * f64)) AppError);
  pr_threads : list (thread Sys ())
}.

(** A new thread; a queued commit is spawned; a loop's next tick, once the last
    one is over; one action; the rest of the bridge; PostgreSQL and its clock. *)
Inductive move : Type :=
| Start (j : job)
| StartTask (i : nat)
| StartReveal
| StartPayout (payout_address : string) (min_payout_cs pool_fee_percent : f64)
| TurnOf (i : nat)
| TurnReveal
| TurnPayout
| Elsewhere (calls : list csd_call) (r : MinerRegistry) (n : Net) (now : N)
| Weather (fs : list fault) (now : N).

Section process.
Context `{Csd, RowOrder, Crypto, MapIter, Schedule, DisplayF64}.

Definition job_thread (j : job) : thread Sys () :=
  match j with
  | JSubmit wallet params => ignored (handle_submit_result_t wallet params)
  | JDisconnect wallet => act (OpoiEngine.on_disconnect wallet)
  | JPrompt id prompt model max_tokens => ignored (receive_prompt_t id prompt model max_tokens)
  | JPollAssign => ignored poll_and_assign_tick_t
  | JRenew =>
    addrs ← act (the pool_addresses);
    blocks ← act (the stake_renew_blocks);
    world_t (renew_tick_t addrs blocks)
  | JFinalize b3 id p => addrs ← act (the pool_addresses); world_t (finalize_t addrs b3 id p)
  | JFinalizeSpec id p => addrs ← act (the pool_addresses); world_t (finalize_spec_t addrs id p)
  | JConsequence id w r a x => world_t (ignored (act (db (insert_b3lite_consequence id w r a x))))
  end.
(** [tokio::spawn(do_commit(..))] *)
Definition task_thread (addrs : list string) (t : CommitTask) : thread Sys () :=
  world_t (do_commit_t addrs (ct_submission_id t) (ct_request_id t) (ct_response_hash t) (ct_token_count t)).

Definition set_world (w : World) (s : Sys) : Sys := s <| sy_world := w |>.
Definition move_run (v : move) (p : Process) : Process :=
  let s := pr_sys p in
  match v with
  | Start j => p <| pr_threads := pr_threads p ++ [job_thread j] |>
  | StartTask i =>
    match OpoiEngine.tasks (sy_engine s) !! i with
    | None => p
    | Some t =>
      p <| pr_sys := s <| sy_engine := (sy_engine s) <| OpoiEngine.tasks := delete i (OpoiEngine.tasks (sy_engine s)) |> |> |>
        <| pr_threads := pr_threads p ++ [task_thread (pool_addresses (sy_engine s)) t] |>
    end
  | StartReveal => if ended (pr_reveal p) then p <| pr_reveal := poll_reveal_tick_t |> else p
  | StartPayout addr mn fee => if ended (pr_payout p) then p <| pr_payout := payout_run_t addr mn fee |> else p
  | TurnOf i =>
    match pr_threads p !! i with
    | None => p
    | Some t => let '(t', s') := turn t s in p <| pr_sys := s' |> <| pr_threads := <[i := t']> (pr_threads p) |>
    end
  | TurnReveal => let '(t', w') := turn (pr_reveal p) (sy_world s) in p <| pr_sys := set_world w' s |> <| pr_reveal := t' |>
  | TurnPayout => let '(t', w') := turn (pr_payout p) (sy_world s) in p <| pr_sys := set_world w' s |> <| pr_payout := t' |>
  | Elsewhere calls r n now =>
    p <| pr_sys := mkSys (mkWorld (w_csd (sy_world s) ++ calls) (w_db (sy_world s)) r n) (sy_engine s) now |>
  | Weather fs now =>
    p <| pr_sys := set_world ((sy_world s) <| w_db := (w_db (sy_world s)) <| faults := fs |> <| clock := now |> |>) s |>
  end.
Definition moves_run (l : list move) (p : Process) : Process := fold_left (λ p v, move_run v p) l p.

(** Nothing runs yet. *)
Definition idle (s : Sys) : Process := mkProcess s (Done (Ok ())) (Done (Ok None)) [].
End process.

Definition rows_of (p : Process) : list Submission := submissions (w_db (sy_world (pr_sys p))).

(** ** Entitlement *)

(** [m] starts with the tokens [own] and ends with those of its answer. *)
Definition takes {S A} (v : view S) (P : token → Prop) (own : list token) (mid : A → list token) (m : M S A) : Prop :=
  ∀ s, let '(a, s') := m s in token_flow P (own ++ v_tokens v s) (mid a ++ v_tokens v s') (w_db (v_world v s)) (w_db (v_world v s')).

(** A thread with the tokens [own] that ends with [post]; meanwhile it only holds
    tokens of [Q], as long as the others' are of [P]. *)
Fixpoint owns {S A} (v : view S) (P Q : token → Prop) (own : list token) (t : thread S A) (post : A → list token) : Prop :=
  match t with
  | Done a => post a ⊆+ own
  | Act m k => ∃ mid, takes v P own mid m ∧ (∀ a, Forall Q (mid a)) ∧ ∀ a, owns v P Q (mid a) (k a) post
  end.

Section owns.
Context {S : Type} (v : view S) (P Q : token → Prop).

Lemma takes_more {A} own own' mid (m : M S A) : own ⊆+ own' → takes v P own mid m → takes v P own' mid m.
Proof.
  intros Hsub Hm s. specialize (Hm s). destruct (m s) as [a s']. intros ts Hts. eapply flow_trans; [|by apply Hm].
  apply flow_drop. by do 2 apply submseteq_skips_r.
Qed.
Lemma takes_frame {A} own mid fr (m : M S A) : Forall P fr → takes v P own mid m → takes v P (own ++ fr) (λ a, mid a ++ fr) m.
Proof.
  intros Hfr Hm s. specialize (Hm s). destruct (m s) as [a s']. intros ts Hts. specialize (Hm (fr ++ ts)).
  eapply flow_perm; [| |apply Hm; by apply Forall_app]; rewrite <-!app_assoc; f_equiv; apply Permutation_app_swap_app.
Qed.
Lemma owns_more {A} own own' (t : thread S A) post : own ⊆+ own' → owns v P Q own t post → owns v P Q own' t post.
Proof.
  intros Hsub. destruct t as [a|B m k]; cbn; [intros Hp; by etrans|]. intros (mid & Hm & HQ & Hk). exists mid. split; [|done].
  by eapply takes_more.
Qed.
Lemma owns_bind {A B} own mid post (t : thread S A) (k : A → thread S B) :
  owns v P Q own t mid → (∀ a, owns v P Q (mid a) (k a) post) → owns v P Q own (t ≫= k) post.
Proof.
  intros Ht Hk. change (t ≫= k) with (thread_bind k t). revert own Ht. induction t as [a|C m k' IH]; intros own; cbn.
  - intros Hsub. eapply owns_more; [exact Hsub|apply Hk].
  - intros (mid' & Hm & HQ & Hk'). exists mid'. split_and!; [done|done|]. intros a. by apply IH.
Qed.
Lemma owns_act {A} own mid (m : M S A) : takes v P own mid m → (∀ a, Forall Q (mid a)) → owns v P Q own (act m) mid.
Proof. intros Hm HQ. exists mid. split_and!; [done|done|]. intros a. by cbn. Qed.
Lemma owns_done {A} own (a : A) : owns v P Q own (mret a) (λ _, own).
Proof. by cbn. Qed.
Lemma owns_drop {A} own (a : A) : owns v P Q own (mret a) (λ _, []).
Proof. cbn. apply submseteq_nil_l. Qed.
Lemma owns_ignored {A} own post (t : thread S A) : owns v P Q own t (λ _, post) → owns v P Q own (ignored t) (λ _, post).
Proof. intros Ht. eapply owns_bind; [exact Ht|]. intros a. apply owns_done. Qed.
Lemma owns_frame {A} own post fr (t : thread S A) : Forall P fr → Forall Q fr → owns v P Q own t post → owns v P Q (own ++ fr) t (λ a, post a ++ fr).
Proof.
  intros HP HQ. revert own. induction t as [a|C m k IH]; intros own; cbn; [intros Hs; by apply submseteq_skips_r|].
  intros (mid & Hm & HQm & Hk). exists (λ a, mid a ++ fr). split_and!; [by apply takes_frame|intros a; apply Forall_app; auto|].
  intros a. by apply IH.
Qed.
(** Nothing is taken or given along the way. *)
Lemma owns_each_keep {A} own (f : A → thread S ()) l : (∀ x, owns v P Q own (f x) (λ _, own)) → owns v P Q own (each f l) (λ _, own).
Proof. intros Hf. induction l as [|x l IH]; [apply owns_done|]. by eapply owns_bind. Qed.
Lemma owns_collect_keep {A B} own (f : A → thread S B) l : (∀ x, owns v P Q own (f x) (λ _, own)) → owns v P Q own (collect f l) (λ _, own).
Proof.
  intros Hf. induction l as [|x l IH]; [apply owns_done|]. eapply owns_bind; [apply Hf|]. intros b. eapply owns_bind; [exact IH|].
  intros bs. apply owns_done.
Qed.
End owns.
Lemma owns_mono {S A} (v : view S) (P P' Q Q' : token → Prop) own (t : thread S A) post :
  (∀ x, P' x → P x) → (∀ x, Q x → Q' x) → owns v P Q own t post → owns v P' Q' own t post.
Proof.
  intros HP HQ. revert own. induction t as [a|C m k IH]; intros own; cbn; [done|]. intros (mid & Hm & HQm & Hk). exists mid. split_and!.
  - intros s. specialize (Hm s). destruct (m s) as [a s']. intros ts Hts. apply Hm. by eapply Forall_impl.
  - intros a. eapply Forall_impl; [apply HQm|]. apply HQ.
  - intros a. by apply IH.
Qed.
(** One token is used up at a time. *)
Lemma owns_each {S A} (v : view S) (Q : token → Prop) (f : A → thread S ()) (tok : A → token) l : (∀ x, x ∈ l → Q (tok x)) →
  (∀ x, x ∈ l → owns v any Q [tok x] (f x) (λ _, [])) → owns v any Q (tok <$> l) (each f l) (λ _, []).
Proof.
  induction l as [|x l IH]; intros HQ Hf; [apply owns_done|]. csimpl. eapply owns_bind.
  - apply (owns_frame v any Q [tok x] (λ _, []) (tok <$> l)); [by apply Forall_forall| |apply Hf; by left].
    apply Forall_fmap, Forall_forall. intros y Hy. apply HQ. by right.
  - intros []. apply IH; intros y Hy; [apply HQ|apply Hf]; by right.
Qed.

(** ** The threads' entitlements *)

Definition world_view : view World := mkView id (λ _, []) (λ _, True).

Section owners.
Context `{Csd, RowOrder, Crypto, HexError, MapIter, Schedule, DisplayF64}.
Notation owns_w := (owns world_view).

Lemma takes_world {A} P own mid (m : M World A) : gives P own mid m → takes world_view P own mid m.
Proof. intros Hm s. specialize (Hm s). destruct (m s) as [a s']. destruct Hm as [_ Hf]. cbn. by rewrite !app_nil_r. Qed.
Lemma owns_gives {A} P (Q : token → Prop) own mid (m : M World A) : gives P own mid m → (∀ a, Forall Q (mid a)) → owns_w P Q own (act m) mid.
Proof. intros Hm HQ. apply owns_act; [by apply takes_world|done]. Qed.
(** An action that leaves the table to the others. *)
Lemma owns_kept {A} P (Q : token → Prop) own (m : M World A) : steps world_kept m → Forall Q own → owns_w P Q own (act m) (λ _, own).
Proof. intros Hm HQ. apply owns_gives; [by apply gives_own|done]. Qed.

(** Peels a thread down to actions that leave the table to the others. *)
Ltac others := repeat first
  [ progress intros
  | progress cbv zeta
  | apply owns_kept; [solve [keeps]|done]
  | apply owns_done
  | match goal with |- owns _ _ _ _ (match ?x with _ => _ end) _ => destruct x end
  | apply owns_ignored | apply owns_each_keep | apply owns_collect_keep
  | eapply owns_bind
  | match goal with |- owns _ _ _ _ ?t _ => let h := get_head t in unfold h end ].

Lemma commit_with_owned P (Q : token → Prop) own rid h tc addr : Forall Q own → owns_w P Q own (commit_with_t rid h tc addr) (λ _, own).
Proof. intros HQ. others. Qed.
Lemma record_attempt_owned P (Q : token → Prop) own sid p : Forall Q own → owns_w P Q own (record_attempt_t sid p) (λ _, own).
Proof. intros HQ. others. Qed.
Lemma reactivate_owned P (Q : token → Prop) own addr : Forall Q own → owns_w P Q own (reactivate_t addr) (λ _, own).
Proof. intros HQ. others. Qed.
Lemma commit_rounds_owned n addrs sid rid h tc : owns_w any waiting [(sid, Received)] (commit_rounds_t n addrs sid rid h tc) (λ _, []).
Proof.
  assert (Forall waiting [(sid, Received)]) as HQ by by repeat constructor.
  induction n as [|n IH]; cbn [commit_rounds_t].
  - apply owns_ignored, owns_gives; [by apply gives_steps, db_world, own_failed|done].
  - eapply owns_bind; [apply owns_collect_keep; intros a; by apply commit_with_owned|]. intros started. cbv beta zeta.
    eapply owns_bind; [apply owns_each_keep; intros x; by apply record_attempt_owned|]. intros ?. cbv beta. destruct (first_success _) as [r|].
    + apply owns_ignored, owns_gives; [by apply gives_steps, db_world, own_committed|done].
    + eapply owns_bind; [|intros ?; exact IH]. destruct n; [apply owns_done|].
      eapply owns_bind; [apply owns_each_keep; intros x; by apply reactivate_owned|]. intros ?. apply owns_kept; [apply steps_ret; typeclasses eauto|done].
Qed.
Lemma do_commit_owned addrs sid rid h tc : owns_w any waiting [(sid, Received)] (do_commit_t addrs sid rid h tc) (λ _, []).
Proof. apply commit_rounds_owned. Qed.

Lemma try_reveal_owned id l : (∀ c, c ∈ l → c_submission_id c = id) → owns_w any any [(id, Committed)] (try_reveal_any_t l) (λ _, []).
Proof.
  assert (∀ ts, Forall any ts) as HQ by (intros ts; by apply Forall_forall).
  induction l as [|c l IH]; intros Hl; cbn [try_reveal_any_t]; [apply owns_drop|].
  eapply owns_bind; [apply owns_kept; [keeps|done]|]. intros [tx|e]; [|apply IH; intros c' Hc'; apply Hl; by right].
  eapply owns_bind; [apply owns_ignored, owns_kept; [keeps|done]|]. intros ?. rewrite <-(Hl c) by by left.
  apply owns_ignored, owns_gives; [by apply gives_steps, db_world, own_revealed|done].
Qed.
Lemma do_publish_owned sub : owns_w any any [(s_id sub, Revealed)] (do_publish_t sub) (λ _, []).
Proof.
  assert (∀ ts, Forall any ts) as HQ by (intros ts; by apply Forall_forall).
  unfold do_publish_t. destruct (s_response_hex sub); [|apply owns_drop].
  eapply owns_bind; [apply owns_kept; [keeps|done]|]. intros [[]|e]; [|apply owns_drop].
  eapply owns_bind; [apply owns_kept; [keeps|done]|]. intros q. apply owns_ignored, owns_gives; [by apply gives_steps, db_world, own_published|done].
Qed.

(** The reveal loop owns what a query found. *)
Lemma gives_select {A} P (q : Database → list A) (claims : list A → list token) :
  (∀ l w, l ≡ₚ q (w_db w) → moved P [] (claims l) w w) →
  gives P [] (λ r, match r with Ok l => claims l | Err _ => [] end) (db (select q)).
Proof.
  intros Hc w. pose proof (db_world _ _ _ (select_kept q) w) as Hw.
  assert (∀ l, (db (select q) w).1 = Ok l → l ≡ₚ q (w_db (db (select q) w).2)) as Hok.
  { unfold db, zoom. destruct (select_outcome q (w_db w)) as (fs & E & Hok). destruct (select q (w_db w)) as [r d]. cbn in *. by rewrite E. }
  destruct (db (select q) w) as [[l|e] w1]; cbn [fst snd] in *; [|by apply moved_any].
  eapply moved_trans; [by apply moved_any|]. by apply Hc, Hok.
Qed.
Lemma poll_reveal_owned : owns_w waiting any [] poll_reveal_tick_t (λ _, []).
Proof.
  assert (∀ ts, Forall any ts) as HQ by (intros ts; by apply Forall_forall).
  unfold poll_reveal_tick_t. eapply owns_bind; [apply owns_kept; [keeps|done]|]. intros [height|e]; [|apply owns_done].
  eapply owns_bind; [apply owns_gives; [apply gives_select, claim_candidates|done]|]. intros [l|e]; [|apply owns_done]. cbv beta zeta.
  eapply owns_bind.
  - apply (owns_mono _ any _ any); [done..|]. unfold claims_committed.
    apply (owns_each world_view any _ (λ id, (id, Committed))); [done|]. intros id _. apply try_reveal_owned, group_of.
  - intros ?. eapply owns_bind; [apply owns_gives; [apply gives_select, claim_revealed|done]|]. intros [subs|e]; [|apply owns_done]. cbv beta.
    eapply owns_bind; [|intros ?; apply owns_done]. apply (owns_mono _ any _ any); [done..|]. unfold claims_revealed.
    rewrite <-list_fmap_compose. apply (owns_each world_view any _ (λ s, (s_id s, Revealed))); [done|]. intros s _. apply do_publish_owned.
Qed.

(** *** Threads that share the engine *)

Lemma takes_sees {S A} (v : view S) P own (m : M S A) : steps (sees v) m → takes v P own (λ _, own) m.
Proof.
  intros Hm s. specialize (Hm s). destruct (m s) as [a s']. destruct Hm as [[_ Hf] _]. intros ts _.
  eapply flow_perm; [| |apply (Hf (own ++ ts)); by apply Forall_forall]; rewrite <-app_assoc; apply Permutation_app_swap_app.
Qed.
Lemma owns_sees {S A} (v : view S) P (Q : token → Prop) own (m : M S A) : steps (sees v) m → Forall Q own → owns v P Q own (act m) (λ _, own).
Proof. intros Hm HQ. apply owns_act; [by apply takes_sees|done]. Qed.
Lemma takes_in_world {A} own mid (m : M World A) : takes world_view any own mid m → takes opoi_view any own mid (OpoiEngine.world m).
Proof.
  intros Hm s. unfold OpoiEngine.world, zoom. specialize (Hm (sy_world s)). destruct (m (sy_world s)) as [a w]. intros ts _.
  cbn [v_tokens v_world opoi_view world_view] in *. unfold token_flow in Hm. rewrite !app_nil_r in Hm.
  rewrite <-!app_assoc. apply Hm. by apply Forall_forall.
Qed.
Lemma owns_in_world {A} (Q : token → Prop) own (t : thread World A) post : owns_w any Q own t post → owns opoi_view any Q own (world_t t) post.
Proof.
  unfold world_t. revert own. induction t as [a|C m k IH]; intros own; cbn [owns within]; [done|]. intros (mid & Hm & HQ & Hk).
  exists mid. split_and!; [by apply takes_in_world|done|]. intros a. by apply IH.
Qed.
#[local] Hint Resolve opoi_world : kept.
#[local] Hint Extern 2 (steps (sees opoi_view) (eng _)) => by apply opoi_eng : kept.
Ltac sharers := repeat first
  [ progress intros
  | progress cbv zeta
  | apply owns_sees; [solve [keeps]|by constructor]
  | apply owns_done
  | match goal with |- owns _ _ _ _ (match ?x with _ => _ end) _ => destruct x end
  | apply owns_ignored | apply owns_each_keep | apply owns_collect_keep
  | eapply owns_bind
  | match goal with |- owns _ _ _ _ ?t _ => let h := get_head t in unfold h end ].
Notation owns_s := (owns opoi_view any waiting).

Lemma receive_prompt_owned rid x m t : owns_s [] (receive_prompt_t rid x m t) (λ _, []).
Proof. sharers. Qed.
Lemma cache_requests_owned l : owns_s [] (cache_requests_t l) (λ _, []).
Proof. induction l as [|r l IH]; cbn [cache_requests_t]; sharers; exact IH. Qed.
Lemma assign_to_owned rid w a : owns_s [] (assign_to_t rid w a) (λ _, []).
Proof. sharers. Qed.
Lemma assign_candidates_owned l : owns_s [] (assign_candidates_t l) (λ _, []).
Proof.
  induction l as [|r l IH]; cbn [assign_candidates_t]; [apply owns_done|]. eapply owns_bind; [apply owns_sees; [keeps|done]|]. intros p.
  destruct (p !! r) as [[req [x|]]|]; [|done..]. eapply owns_bind; [apply owns_sees; [keeps|done]|]. intros m. destruct (whole_model m); [|done].
  eapply owns_bind; [apply owns_sees; [keeps|done]|]. intros [w|]; [|apply owns_done]. eapply owns_bind; [apply assign_to_owned|]. intros ?. exact IH.
Qed.
Lemma poll_assign_owned : owns_s [] poll_and_assign_tick_t (λ _, []).
Proof.
  unfold poll_and_assign_tick_t. eapply owns_bind; [apply owns_sees; [keeps|done]|]. intros [l|e]; [|apply owns_done].
  eapply owns_bind; [apply cache_requests_owned|]. intros [[]|e]; [|apply owns_done].
  eapply owns_bind; [apply owns_sees; [keeps|done]|]. intros en. cbv beta zeta.
  eapply owns_bind; [apply assign_candidates_owned|]. intros ?. apply owns_done.
Qed.

(** An answer that is recorded belongs to whoever recorded it, until its commit is queued. *)
Definition recorded (r : result N AppError) : list token := match r with Ok id => [(id, Received)] | Err _ => [] end.
Lemma recorded_waiting r : Forall waiting (recorded r).
Proof. destruct r; by repeat constructor. Qed.
Lemma queue_takes t : takes opoi_view any [commit_token t] (λ _, []) (eng (λ s, s <| OpoiEngine.tasks := OpoiEngine.tasks s ++ [t] |>)).
Proof.
  intros s ts _. apply flow_drop. cbn [app v_tokens opoi_view].
  change ((commit_token <$> (OpoiEngine.tasks (sy_engine s) ++ [t])) ++ ts ⊆+ commit_token t :: (commit_token <$> OpoiEngine.tasks (sy_engine s)) ++ ts).
  rewrite fmap_app, <-app_assoc. cbn. by rewrite <-Permutation_middle.
Qed.
Lemma handle_submit_owned w p : owns_s [] (handle_submit_result_t w p) (λ _, []).
Proof.
  unfold handle_submit_result_t. eapply owns_bind; [apply owns_sees; [keeps|done]|]. intros t.
  destruct (assignee _ t) as [a|]; [|apply owns_done]. destruct (negb _); [apply owns_done|].
  eapply owns_bind; [apply owns_sees; [keeps|done]|]. intros [[f|]|e]; [apply owns_done| |apply owns_done].
  destruct (hex_decode _); [|apply owns_done]. destruct (negb _); [apply owns_done|].
  eapply owns_bind; [apply owns_sees; [keeps|done]|]. intros q. cbv beta zeta.
  eapply owns_bind; [apply owns_act; [apply takes_in_world, takes_world, create_world|apply recorded_waiting]|].
  intros [id|e]; cbv beta iota; [|apply owns_done].
  assert (Forall waiting [(id, Received)]) as HQ by by repeat constructor.
  do 2 (eapply owns_bind; [apply owns_sees; [keeps|done]|]; intros ?; cbv beta).
  eapply owns_bind; [apply owns_act; [apply (queue_takes (mkCommitTask id _ _ _))|done]|]. intros ?. apply owns_done.
Qed.
Lemma record_answer_owned addrs w rid m h l : owns_w any waiting [] (record_answer_t addrs w rid m h l) (λ _, []).
Proof.
  unfold record_answer_t. destruct (build_response l) as [rh rx]. cbv zeta.
  eapply owns_bind; [apply owns_act; [apply takes_world, create_world|apply recorded_waiting]|].
  intros [id|e]; [apply do_commit_owned|apply owns_done].
Qed.
Lemma finalize_owned addrs b3 rid p : owns_w any waiting [] (finalize_t addrs b3 rid p) (λ _, []).
Proof.
  unfold finalize_t. destruct (select_winning_wallet _) as [w|]; [|apply owns_done]. destruct (build_response _) as [rh rx].
  eapply owns_bind; [|intros ?; apply record_answer_owned]. destruct b3; [|apply owns_done]. apply owns_kept; [apply receipt_kept|done].
Qed.
Lemma finalize_spec_owned addrs rid p : owns_w any waiting [] (finalize_spec_t addrs rid p) (λ _, []).
Proof. unfold finalize_spec_t. destruct (select_winning_wallet _) as [w|]; [apply record_answer_owned|apply owns_done]. Qed.
Lemma renew_tick_owned addrs n : owns_w any waiting [] (renew_tick_t addrs n) (λ _, []).
Proof.
  unfold renew_tick_t. eapply owns_bind; [apply owns_kept; [keeps|done]|]. intros [h|e]; [|apply owns_done]. cbv beta.
  apply owns_each_keep. intros a. others; done.
Qed.

(** Every thread that starts owns nothing, a spawned commit its answer. *)
Lemma job_owned j : owns_s [] (job_thread j) (λ _, []).
Proof.
  destruct j; cbn [job_thread].
  - apply owns_ignored, handle_submit_owned.
  - apply owns_sees; [apply opoi_disconnect_kept|done].
  - apply owns_ignored, receive_prompt_owned.
  - apply owns_ignored, poll_assign_owned.
  - do 2 (eapply owns_bind; [apply owns_sees; [keeps|done]|]; intros ?). apply owns_in_world, renew_tick_owned.
  - eapply owns_bind; [apply owns_sees; [keeps|done]|]. intros ?. apply owns_in_world, finalize_owned.
  - eapply owns_bind; [apply owns_sees; [keeps|done]|]. intros ?. apply owns_in_world, finalize_spec_owned.
  - apply owns_in_world. others; done.
Qed.
Lemma task_owned addrs t : owns_s [commit_token t] (task_thread addrs t) (λ _, []).
Proof. apply owns_in_world, do_commit_owned. Qed.
End owners.

(** ** Only the payout pays *)

(** The payments the daemon was asked for. *)
Definition is_send (c : csd_call) : Prop := c.1 = "sendmany".
#[export] Instance is_send_dec c : Decision (is_send c).
Proof. unfold is_send. apply _. Defined.
Definition sends (l : csd_log) : csd_log := filter is_send l.
Definition nothing_sent (l l' : csd_log) : Prop := sends l' = sends l.
#[export] Instance nothing_sent_preorder : PreOrder nothing_sent.
Proof. unfold nothing_sent. split; [by intros l|]. intros x y z Hxy Hyz. by etrans. Qed.

(** Nothing is sent, and rows are only appended, unpaid. *)
Definition unpaid_kept (w w' : World) : Prop := grows (λ _, True) (w_db w) (w_db w') ∧ nothing_sent (w_csd w) (w_csd w').
#[export] Instance unpaid_kept_preorder : PreOrder unpaid_kept.
Proof. split; [intros w; by split|]. intros x y z [Hxy Lxy] [Hyz Lyz]. split; by etrans. Qed.
Definition sys_unpaid_kept (s s' : Sys) : Prop := unpaid_kept (sy_world s) (sy_world s').
#[export] Instance sys_unpaid_kept_preorder : PreOrder sys_unpaid_kept.
Proof. split; [intros s; by split|]. intros x y z Hxy Hyz. unfold sys_unpaid_kept in *. by etrans. Qed.

Section unpaid.
Context `{Csd, RowOrder, Crypto, HexError, MapIter, Schedule, DisplayF64}.

Lemma call_sends_nothing {T} method params (parse : Value → option T) : method ≠ "sendmany" → steps nothing_sent (call method params parse).
Proof. intros Hm l. unfold call, nothing_sent, sends. cbn [snd]. rewrite filter_app, filter_cons_False, app_nil_r; done. Qed.
Lemma unpaid_db {A} (m : M Database A) : steps (grows (λ _, True)) m → steps unpaid_kept (db m).
Proof. intros Hm w. unfold db, zoom. specialize (Hm (w_db w)). by destruct (m (w_db w)). Qed.
Lemma unpaid_csd {A} (m : M csd_log A) : steps nothing_sent m → steps unpaid_kept (csd m).
Proof. intros Hm w. unfold csd, zoom. specialize (Hm (w_csd w)). by destruct (m (w_csd w)). Qed.
Lemma unpaid_net {A} (m : M Net A) : steps unpaid_kept (net m).
Proof. intros w. unfold net, zoom. by destruct (m (w_net w)). Qed.
Lemma unpaid_sys {A} (m : M World A) : steps unpaid_kept m → steps sys_unpaid_kept (OpoiEngine.world m).
Proof. intros Hm s. unfold OpoiEngine.world, zoom. specialize (Hm (sy_world s)). by destruct (m (sy_world s)). Qed.
Lemma unpaid_eng f : steps sys_unpaid_kept (eng f).
Proof. by intros s. Qed.
#[local] Hint Extern 1 (steps nothing_sent ?m) =>
  (let h := get_head m in unfold h; first [by apply call_sends_nothing | apply steps_bind; [typeclasses eauto|by apply call_sends_nothing|intros ?; apply steps_ret; typeclasses eauto]]) : kept.
#[local] Hint Resolve unpaid_db unpaid_csd unpaid_net unpaid_sys unpaid_eng : kept.
Ltac all_acts := repeat first
  [ progress intros
  | progress cbv zeta
  | solve [auto with kept]
  | apply acts_act; solve [keeps]
  | apply acts_done
  | match goal with |- acts _ (match ?x with _ => _ end) => destruct x end
  | apply acts_ignored | apply acts_each | apply acts_collect | apply acts_bind
  | match goal with |- acts _ ?t => let h := get_head t in unfold h end ].
Lemma commit_unpaid n addrs sid rid h tc : acts unpaid_kept (commit_rounds_t n addrs sid rid h tc).
Proof. induction n; cbn [commit_rounds_t]; all_acts. Qed.
Lemma try_reveal_unpaid l : acts unpaid_kept (try_reveal_any_t l).
Proof. induction l; cbn [try_reveal_any_t]; all_acts. Qed.
#[local] Hint Resolve commit_unpaid try_reveal_unpaid : kept.
Lemma poll_reveal_unpaid : acts unpaid_kept poll_reveal_tick_t.
Proof. all_acts. Qed.
Lemma cache_requests_unpaid l : acts sys_unpaid_kept (cache_requests_t l).
Proof. induction l; cbn [cache_requests_t]; all_acts. Qed.
Lemma assign_candidates_unpaid l : acts sys_unpaid_kept (assign_candidates_t l).
Proof. induction l; cbn [assign_candidates_t]; all_acts. Qed.
#[local] Hint Resolve cache_requests_unpaid assign_candidates_unpaid : kept.
Lemma in_world_unpaid {A} (t : thread World A) : acts unpaid_kept t → acts sys_unpaid_kept (world_t t).
Proof. intros Ht. by apply (acts_within _ unpaid_kept). Qed.
#[local] Hint Resolve in_world_unpaid : kept.
Lemma renew_tick_unpaid addrs n : acts unpaid_kept (renew_tick_t addrs n).
Proof. all_acts. Qed.
Lemma finalize_unpaid addrs b3 rid p : acts unpaid_kept (finalize_t addrs b3 rid p).
Proof. all_acts. Qed.
Lemma finalize_spec_unpaid addrs rid p : acts unpaid_kept (finalize_spec_t addrs rid p).
Proof. all_acts. Qed.
Lemma consequence_unpaid id w r a x : acts unpaid_kept (ignored (act (db (insert_b3lite_consequence id w r a x)))).
Proof. all_acts. Qed.
#[local] Hint Resolve renew_tick_unpaid finalize_unpaid finalize_spec_unpaid consequence_unpaid : kept.
Lemma job_unpaid j : acts sys_unpaid_kept (job_thread j).
Proof. destruct j; cbn [job_thread]; all_acts. Qed.
Lemma task_unpaid addrs t : acts sys_unpaid_kept (task_thread addrs t).
Proof. apply in_world_unpaid, commit_unpaid. Qed.

(** *** What the payout relies on *)

(** These rows are there to be paid. *)
Definition due (subs : list Submission) (d : Database) : Prop :=
  Forall (λ u, u ∈ submissions d ∧ s_status u = Published ∧ s_paid u = false) subs.
(** A payment of what the table owes, each row counted once. *)
Definition due_payment (d : Database) (c : csd_call) : Prop :=
  ∃ addr mn fee subs amounts ids, due subs d ∧ NoDup subs ∧ plan_payout mn fee subs = (amounts, ids) ∧ c = sendmany_call addr amounts.
Definition sends_due (w w' : World) : Prop :=
  ∃ new, sends (w_csd w') = sends (w_csd w) ++ new ∧ length new ≤ 1 ∧ Forall (due_payment (w_db w)) new.

(** Nobody but a payout takes it back. *)
Definition lasting (J : Database → Prop) : Prop :=
  ∀ d d', rtc ledger_step (submissions d) (submissions d') → grows (λ _, True) d d' → J d → J d'.
Fixpoint relies {A} (J : Database → Prop) (t : thread World A) : Prop :=
  match t with
  | Done _ => True
  | Act m k => ∀ w, db_wf (w_db w) → J (w_db w) →
      let '(b, w') := m w in moved any [] [] w w' ∧ sends_due w w' ∧ ∃ J', lasting J' ∧ J' (w_db w') ∧ relies J' (k b)
  end.

Lemma rows_published s s' : rtc row_step s s' → s_status s = Published → s' = s ∨ s_paid s' = true.
Proof.
  intros Hr Hs. apply rtc_inv in Hr as [->|(y & Hsy & Hys)]; [by left|right].
  assert (settled_row y) as Hy by (destruct Hsy; first [congruence|done]). rewrite (settled_rows _ _ Hy Hys). apply Hy.
Qed.
Lemma due_lasting subs : lasting (due subs).
Proof.
  intros d d' Hl (new & _ & Hf & _) Hdue. eapply Forall_impl; [exact Hdue|]. intros u (Hu & Su & Pu). split; [|done].
  apply list_elem_of_lookup_1 in Hu as [i Hi]. destruct (ledger_history _ _ i u Hl Hi) as (u' & Hi' & Hrows).
  assert (paid_flags d' !! i = Some (s_paid u)) as Hp.
  { rewrite Hf, lookup_app_l by (eapply lookup_lt_Some; unfold paid_flags; rewrite list_lookup_fmap, Hi; done).
    unfold paid_flags. by rewrite list_lookup_fmap, Hi. }
  unfold paid_flags in Hp. rewrite list_lookup_fmap, Hi' in Hp. cbn in Hp.
  destruct (rows_published _ _ Hrows Su) as [->|Hpaid]; [by eapply list_elem_of_lookup_2|congruence].
Qed.
Lemma sent_nothing w w' : nothing_sent (w_csd w) (w_csd w') → sends_due w w'.
Proof. intros E. exists []. rewrite app_nil_r. by split_and!; [|cbn; lia|]. Qed.
Lemma relies_act {A B} J (m : M World A) (k : A → thread World B) :
  (∀ w, db_wf (w_db w) → J (w_db w) →
    moved any [] [] w (m w).2 ∧ sends_due w (m w).2 ∧ ∃ J', lasting J' ∧ J' (w_db (m w).2) ∧ relies J' (k (m w).1)) → relies J (act m ≫= k).
Proof. intros Hm w Hd Hw. specialize (Hm w Hd Hw). by destruct (m w) as [a w']. Qed.
Lemma relies_idle {A} (a : A) d : ∃ J, lasting J ∧ J d ∧ relies J (Done a : thread World A).
Proof. exists (λ _, True). by split_and!. Qed.

(** The query lists what is due. *)
Lemma unpaid_due w : db_wf (w_db w) → let '(r, w') := db list_unpaid_published w in
  moved any [] [] w w' ∧ nothing_sent (w_csd w) (w_csd w') ∧ ∀ subs, r = Ok subs → due subs (w_db w') ∧ NoDup subs.
Proof.
  intros Hd. pose proof (db_world _ _ list_unpaid_published (select_kept _) w) as Hm.
  unfold db, zoom, list_unpaid_published in *.
  match goal with |- context [select ?q (w_db w)] => destruct (select_outcome q (w_db w)) as (fs & E & Hok); destruct (select q (w_db w)) as [r0 d] end.
  split_and!; [exact Hm|done|]. intros subs ->. specialize (Hok _ eq_refl). cbn in *. subst d. split.
  - apply Forall_forall. intros u Hu. rewrite Hok in Hu. by apply list_elem_of_filter in Hu as [(? & ? & _) ?].
  - rewrite Hok. apply NoDup_filter, (NoDup_fmap_1 s_id), Hd.
Qed.
Lemma payout_relies addr mn fee : relies (λ _, True) (payout_run_t addr mn fee).
Proof.
  apply relies_act. intros w Hd _. pose proof (unpaid_due w Hd) as Hq. destruct (db list_unpaid_published w) as [r w1]. cbn [fst snd].
  destruct Hq as (Hm & Hs & Hdue). split_and!; [done|by apply sent_nothing|].
  destruct r as [[|u0 us]|e]; [apply relies_idle| |apply relies_idle]. destruct (Hdue _ eq_refl) as [Hd1 Hnd].
  destruct (plan_payout mn fee (u0 :: us)) as [amounts ids] eqn:Hplan. destruct amounts as [|am ams]; [apply relies_idle|].
  exists (due (u0 :: us)). split_and!; [apply due_lasting|done|]. apply relies_act. intros w2 _ Hw2. split_and!; [apply csd_kept| |].
  { exists [sendmany_call addr (am :: ams)]. split_and!; [|done|constructor; [by exists addr, mn, fee, (u0 :: us), (am :: ams), ids|done]].
    change (sends (w_csd w2 ++ [sendmany_call addr (am :: ams)]) = sends (w_csd w2) ++ [sendmany_call addr (am :: ams)]).
    unfold sends. by rewrite filter_app. }
  assert (w_db (csd (send_many addr (am :: ams)) w2).2 = w_db w2) as Ed by done.
  destruct (csd _ w2) as [[tx|e] w3]; cbn [fst snd] in *; [|apply relies_idle].
  exists (due (u0 :: us)). split_and!; [apply due_lasting|by rewrite Ed|].
  apply relies_act. intros w4 _ Hw4. split_and!.
  - apply db_world_at, kept_paid. intros r Hr. rewrite (plan_ids_settled _ _ _ _ _ _ Hplan) in Hr. destruct Hr as (u & Hu & Er & _).
    destruct (proj1 (Forall_forall _ _) Hw4 u Hu) as (? & ? & ?). apply Exists_exists. by exists u.
  - apply sent_nothing. unfold db, zoom. by destruct (mark_paid ids tx (w_db w4)).
  - destruct (db (mark_paid ids tx) w4) as [[[]|e] w5]; apply relies_idle.
Qed.
End unpaid.

(** ** The invariant of the process *)

Section invariant.
Context `{Csd, RowOrder, Crypto, HexError, MapIter, Schedule, DisplayF64}.

Definition thread_ok (ts : list token) (t : thread Sys ()) : Prop :=
  Forall waiting ts ∧ owns opoi_view any waiting ts t (λ _, []) ∧ acts sys_unpaid_kept t.
Definition queue (s : Sys) : list token := commit_token <$> OpoiEngine.tasks (sy_engine s).

(** [tr] is the reveal loop's, [tss] the threads', and the payout relies on [J]. *)
Record process_ok (tr : list token) (tss : list (list token)) (J : Database → Prop) (p : Process) : Prop := {
  po_reveal : owns world_view waiting any tr (pr_reveal p) (λ _, []) ∧ acts unpaid_kept (pr_reveal p);
  po_threads : Forall2 thread_ok tss (pr_threads p);
  po_payout : lasting J ∧ J (w_db (sy_world (pr_sys p))) ∧ relies J (pr_payout p);
  po_ledger : ledger_ok (w_db (sy_world (pr_sys p))) (tr ++ mjoin tss ++ queue (pr_sys p))
}.
Definition sound (p : Process) : Prop := ∃ tr tss J, process_ok tr tss J p.

Lemma threads_waiting tss l : Forall2 thread_ok tss l → Forall waiting (mjoin tss).
Proof. induction 1 as [|ts t tss l [Hw _] _ IH]; [done|]. cbn. by apply Forall_app. Qed.
Lemma queue_waiting s : Forall waiting (queue s).
Proof. unfold queue. apply Forall_fmap, Forall_forall. done. Qed.
Lemma mjoin_insert {A} (tss : list (list A)) i ts ts' : tss !! i = Some ts →
  mjoin tss ≡ₚ ts ++ mjoin (delete i tss) ∧ mjoin (<[i:=ts']> tss) ≡ₚ ts' ++ mjoin (delete i tss).
Proof.
  revert i. induction tss as [|x tss IH]; intros [|i] Hi; try done; [by injection Hi as ->|]. cbn. destruct (IH i Hi) as [-> ->].
  split; rewrite !(app_assoc x), (Permutation_app_comm x); by rewrite <-!app_assoc.
Qed.

(** The table moves on, and the payout still may rely on what it did. *)
(** What one move may do: nobody but the payout pays, and only what is due. *)
Definition pays_due (v : move) (p p' : Process) : Prop :=
  sends_due (sy_world (pr_sys p)) (sy_world (pr_sys p'))
  ∧ (v ≠ TurnPayout → nothing_sent (w_csd (sy_world (pr_sys p))) (w_csd (sy_world (pr_sys p')))).
(** The rest of the bridge does not call [sendmany]. *)
Definition elsewhere_unpaid (v : move) : Prop :=
  match v with Elsewhere calls _ _ _ => sends calls = [] | _ => True end.
Definition step_ok (v : move) (p p' : Process) : Prop := sound p' ∧ rtc ledger_step (rows_of p) (rows_of p') ∧ (elsewhere_unpaid v → pays_due v p p').

Lemma step_idle v p p' : sound p' → sy_world (pr_sys p') = sy_world (pr_sys p) → step_ok v p p'.
Proof.
  intros Hs E. unfold step_ok, rows_of, pays_due. rewrite E. split_and!; [done|done|intros _; by split; [apply sent_nothing|]].
Qed.
(** The table moves on, and the payout still may rely on what it did. *)
Lemma step_next v tr tss J tr' tss' p p' :
  process_ok tr tss J p → pr_payout p' = pr_payout p →
  flow (w_db (sy_world (pr_sys p))) (tr ++ mjoin tss ++ queue (pr_sys p)) (w_db (sy_world (pr_sys p'))) (tr' ++ mjoin tss' ++ queue (pr_sys p')) →
  grows (λ _, True) (w_db (sy_world (pr_sys p))) (w_db (sy_world (pr_sys p'))) →
  (elsewhere_unpaid v → nothing_sent (w_csd (sy_world (pr_sys p))) (w_csd (sy_world (pr_sys p')))) →
  owns world_view waiting any tr' (pr_reveal p') (λ _, []) ∧ acts unpaid_kept (pr_reveal p') → Forall2 thread_ok tss' (pr_threads p') →
  step_ok v p p'.
Proof.
  intros [_ _ (Hj & Hjd & Hr) Hl] Ep Hf Hg Hn Hrev Hth. destruct (Hf Hl) as [Hl' Hs]. split_and!; [|done|intros He; specialize (Hn He); by split; [apply sent_nothing|]].
  exists tr', tss', J. split; [done|done| |done]. rewrite Ep. split_and!; [done|by eapply Hj|done].
Qed.

Lemma turn_of_ok i p : sound p → step_ok (TurnOf i) p (move_run (TurnOf i) p).
Proof.
  intros (tr & tss & J & Hok). unfold move_run. destruct (pr_threads p !! i) as [t|] eqn:Ht; [|apply step_idle; [by exists tr, tss, J|done]].
  destruct (Forall2_lookup_r _ _ _ _ _ (po_threads _ _ _ _ Hok) Ht) as (ts & Hts & Hw & Ho & Ha).
  destruct t as [a|B m k]; cbn [turn].
  { apply step_idle; [|done]. exists tr, tss, J. destruct Hok as [H1' H2' H3' H4']. split; [done| |done..]. cbn [pr_threads].
    change (Forall2 thread_ok tss (<[i:=Done a]> (pr_threads p))). by rewrite list_insert_id. }
  destruct Ho as (mid & Hm & HQ & Hk). destruct Ha as [Hm' Hk']. specialize (Hm (pr_sys p)). specialize (Hm' (pr_sys p)).
  destruct (m (pr_sys p)) as [b s']. destruct (mjoin_insert tss i ts (mid b) Hts) as [E1 E2].
  apply (step_next _ tr tss J tr (<[i:=mid b]> tss) _ _ Hok); [done| |apply Hm'|intros _; apply Hm'|apply Hok|].
  - eapply flow_perm; [| |apply (Hm (tr ++ mjoin (delete i tss))); by apply Forall_forall].
    + rewrite E1. cbn [v_tokens opoi_view]. fold (queue (pr_sys p)). solve_Permutation.
    + rewrite E2. cbn [v_tokens opoi_view]. solve_Permutation.
  - apply Forall2_insert; [apply Hok|]. split_and!; [apply HQ|apply Hk|apply Hk'].
Qed.
Lemma turn_reveal_ok p : sound p → step_ok TurnReveal p (move_run TurnReveal p).
Proof.
  intros (tr & tss & J & Hok). unfold move_run. destruct (po_reveal _ _ _ _ Hok) as [Ho Ha]. revert Ho Ha.
  destruct (pr_reveal p) as [a|B m k] eqn:Er; cbn [turn].
  { intros Ho Ha. apply step_idle; [|done]. exists tr, tss, J. by destruct Hok; split. }
  intros (mid & Hm & _ & Hk) [Hm' Hk']. specialize (Hm (sy_world (pr_sys p))). specialize (Hm' (sy_world (pr_sys p))).
  destruct (m (sy_world (pr_sys p))) as [b w']. cbn in Hm. unfold token_flow in Hm. rewrite !app_nil_r in Hm.
  apply (step_next _ tr tss J (mid b) tss _ _ Hok); [done| |apply Hm'|intros _; apply Hm'|by split; [apply Hk|apply Hk']|apply Hok].
  apply Hm. apply Forall_app. split; [by eapply threads_waiting, Hok|apply queue_waiting].
Qed.
Lemma turn_payout_ok p : sound p → step_ok TurnPayout p (move_run TurnPayout p).
Proof.
  intros (tr & tss & J & Hok). unfold move_run. destruct (po_payout _ _ _ _ Hok) as (Hj & Hjd & Hr). revert Hr.
  destruct (pr_payout p) as [a|B m k] eqn:Ep; cbn [turn].
  { intros Hr. apply step_idle; [|done]. exists tr, tss, J. by destruct Hok; split. }
  cbn [relies]. intros Hr. specialize (Hr _ (lk_wf _ _ (po_ledger _ _ _ _ Hok)) Hjd). destruct (m (sy_world (pr_sys p))) as [b w'].
  destruct Hr as ([_ Hf] & Hsd & J' & Hj' & Hjd' & Hr').
  destruct (Hf (tr ++ mjoin tss ++ queue (pr_sys p)) ltac:(by apply Forall_forall) (po_ledger _ _ _ _ Hok)) as [Hl Hs].
  split_and!; [|exact Hs|intros _; by split; [exact Hsd|]]. exists tr, tss, J'. by destruct Hok; split.
Qed.

(** A thread more. *)
Lemma spawn_ok v ts t tr tss J p s' : process_ok tr tss J p → thread_ok ts t → sy_world s' = sy_world (pr_sys p) →
  ts ++ queue s' ≡ₚ queue (pr_sys p) →
  step_ok v p (p <| pr_sys := s' |> <| pr_threads := pr_threads p ++ [t] |>).
Proof.
  intros Hok Ht Ew Eq. set (p' := p <| pr_sys := s' |> <| pr_threads := pr_threads p ++ [t] |>).
  apply (step_next _ tr tss J tr (tss ++ [ts]) _ _ Hok); [done| | | |apply Hok|].
  - change (w_db (sy_world (pr_sys p'))) with (w_db (sy_world s')). rewrite Ew. change (pr_sys p') with s'.
    apply flow_drop. rewrite <-Eq. unfold mjoin. rewrite join_app. cbn. rewrite app_nil_r. solve_submseteq.
  - change (w_db (sy_world (pr_sys p'))) with (w_db (sy_world s')). rewrite Ew. reflexivity.
  - intros _. change (sy_world (pr_sys p')) with (sy_world s'). by rewrite Ew.
  - apply Forall2_app; [apply Hok|by constructor].
Qed.

Lemma move_ok v p : sound p → step_ok v p (move_run v p).
Proof.
  intros Hs. destruct v as [j|i| |addr mn fee|i| | |calls r n now|fs now]; cbn [move_run];
    [| | | |by apply turn_of_ok|by apply turn_reveal_ok|by apply turn_payout_ok| |]; destruct Hs as (tr & tss & J & Hok).
  - apply (spawn_ok _ [] (job_thread j) tr tss J p (pr_sys p) Hok); [|done..]. split_and!; [done|apply job_owned|apply job_unpaid].
  - destruct (OpoiEngine.tasks (sy_engine (pr_sys p)) !! i) as [t|] eqn:Ht; [|apply step_idle; [by exists tr, tss, J|done]].
    apply (spawn_ok _ [commit_token t] _ tr tss J p _ Hok); [|done|].
    + split_and!; [by repeat constructor|apply task_owned|apply task_unpaid].
    + change (commit_token t :: (commit_token <$> delete i (OpoiEngine.tasks (sy_engine (pr_sys p)))) ≡ₚ queue (pr_sys p)).
      rewrite <-fmap_cons. apply Permutation_map. symmetry. by apply delete_Permutation.
  - destruct (ended (pr_reveal p)); [|apply step_idle; [by exists tr, tss, J|done]].
    apply (step_next _ tr tss J [] tss p _ Hok); [done| |reflexivity|done|by split; [apply poll_reveal_owned|apply poll_reveal_unpaid]|apply Hok].
    apply flow_drop. solve_submseteq.
  - destruct (ended (pr_payout p)); [|apply step_idle; [by exists tr, tss, J|done]]. apply step_idle; [|done].
    exists tr, tss, (λ _, True). destruct Hok. split; [done..| |done]. split_and!; [done|done|apply payout_relies].
  - apply (step_next _ tr tss J tr tss p _ Hok); [done|apply flow_refl|reflexivity| |apply Hok..]. cbn.
    unfold nothing_sent, sends. intros He. rewrite filter_app, He. apply app_nil_r.
  - apply (step_next _ tr tss J tr tss p _ Hok); [done| |by apply grows_same|done|apply Hok..].
    pose proof (db_weather_kept fs now (w_db (sy_world (pr_sys p)))) as [_ _ Hf]. apply (Hf _). by apply Forall_forall.
Qed.

(** Any number of moves. *)
Lemma moves_ok l p : sound p → sound (moves_run l p) ∧ rtc ledger_step (rows_of p) (rows_of (moves_run l p)).
Proof.
  revert p. induction l as [|v l IH]; intros p Hs; [done|]. cbn.
  destruct (move_ok v p Hs) as (Hs1 & Hr & _). destruct (IH _ Hs1) as [Hs2 Hr2]. split; [exact Hs2|]. by etrans.
Qed.
Lemma idle_sound s : db_wf (w_db (sy_world s)) → paid_ok (w_db (sy_world s)) → OpoiEngine.tasks (sy_engine s) = [] → sound (idle s).
Proof.
  intros Hd Hp Ht. exists [], [], (λ _, True). split; [by split; [apply submseteq_nil_l|]|constructor|by split_and!|].
  cbn. unfold queue. rewrite Ht. by split; [..|apply NoDup_nil_2|].
Qed.
End invariant.

(** ** Properties *)

Section properties.
Context `{Csd, RowOrder, Crypto, HexError, MapIter, Schedule, DisplayF64}.

(** C15. Under every interleaving of the money path the table of answers refines the
    ledger.  Started on a well-formed database with nothing running, after any
    sequence [l] of moves (sessions, prompts, ticks, recordings, commits, the
    reveal and the payout loop taking turns at every statement, call and lock, in
    any number and any order, with PostgreSQL failing as it likes) the tables are
    still well formed and every change of the answers was a step of the ledger
    (recorded unpaid, committed or given up, revealed, published, paid, in this
    order, each at most once); so is every later one ([l']), and an answer that is
    published and paid is left as it is for good. *)
Theorem interleaving_follows_ledger (s : Sys) (l l' : list move) :
  db_wf (w_db (sy_world s)) → paid_ok (w_db (sy_world s)) → OpoiEngine.tasks (sy_engine s) = [] →
  let p := moves_run l (idle s) in
  let p' := moves_run l' p in
  db_wf (w_db (sy_world (pr_sys p)))
  ∧ rtc ledger_step (submissions (w_db (sy_world s))) (rows_of p)
  ∧ rtc ledger_step (rows_of p) (rows_of p')
  ∧ (∀ i row, rows_of p !! i = Some row → settled_row row → rows_of p' !! i = Some row).
Proof.
  intros Hd Hp Ht p p'. destruct (moves_ok l (idle s) (idle_sound s Hd Hp Ht)) as [Hs Hr]. destruct (moves_ok l' p Hs) as [Hs' Hr'].
  split_and!; [by destruct Hs as (? & ? & ? & [_ _ _ [? _ _ _]])|exact Hr|exact Hr'|].
  intros i row Hi Hset. destruct (ledger_history _ _ i row Hr' Hi) as (row' & Hi' & Hrow). by rewrite (settled_rows _ _ Hset Hrow) in Hi'.
Qed.

(** C16. A payout pays only what is due at the moment it pays, whatever happened since
    it asked what is unpaid: in every reachable state of the interleaved process, a
    move sends at most one [sendmany], only the payout's own turns do (the rest of
    the bridge calls it nowhere), and the amounts it carries were computed from
    distinct rows that are still, in this very state, in the table as they were
    read, published and unpaid. *)
Theorem payments_are_due (s : Sys) (l : list move) (v : move) :
  db_wf (w_db (sy_world s)) → paid_ok (w_db (sy_world s)) → OpoiEngine.tasks (sy_engine s) = [] → elsewhere_unpaid v →
  let w := sy_world (pr_sys (moves_run l (idle s))) in
  let w' := sy_world (pr_sys (move_run v (moves_run l (idle s)))) in
  (∃ new, sends (w_csd w') = sends (w_csd w) ++ new ∧ length new ≤ 1
     ∧ ∀ c, c ∈ new → ∃ addr min_payout fee subs,
         c = sendmany_call addr (plan_payout min_payout fee subs).1 ∧ NoDup subs
         ∧ ∀ u, u ∈ subs → u ∈ submissions (w_db w) ∧ s_status u = Published ∧ s_paid u = false)
  ∧ (v ≠ TurnPayout → sends (w_csd w') = sends (w_csd w)).
Proof.
  intros Hd Hp Ht He w w'. destruct (moves_ok l (idle s) (idle_sound s Hd Hp Ht)) as [Hs _].
  destruct (move_ok v _ Hs) as (_ & _ & Hdue). destruct (Hdue He) as [(new & E & Hlen & Hnew) Hother]. split; [|exact Hother].
  exists new. split_and!; [exact E|exact Hlen|]. intros c Hc. destruct (proj1 (Forall_forall _ _) Hnew c Hc) as (addr & mn & fee & subs & am & ids & Hdu & Hnd & Hpl & ->).
  exists addr, mn, fee, subs. rewrite Hpl. split_and!; [done|done|]. by apply Forall_forall.
Qed.
End properties.

(** ** A sample process, for the witnesses *)

(** A market with one request for a model that is not sharded, and a daemon that accepts everything. *)
Definition market_csd : Csd := {|
  csd_post := λ _ method params,
    let answer :=
      if bool_decide (method = "getinfo") then Array [u 10]
      else if bool_decide (method = "listopoirequests") then Array [request_json "r" "plain" 9]
      else if bool_decide (method = "getopoirequest") then Array [Str "r"; Str "plain"; Str "ph"; u 9; u 4; u 0; Null; Null]
      else if bool_decide (method = "getmodelmanifest") then Array [Str "plain"; Str "llama"; u 3; Str "root"; Str "RETIRED"]
      else if bool_decide (method = "submitopoiresponsecommit") then Array [Str "c"; Str "00"; u 5]
      else if bool_decide (method = "submitopoiresponse") then Array [Str "rv"]
      else Str "pay" in
    Body (Object [("result", answer)]);
  print_json := λ _, ""; decode_error := λ _, "" |}.
Section examples.
Existing Instances market_csd table_order in_order key_iter toy_crypto toy_hex_error.
#[local] Instance no_print'' : DisplayF64 := {| display_f64 := λ _, "" |}.

Definition two_miners : Sys := mkSys
  (mkWorld [] (empty_db []) (register "alice" 2%N (register "bob" 1%N new_registry)) (mkNet {[1%N; 2%N]} []))
  {| pending := ∅; assignments := ∅; last_assigned := None; pool_addresses := ["addr"]; stake_renew_blocks := 10; OpoiEngine.tasks := [] |} 0.
Definition sample_answer : OpoiSubmitResultParams :=
  mkOpoiSubmitResultParams "r" (hex_encode (sha256 [])) "" 1.
Definition turns (i n : nat) : list move := replicate n (TurnOf i).
Definition assigned_moves : list move := [Start (JPrompt "r" "hi" None None)] ++ turns 0 3 ++ [Start JPollAssign] ++ turns 1 9.
(** The sessions, the tick and the two loops take turns: bob's answer is recorded while
    the tick polls and the loops find nothing, committed, revealed and published. *)
Definition round : list move := [TurnOf 2; TurnReveal; TurnOf 3; TurnPayout; TurnOf 1].
Definition life : list move :=
  assigned_moves ++ [Start (JSubmit "bob" sample_answer); Start JPollAssign; StartReveal; StartPayout "pool" (f64_of_Z 1) f64_zero]
  ++ mjoin (replicate 9 round) ++ [StartTask 0] ++ turns 4 6 ++ [StartReveal] ++ mjoin (replicate 9 round)
  ++ [StartPayout "pool" (f64_of_Z 1) f64_zero; TurnPayout; Start JPollAssign; TurnOf 5].

Lemma interleaving_follows_ledger_witness :
  let p := moves_run life (idle two_miners) in
  (s_status <$> rows_of p) = [Published] ∧ rtc ledger_step [] (rows_of p)
  ∧ rtc ledger_step (rows_of p) (rows_of (moves_run [TurnPayout; TurnOf 5; TurnPayout] p)).
Proof.
  assert (db_wf (empty_db [])) as Hd by apply db_wf_empty. assert (paid_ok (empty_db [])) as Hp by constructor.
  split; [vm_compute; exact eq_refl|].
  destruct (interleaving_follows_ledger two_miners life [TurnPayout; TurnOf 5; TurnPayout] Hd Hp eq_refl) as (_ & H1 & H2 & _).
  exact (conj H1 H2).
Defined.
(** The payout is about to pay bob; while it asked what is due, a tick came between. *)
Lemma payments_are_due_witness :
  let p := moves_run life (idle two_miners) in
  sends (w_csd (sy_world (pr_sys (move_run TurnPayout p)))) = [sendmany_call "pool" [("bob", f64_of_Z 4)]]
  ∧ ∃ addr min_payout fee subs, sendmany_call "pool" [("bob", f64_of_Z 4)] = sendmany_call addr (plan_payout min_payout fee subs).1
      ∧ NoDup subs ∧ ∀ u, u ∈ subs → u ∈ rows_of p ∧ s_status u = Published ∧ s_paid u = false.
Proof.
  assert (db_wf (empty_db [])) as Hd by apply db_wf_empty. assert (paid_ok (empty_db [])) as Hp by constructor.
  assert (sends (w_csd (sy_world (pr_sys (moves_run life (idle two_miners))))) = []) as E0 by (vm_compute; exact eq_refl).
  assert (sends (w_csd (sy_world (pr_sys (move_run TurnPayout (moves_run life (idle two_miners))))))
    = [sendmany_call "pool" [("bob", f64_of_Z 4)]]) as E1 by (vm_compute; exact eq_refl).
  destruct (payments_are_due two_miners life TurnPayout Hd Hp eq_refl I) as [(new & E & _ & Hnew) _].
  split; [exact E1|]. apply Hnew. rewrite E0, E1 in E. cbn [app] in E. rewrite <-E. by left.
Defined.

(** A request is handed out after its answer was recorded: while bob's answer is being
    checked, another of his connections ends and releases the request; a tick finds it
    unassigned, and asks for its manifest while the answer is recorded and the
    assignment removed; then it claims the request for alice, whose answer is refused
    and whose claim stays. *)
Definition race : list move := assigned_moves ++ [Start (JSubmit "bob" sample_answer)] ++ turns 2 1 ++ [Start (JDisconnect "bob")] ++ turns 3 1
  ++ [Start JPollAssign] ++ turns 4 5 ++ turns 2 8 ++ turns 4 4.
Lemma answered_request_assigned_again :
  let p := moves_run (race ++ [Start (JSubmit "alice" sample_answer)] ++ turns 5 4) (idle two_miners) in
  (s_request_id <$> rows_of (moves_run race (idle two_miners))) = ["r"]
  ∧ assignee "r" (assignments (sy_engine (pr_sys p))) = Some "alice"
  ∧ length (sent (w_net (sy_world (pr_sys p)))) = 2
  ∧ (s_miner_wallet <$> rows_of p) = ["bob"]
  ∧ forallb ended (pr_threads p) = true.
Proof. vm_compute. by split_and!. Qed.
End examples.
