(* ===== verification/Composition.v ===== *)
(** * The bridge as a whole

    Whatever happens to the bridge, in whatever order - lines of miners and of
    the pool, hang-ups, experts' and auditors' answers, ticks, HTTP requests,
    detached tasks, database failures - what its components share stays sound,
    the table of answers follows the ledger, and the verdicts of past audits stay
    in force. *)

From S2P Require Import MinerRegistry AssignmentTracker StakePool RateLimit Config OpoiEngine Tensor ExpertDispatch ModelSource.
From S2P Require Import Pipeline ShardEngine Speculative B3LiteAudit AuditPolicy Payout Kept.
From S2P Require Export Bridge.

(** ** Everything that can happen *)

(** A line of a miner or of the pool, a peer that hangs up, a wait that ends, a
    tick, a request, a task, the passing of time, and what PostgreSQL and its
    clock do next. *)
Inductive bridge_event : Type :=
| EvAccept (o : Incoming)
| EvDown (tx : N) (line : string)
| EvUp (tx : N) (line : string)
| EvClose (tx : N)
| EvExpert (tx : N) (i : nat) (timed_out : bool)
| EvVerdict (elapsed : bool)
| EvReplay (o : process_outcome)
| EvTimer (t : Timer)
| EvHttp (q : HttpRequest)
| EvOpoiTask (i : nat)
| EvShardTask (i : nat)
| EvSpecTask (i : nat)
| EvClock (now : N)
| EvDb (faults : list fault) (now : N).

Section events.
Context `{Csd, RowOrder, Crypto, HexError, MapIter, HttpGet, Marketplace, Tokenizers, Schedule, DisplayF64, JsonText}.

Definition bridge_event_run (e : bridge_event) : M Bridge () :=
  match e with
  | EvAccept o => accept o
  | EvDown tx line => on_session tx (session_step (Down line))
  | EvUp tx line => on_session tx (session_step (Up line))
  | EvClose tx => on_session tx (session_step Closed)
  | EvExpert tx i timed_out => on_session tx (session_expert i timed_out)
  | EvVerdict elapsed => now ← gets br_now; on_audit (poll_verdict now elapsed)
  | EvReplay o => now ← gets br_now; on_audit (process_ended now o)
  | EvTimer t => run_timer t
  | EvHttp q => ignore (serve q)
  | EvOpoiTask i => run_opoi_task i
  | EvShardTask i => run_shard_queue i
  | EvSpecTask i => run_spec_queue i
  | EvClock now => modify (λ b, b <| br_now := now |>)
  | EvDb fs now => in_shared (db (modify (λ d, d <| faults := fs |> <| clock := now |>)))
  end.
Definition bridge_after (evs : list bridge_event) (b : Bridge) : Bridge := (for_each bridge_event_run evs b).2.
End events.

(** ** The bridge keeps it *)

(** The detached commits of the three engines own their answers; nobody else
    owns a row between two events. *)
Definition bridge_tokens (b : Bridge) : list token :=
  (commit_token <$> OpoiEngine.tasks (br_opoi b)) ++ (commit_token <$> se_tasks (br_shard b)) ++ spec_tokens (br_spec b).
Definition bridge_view `{Crypto} : view Bridge := mkView br_world bridge_tokens (λ b, audit_ok (br_audit b)).
Notation bridge_kept := (sees_for waiting bridge_view).
(** ... seen from one of its sessions. *)
Definition session_view `{Crypto} : view (Bridge * Session ExpertWait) :=
  mkView (λ x, br_world x.1) (λ x, bridge_tokens x.1) (λ x, audit_ok (br_audit x.1)).
Notation session_kept := (sees_for waiting session_view).

Section bridge.
Context `{Csd, RowOrder, Crypto, HexError, MapIter, HttpGet, Marketplace, Tokenizers, Schedule, DisplayF64, JsonText}.

Lemma bridge_tokens_waiting b : Forall waiting (bridge_tokens b).
Proof.
  unfold bridge_tokens. rewrite !Forall_app, !Forall_fmap. split_and!; try by apply Forall_forall.
  apply Forall_forall. intros t (x & _ & Hx)%list_elem_of_omap. destruct x; [done|]. by injection Hx as <-.
Qed.
Lemma bridge_in_shared {A} (m : M World A) : steps (moved waiting [] []) m → steps bridge_kept (in_shared m).
Proof.
  intros Hm b. unfold in_shared, zoom. specialize (Hm (world_of b)). cbn [world_of bridge_world] in *.
  destruct (m (br_world b)) as [a w]. split; [|done]. destruct Hm as [Hf Ht]. split; [exact Hf|].
  intros ts Hts. cbn [v_tokens bridge_view]. apply (Ht (bridge_tokens b ++ ts)). apply Forall_app. split; [|done]. apply bridge_tokens_waiting.
Qed.
Lemma bridge_in_world {A} (m : M World A) : steps world_kept m → steps bridge_kept (in_shared m).
Proof. intros Hm. apply bridge_in_shared. intros w. by apply moved_any. Qed.
(** A component's tokens are some of the bridge's. *)
Lemma moved_part own own' rest b b' w w' : moved any own own' w w' → own ++ rest ≡ₚ bridge_tokens b → own' ++ rest ≡ₚ bridge_tokens b' →
  moved waiting (bridge_tokens b) (bridge_tokens b') w w'.
Proof. intros Hm H1' H2'. eapply moved_perm; [exact H1'|exact H2'|]. by apply moved_frame. Qed.
Lemma bridge_on_opoi {A} (m : M OpoiEngine.Sys A) : steps (sees opoi_view) m → steps bridge_kept (on_opoi m).
Proof.
  intros Hm b. unfold on_opoi. specialize (Hm (mkSys (br_world b) (br_opoi b) (br_now b))). destruct (m _) as [a s].
  destruct Hm as [Hm _]. split; [|done]. 
  apply (moved_part _ _ ((commit_token <$> se_tasks (br_shard b)) ++ spec_tokens (br_spec b)) b _ _ _ Hm); reflexivity.
Qed.
Lemma bridge_on_shard {A} (m : M (ShardSys SpeculativeEngine) A) : steps (sees shard_view) m → steps bridge_kept (on_shard m).
Proof.
  intros Hm b. unfold on_shard. cbv zeta. set (s0 := mkShardSys _ _ _ _). specialize (Hm s0). destruct (m s0) as [a s].
  destruct Hm as [Hm Hs]. split; [|done]. destruct Hs as [sp Hsp]; [by eexists|]. cbn [snd] in *.
  apply (moved_part _ _ (commit_token <$> OpoiEngine.tasks (br_opoi b)) b _ _ _ Hm); [apply Permutation_app_comm|].
  cbn [v_tokens shard_view]. unfold shard_tokens. rewrite Hsp. apply Permutation_app_comm.
Qed.
Lemma bridge_on_spec {A} (m : M SpecSys A) : steps (sees spec_view) m → steps bridge_kept (on_spec m).
Proof.
  intros Hm b. unfold on_spec. cbv zeta. set (s0 := (_, _)). specialize (Hm s0). destruct (m s0) as [a s].
  destruct Hm as [Hm _]. split; [|done].
  apply (moved_part _ _ ((commit_token <$> OpoiEngine.tasks (br_opoi b)) ++ (commit_token <$> se_tasks (br_shard b))) b _ _ _ Hm);
    (etrans; [apply Permutation_app_comm|]; unfold bridge_tokens; by rewrite <-app_assoc).
Qed.
Lemma bridge_on_disp {A} (m : M Disp A) : steps (sees disp_view) m → steps bridge_kept (on_disp m).
Proof.
  intros Hm b. unfold on_disp. set (s0 := mkDisp _ _ _). specialize (Hm s0). destruct (m s0) as [a s].
  destruct Hm as [Hm _]. split; [|done]. by apply (moved_part [] [] (bridge_tokens b) b _ _ _ Hm).
Qed.
Lemma bridge_on_audit {A} (m : M AuditSys A) :
  steps (sees audit_view) m → (∀ s, audit_ok s.2 → audit_ok (m s).2.2) → steps bridge_kept (on_audit m).
Proof.
  intros Hm Hok b. unfold on_audit. specialize (Hm (br_world b, br_audit b)). specialize (Hok (br_world b, br_audit b)).
  destruct (m _) as [a s]. destruct Hm as [Hm _]. split; [|exact Hok]. by apply (moved_part [] [] (bridge_tokens b) b _ _ _ Hm).
Qed.
#[local] Hint Resolve bridge_in_world bridge_on_opoi bridge_on_shard bridge_on_spec bridge_on_disp : kept.
#[local] Hint Resolve poll_assign_kept submit_result_kept opoi_disconnect_kept opoi_prompt_kept opoi_queue_kept dispatch_group_kept
  poll_task_kept expert_result_kept expert_disconnect_kept draft_result_kept rollback_ack_kept spec_retry_kept spec_disconnect_kept
  spec_queue_kept resume_kept shard_result_kept shard_disconnect_kept poll_start_kept shard_queue_kept
  shard_prompt_kept active_ids_kept renew_tick_kept payout_kept opoi_world shard_ask : kept.

Lemma audit_event_kept e : (∀ f, e ≠ EvWorld f) → steps bridge_kept (on_audit (audit_event_step e)).
Proof.
  intros He. apply bridge_on_audit; [|intros s; apply event_ok].
  destruct e as [now|now o|now o|w r|w|f]; [apply audit_tick_kept|apply poll_verdict_kept|apply process_ended_kept| |
    apply audit_disconnect_kept|by destruct (He f)].
  apply steps_ignore; [typeclasses eauto|apply audit_result_kept].
Qed.
Lemma bridge_audit_result w r : steps bridge_kept (handle_audit_result w r).
Proof. apply bridge_on_audit; [apply audit_result_kept|]. intros s. apply reply_ok. Qed.
Lemma bridge_audit_disconnect w : steps bridge_kept (audit_on_disconnect w).
Proof. by apply (audit_event_kept (EvDisconnect w)). Qed.
Lemma bridge_verdict now o : steps bridge_kept (on_audit (poll_verdict now o)).
Proof. by apply (audit_event_kept (EvPoll now o)). Qed.
Lemma bridge_process now o : steps bridge_kept (on_audit (process_ended now o)).
Proof. by apply (audit_event_kept (EvProcess now o)). Qed.
Lemma bridge_audit_tick now : steps bridge_kept (on_audit (audit_event_step (EvTick now))).
Proof. by apply audit_event_kept. Qed.
#[local] Hint Resolve bridge_audit_result bridge_audit_disconnect bridge_verdict bridge_process bridge_audit_tick : kept.

Lemma settle_kept c ts : steps bridge_kept (settle c ts).
Proof. keeps. Qed.
#[local] Hint Resolve settle_kept : kept.
Lemma begin_experts_kept c : steps bridge_kept (begin_experts c).
Proof. keeps. Qed.
Lemma poll_expert_kept w i o : steps bridge_kept (poll_expert w i o).
Proof. keeps. Qed.
#[local] Hint Resolve begin_experts_kept poll_expert_kept : kept.

(** The handlers, as the sessions call them. *)
Lemma handle_submit_kept w p : steps bridge_kept (handle_submit_result (S := Bridge) w p).
Proof. apply bridge_on_opoi, submit_result_kept. Qed.
Lemma handle_shard_kept w r : steps bridge_kept (handle_shard_result (W := ExpertWait) w r).
Proof. cbn [handle_shard_result bridge_shard]. keeps. Qed.
Lemma handle_draft_kept w r : steps bridge_kept (handle_draft_result (S := Bridge) w r).
Proof. apply bridge_on_spec, draft_result_kept. Qed.
Lemma handle_ack_kept w r : steps bridge_kept (handle_kv_rollback_ack (S := Bridge) w r).
Proof. apply bridge_on_spec, rollback_ack_kept. Qed.
Lemma handle_expert_kept w r : steps bridge_kept (handle_expert_result (S := Bridge) w r).
Proof. apply bridge_on_disp, expert_result_kept. Qed.
Lemma opoi_gone_kept w : steps bridge_kept (opoi_on_disconnect (S := Bridge) w).
Proof. apply bridge_on_opoi, opoi_disconnect_kept. Qed.
Lemma shard_gone_kept w : steps bridge_kept (shard_on_disconnect (W := ExpertWait) w).
Proof. apply bridge_on_shard, shard_disconnect_kept. Qed.
Lemma spec_gone_kept w : steps bridge_kept (speculative_on_disconnect (S := Bridge) w).
Proof. apply bridge_on_spec, spec_disconnect_kept. Qed.
Lemma expert_gone_kept w : steps bridge_kept (expert_on_disconnect (S := Bridge) w).
Proof. apply bridge_on_disp, expert_disconnect_kept. Qed.
#[local] Hint Resolve handle_submit_kept handle_shard_kept handle_draft_kept handle_ack_kept handle_expert_kept opoi_gone_kept
  shard_gone_kept spec_gone_kept expert_gone_kept : kept.
Lemma release_kept w : steps bridge_kept (release (W := ExpertWait) w).
Proof. keeps. Qed.
#[local] Hint Resolve release_kept : kept.

(** *** Sessions *)

Notation SS := (Bridge * Session ExpertWait)%type.
Lemma session_shared {A} (m : M Bridge A) : steps bridge_kept m → steps session_kept (shared m).
Proof. intros Hm x. unfold shared. specialize (Hm x.1). destruct (m x.1), Hm. by split. Qed.
Lemma session_mine f : steps session_kept (mine f).
Proof. intros x. split; [apply moved_refl|done]. Qed.
Lemma session_my {A} (f : Session ExpertWait → A) : steps session_kept (my f).
Proof. intros x. split; [apply moved_refl|done]. Qed.
#[local] Hint Resolve session_shared session_mine session_my : kept.
Lemma down_send_kept m : steps session_kept (down_send (S := Bridge) m).
Proof. keeps. Qed.
#[local] Hint Resolve down_send_kept : kept.
Lemma down_line_kept l : steps session_kept (down_line (S := Bridge) l).
Proof. keeps. Qed.
Lemma up_line_kept l : steps session_kept (up_line (S := Bridge) l).
Proof. keeps. Qed.
Lemma end_session_kept : steps session_kept (end_session (S := Bridge)).
Proof. keeps. Qed.
Lemma resumed_kept o : steps session_kept (shard_resumed (S := Bridge) o).
Proof. keeps. Qed.
#[local] Hint Resolve down_line_kept up_line_kept end_session_kept resumed_kept : kept.
Lemma session_step_kept e : steps session_kept (session_step (S := Bridge) e).
Proof.
  intros x. unfold session_step. destruct (reads x.2 e); [|reflexivity]. revert x. change (steps session_kept (session_event_run (S := Bridge) e)).
  destruct e; cbn [session_event_run]; auto with kept.
Qed.
#[local] Hint Resolve session_step_kept : kept.
Lemma session_expert_kept i o : steps session_kept (session_expert i o).
Proof. keeps. Qed.
Lemma on_session_kept tx m : steps session_kept m → steps bridge_kept (on_session tx m).
Proof.
  intros Hm b. unfold on_session. destruct (br_sessions b !! tx) as [c|]; [|reflexivity].
  specialize (Hm (b, c)). destruct (m (b, c)) as [[] [b' c']]. destruct Hm. by split.
Qed.
#[local] Hint Resolve session_expert_kept on_session_kept : kept.

(** *** Requests, ticks, tasks *)

Lemma bridge_modify f : (∀ b, br_world (f b) = br_world b ∧ br_audit (f b) = br_audit b ∧ bridge_tokens (f b) = bridge_tokens b) →
  steps bridge_kept (modify f).
Proof. intros Hf b. destruct (Hf b) as (Ew & Ea & Et). split; cbn; rewrite ?Ew, ?Ea, ?Et; [apply moved_refl|done]. Qed.
#[local] Hint Extern 2 (steps bridge_kept (modify _)) => by apply bridge_modify : kept.
Lemma health_kept : steps bridge_kept healthz.
Proof.
  unfold healthz. apply steps_bind; [typeclasses eauto| |intros a; apply steps_ret; typeclasses eauto].
  apply bridge_in_world, db_world, read_kept. by intros d a d' [= _ <-].
Qed.
Lemma prompt_kept peer key body : steps bridge_kept (submit_prompt peer key body).
Proof.
  unfold submit_prompt. apply steps_bind; [typeclasses eauto| |].
  - intros b. destruct (check _ _ _) as [ok l]. split; [apply moved_refl|done].
  - intros ok. keeps.
Qed.
Lemma topology_kept id : steps bridge_kept (topology id).
Proof. intros b. unfold topology. apply (bridge_on_shard (topology_snapshot (br_disp b) id)). intros s. apply sees_refl. Qed.
#[local] Hint Resolve health_kept prompt_kept topology_kept : kept.
Lemma serve_kept q : steps bridge_kept (serve q).
Proof. destruct q; cbn [serve]; keeps. Qed.
Lemma reveal_kept : steps bridge_kept (in_shared poll_reveal_tick).
Proof. apply bridge_in_shared, poll_reveal_own. Qed.
#[local] Hint Resolve reveal_kept : kept.
Lemma run_timer_kept t : steps bridge_kept (run_timer t).
Proof.
  unfold run_timer. apply steps_bind; [typeclasses eauto|keeps|]. intros cfg.
  destruct t; try (solve [keeps]).
Qed.
Lemma opoi_task_run_kept i : steps bridge_kept (run_opoi_task i).
Proof. apply bridge_on_opoi, opoi_queue_kept. Qed.
Lemma shard_task_run_kept i : steps bridge_kept (run_shard_queue i).
Proof. apply bridge_on_shard, shard_queue_kept. Qed.
Lemma spec_task_run_kept i : steps bridge_kept (run_spec_queue i).
Proof. apply bridge_on_spec, spec_queue_kept. Qed.
Lemma connect_kept tx : steps bridge_kept (connect tx).
Proof.
  intros b. unfold connect. destruct (_ !! tx); [apply sees_refl|]. split; [|done].
  apply (moved_own waiting (bridge_tokens b)), world_moved; [done..|]. exists []. by rewrite app_nil_r.
Qed.
Lemma accept_kept o : steps bridge_kept (accept o).
Proof. destruct o; cbn [accept]; [apply steps_ret; typeclasses eauto..|apply connect_kept]. Qed.
#[local] Hint Resolve serve_kept run_timer_kept opoi_task_run_kept shard_task_run_kept spec_task_run_kept accept_kept db_weather_kept : kept.

Lemma event_kept e : steps bridge_kept (bridge_event_run e).
Proof. destruct e; cbn [bridge_event_run]; keeps. Qed.

(** *** The start *)

(** Before the loops run nobody owns anything. *)
Definition start_view `{Crypto} : view Bridge := mkView br_world (λ _, []) (λ b, audit_ok (br_audit b) ∧ bridge_tokens b = []).
Notation start_kept := (sees_for nobody start_view).
Lemma start_in_shared {A} (m : M World A) : steps (moved nobody [] []) m → steps start_kept (in_shared m).
Proof.
  intros Hm b. unfold in_shared, zoom. specialize (Hm (world_of b)). cbn [world_of bridge_world] in *. by destruct (m (br_world b)).
Qed.
Lemma start_in_world {A} (m : M World A) : steps world_kept m → steps start_kept (in_shared m).
Proof. intros Hm. apply start_in_shared. intros w. by apply moved_any. Qed.
Lemma start_recover addrs : steps start_kept (in_shared (recover_on_startup addrs)).
Proof. apply start_in_shared, recover_own. Qed.
#[local] Hint Resolve start_recover start_in_world ensure_stake_kept restore_bans_kept : kept.
Lemma startup_kept : steps start_kept startup.
Proof. unfold startup. keeps. Qed.
Lemma bridge_after_kept evs b : bridge_kept b (bridge_after evs b).
Proof. unfold bridge_after. apply (steps_for_each bridge_kept bridge_event_run). intros e _. apply event_kept. Qed.
End bridge.

(** ** Properties *)

Section properties.
Context `{Csd, RowOrder, Crypto, HexError, MapIter, HttpGet, Marketplace, Tokenizers, Schedule, DisplayF64, JsonText}.

Lemma initial_ok cfg w srcs asrcs drafts now b0 : initial cfg w srcs asrcs drafts now = Some b0 →
  w_db (br_world b0) = w_db w ∧ registry_wf (w_reg (br_world b0)) ∧ audit_ok (br_audit b0) ∧ bridge_tokens b0 = [].
Proof. unfold initial. destruct (new_stake_pool _) as [pool|]; [|done]. intros [= <-]. split_and!; try done. apply registry_wf_new. Qed.
(** From the start to any later state. *)
Lemma run_facts b0 evs : world_facts (br_world b0) (br_world (bridge_after evs (startup b0).2)).
Proof. etrans; [apply (mv_facts _ _ _ _ _ (see_moved _ _ _ _ (startup_kept b0)))|apply (mv_facts _ _ _ _ _ (see_moved _ _ _ _ (bridge_after_kept evs _)))]. Qed.
Lemma run_ledger evs b : ledger_ok (w_db (br_world b)) (bridge_tokens b) → let b' := bridge_after evs b in
  ledger_ok (w_db (br_world b')) (bridge_tokens b') ∧ rtc ledger_step (submissions (w_db (br_world b))) (submissions (w_db (br_world b'))).
Proof.
  intros Hok b'. pose proof (mv_flow _ _ _ _ _ (see_moved _ _ _ _ (bridge_after_kept evs b)) [] (Forall_nil_2 _)) as Hf.
  cbn [v_tokens v_world bridge_view] in Hf. rewrite !app_nil_r in Hf. by apply Hf.
Qed.
Lemma start_ledger b0 : ledger_ok (w_db (br_world b0)) [] → audit_ok (br_audit b0) → bridge_tokens b0 = [] → let b := (startup b0).2 in
  ledger_ok (w_db (br_world b)) (bridge_tokens b) ∧ rtc ledger_step (submissions (w_db (br_world b0))) (submissions (w_db (br_world b))).
Proof.
  intros Hok Ha Ht b. destruct (startup_kept b0) as [[_ Hf] Hs]. destruct (Hs (conj Ha Ht)) as [_ Ht']. fold b in Ht', Hf. rewrite Ht'. apply (Hf [] (Forall_nil_2 _) Hok).
Qed.
(** Every state the process can be in. *)
Lemma reachable_ledger cfg w srcs asrcs drafts now b0 evs : initial cfg w srcs asrcs drafts now = Some b0 → db_wf (w_db w) → paid_ok (w_db w) →
  let b := bridge_after evs (startup b0).2 in
  ledger_ok (w_db (br_world b)) (bridge_tokens b) ∧ rtc ledger_step (submissions (w_db w)) (submissions (w_db (br_world b))).
Proof.
  intros (Ew & _ & Ha & Ht)%initial_ok Hd Hp b. rewrite <-Ew in *. destruct (start_ledger b0) as [Hs Hls]; [by split; [..|apply NoDup_nil_2|]|done..|].
  destruct (run_ledger evs _ Hs) as [He Hle]. split; [exact He|]. by etrans.
Qed.

(** C13. The bridge as a whole is sound: started on any well-formed database, and
    whatever then happens in whatever order, the database keeps its schema's
    promises, the registry its invariant, and the auditor its own. *)
Theorem bridge_reachable_ok (cfg : Config) (w : World) (srcs asrcs : ModelSourceConfig) (drafts : gmap string DraftModelSource) (now : N) (b0 : Bridge) (evs : list bridge_event) :
  initial cfg w srcs asrcs drafts now = Some b0 → db_wf (w_db w) →
  let b := bridge_after evs (startup b0).2 in
  db_wf (w_db (br_world b)) ∧ registry_wf (w_reg (br_world b)) ∧ audit_ok (br_audit b).
Proof.
  intros (Ew & Hr & Ha & Ht)%initial_ok Hd b. rewrite <-Ew in Hd. pose proof (run_facts b0 evs) as Hf. split_and!.
  - by apply (wk_db _ _ Hf).
  - by apply (wk_registry _ _ Hf).
  - apply (see_sound _ _ _ _ (bridge_after_kept evs _)). by apply (see_sound _ _ _ _ (startup_kept b0)).
Qed.


(** C18. No answer is lost, rewritten or paid for twice: in any later state of
    the process every answer is still in its place with the same wallet, request
    and response, and one that is published and paid is unchanged to the last
    field, its request never again in what a payout draws on. *)
Theorem answers_are_final (cfg : Config) (w : World) (srcs asrcs : ModelSourceConfig) (drafts : gmap string DraftModelSource) (now : N) (b0 : Bridge) (evs evs' : list bridge_event) (i : nat) (s : Submission) :
  initial cfg w srcs asrcs drafts now = Some b0 → db_wf (w_db w) → paid_ok (w_db w) →
  let b := bridge_after evs (startup b0).2 in
  let b' := bridge_after evs' b in
  submissions (w_db (br_world b)) !! i = Some s →
  (∃ s', submissions (w_db (br_world b')) !! i = Some s' ∧ s_id s' = s_id s ∧ s_miner_wallet s' = s_miner_wallet s
     ∧ s_request_id s' = s_request_id s ∧ s_response_hash s' = s_response_hash s ∧ s_response_hex s' = s_response_hex s
     ∧ s_token_count s' = s_token_count s ∧ (s_paid s = true → s_paid s' = true))
  ∧ (settled_row s → submissions (w_db (br_world b')) !! i = Some s
     ∧ ∀ rows, (list_unpaid_published (w_db (br_world b'))).1 = Ok rows → Forall (λ u, s_request_id u ≠ s_request_id s) rows).
Proof.
  intros Hi Hd Hp b b' Hs. destruct (reachable_ledger _ _ _ _ _ _ b0 evs Hi Hd Hp) as [Hok _].
  destruct (run_ledger evs' b Hok) as [Hok' Hl]. fold b' in Hok', Hl. destruct (ledger_history _ _ i s Hl Hs) as (s' & Hs' & Hr). split.
  - exists s'. split; [done|]. destruct (rows_identity _ _ Hr) as (? & ? & ? & ? & ? & ? & _). split_and!; try done. by apply rows_paid.
  - intros Hset. rewrite (settled_rows _ _ Hset Hr) in Hs'. split; [done|]. intros rows Hrows.
    eapply settled_unlisted; [apply Hok'|by eapply list_elem_of_lookup_2|done|done].
Qed.

(** C20. An audit's consequences stay in force in the running bridge: whatever
    happens after a request's pay was withheld, the payout never lists it again;
    and a banned wallet stays banned, so that no choice of a miner ever falls on
    it, even if it reconnects. *)
Theorem verdicts_stay (b : Bridge) (evs : list bridge_event) :
  let b' := bridge_after evs b in
  (∀ r rows, r ∈ withheld (w_db (br_world b)) → (list_unpaid_published (w_db (br_world b'))).1 = Ok rows →
     Forall (λ sub, s_request_id sub ≠ r) rows)
  ∧ (∀ w, w ∈ banned (w_reg (br_world b)) → never_picked w (w_reg (br_world b'))).
Proof.
  intros b'. destruct (bridge_after_kept evs b) as [[[_ [l Hl] _ Hb _] _] _]. fold b' in Hl, Hb. cbn [v_world bridge_view] in Hl, Hb. split.
  - intros r rows Hr Hrows. apply list_unpaid_rows in Hrows. eapply Forall_impl; [exact Hrows|]. intros sub Hsub Heq. apply Hsub. cbv beta. rewrite Heq.
    unfold withheld in *. rewrite Hl, filter_app, fmap_app. apply elem_of_app. by left.
  - intros w Hw. apply banned_never_picked. by apply Hb.
Qed.
End properties.

(** ** Witnesses *)

Section examples.
Existing Instances shard_csd empty_market sample_http table_order in_order key_iter toy_crypto toy_hex_error toy_tokenizers sample_text.
#[local] Instance no_print : DisplayF64 := {| display_f64 := λ _, "" |}.

(** A bridge that starts on an empty database; a miner then authorizes, and a
    requester posts a prompt. *)
Definition sample_events : list bridge_event :=
  [EvAccept DialFailed; EvAccept (Dialled 1%N); EvDown 1%N "auth bob"; EvUp 1%N "accept"; EvTimer PollAssign; EvTimer PollStart;
   EvHttp (PostPrompt (V4 1%N) (Some "") (mkPromptRequest "r" "hi" (Some "m") (Some 3%N))); EvDb [FailsAfter "down"] 5%N;
   EvTimer PayoutTick; EvClose 1%N].
Definition started : option Bridge :=
  initial (with_addresses "a,b" default_config) (mkWorld [] (empty_db []) new_registry (mkNet ∅ [])) (mkModelSources ∅ None)
    (mkModelSources ∅ None) ∅ 0%N.

Lemma bridge_reachable_ok_witness :
  match started with
  | Some b0 => registry_wf (w_reg (br_world (bridge_after sample_events (startup b0).2)))
  | None => False
  end.
Proof.
  destruct started as [b0|] eqn:Hb; [|vm_compute in Hb; discriminate].
  exact (proj1 (proj2 (bridge_reachable_ok _ _ _ _ _ _ b0 sample_events Hb (db_wf_empty [])))).
Defined.

(** A database with an answer that is paid, one that is published and one that
    still has to be committed. *)
Definition paid_answer : Submission := (published_row 1 "w1" "r1") <| s_paid := true |> <| s_payout_txid := Some "t" |>.
Definition past_db : Database := (empty_db []) <| submissions := [paid_answer; (published_row 2 "w2" "r2");
  (published_row 3 "w2" "r3") <| s_status := Received |> <| s_content_published := false |> <| s_reward_amount := None |>] |> <| next_id := 4%N |>.
Definition restarted : option Bridge :=
  initial (with_addresses "a,b" default_config) (mkWorld [] past_db new_registry (mkNet ∅ [])) (mkModelSources ∅ None)
    (mkModelSources ∅ None) ∅ 0%N.
Lemma past_db_ok : db_wf past_db ∧ paid_ok past_db.
Proof.
  split; [split; [done|apply (bool_decide_unpack _); by vm_compute|repeat constructor|constructor..]|].
  by repeat constructor.
Qed.

Lemma answers_are_final_witness :
  match restarted with
  | Some b0 => submissions (w_db (br_world (bridge_after sample_events (startup b0).2))) !! 0 = Some paid_answer
  | None => False
  end.
Proof.
  destruct restarted as [b0|] eqn:Hb; [|vm_compute in Hb; discriminate].
  assert (submissions (w_db (br_world (bridge_after [] (startup b0).2))) !! 0 = Some paid_answer) as H0.
  { vm_compute in Hb. injection Hb as <-. vm_compute. exact eq_refl. }
  refine (proj1 (proj2 (answers_are_final _ _ _ _ _ _ b0 [] sample_events 0 paid_answer Hb (proj1 past_db_ok) (proj2 past_db_ok) H0) _)).
  exact (conj eq_refl eq_refl).
Defined.

(** Bob is banned and his request withheld. *)
Definition penalized : Bridge := sample_bridge <| br_world := mkWorld []
  ((empty_db []) <| consequences := [{| q_id := 1%N; q_receipt_id := 1%N; q_miner_wallet := "bob"; q_request_id := "r1";
                                        q_action := "WITHHOLD_PAY"; q_reason := "" |}] |>)
  (ban "bob" new_registry) (mkNet ∅ []) |>.
Lemma verdicts_stay_witness :
  let b' := bridge_after [EvAccept (Dialled 3%N); EvDown 3%N "auth bob"; EvUp 3%N "accept"] penalized in
  MinerRegistry.get "bob" (w_reg (br_world b')) = Some 3%N ∧ never_picked "bob" (w_reg (br_world b')).
Proof.
  split; [vm_compute; exact eq_refl|]. apply (proj2 (verdicts_stay penalized _)). apply (bool_decide_unpack _). vm_compute. exact I.
Defined.
End examples.
