(* ===== verification/Credit.v ===== *)
(** * Who is credited

    The wallet of an answer decides who is paid.  It comes from a session's
    confirmed wallet directly ([handle_submit_result]), or through the
    contributions the shard and the speculative pipelines count; nothing else
    writes it.  Every operation is shown to keep the books: it only appends
    answers, with wallets of [W], as long as the contributions counted so far
    and the wallets it is called with are in [W].  The running bridge then
    credits only who asked the pool for that wallet and was accepted. *)

From S2P Require Import MinerRegistry AssignmentTracker StakePool RateLimit Config OpoiEngine Tensor ExpertDispatch ModelSource.
From S2P Require Import Pipeline ShardEngine Speculative B3LiteAudit AuditPolicy Payout Kept Bridge.
From S2P Require Export Composition.

Section books.
Variable W : string → Prop.

(** Answers are only added, and for wallets of [W]. *)
Definition credits (d d' : Database) : Prop := ∃ new, wallets d' = wallets d ++ new ∧ Forall W new.
Definition world_credits (w w' : World) : Prop := credits (w_db w) (w_db w').
(** ... by a component that starts from contributions of [W] and leaves such. *)
Definition books {S} (world : S → World) (ok : S → Prop) (s s' : S) : Prop := ok s → ok s' ∧ world_credits (world s) (world s').

Lemma credits_same d d' : wallets d' = wallets d → credits d d'.
Proof. intros E. exists []. by rewrite app_nil_r. Qed.
#[export] Instance credits_preorder : PreOrder credits.
Proof.
  split; [intros d; by apply credits_same|]. intros x y z (a & Ea & Ha) (b & Eb & Hb). exists (a ++ b).
  rewrite Eb, Ea, app_assoc. split; [done|]. by apply Forall_app.
Qed.
#[export] Instance world_credits_preorder : PreOrder world_credits.
Proof. split; [intros w; unfold world_credits; reflexivity|]. intros x y z Hxy Hyz. unfold world_credits in *. by etrans. Qed.
#[export] Instance books_preorder {S} (world : S → World) ok : PreOrder (books world ok).
Proof.
  split; [intros s Hs; by split; [|reflexivity]|]. intros x y z Hxy Hyz Hx. destruct (Hxy Hx) as [Hy Hc]. destruct (Hyz Hy) as [Hz Hc'].
  split; [done|]. by etrans.
Qed.

(** What is read of a sound state is sound. *)
Lemma books_bind {S A B} (world : S → World) ok (Q : A → Prop) (m : M S A) (k : A → M S B) :
  steps (books world ok) m → (∀ s, ok s → Q (m s).1) → (∀ a, Q a → steps (books world ok) (k a)) → steps (books world ok) (m ≫= k).
Proof.
  intros Hm HQ Hk s Hs. unfold mbind, M_bind. specialize (HQ s Hs). destruct (Hm s Hs) as [Hs1 Hc]. destruct (m s) as [a s1].
  destruct (Hk a HQ s1 Hs1) as [Hs2 Hc']. split; [done|]. by etrans.
Qed.

(** ** The repository *)

Lemma credits_grows {A} (m : M Database A) : steps (grows W) m → steps credits m.
Proof. intros Hm d. destruct (Hm d) as (new & E & _ & Hn). by exists new. Qed.
Lemma paid_credits ids tx : steps credits (mark_paid ids tx).
Proof.
  intros d. unfold mark_paid. match goal with |- context [exec ?op d] => destruct (exec_outcome op d) as (fs & Hst & _); destruct (exec op d) as [r d'] end.
  cbn [snd] in *. destruct Hst as [->|[a Hop]]; [by apply credits_same|]. strip_checks Hop. apply store_Some in Hop as [_ Hop]. apply (f_equal snd) in Hop. cbn [snd] in Hop. subst d'.
  apply credits_same. match goal with |- wallets (_ <| submissions := ?f <$> ?l |>) = _ => change (s_miner_wallet <$> (f <$> l) = s_miner_wallet <$> l) end.
  rewrite <-list_fmap_compose. apply list_fmap_ext. intros i s _. cbn. by case_bool_decide.
Qed.
End books.

#[export] Hint Resolve paid_credits : kept.
#[export] Hint Extern 3 (steps (credits _) _) => (apply credits_grows; auto with kept) : kept.

(** An operation that looks at the state before it starts. *)
Lemma books_run {S A} W (world : S → World) ok (m : M S A) (s : S) : steps (books W world ok) m → books W world ok s (m s).2.
Proof. intros Hm. apply Hm. Qed.
Lemma books_stay {S A} W (world : S → World) ok (a : A) (s : S) : books W world ok s (a, s).2.
Proof. cbn. reflexivity. Qed.
(** ... or that reaches the world alone. *)
Lemma books_same {S} W (world : S → World) (ok : S → Prop) (s s' : S) : world s' = world s → (ok s → ok s') → books W world ok s s'.
Proof. intros E Ho Hs. split; [by apply Ho|]. unfold world_credits. rewrite E. reflexivity. Qed.
Lemma books_world {S} W (world : S → World) (ok : S → Prop) (s s' : S) : world_credits W (world s) (world s') → (ok s → ok s') → books W world ok s s'.
Proof. intros Hw Ho Hs. split; [by apply Ho|done]. Qed.
Ltac books_at :=
  intros ?; match goal with |- books _ _ _ _ (?m).2 => let h := get_head m in unfold h end; cbv zeta;
  repeat match goal with |- books _ _ _ _ (match ?x with _ => _ end).2 => destruct x end;
  try first [solve [apply books_stay] | solve [apply books_same; done] | apply books_run; solve [keeps]].

(** ** The world *)

Section engines.
Variable W : string → Prop.
Context `{Csd, RowOrder, Crypto, HexError, MapIter, HttpGet, Marketplace, Tokenizers, Schedule, DisplayF64, JsonText}.
Notation world_ok := (steps (world_credits W)).

Lemma world_db {A} (m : M Database A) : steps (credits W) m → world_ok (db m).
Proof. intros Hm w. unfold db, zoom. specialize (Hm (w_db w)). by destruct (m (w_db w)). Qed.
Lemma world_zoom {T A} (get : World → T) (set : T → World → World) (m : M T A) : (∀ t w, w_db (set t w) = w_db w) → world_ok (zoom get set m).
Proof. intros Hs w. unfold zoom. destruct (m (get w)). apply credits_same. cbn [snd]. by rewrite Hs. Qed.
Lemma world_csd {A} (m : M csd_log A) : world_ok (csd m).
Proof. by apply world_zoom. Qed.
Lemma world_net {A} (m : M Net A) : world_ok (net m).
Proof. by apply world_zoom. Qed.
Lemma world_reg f : world_ok (reg f).
Proof. intros w. by apply credits_same. Qed.
Lemma world_gets {A} (f : World → A) : world_ok (gets f).
Proof. apply steps_gets. typeclasses eauto. Qed.
#[local] Hint Resolve world_db world_csd world_net world_reg world_gets : kept.
Lemma send_to_books w m : world_ok (send_to w m).
Proof. keeps. Qed.
#[local] Hint Resolve send_to_books : kept.

(** ** The engines *)

Lemma ensure_others_books addrs : world_ok (ensure_others addrs).
Proof. induction addrs; keeps. Qed.
#[local] Hint Resolve ensure_others_books : kept.
Lemma ensure_stake_books addrs txid vout ep m : world_ok (ensure_stake addrs txid vout ep m).
Proof. keeps. Qed.
Lemma renew_books addrs n : world_ok (renew_tick addrs n).
Proof. keeps. Qed.
Lemma commit_rounds_books n addrs sid rid h tc : world_ok (commit_rounds n addrs sid rid h tc).
Proof. induction n; keeps. Qed.
#[local] Hint Resolve commit_rounds_books : kept.
Lemma do_commit_books addrs sid rid h tc : world_ok (do_commit addrs sid rid h tc).
Proof. keeps. Qed.
#[local] Hint Resolve do_commit_books : kept.
Lemma recover_books addrs : world_ok (recover_on_startup addrs).
Proof. keeps. Qed.
Lemma try_reveal_books l : world_ok (try_reveal_any l).
Proof. induction l; keeps. Qed.
#[local] Hint Resolve try_reveal_books : kept.
Lemma reveal_books : world_ok poll_reveal_tick.
Proof. keeps. Qed.
Lemma payout_books addr mn fee : world_ok (payout_tick addr mn fee).
Proof. keeps. Qed.
Lemma restore_bans_books : world_ok restore_bans.
Proof. keeps. Qed.

(** *** Whole-model requests *)

Notation opoi_ok := (steps (books W sy_world (λ _, True))).
Lemma opoi_in_world {A} (m : M World A) : world_ok m → opoi_ok (OpoiEngine.world m).
Proof. intros Hm s. unfold OpoiEngine.world, zoom. specialize (Hm (sy_world s)). destruct (m _). by apply books_world. Qed.
Lemma opoi_engine f : opoi_ok (eng f).
Proof. intros s. by apply books_same. Qed.
#[local] Hint Resolve opoi_in_world opoi_engine : kept.
Lemma cache_requests_books l : opoi_ok (cache_requests l).
Proof. induction l; keeps. Qed.
#[local] Hint Resolve cache_requests_books : kept.
Lemma assign_candidates_books l : opoi_ok (assign_candidates l).
Proof. induction l; keeps. Qed.
#[local] Hint Resolve assign_candidates_books : kept.
Lemma poll_assign_books : opoi_ok OpoiEngine.poll_and_assign_tick.
Proof. keeps. Qed.
Lemma submit_result_books w p : W w → opoi_ok (OpoiEngine.handle_submit_result w p).
Proof. intros Hw. keeps. Qed.
Lemma opoi_disconnect_books w : opoi_ok (OpoiEngine.on_disconnect w).
Proof. keeps. Qed.
Lemma opoi_prompt_books rid x m t : opoi_ok (OpoiEngine.receive_prompt rid x m t).
Proof. keeps. Qed.
Lemma opoi_queue_books i : opoi_ok (q ← the OpoiEngine.tasks;
  match q !! i with
  | None => mret ()
  | Some t => _ ← eng (λ e, e <| OpoiEngine.tasks := delete i q |>); OpoiEngine.run_task t
  end).
Proof. keeps. Qed.

(** *** Experts *)

Notation disp_ok := (steps (books W d_world (λ _, True))).
Lemma disp_sets f : (∀ d, d_world (f d) = d_world d) → disp_ok (modify f).
Proof. intros Hf s. apply books_same; [apply Hf|done]. Qed.
Lemma disp_enter k w : disp_ok (modify (enter k w)).
Proof. apply disp_sets. intros d. apply (drop_sender_world k). Qed.
Lemma disp_forget k : disp_ok (modify (forget k)).
Proof. apply disp_sets. intros d. apply (drop_sender_world k). Qed.
Lemma disp_resolve c st : disp_ok (modify (ExpertDispatch.resolve c st)).
Proof. by apply disp_sets. Qed.
Lemma disp_zoom {A} (m : M World A) : world_ok m → disp_ok (zoom d_world (λ w d, d <| d_world := w |>) m).
Proof. intros Hm d. unfold zoom. specialize (Hm (d_world d)). destruct (m _). by apply books_world. Qed.
#[local] Hint Resolve disp_enter disp_forget disp_resolve disp_zoom : kept.
#[local] Hint Extern 2 (disp_ok (modify _)) => by apply disp_sets : kept.
Lemma dispatch_failed_books n j t e : disp_ok (dispatch_failed n j t e).
Proof. revert t e. induction n; keeps. Qed.
#[local] Hint Resolve dispatch_failed_books : kept.
Lemma dispatch_group_books j ex mb pre : disp_ok (dispatch_group j ex mb pre).
Proof. keeps. Qed.
Lemma poll_task_books j o t : disp_ok (poll_task j o t).
Proof. keeps. Qed.
Lemma expert_result_books w r : disp_ok (ExpertDispatch.handle_expert_result w r).
Proof. keeps. Qed.
Lemma expert_disconnect_books w : disp_ok (ExpertDispatch.on_disconnect w).
Proof. keeps. Qed.

(** *** Audits *)

Notation audit_ok' := (steps (books W (fst : AuditSys → World) (λ _, True))).
Lemma audit_world {A} (m : M World A) : world_ok m → audit_ok' (in_world m).
Proof. intros Hm s. unfold in_world. specialize (Hm s.1). destruct (m s.1). by apply books_world. Qed.
Lemma audit_own_books f : audit_ok' (own f).
Proof. intros s. by apply books_same. Qed.
Lemma audit_gets_books {A} (f : B3LiteAuditor → A) : audit_ok' (own_gets f).
Proof. intros s. apply books_stay. Qed.
Lemma audit_resolve now m : audit_ok' (resolve_model now m).
Proof. intros s. unfold resolve_model. destruct (ModelSource.resolve _ _ _). by apply books_same. Qed.
#[local] Hint Resolve audit_world audit_own_books audit_gets_books audit_resolve : kept.
Lemma conclude_books receipt v : audit_ok' (conclude receipt v).
Proof. keeps. Qed.
#[local] Hint Resolve conclude_books : kept.
Lemma run_one_books now r l : audit_ok' (run_one now r l).
Proof. keeps. Qed.
#[local] Hint Resolve run_one_books : kept.
Lemma run_all_books now l : audit_ok' (run_all now l).
Proof. induction l; keeps. Qed.
#[local] Hint Resolve run_all_books : kept.
Lemma audit_result_books w r : audit_ok' (B3LiteAudit.handle_audit_result w r).
Proof. books_at. Qed.
Lemma audit_event_books e : (∀ f, e ≠ EvWorld f) → audit_ok' (audit_event_step e).
Proof.
  intros He. destruct e as [now|now o|now o|w r|w|f]; cbn [audit_event_step]; [keeps..| | |by destruct (He f)].
  - apply steps_ignore; [typeclasses eauto|]. apply audit_result_books.
  - keeps.
Qed.

(** *** Speculative decoding *)

(** The wallets a pipeline counted are in [W]. *)
Definition counted (m : gmap string N) : Prop := ∀ w, is_Some (m !! w) → W w.
Lemma counted_insert w n m : W w → counted m → counted (<[w := n]> m).
Proof. intros Hw Hm w' [x Hx]. apply lookup_insert_Some in Hx as [[<- _]|[_ Hx]]; [done|]. by apply Hm. Qed.
Lemma counted_winner m w : counted m → select_winning_wallet m = Some w → W w.
Proof. intros Hm Hw. pose proof (select_winning_wallet_spec m) as Hs. rewrite Hw in Hs. destruct Hs as (n & Hn & _). by apply Hm. Qed.

Definition spec_counted (e : SpeculativeEngine) : Prop := map_Forall (λ _ q, counted (q_contributions q)) (sx_pipelines e).
Notation spec_ok := (steps (books W (fst : SpecSys → World) (λ s, spec_counted s.2))).
Lemma spec_in_world {A} (m : M World A) : world_ok m → spec_ok (Speculative.world m).
Proof. intros Hm s. unfold Speculative.world. specialize (Hm s.1). destruct (m s.1). by apply books_world. Qed.
Lemma spec_set f : (∀ e, spec_counted e → spec_counted (f e)) → spec_ok (spec f).
Proof. intros Hf s. apply books_same; [done|]. apply Hf. Qed.
Lemma spec_update id f : (∀ q, counted (q_contributions q) → counted (q_contributions (f q))) → spec_ok (Speculative.update id f).
Proof.
  intros Hf. apply spec_set. intros e He id' q Hq. change (alter f id (sx_pipelines e) !! id' = Some q) in Hq. apply lookup_alter_Some in Hq as [(-> & q0 & Hq & ->)|[_ Hq]]; [|by apply (He id')].
  apply Hf. by apply (He id').
Qed.
Lemma spec_remove id : spec_ok (remove_pipeline id).
Proof. apply spec_set. intros e He. by apply map_Forall_delete. Qed.
#[local] Hint Resolve spec_in_world spec_remove : kept.
#[local] Hint Extern 2 (spec_ok (spec _)) => by apply spec_set : kept.
#[local] Hint Extern 2 (spec_ok (Speculative.update _ _)) => by apply spec_update : kept.
Lemma shard_step_books id : spec_ok (dispatch_shard_step id).
Proof. books_at. Qed.
Lemma draft_books id : spec_ok (dispatch_draft id).
Proof. books_at. Qed.
#[local] Hint Resolve shard_step_books draft_books : kept.
Lemma start_spec_books id m sh mt p h src : spec_ok (start_spec_pipeline id m sh mt p h src).
Proof.
  unfold start_spec_pipeline. apply steps_bind; [typeclasses eauto|keeps|]. intros [d|]; [|keeps].
  apply steps_bind; [typeclasses eauto| |keeps]. apply spec_set. intros e He. apply map_Forall_insert_2; [|done].
  intros w [x Hx]. by destruct (lookup_empty_Some w x Hx).
Qed.
Lemma finalize_spec_books id : spec_ok (finalize_spec_pipeline id).
Proof.
  unfold finalize_spec_pipeline. eapply (books_bind _ _ _ (λ o, ∀ q, o = Some q → counted (q_contributions q))); [keeps|intros s Hs q; apply (Hs id)|].
  intros [q|] Hq; [|keeps]. specialize (Hq q eq_refl). apply steps_bind; [typeclasses eauto|keeps|]. intros _.
  destruct (select_winning_wallet _) as [w|] eqn:Hw; [|keeps]. pose proof (counted_winner _ _ Hq Hw). keeps.
Qed.
#[local] Hint Resolve start_spec_books finalize_spec_books : kept.
Lemma draft_result_books w r : spec_ok (Speculative.handle_draft_result w r).
Proof. keeps. Qed.
Lemma rollback_ack_books w a : spec_ok (Speculative.handle_kv_rollback_ack w a).
Proof. keeps. Qed.
Lemma tokenizer_books url h : spec_ok (ensure_tokenizer_cached url h).
Proof. books_at. Qed.
#[local] Hint Resolve tokenizer_books : kept.
Lemma count_spec_books id w : W w → spec_ok (Speculative.update id (count_spec_contribution w)).
Proof. intros Hw. apply spec_update. intros q. by apply counted_insert. Qed.
#[local] Hint Resolve count_spec_books : kept.
Lemma spec_result_books w r : W w → spec_ok (handle_spec_shard_result w r).
Proof. intros Hw. books_at. Qed.
Lemma spec_retry_books : spec_ok retry_stalled_tick.
Proof. keeps. Qed.
Lemma spec_disconnect_books w : spec_ok (on_spec_disconnect w).
Proof. apply spec_set. intros e He id q [Hq _]%map_lookup_filter_Some. apply (He id q Hq). Qed.
Lemma spec_try_books {T} (f : string → M csd_log (result T AppError)) : spec_ok (spec_pool_try f).
Proof. intros s. unfold spec_pool_try. destruct (try_each f _) as [r [pool log]]. apply books_world; [by apply credits_same|done]. Qed.
#[local] Hint Resolve spec_try_books : kept.
Lemma spec_queue_books i : spec_ok (q ← gets (λ s, sx_tasks s.2);
  match q !! i with
  | None => mret ()
  | Some t => _ ← spec (λ e, e <| sx_tasks := delete i q |>); run_spec_task t
  end).
Proof. keeps. Qed.

(** *** Shards *)

Definition shard_counted (e : ShardEngine.ShardEngine) : Prop := map_Forall (λ _ p, counted (p_contributions p)) (se_pipelines e).
Definition shards_counted (s : ShardSys SpeculativeEngine) : Prop :=
  shard_counted (x_engine s) ∧ ∀ sp, x_spec s = Some sp → spec_counted sp.
Notation shard_ok := (steps (books W x_world shards_counted)).
Lemma shard_in_world' {A} (m : M World A) : world_ok m → shard_ok (ShardEngine.in_world m).
Proof. intros Hm s. unfold ShardEngine.in_world. specialize (Hm (x_world s)). destruct (m (x_world s)). by apply books_world. Qed.
Lemma shard_set f : (∀ e, shard_counted e → shard_counted (f e)) → shard_ok (engine f).
Proof. intros Hf s. apply books_same; [done|]. intros [He Hs]. split; [by apply Hf|done]. Qed.
Lemma shard_with id f : (∀ p, counted (p_contributions p) → counted (p_contributions (f p))) → shard_ok (with_pipeline id f).
Proof.
  intros Hf. apply shard_set. intros e He id' q Hq. change (alter f id (se_pipelines e) !! id' = Some q) in Hq.
  apply lookup_alter_Some in Hq as [(-> & q0 & Hq & ->)|[_ Hq]]; [|by apply (He id')]. apply Hf. by apply (He id').
Qed.
Lemma shard_drop id : shard_ok (drop_pipeline id).
Proof. apply shard_set. intros e He. by apply map_Forall_delete. Qed.
Lemma shard_asks {A} (f : ShardEngine.ShardEngine → A) : shard_ok (ask f).
Proof. intros s. apply books_stay. Qed.
Lemma shard_resolves m : shard_ok (resolve_source m).
Proof. intros s. unfold resolve_source. destruct (ModelSource.resolve _ _ _). by apply books_same. Qed.
Lemma shard_tries {T} (f : string → M csd_log (result T AppError)) : shard_ok (pool_try f).
Proof. intros s. unfold pool_try. destruct (try_each f _) as [r [pool log]]. apply books_world; [by apply credits_same|done]. Qed.
Lemma shard_vrams m u h a b n : shard_ok (min_vram m u h a b n).
Proof. intros s. unfold min_vram. destruct (min_vram_mb_for_range _ _ _ _ _ _ _). by apply books_same. Qed.
Lemma shard_with_spec {A} (none : A) (m : M SpecSys A) : spec_ok m → shard_ok (with_spec none m).
Proof.
  intros Hm s [He Hs]. unfold with_spec. destruct (x_spec s) as [sp|] eqn:Hsp; [|split; [|reflexivity]; split; [done|]; intros sp Hsp'; cbn in Hsp'; congruence].
  destruct (Hm (x_world s, sp) (Hs sp eq_refl)) as [Hok Hc]. destruct (m (x_world s, sp)) as [a [w sp']]. split; [|exact Hc].
  split; [done|]. by intros ? [= <-].
Qed.
Lemma spec_eligible_books m : spec_ok (spec_is_eligible m).
Proof. intros s. apply books_stay. Qed.
Lemma spec_handle_books w r : W w → spec_ok (spec_handle_shard_result w r).
Proof. apply spec_result_books. Qed.
Lemma spec_start_books id m sh mt p h src : spec_ok (spec_start_pipeline id m sh mt p h src).
Proof. apply start_spec_books. Qed.
#[local] Hint Resolve shard_in_world' shard_drop shard_asks shard_resolves shard_tries shard_vrams shard_with_spec spec_eligible_books
  spec_start_books spec_handle_books : kept.
#[local] Hint Extern 2 (shard_ok (engine _)) => by apply shard_set : kept.
#[local] Hint Extern 2 (shard_ok (with_pipeline _ _)) => by apply shard_with : kept.
Lemma send_shard_books id src p sh w l : shard_ok (send_shard id src p sh w l).
Proof. books_at. Qed.
#[local] Hint Resolve send_shard_books : kept.
Lemma dispatch_current_books id src : shard_ok (dispatch_current id src).
Proof. books_at. Qed.
#[local] Hint Resolve dispatch_current_books : kept.
Lemma b3_receipt_books c id w p h : world_ok (record_b3lite_receipt c id w p h).
Proof. keeps. Qed.
#[local] Hint Resolve b3_receipt_books : kept.
Lemma await_experts_books b id w src ids l r : shard_ok (await_experts b id w src ids l r).
Proof. keeps. Qed.
Lemma finalize_books id : shard_ok (finalize_pipeline id).
Proof.
  unfold finalize_pipeline. eapply (books_bind _ _ _ (λ o, ∀ p, o = Some p → counted (p_contributions p)));
    [keeps|intros s [He _] p; apply (He id)|].
  intros [p|] Hp; [|keeps]. specialize (Hp p eq_refl). apply steps_bind; [typeclasses eauto|keeps|]. intros _.
  destruct (select_winning_wallet _) as [w|] eqn:Hw; [|keeps]. pose proof (counted_winner _ _ Hp Hw). keeps.
Qed.
#[local] Hint Resolve await_experts_books finalize_books : kept.
Lemma resume_books c o : shard_ok (resume c o).
Proof.
  unfold resume. destruct o as [out|]; [|keeps]. apply steps_bind; [typeclasses eauto| |keeps]. apply shard_with. intros p.
  unfold ShardEngine.advance. by destruct (ec_interior c).
Qed.
Lemma shard_done_books id w src p r : shard_ok (shard_done id w src p r).
Proof. keeps. Qed.
Lemma count_books id w : W w → shard_ok (with_pipeline id (count_contribution w)).
Proof. intros Hw. apply shard_with. intros p. by apply counted_insert. Qed.
#[local] Hint Resolve shard_done_books count_books : kept.
Lemma shard_result_books w r : W w → shard_ok (handle_shard_result_inner w r).
Proof. intros Hw. books_at. Qed.
Lemma shard_disconnect_books w : shard_ok (ShardEngine.on_disconnect w).
Proof. keeps. Qed.
Lemma start_pipeline_books q m sh g x src : shard_ok (start_pipeline q m sh g x src).
Proof.
  unfold start_pipeline. apply steps_bind; [typeclasses eauto|keeps|]. intros [|]; [keeps|]. apply steps_bind; [typeclasses eauto| |keeps].
  apply shard_set. intros e He. apply map_Forall_insert_2; [|done]. intros w [n Hx]. by destruct (lookup_empty_Some w n Hx).
Qed.
#[local] Hint Resolve start_pipeline_books : kept.
Lemma start_request_books q : shard_ok (start_request q).
Proof. keeps. Qed.
#[local] Hint Resolve start_request_books : kept.
Lemma poll_start_books : shard_ok poll_and_start_tick.
Proof. keeps. Qed.
Lemma shard_prompt_books id x : shard_ok (ShardEngine.receive_prompt id x).
Proof. keeps. Qed.
Lemma active_ids_books : shard_ok active_request_ids.
Proof. keeps. Qed.
Lemma shard_queue_books i : shard_ok (q ← ask se_tasks;
  match q !! i with
  | None => mret ()
  | Some t => _ ← engine (λ e, e <| se_tasks := delete i q |>); run_shard_task t
  end).
Proof. keeps. Qed.

(** ** The bridge *)

(** Outside the sessions' own steps nobody touches a session. *)
Variable seen : gmap N (Session ExpertWait).
Record bridge_counted (b : Bridge) : Prop := {
  bc_sessions : br_sessions b = seen;
  bc_shard : shard_counted (br_shard b);
  bc_spec : spec_counted (br_spec b)
}.
Notation bridge_ok := (steps (books W br_world bridge_counted)).
Lemma bridge_shared {A} (m : M World A) : world_ok m → bridge_ok (in_shared m).
Proof. intros Hm b. unfold in_shared, zoom. specialize (Hm (br_world b)). cbn. destruct (m (br_world b)).
  apply books_world; [exact Hm|]. by intros []. Qed.
Lemma bridge_opoi_books {A} (m : M OpoiEngine.Sys A) : opoi_ok m → bridge_ok (on_opoi m).
Proof.
  intros Hm b. unfold on_opoi. destruct (Hm (mkSys (br_world b) (br_opoi b) (br_now b)) I) as [_ Hc]. destruct (m _).
  apply books_world; [exact Hc|]. by intros [].
Qed.
Lemma bridge_shard_books {A} (m : M (ShardSys SpeculativeEngine) A) : shard_ok m → bridge_ok (on_shard m).
Proof.
  intros Hm b. unfold on_shard. cbv zeta. set (s0 := mkShardSys _ _ _ _). specialize (Hm s0). destruct (m s0) as [a s].
  intros [Ee He Hs]. destruct Hm as [[He' Hs'] Hc]; [split; [done|by intros sp [= <-]]|]. split; [|exact Hc]. split; [exact Ee|exact He'|].
  cbn in *. destruct (x_spec s) as [sp|]; [by apply Hs'|done].
Qed.
Lemma bridge_spec_books {A} (m : M SpecSys A) : spec_ok m → bridge_ok (on_spec m).
Proof.
  intros Hm b. unfold on_spec. cbv zeta. set (s0 := (_, _)). specialize (Hm s0). destruct (m s0) as [a s].
  intros [Ee He Hs]. destruct (Hm Hs) as [Hs' Hc]. by split.
Qed.
Lemma bridge_audit_books {A} (m : M AuditSys A) : audit_ok' m → bridge_ok (on_audit m).
Proof.
  intros Hm b. unfold on_audit. destruct (Hm (br_world b, br_audit b) I) as [_ Hc]. destruct (m _).
  apply books_world; [exact Hc|]. by intros [].
Qed.
Lemma bridge_disp_books {A} (m : M Disp A) : disp_ok m → bridge_ok (on_disp m).
Proof.
  intros Hm b. unfold on_disp. destruct (Hm (mkDisp (br_disp b) (br_oneshots b) (br_world b)) I) as [_ Hc]. destruct (m _).
  apply books_world; [exact Hc|]. by intros [].
Qed.
#[local] Hint Resolve bridge_shared bridge_opoi_books bridge_shard_books bridge_spec_books bridge_audit_books bridge_disp_books : kept.
#[local] Hint Resolve ensure_stake_books renew_books recover_books reveal_books payout_books restore_bans_books poll_assign_books
  submit_result_books opoi_disconnect_books opoi_prompt_books opoi_queue_books dispatch_group_books poll_task_books expert_result_books
  expert_disconnect_books draft_result_books rollback_ack_books spec_retry_books spec_disconnect_books spec_queue_books audit_result_books
  resume_books shard_result_books shard_disconnect_books poll_start_books shard_prompt_books active_ids_books shard_queue_books : kept.
Lemma bridge_event_books e : (∀ f, e ≠ EvWorld f) → bridge_ok (on_audit (audit_event_step e)).
Proof. intros He. by apply bridge_audit_books, audit_event_books. Qed.
#[local] Hint Extern 2 (bridge_ok (on_audit (audit_event_step _))) => by apply bridge_event_books : kept.
Lemma verdict_books now o : bridge_ok (on_audit (poll_verdict now o)).
Proof. by apply (bridge_event_books (EvPoll now o)). Qed.
Lemma process_books now o : bridge_ok (on_audit (process_ended now o)).
Proof. by apply (bridge_event_books (EvProcess now o)). Qed.
Lemma settle_books c ts : bridge_ok (settle c ts).
Proof. keeps. Qed.
#[local] Hint Resolve verdict_books process_books settle_books : kept.
Lemma begin_experts_books c : bridge_ok (begin_experts c).
Proof. keeps. Qed.
Lemma poll_expert_books w i o : bridge_ok (poll_expert w i o).
Proof. keeps. Qed.
#[local] Hint Resolve begin_experts_books poll_expert_books : kept.
Lemma topology_books id : bridge_ok (topology id).
Proof. intros b. unfold topology. apply bridge_shard_books. intros s. apply books_stay. Qed.
#[local] Hint Resolve topology_books : kept.
Lemma bridge_sets f : (∀ b, br_sessions (f b) = br_sessions b ∧ br_world (f b) = br_world b ∧ br_shard (f b) = br_shard b ∧ br_spec (f b) = br_spec b) →
  bridge_ok (modify f).
Proof.
  intros Hf b. destruct (Hf b) as (E1 & E2 & E3 & E4). apply books_same; [exact E2|]. intros []. split; cbn [modify snd]; rewrite ?E1, ?E3, ?E4; done.
Qed.
#[local] Hint Extern 2 (bridge_ok (modify _)) => by apply bridge_sets : kept.
Lemma limiter_books peer : bridge_ok (λ b, let '(ok, l) := check peer (br_now b) (br_limiter b) in (ok, b <| br_limiter := l |>)).
Proof. intros b. destruct (check _ _ _) as [ok l]. apply books_same; [done|]. by intros []. Qed.
#[local] Hint Resolve limiter_books : kept.
Lemma health_books : bridge_ok healthz.
Proof.
  unfold healthz. apply steps_bind; [typeclasses eauto| |keeps]. apply bridge_shared, world_db, credits_grows, grows_exec. intros d [] d' [= ->]. reflexivity.
Qed.
#[local] Hint Resolve health_books : kept.
Lemma serve_books q : bridge_ok (serve q).
Proof. destruct q; cbn [serve]; keeps. Qed.
Lemma timer_books t : bridge_ok (run_timer t).
Proof. unfold run_timer. apply steps_bind; [typeclasses eauto|keeps|]. intros cfg. destruct t; try solve [keeps]. Qed.
Lemma startup_books : bridge_ok startup.
Proof. unfold startup. keeps. Qed.
Lemma weather_books fs now : bridge_ok (in_shared (db (modify (λ d, d <| faults := fs |> <| clock := now |>)))).
Proof. apply bridge_shared, world_db. intros d. by apply credits_same. Qed.
#[local] Hint Resolve serve_books timer_books weather_books : kept.

(** ** Sessions *)

Notation SS := (Bridge * Session ExpertWait)%type.
Record session_counted (x : SS) : Prop := {
  sc_bridge : bridge_counted x.1;
  sc_confirmed : ∀ w, ss_confirmed x.2 = Some w → W w
}.
Notation session_ok := (steps (books W (λ x : SS, br_world x.1) session_counted)).
Lemma session_shares {A} (m : M Bridge A) : bridge_ok m → session_ok (shared m).
Proof. intros Hm x [Hb Hc]. unfold shared. destruct (Hm x.1 Hb) as [Hb' Hw]. destruct (m x.1). by split. Qed.
Lemma session_own f : (∀ c, ss_confirmed (f c) = ss_confirmed c) → session_ok (mine f).
Proof. intros Hf x. apply books_same; [done|]. intros [Hb Hc]. split; [done|]. intros w. cbn. rewrite Hf. apply Hc. Qed.
Lemma session_reads {A} (f : Session ExpertWait → A) : session_ok (my f).
Proof. intros x. apply books_stay. Qed.
#[local] Hint Resolve session_shares session_reads : kept.
#[local] Hint Extern 2 (session_ok (mine _)) => by apply session_own : kept.
Lemma down_send_books m : session_ok (down_send (S := Bridge) m).
Proof. keeps. Qed.
#[local] Hint Resolve down_send_books : kept.
(** A handler is called with the confirmed wallet. *)
Lemma session_wallet {A} (k : option string → M SS A) :
  session_ok (k None) → (∀ w, W w → session_ok (k (Some w))) → session_ok (w ← my ss_confirmed; k w).
Proof.
  intros H1' H2' x. rewrite bind_run. cbn [my]. intros Hx. destruct (ss_confirmed x.2) as [w|] eqn:Hw; [|by apply H1'].
  apply (H2' w); [|done]. by apply (sc_confirmed _ Hx).
Qed.
Lemma request_books {P} method (parse : Value → option P) error handle value :
  (∀ id w p, W w → session_ok (handle id w p)) → session_ok (request (S := Bridge) method parse error handle value).
Proof. intros Hh. unfold request. destruct (param0 value ≫= parse); [|keeps]. apply session_wallet; [keeps|]. auto. Qed.
Lemma notification_books {P} (parse : Value → option P) (handle : string → P → M Bridge ()) value :
  (∀ w p, W w → bridge_ok (handle w p)) → session_ok (notification parse handle value).
Proof. intros Hh. unfold notification. apply session_wallet; intros; destruct (param0 value ≫= parse); keeps. Qed.
Lemma capabilities_books value : session_ok (on_capabilities (S := Bridge) value).
Proof. keeps. Qed.
Lemma authorize_books line value : session_ok (on_authorize (S := Bridge) line value).
Proof. keeps. Qed.
#[local] Hint Resolve capabilities_books authorize_books : kept.
Lemma handle_shard_books w r : W w → bridge_ok (handle_shard_result (W := ExpertWait) w r).
Proof. intros Hw. cbn [handle_shard_result bridge_shard]. keeps. Qed.
Lemma handle_submit_books w p : W w → bridge_ok (handle_submit_result (S := Bridge) w p).
Proof. intros Hw. by apply bridge_opoi_books, submit_result_books. Qed.
Lemma handle_audit_books w r : bridge_ok (handle_audit_result (S := Bridge) w r).
Proof. apply bridge_audit_books, audit_result_books. Qed.
Lemma handle_expert_books w r : bridge_ok (handle_expert_result (S := Bridge) w r).
Proof. apply bridge_disp_books, expert_result_books. Qed.
Lemma handle_draft_books w r : bridge_ok (handle_draft_result (S := Bridge) w r).
Proof. apply bridge_spec_books, draft_result_books. Qed.
Lemma handle_ack_books w r : bridge_ok (handle_kv_rollback_ack (S := Bridge) w r).
Proof. apply bridge_spec_books, rollback_ack_books. Qed.
Lemma opoi_gone_books w : bridge_ok (opoi_on_disconnect (S := Bridge) w).
Proof. apply bridge_opoi_books, opoi_disconnect_books. Qed.
Lemma shard_gone_books w : bridge_ok (shard_on_disconnect (W := ExpertWait) w).
Proof. apply bridge_shard_books, shard_disconnect_books. Qed.
Lemma spec_gone_books w : bridge_ok (speculative_on_disconnect (S := Bridge) w).
Proof. apply bridge_spec_books, spec_disconnect_books. Qed.
Lemma audit_gone_books w : bridge_ok (audit_on_disconnect (S := Bridge) w).
Proof. by apply (bridge_event_books (EvDisconnect w)). Qed.
Lemma expert_gone_books w : bridge_ok (expert_on_disconnect (S := Bridge) w).
Proof. apply bridge_disp_books, expert_disconnect_books. Qed.
#[local] Hint Resolve handle_shard_books handle_submit_books handle_audit_books handle_expert_books handle_draft_books handle_ack_books
  opoi_gone_books shard_gone_books spec_gone_books audit_gone_books expert_gone_books : kept.
Lemma down_line_books l : session_ok (down_line (S := Bridge) l).
Proof.
  unfold down_line. cbv zeta. destruct (method_of _) as [m|]; [|keeps].
  do 4 (destruct (bool_decide _); [apply request_books; intros id w p Hw; keeps|]).
  do 2 (destruct (bool_decide _); [apply notification_books; intros w p Hw; keeps|]). keeps.
Qed.
Lemma release_books w : bridge_ok (release (W := ExpertWait) w).
Proof. keeps. Qed.
#[local] Hint Resolve release_books : kept.
Lemma end_session_books : session_ok (end_session (S := Bridge)).
Proof. keeps. Qed.
Lemma resumed_books o : session_ok (shard_resumed (S := Bridge) o).
Proof. keeps. Qed.
Lemma session_step_books e : (∀ l, e ≠ Up l) → session_ok (session_step (S := Bridge) e).
Proof.
  intros He x. unfold session_step. destruct (reads x.2 e); [|apply books_stay].
  destruct e as [l|l|o|]; [apply down_line_books|by destruct (He l)|apply resumed_books|apply end_session_books].
Qed.
Lemma session_expert_books i o : session_ok (session_expert i o).
Proof.
  unfold session_expert. apply steps_bind; [typeclasses eauto|keeps|]. intros [[id w]|]; [|keeps].
  apply steps_bind; [typeclasses eauto|keeps|]. intros [r|w'|]; [by apply session_step_books|keeps|by apply session_step_books].
Qed.
(** A line of the pool may confirm another wallet, and calls nobody. *)
Notation bare_ok := (steps (books W (λ x : SS, br_world x.1) (λ x, bridge_counted x.1))).
Lemma up_line_books l : bare_ok (up_line (S := Bridge) l).
Proof.
  assert (∀ A (m : M Bridge A), bridge_ok m → bare_ok (shared m)) as Hshared.
  { intros A m Hm y Hy. unfold shared. destruct (Hm y.1 Hy). by destruct (m y.1). }
  assert (∀ f, bare_ok (mine f)) as Hmine by (intros f y; by apply books_same).
  assert (∀ A (f : Session ExpertWait → A), bare_ok (my f)) as Hmy by (intros A f y; apply books_stay).
  keeps.
Qed.
End engines.

(** ** What the sessions heard *)

Section history.
Context `{Csd, RowOrder, Crypto, HexError, MapIter, HttpGet, Marketplace, Tokenizers, Schedule, DisplayF64, JsonText}.

(** The part of an event that a session reads: nothing before it is accepted,
    after its end, or of the miner while it is busy. *)
Definition heard_now (tx : N) (e : bridge_event) (b : Bridge) : list session_event :=
  match br_sessions b !! tx, e with
  | Some c, EvDown tx' l => if bool_decide (tx' = tx) && reads c (Down l) then [Down l] else []
  | Some c, EvUp tx' l => if bool_decide (tx' = tx) && reads c (Up l) then [Up l] else []
  | Some c, EvClose tx' => if bool_decide (tx' = tx) && reads c Closed then [Closed] else []
  | _, _ => []
  end.
Fixpoint heard (tx : N) (evs : list bridge_event) (b : Bridge) : list session_event :=
  match evs with
  | [] => []
  | e :: evs' => heard_now tx e b ++ heard tx evs' (bridge_event_run e b).2
  end.
(** Some session's miner asked to work for [w], and the pool accepted that. *)
Definition accredited (evs : list bridge_event) (b : Bridge) (w : string) : Prop := ∃ tx, granted (heard tx evs b) w.

Lemma run_snoc evs e b : bridge_after (evs ++ [e]) b = (bridge_event_run e (bridge_after evs b)).2.
Proof.
  unfold bridge_after. revert b. induction evs as [|e0 evs IH]; intros b; cbn [app for_each].
  - cbn. unfold mbind, M_bind. by destruct (bridge_event_run e b) as [[] b1].
  - rewrite !bind_run. destruct (bridge_event_run e0 b) as [[] b1]. apply IH.
Qed.
Lemma heard_snoc tx evs e b : heard tx (evs ++ [e]) b = heard tx evs b ++ heard_now tx e (bridge_after evs b).
Proof.
  revert b. induction evs as [|e0 evs IH]; intros b; cbn [app heard]; [by rewrite app_nil_r|].
  rewrite IH, app_assoc. do 2 f_equal. unfold bridge_after. cbn [for_each]. rewrite bind_run. by destruct (bridge_event_run e0 b) as [[] b1].
Qed.

(** [h] is what the sessions heard. *)
Notation vouched h w := (∃ tx, granted (h tx) w).
Record honest (h : N → list session_event) (b0 b : Bridge) : Prop := {
  ho_session : ∀ tx c, br_sessions b !! tx = Some c → vouched_for (h tx) c;
  ho_counted : bridge_counted (λ w, vouched h w) (br_sessions b) b;
  ho_credits : world_credits (λ w, vouched h w) (br_world b0) (br_world b)
}.

Lemma granted_app evs es w : granted evs w → granted (evs ++ es) w.
Proof. intros (a & u & c & -> & Ha & Hu). exists a, u, (c ++ es). by rewrite <-app_assoc. Qed.
Lemma credits_mono (W W' : string → Prop) d d' : (∀ w, W w → W' w) → credits W d d' → credits W' d d'.
Proof. intros HW (new & E & Hn). exists new. split; [done|]. eapply Forall_impl; [exact Hn|]. apply HW. Qed.
Lemma counted_mono (W W' : string → Prop) seen b : (∀ w, W w → W' w) → bridge_counted W seen b → bridge_counted W' seen b.
Proof.
  intros HW [E Hs Hp]. split; [done| |]; intros id p Hid w Hw; apply HW; [by apply (Hs id p Hid)|by apply (Hp id p Hid)].
Qed.
(** A session moved on by what it heard, the rest by what it was called for. *)
Lemma honest_next h h' b0 b b' : honest h b0 b → (∀ t, ∃ es, h' t = h t ++ es) →
  bridge_counted (λ w, vouched h w) (br_sessions b) (b' <| br_sessions := br_sessions b |>) →
  world_credits (λ w, vouched h w) (br_world b) (br_world b') →
  (∀ tx c, br_sessions b' !! tx = Some c → vouched_for (h' tx) c) → honest h' b0 b'.
Proof.
  intros [Hs Hc Hw] Hext [_ Hsh Hsp] Hcr Hs'. assert (∀ w, vouched h w → vouched h' w) as Hmono.
  { intros w [tx Hg]. exists tx. destruct (Hext tx) as [es ->]. by apply granted_app. }
  split; [done| |].
  - eapply counted_mono; [exact Hmono|]. by split.
  - eapply credits_mono; [exact Hmono|]. by etrans.
Qed.
Lemma honest_quiet h h' b0 b b' : honest h b0 b → (∀ t, h' t = h t) →
  books (λ w, vouched h w) br_world (bridge_counted (λ w, vouched h w) (br_sessions b)) b b' → honest h' b0 b'.
Proof.
  intros Hh Hext Hb. destruct (Hb (ho_counted _ _ _ Hh)) as [[E Hs Hp] Hw].
  eapply honest_next; [exact Hh|intros t; exists []; by rewrite Hext, app_nil_r|by split|exact Hw|].
  intros tx c Hc. rewrite Hext. apply (ho_session _ _ _ Hh). by rewrite <-E.
Qed.
(** One session's turn. *)
Lemma honest_session h h' tx b0 b (m : M (Bridge * Session ExpertWait) ()) : honest h b0 b →
  (∀ t, t ≠ tx → h' t = h t) → (∃ es, h' tx = h tx ++ es) →
  (∀ c, br_sessions b !! tx = Some c → let x' := (m (b, c)).2 in
     bridge_counted (λ w, vouched h w) (br_sessions b) x'.1 ∧ world_credits (λ w, vouched h w) (br_world b) (br_world x'.1)
     ∧ vouched_for (h' tx) x'.2) →
  (br_sessions b !! tx = None → h' tx = h tx) →
  honest h' b0 (on_session tx m b).2.
Proof.
  intros Hh Hother Hown Hm Hnone. unfold on_session. destruct (br_sessions b !! tx) as [c|] eqn:Hc.
  - destruct (Hm c eq_refl) as (Hb & Hw & Hv). destruct (m (b, c)) as [[] [b' c']]. cbn [fst snd] in *. destruct Hb as [E Hs Hp].
    eapply honest_next; [exact Hh| |by split|exact Hw|].
    + intros t. destruct (decide (t = tx)) as [->|Ht]; [done|]. exists []. by rewrite Hother, app_nil_r.
    + intros t c0 Ht. change (<[tx := c']> (br_sessions b') !! t = Some c0) in Ht. rewrite E in Ht.
      apply lookup_insert_Some in Ht as [[<- <-]|[Hne Ht]]; [done|]. rewrite Hother by congruence. by apply (ho_session _ _ _ Hh).
  - apply (honest_quiet h _ _ b); [done| |intros Hb; by split].
    intros t. destruct (decide (t = tx)) as [->|Ht]; [by apply Hnone|by apply Hother].
Qed.

(** The events a session reads. *)
Lemma session_step_books' W e b c : (∀ w, ss_confirmed c = Some w → W w) → bridge_counted W (br_sessions b) b →
  let x' := (session_step (S := Bridge) e (b, c)).2 in
  bridge_counted W (br_sessions b) x'.1 ∧ world_credits W (br_world b) (br_world x'.1).
Proof.
  intros Hc Hb x'. destruct e as [l|l|o|].
  2: { unfold x', session_step. destruct (reads _ _); [|by split]. destruct (up_line_books W (br_sessions b) l (b, c) Hb). by split. }
  all: assert (session_counted W (br_sessions b) (b, c)) as Hs by (by split).
  all: match goal with x' := (session_step ?e _).2 |- _ => by destruct (session_step_books W (br_sessions b) e ltac:(done) (b, c) Hs) as [[] ?] end.
Qed.
Lemma session_step_vouched evs e (x : Bridge * Session ExpertWait) : vouched_for evs x.2 →
  vouched_for (evs ++ if reads x.2 e then [e] else []) (session_step (S := Bridge) e x).2.2.
Proof.
  intros Hx. unfold session_step. destruct (reads x.2 e); [|by rewrite app_nil_r].
  destruct (event_session e x) as (_ & Ep & Ec & _). by eapply vouched_step.
Qed.
#[local] Existing Instance same_identity_preorder.
Lemma session_expert_vouched evs i o (x : Bridge * Session ExpertWait) : vouched_for evs x.2 → vouched_for evs (session_expert i o x).2.2.
Proof.
  intros Hx. assert (steps same_identity (session_expert i o)) as Hs.
  { assert (∀ r, steps same_identity (session_step (S := Bridge) (W := ExpertWait) (Resumed r))) as Hres.
    { intros r y. unfold session_step. destruct (reads _ _); [apply identity_resumed|reflexivity]. }
    unfold session_expert. apply steps_bind; [typeclasses eauto|apply identity_my|]. intros [[id w]|]; [|apply steps_ret; typeclasses eauto].
    apply steps_bind; [typeclasses eauto|apply identity_shared|]. intros [r|w'|]; [apply Hres|by apply identity_mine|apply Hres]. }
  destruct (Hs x) as (_ & Ep & Ec & _). unfold vouched_for. by rewrite Ep, Ec.
Qed.

Lemma heard_other tx e b : (∀ t l, e ≠ EvDown t l) → (∀ t l, e ≠ EvUp t l) → (∀ t, e ≠ EvClose t) → heard_now tx e b = [].
Proof. intros H1' H2' H3'. unfold heard_now. destruct (_ !! tx), e; try done; [by edestruct H1'|by edestruct H2'|by edestruct H3']. Qed.

(** A session reads a line, or ends. *)
Lemma honest_heard h h' e se tx b0 b : honest h b0 b → (∀ t, h' t = h t ++ heard_now t e b) →
  bridge_event_run e = on_session tx (session_step se) →
  (∀ t, heard_now t e b = match br_sessions b !! t with Some c => if bool_decide (tx = t) && reads c se then [se] else [] | None => [] end) →
  honest h' b0 (bridge_event_run e b).2.
Proof.
  intros Hh Hh' -> He. apply (honest_session h _ _ _ _ _ Hh).
  - intros t Ht. rewrite Hh', He, bool_decide_false by congruence. destruct (_ !! t); by rewrite app_nil_r.
  - rewrite Hh'. by eexists.
  - intros c Hc. pose proof (ho_session _ _ _ Hh _ _ Hc) as Hv.
    destruct (session_step_books' (λ w, vouched h w) se b c) as [Hb Hw]; [intros w Hw; exists tx; by apply Hv|apply Hh|].
    split_and!; [done|done|]. rewrite Hh', He, Hc, bool_decide_true by done. by apply (session_step_vouched _ se (b, c)).
  - intros Hn. by rewrite Hh', He, Hn, app_nil_r.
Qed.
(** A new session has heard nothing. *)
Lemma honest_connect h h' b0 b o : honest h b0 b → (∀ t, h' t = h t) → honest h' b0 (accept o b).2.
Proof.
  intros Hh Hh'. destruct o as [| |tx]; [by apply (honest_quiet h _ _ b)..|]. cbn [accept]. unfold connect.
  destruct (br_sessions b !! tx) eqn:Hn; [by apply (honest_quiet h _ _ b)|]. cbn [snd].
  eapply honest_next; [exact Hh|intros t; exists []; by rewrite Hh', app_nil_r| |by apply credits_same|].
  - destruct (ho_counted _ _ _ Hh). by split.
  - intros t c Ht. change (<[tx := new_session tx]> (br_sessions b) !! t = Some c) in Ht.
    apply lookup_insert_Some in Ht as [[_ <-]|[_ Ht]]; [done|]. rewrite Hh'. by apply (ho_session _ _ _ Hh).
Qed.
Lemma honest_step evs e b0 : honest (λ tx, heard tx evs b0) b0 (bridge_after evs b0) →
  honest (λ tx, heard tx (evs ++ [e]) b0) b0 (bridge_after (evs ++ [e]) b0).
Proof.
  rewrite run_snoc. set (b := bridge_after evs b0). intros Hh.
  assert (∀ t, heard t (evs ++ [e]) b0 = heard t evs b0 ++ heard_now t e b) as Hh' by (intros t; apply heard_snoc).
  assert ((∀ t, heard_now t e b = []) → steps (books (λ w, vouched (λ tx, heard tx evs b0) w) br_world
            (bridge_counted (λ w, vouched (λ tx, heard tx evs b0) w) (br_sessions b))) (bridge_event_run e) →
          honest (λ tx, heard tx (evs ++ [e]) b0) b0 (bridge_event_run e b).2) as Hquiet.
  { intros Hq Hb. eapply honest_quiet; [exact Hh| |apply Hb]. intros t. by rewrite Hh', Hq, app_nil_r. }
  destruct e as [o|tx l|tx l|tx|tx i o|o|o|t|q|i|i|i|now|fs now];
    [|by apply (honest_heard _ _ _ (Down l) tx _ _ Hh Hh')|by apply (honest_heard _ _ _ (Up l) tx _ _ Hh Hh')
     |by apply (honest_heard _ _ _ Closed tx _ _ Hh Hh')| |
     (apply Hquiet; [intros t'; by apply heard_other|]; cbn [bridge_event_run]; clear Hquiet)..].
  - eapply honest_connect; [exact Hh|]. intros t. by rewrite Hh', (heard_other t), app_nil_r.
  - assert (∀ t, heard_now t (EvExpert tx i o) b = []) as Hq by (intros t; by apply heard_other).
    apply (honest_session _ _ _ _ _ _ Hh); [intros t _; by rewrite Hh', Hq, app_nil_r|exists []; by rewrite Hh', Hq| |by rewrite Hh', Hq, app_nil_r].
    intros c Hc. pose proof (ho_session _ _ _ Hh _ _ Hc) as Hv. rewrite Hh', Hq, app_nil_r.
    destruct (session_expert_books (λ w, vouched (λ tx, heard tx evs b0) w) (br_sessions b) i o (b, c)) as [[Hb _] Hw].
    { split; [apply Hh|]. intros w Hw. exists tx. by apply Hv. }
    split_and!; [done|done|]. by apply session_expert_vouched.
  - apply steps_bind; [typeclasses eauto|apply steps_gets; typeclasses eauto|]. intros n. apply verdict_books; typeclasses eauto.
  - apply steps_bind; [typeclasses eauto|apply steps_gets; typeclasses eauto|]. intros n. apply process_books; typeclasses eauto.
  - apply timer_books; typeclasses eauto.
  - apply steps_ignore; [typeclasses eauto|]. apply serve_books; typeclasses eauto.
  - apply bridge_opoi_books, opoi_queue_books; typeclasses eauto.
  - apply bridge_shard_books, shard_queue_books; typeclasses eauto.
  - apply bridge_spec_books, spec_queue_books; typeclasses eauto.
  - by apply bridge_sets.
  - apply weather_books; typeclasses eauto.
Qed.

Lemma honest_run h evs b0 : honest (λ _, []) b0 b0 → (∀ t, h t = heard t evs b0) → honest h b0 (bridge_after evs b0).
Proof.
  intros H0' Hh. apply (honest_quiet (λ tx, heard tx evs b0) _ _ (bridge_after evs b0)); [|done|intros Hb; by split].
  clear Hh. induction evs as [|e evs IH] using rev_ind; [done|]. by apply honest_step.
Qed.
Lemma honest_start cfg w srcs asrcs drafts now b0 : initial cfg w srcs asrcs drafts now = Some b0 →
  let b1 := (startup b0).2 in honest (λ _, []) b1 b1 ∧ wallets (w_db (br_world b1)) = wallets (w_db w).
Proof.
  unfold initial. destruct (new_stake_pool _) as [pool|]; [|done]. intros [= <-]. set (b0 := mkBridge _ _ _ _ _ _ _ _ _ _ _ _ _).
  destruct (startup_books (λ _, False) ∅ b0) as [Hb (new & Hw & Hn)]; [by split|]. cbv zeta. set (b1 := (startup b0).2) in *. split.
  - split; [intros tx c; by rewrite (bc_sessions _ _ _ Hb), lookup_empty| |].
    + rewrite (bc_sessions _ _ _ Hb). eapply counted_mono; [|exact Hb]. done.
    + by apply credits_same.
  - rewrite Hw. destruct Hn; [|done]. by rewrite app_nil_r.
Qed.
End history.

(** ** Property *)

Section properties.
Context `{Csd, RowOrder, Crypto, HexError, MapIter, HttpGet, Marketplace, Tokenizers, Schedule, DisplayF64, JsonText}.

(** C19. Nobody is credited without the pool's word: of all the answers the
    database holds at any later time, those the process added are for wallets a
    miner asked for with [mining.authorize] and the pool then accepted on that
    very session, whether the answer is a whole one, a pipeline's or a
    speculative pipeline's; no line of anybody else can put another wallet
    there, and no earlier answer changes hands. *)
Theorem credit_needs_authorization (cfg : Config) (w : World) (srcs asrcs : ModelSourceConfig) (drafts : gmap string DraftModelSource) (now : N) (b0 : Bridge) (evs : list bridge_event) :
  initial cfg w srcs asrcs drafts now = Some b0 →
  let b := (startup b0).2 in
  ∃ new, wallets (w_db (br_world (bridge_after evs b))) = wallets (w_db w) ++ new ∧ Forall (accredited evs b) new.
Proof.
  intros [Hstart <-]%honest_start b. destruct (ho_credits _ _ _ (honest_run (λ tx, heard tx evs b) evs b Hstart ltac:(done))) as (new & E & Hn).
  by exists new.
Qed.
End properties.

(** ** Witness *)

Section examples.
Existing Instances shard_csd empty_market sample_http table_order in_order key_iter toy_crypto toy_hex_error toy_tokenizers.
#[local] Instance no_print' : DisplayF64 := {| display_f64 := λ _, "" |}.

(** Bob answers both shards of request "d" for each of its two tokens. *)
Definition shard_line (r : OpoiShardResult) : Value :=
  Object [("id", u 7); ("method", Str "opoi.shard_result"); ("params", Array [shard_result_value r])].
Definition bob_json (line : string) : option Value :=
  if bool_decide (line = "first") then Some (shard_line (dense_result 0 0 None))
  else if bool_decide (line = "second") then Some (shard_line (dense_result 1 0 (Some 5%N)))
  else if bool_decide (line = "third") then Some (shard_line (dense_result 0 1 None))
  else if bool_decide (line = "fourth") then Some (shard_line (dense_result 1 1 (Some 6%N)))
  else sample_json line.
#[local] Instance bob_text : JsonText := {| json_parse := bob_json |}.
Definition bob_events : list bridge_event :=
  [EvAccept (Dialled 1%N); EvAccept (Dialled 2%N); EvDown 1%N "auth bob"; EvDown 2%N "auth eve"; EvUp 1%N "accept";
   EvHttp (PostPrompt (V4 1%N) (Some "") (mkPromptRequest "d" "hi" None None)); EvTimer PollStart;
   EvDown 2%N "first"; EvDown 1%N "first"; EvDown 1%N "second"; EvDown 1%N "third"; EvDown 1%N "fourth"].
Definition bob_start : option Bridge :=
  initial (with_addresses "a" default_config) (mkWorld [] (empty_db []) new_registry (mkNet ∅ []))
    (mkModelSources {["dense" := moe_source]} None) (mkModelSources ∅ None) ∅ 0%N.
Lemma credit_needs_authorization_witness :
  match bob_start with
  | Some b0 => accredited bob_events (startup b0).2 "bob"
  | None => False
  end.
Proof.
  destruct bob_start as [b0|] eqn:Hb; [|vm_compute in Hb; discriminate].
  destruct (credit_needs_authorization _ _ _ _ _ _ b0 bob_events Hb) as (new & E & Hn).
  assert (wallets (w_db (br_world (bridge_after bob_events (startup b0).2))) = ["bob"]) as E'.
  { vm_compute in Hb. injection Hb as <-. vm_compute. exact eq_refl. }
  rewrite E' in E. cbn in E. rewrite <-E in Hn. exact (Forall_inv Hn).
Defined.
End examples.
