(* ===== verification/SetupWizard.v ===== *)
(** * The first-run wizard ([src/setup_wizard.rs])

    Runs before the configuration is loaded: when a required variable is missing
    it sends the operator to [.env], or asks for the values, tries the daemon and
    writes [.env].  The state is the process environment, the files of the working
    directory, what is still to be read from standard input, and the calls made.
    What is printed is not modelled.  A line of input that is not UTF-8 reads as
    empty, and so does every line after the end of the input. *)

From S2P Require Export Lines Bytes CsdClient.

(** [dotenvy]: the assignments it takes from the file it finds. *)
Class Dotenv := { dotenv_pairs : gmap string string → list (string * string) }.
(** The daemon behind a URL, a user and a password. *)
Class Daemons := { csd_at : string → string → string → Csd }.
(** [/dev/urandom], [None] when it cannot be read, and the clock. *)
Class Entropy := { urandom : nat → option bytes; nanos : N; urandom_length : ∀ n b, urandom n = Some b → length b = n }.

Record RequiredVar := mkRequiredVar { rv_key : string; suggested_default : option string }.
Definition REQUIRED_VARS : list RequiredVar :=
  [mkRequiredVar "UPSTREAM_POOL_ADDR" None; mkRequiredVar "CSD_RPC_URL" (Some "http://127.0.0.1:26124");
   mkRequiredVar "CSD_RPC_USER" None; mkRequiredVar "CSD_RPC_PASS" None; mkRequiredVar "OPOI_ADDRESSES" None;
   mkRequiredVar "OPOI_REQUESTER_API_KEY" None].
Definition ENV_PATH : string := ".env".
Definition ENV_EXAMPLE_PATH : string := ".env.example".

Record Wizard := mkWizard {
  wz_env : gmap string string;
  wz_files : gmap string string;
  (** Paths that cannot be written. *)
  wz_locked : gset string;
  wz_stdin : list string;
  wz_csd : csd_log
}.

(** How the process may end inside the wizard: [set_var] panics on a NUL. *)
Inductive ended : Type :=
| Exited (code : N)
| SetVarPanicked
| NeverEnds.

(** ** Texts *)

Definition trim (s : string) : string := of_ascii_list (trim_list (ascii_list s)).

(** [trim_end_matches(['\n', '\r'])] *)
Fixpoint trim_end_eol (s : string) : string :=
  match s with
  | EmptyString => EmptyString
  | String c rest =>
    let rest' := trim_end_eol rest in
    if bool_decide (rest' = "") && (Ascii.eqb c "010" || Ascii.eqb c "013") then EmptyString else String c rest'
  end.

(** [line.find('=')] and the text before it. *)
Fixpoint key_of_line (s : string) : option string :=
  match s with
  | EmptyString => None
  | String c rest => if Ascii.eqb c "=" then Some EmptyString else String c <$> key_of_line rest
  end.

Definition env_line (k v : string) : string := k +:+ "=" +:+ v.
(** [str::parse::<usize>] *)
Fixpoint digits_value (acc : N) (l : list ascii) : option N :=
  match l with
  | [] => Some acc
  | c :: rest =>
    let n := N_of_ascii c in
    if (48 <=? n)%N && (n <=? 57)%N then
      let acc' := (acc * 10 + (n - 48))%N in if (acc' <? 2 ^ 64)%N then digits_value acc' rest else None
    else None
  end.
Definition parse_usize (s : string) : option N :=
  match ascii_list s with
  | [] => None
  | c :: rest =>
    if Ascii.eqb c "+" then match rest with [] => None | _ => digits_value 0 rest end
    else digits_value 0 (c :: rest)
  end.

(** ** The environment *)

Definition var (key : string) (s : Wizard) : string := default "" (wz_env s !! key).
Definition is_set (key : string) (s : Wizard) : bool :=
  match wz_env s !! key with Some v => negb (bool_decide (trim v = "")) | None => false end.
Definition primary_opoi_address (s : Wizard) : string :=
  trim (of_ascii_list (default [] (head (split_on "," (ascii_list (var "OPOI_ADDRESSES" s)))))).
Definition var_by_key (key : string) : option RequiredVar := find_first (λ v, bool_decide (rv_key v = key)) REQUIRED_VARS.
Definition new_client `{Daemons} (s : Wizard) : Csd := csd_at (var "CSD_RPC_URL" s) (var "CSD_RPC_USER" s) (var "CSD_RPC_PASS" s).

(** [dotenv().ok()]: a variable that is set stays as it is. *)
Definition load_dotenv `{Dotenv} (s : Wizard) : Wizard :=
  s <| wz_env := fold_left (λ env kv, if env !! kv.1 then env else <[kv.1 := kv.2]> env) (dotenv_pairs (wz_files s)) (wz_env s) |>.

Definition collected_vars : Type := list (string * string).
Fixpoint upsert (key value : string) (l : collected_vars) : collected_vars :=
  match l with
  | [] => [(key, value)]
  | (k, v) :: rest => if bool_decide (k = key) then (k, value) :: rest else (k, v) :: upsert key value rest
  end.
Definition has_nul (v : string) : bool := existsb (Ascii.eqb Ascii.zero) (ascii_list v).

Section wizard.
Context `{Dotenv, Daemons, Entropy, Crypto}.

Definition set_collected (collected : collected_vars) (key value : string) : M Wizard (result collected_vars ended) :=
  if has_nul value then mret (Err SetVarPanicked)
  else
    _ ← modify (λ s, s <| wz_env := <[key := value]> (wz_env s) |>);
    mret (Ok (upsert key value collected)).

Definition read_line : M Wizard string := λ s,
  match wz_stdin s with
  | [] => ("", s)
  | l :: rest => (trim_end_eol l, s <| wz_stdin := rest |>)
  end.

(** ** Prompts *)

(** Once the input has ended every further turn is the same: without a default
    the loop never ends. *)
Fixpoint prompt_loop (fuel : nat) (v : RequiredVar) : M Wizard (result string ended) :=
  match fuel with
  | 0 => mret (Err NeverEnds)
  | S fuel' =>
    input ← read_line;
    let value := if bool_decide (trim input = "") then default "" (suggested_default v) else trim input in
    if bool_decide (value ≠ "") then mret (Ok value) else prompt_loop fuel' v
  end.
Definition prompt_value (v : RequiredVar) : M Wizard (result string ended) := λ s, prompt_loop (S (length (wz_stdin s))) v s.

Definition generate_random_hex (num_bytes : nat) : string :=
  hex_encode match urandom num_bytes with
             | Some buf => buf
             | None => (λ i, ascii_of_N (N.land (N.shiftr nanos (N.of_nat (i `mod` 8) * 8)) 255)) <$> seq 0 num_bytes
             end.
Definition prompt_api_key : M Wizard (result string ended) :=
  input ← read_line;
  mret (Ok (if bool_decide (trim input = "") then generate_random_hex 32 else trim input)).

(** The answer to a yes-or-no question. *)
Definition says_yes : M Wizard bool :=
  input ← read_line;
  mret (eq_ignore_ascii_case (trim input) "y").

Definition rpc {A} (m : M csd_log A) : M Wizard A := zoom wz_csd (λ l s, s <| wz_csd := l |>) m.

(** ** The stake's collateral *)

Definition offer_stake_utxo_picker (client : Csd) (collected : collected_vars) : M Wizard (result collected_vars ended) :=
  r ← rpc list_unspent;
  match r with
  | Ok (u0 :: more) =>
    let utxos := u0 :: more in
    choice ← read_line;
    match parse_usize (trim choice) with
    | Some idx =>
      if (1 <=? idx)%N && (idx <=? N.of_nat (length utxos))%N then
        let picked := nth (N.to_nat idx - 1) utxos u0 in
        collected ←? set_collected collected "OPOI_COLLATERAL_TXID" (uo_txid picked);
        set_collected collected "OPOI_COLLATERAL_VOUT" (pretty (uo_vout picked))
      else mret (Ok collected)
    | None => mret (Ok collected)
    end
  | _ => mret (Ok collected)
  end.

Definition maybe_offer_stake_picker (client : Csd) (primary : string) (collected : collected_vars)
    : M Wizard (result collected_vars ended) :=
  if bool_decide (primary = "") then mret (Ok collected)
  else
    r ← rpc (get_opoi_stake primary);
    match r with
    | Ok (Some _) => mret (Ok collected)
    | _ => offer_stake_utxo_picker client collected
    end.

(** ** The file *)

Definition write_file (path contents : string) : M Wizard bool := λ s,
  if bool_decide (path ∈ wz_locked s) then (false, s) else (true, s <| wz_files := <[path := contents]> (wz_files s) |>).

Definition example_line (collected : collected_vars) (line : string) : string :=
  match key_of_line line ≫= λ key, find_first (λ kv : string * string, bool_decide (kv.1 = key)) collected with
  | Some (k, v) => env_line k v
  | None => line
  end.
Definition write_env_file (collected : collected_vars) : M Wizard () :=
  example ← gets (λ s, wz_files s !! ENV_EXAMPLE_PATH);
  let contents := match example with
                  | Some example => unlines (example_line collected <$> str_lines example)
                  | None => unlines ((λ '(k, v), env_line k v) <$> collected)
                  end in
  ignore (write_file ENV_PATH contents).

Definition patched (pairs : collected_vars) (existing : string) : string :=
  let named line := key_of_line line ≫= λ key, position (λ kv : string * string, bool_decide (kv.1 = key)) pairs in
  let lines := str_lines existing in
  let applied := omap named lines in
  unlines (((λ line, match named line ≫= (pairs !!.) with Some (k, v) => env_line k v | None => line end) <$> lines)
           ++ omap (λ '(idx, (k, v)), if bool_decide (idx ∈ applied) then None else Some (env_line k v))
    (imap (λ (i : nat) (kv : string * string), (i, kv)) pairs)).
Definition patch_env_file (pairs : collected_vars) : M Wizard () :=
  existing ← gets (λ s, wz_files s !! ENV_PATH);
  match existing with
  | None => mret ()
  | Some existing => ignore (write_file ENV_PATH (patched pairs existing))
  end.

(** ** The two ways *)

Definition run_manual : M Wizard (result () ended) :=
  files ← gets wz_files;
  _ ← match files !! ENV_PATH, files !! ENV_EXAMPLE_PATH with
      | None, Some example => ignore (write_file ENV_PATH example)
      | _, _ => mret ()
      end;
  mret (Err (Exited 1)).

Fixpoint ask_all (vars : list RequiredVar) (collected : collected_vars) : M Wizard (result collected_vars ended) :=
  match vars with
  | [] => mret (Ok collected)
  | v :: rest =>
    skip ← gets (is_set (rv_key v));
    if (skip : bool) then ask_all rest collected
    else
      value ←? (if bool_decide (rv_key v = "OPOI_REQUESTER_API_KEY") then prompt_api_key else prompt_value v);
      collected ←? set_collected collected (rv_key v) value;
      ask_all rest collected
  end.

Fixpoint ask_again (keys : list string) (collected : collected_vars) : M Wizard (result collected_vars ended) :=
  match keys with
  | [] => mret (Ok collected)
  | key :: rest =>
    match var_by_key key with
    | None => mret (Ok collected)
    | Some v =>
      value ←? prompt_value v;
      collected ←? set_collected collected key value;
      ask_again rest collected
    end
  end.

(** A turn that goes on has read a line: the input bounds their number. *)
Fixpoint connect_loop (fuel : nat) (collected : collected_vars) : M Wizard (result (collected_vars * bool) ended) :=
  match fuel with
  | 0 => mret (Err NeverEnds)
  | S fuel' =>
    client ← gets new_client;
    r ← rpc (get_chain_height (H := client));
    match r with
    | Ok _ => mret (Ok (collected, true))
    | Err _ =>
      again ← says_yes;
      if (again : bool) then
        collected ←? ask_again ["CSD_RPC_URL"; "CSD_RPC_USER"; "CSD_RPC_PASS"] collected;
        connect_loop fuel' collected
      else mret (Ok (collected, false))
    end
  end.

Definition run_automatic : M Wizard (result () ended) :=
  collected ←? ask_all REQUIRED_VARS [];
  n ← gets (λ s, length (wz_stdin s));
  cc ←? connect_loop (S n) collected;
  collected ←? (if (cc.2 : bool) then
                  client ← gets new_client;
                  primary ← gets primary_opoi_address;
                  maybe_offer_stake_picker client primary cc.1
                else mret (Ok cc.1));
  _ ← write_env_file collected;
  mret (Ok ()).

(** Every required variable is set; the stake may still be missing. *)
Definition ensure_stake_configured : M Wizard (result () ended) :=
  has ← gets (is_set "OPOI_COLLATERAL_TXID");
  primary ← gets primary_opoi_address;
  if has || bool_decide (primary = "") then mret (Ok ())
  else
    client ← gets new_client;
    stake ← rpc (get_opoi_stake (H := client) primary);
    match stake with
    | Ok None =>
      yes ← says_yes;
      if negb (yes : bool) then mret (Ok ())
      else
        collected ←? offer_stake_utxo_picker client [];
        _ ← (if bool_decide (collected ≠ []) then patch_env_file collected else mret ());
        mret (Ok ())
    | _ => mret (Ok ())
    end.

Definition ensure_configured : M Wizard (result () ended) :=
  _ ← modify load_dotenv;
  missing ← gets (λ s, filter (λ v, is_set (rv_key v) s = false) REQUIRED_VARS);
  if bool_decide (missing = []) then ensure_stake_configured
  else
    input ← read_line;
    if bool_decide (trim input = "2") then run_automatic else run_manual.
End wizard.

(** ** Lemmas *)

(** *** Trimming *)

Lemma strip_prefix_app p l l' : Config.strip_prefix p l = Some l' ↔ l = p ++ l'.
Proof.
  revert l. induction p as [|a p IH]; intros l; cbn; [split; congruence|]. destruct l as [|b l]; [done|].
  destruct (Ascii.eqb_spec a b) as [->|Hne]; [rewrite IH; split; congruence|split; congruence].
Qed.
Lemma trim_front_ends ws fuel l : Forall (λ w, w ≠ []) ws → length l ≤ fuel →
  find_map (λ w, Config.strip_prefix w (trim_front ws fuel l)) ws = None ∧ ∃ l0, l = l0 ++ trim_front ws fuel l.
Proof.
  intros Hws. revert l. induction fuel as [|fuel IH]; intros l Hl; cbn [trim_front].
  - destruct l; [|cbn in Hl; lia]. split; [|by exists []]. apply find_map_None. eapply Forall_impl; [exact Hws|]. by intros [|].
  - destruct (find_map (λ w, Config.strip_prefix w l) ws) as [l'|] eqn:Hf; [|split; [done|by exists []]].
    apply find_map_Some in Hf as (w1 & w & w2 & -> & Hs%strip_prefix_app & _).
    assert (w ≠ []) as Hw by (rewrite Forall_app, Forall_cons in Hws; tauto).
    assert (length l' ≤ fuel) as Hl' by (subst l; rewrite length_app in Hl; destruct w; [done|cbn in Hl; lia]).
    destruct (IH l' Hl') as [Hn [l0 Hl0]]. split; [exact Hn|]. exists (w ++ l0). by rewrite <-app_assoc, <-Hl0.
Qed.
Lemma trim_front_none ws fuel l : find_map (λ w, Config.strip_prefix w l) ws = None → trim_front ws fuel l = l.
Proof. intros Hn. destruct fuel; [done|]. cbn. by rewrite Hn. Qed.

Lemma whitespace_nonempty : Forall (λ w, w ≠ []) whitespace ∧ Forall (λ w, w ≠ []) (reverse <$> whitespace).
Proof. split; repeat constructor; discriminate. Qed.

Lemma trim_list_idem l : trim_list (trim_list l) = trim_list l.
Proof.
  destruct whitespace_nonempty as [Hw Hr]. unfold trim_list. set (a := trim_front whitespace (length l) l).
  destruct (trim_front_ends whitespace (length l) l Hw (Nat.le_refl _)) as [Ha _]. fold a in Ha.
  destruct (trim_front_ends (reverse <$> whitespace) (length a) (reverse a) Hr) as [Hb [x Hx]]; [by rewrite length_reverse|].
  set (b := trim_front (reverse <$> whitespace) (length a) (reverse a)) in *.
  assert (a = reverse b ++ reverse x) as Hab by (by rewrite <-reverse_app, <-Hx, reverse_involutive).
  rewrite (trim_front_none whitespace).
  - by rewrite reverse_involutive, trim_front_none.
  - apply find_map_None. rewrite find_map_None in Ha. eapply Forall_impl; [exact Ha|]. intros w Hn.
    destruct (Config.strip_prefix w (reverse b)) as [r|] eqn:Hs; [|done]. apply strip_prefix_app in Hs.
    assert (Config.strip_prefix w a = Some (r ++ reverse x)) as Hc by (apply strip_prefix_app; by rewrite Hab, Hs, app_assoc). cbv beta in Hn. congruence.
Qed.
Lemma trim_idem s : trim (trim s) = trim s.
Proof. unfold trim, ascii_list, of_ascii_list. by rewrite String.list_ascii_of_string_of_list_ascii, trim_list_idem. Qed.

(** *** What is set *)

Lemma is_set_env key s s' : wz_env s' = wz_env s → is_set key s' = is_set key s.
Proof. intros E. unfold is_set. by rewrite E. Qed.
Lemma is_set_insert key k v s : is_set key (s <| wz_env := <[k := v]> (wz_env s) |>) =
  if bool_decide (key = k) then negb (bool_decide (trim v = "")) else is_set key s.
Proof.
  unfold is_set. destruct s as [env fs lk inp log]. cbn. unfold constant.
  case_bool_decide as Hk; [subst; by rewrite lookup_insert_eq|by rewrite lookup_insert_ne].
Qed.

Definition required (key : string) : Prop := key ∈ rv_key <$> REQUIRED_VARS.
#[local] Instance required_dec key : Decision (required key).
Proof. unfold required. apply _. Defined.
(** No required variable gets lost. *)
Definition required_kept (s s' : Wizard) : Prop := ∀ key, required key → is_set key s = true → is_set key s' = true.
#[local] Instance required_kept_preorder : PreOrder required_kept.
Proof. split; [by intros s key|]. intros x y z Hx Hy key Hk Hs. by apply Hy, Hx. Qed.
Lemma required_same s s' : wz_env s' = wz_env s → required_kept s s'.
Proof. intros E key _. by rewrite (is_set_env key s s' E). Qed.

Definition good_var (v : RequiredVar) : Prop := ∀ d, suggested_default v = Some d → trim d ≠ "".
Lemma required_good : Forall good_var REQUIRED_VARS.
Proof. repeat constructor; intros d [= <-]; vm_compute; discriminate. Qed.

Section wizard_lemmas.
Context `{Dotenv, Daemons, Entropy, Crypto}.

Lemma read_line_env s : wz_env (read_line s).2 = wz_env s.
Proof. unfold read_line. by destruct (wz_stdin s). Qed.

Lemma prompt_loop_value v fuel s : good_var v →
  wz_env (prompt_loop fuel v s).2 = wz_env s ∧ ∀ value, (prompt_loop fuel v s).1 = Ok value → trim value ≠ "".
Proof.
  intros Hv. revert s. induction fuel as [|fuel IH]; intros s; [done|]. cbn [prompt_loop]. rewrite bind_run.
  pose proof (read_line_env s) as He. destruct (read_line s) as [input s1]. cbn [snd] in He. cbv zeta.
  set (value := if bool_decide (trim input = "") then _ else _). destruct (bool_decide_reflect (value ≠ "")) as [Hne|_].
  - split; [exact He|]. intros x [= <-]. subst value. case_bool_decide; [|by rewrite trim_idem].
    destruct (suggested_default v) as [d|] eqn:Hd; [by apply Hv|done].
  - rewrite <-He. apply IH.
Qed.

Lemma hex_char_plain c : hex_char c = true → plain_char c = true.
Proof.
  unfold hex_char, plain_char. destruct (Ascii.eqb_spec c ",") as [->|_]; [done|]. intros Hc.
  rewrite orb_true_iff, !andb_true_iff, !N.leb_le in Hc. rewrite !andb_true_iff, !N.ltb_lt. cbn. split; [lia|done].
Qed.
Lemma generated_key_set : trim (generate_random_hex 32) ≠ "".
Proof.
  unfold generate_random_hex. set (buf := match urandom 32 with Some b => b | None => _ end).
  assert (length buf = 32) as Hl.
  { subst buf. destruct (urandom 32) eqn:Hu; [by eapply urandom_length|by rewrite length_fmap, length_seq]. }
  destruct (hex_encode_digits buf) as [Hlen Hd]. unfold trim. change ascii_list with as_bytes. rewrite trim_list_plain.
  - intros He. rewrite Hl in Hlen. destruct (as_bytes (hex_encode buf)); [done|]. done.
  - eapply Forall_impl; [exact Hd|]. apply hex_char_plain.
Qed.

(** An answered prompt: nonblank, and the environment as it was. *)
Lemma prompt_value_set v s : good_var v →
  wz_env (prompt_value v s).2 = wz_env s ∧ ∀ value, (prompt_value v s).1 = Ok value → trim value ≠ "".
Proof. intros Hv. unfold prompt_value. by apply prompt_loop_value. Qed.
Lemma prompt_api_key_set s :
  wz_env (prompt_api_key s).2 = wz_env s ∧ ∀ value, (prompt_api_key s).1 = Ok value → trim value ≠ "".
Proof.
  unfold prompt_api_key. rewrite bind_run. pose proof (read_line_env s) as He. destruct (read_line s) as [input s1].
  split; [exact He|]. intros value [= <-]. case_bool_decide; [apply generated_key_set|by rewrite trim_idem].
Qed.

(** Setting a required variable to something nonblank, or any other to anything. *)
Lemma set_collected_set collected key value s : trim value ≠ "" ∨ ¬ required key →
  required_kept s (set_collected collected key value s).2
  ∧ (trim value ≠ "" → ∀ c, (set_collected collected key value s).1 = Ok c → is_set key (set_collected collected key value s).2 = true).
Proof.
  intros Hor. unfold set_collected. destruct (has_nul value); [split; [intros key'; done|done]|]. rewrite bind_run. cbn [modify snd fst].
  split.
  - intros key' Hreq Hs. cbn [mret M_ret snd]. rewrite is_set_insert. case_bool_decide as Hk; [|done]. subst key'.
    destruct Hor as [Hv|Hn]; [by rewrite bool_decide_false|done].
  - intros Hv c _. cbn [mret M_ret snd]. rewrite is_set_insert, bool_decide_true by done. by rewrite bool_decide_false.
Qed.
Lemma set_other collected key value : ¬ required key → steps required_kept (set_collected collected key value).
Proof. intros Hn s. by apply set_collected_set; right. Qed.

Lemma try_run {S A B E} (m : M S (result A E)) (k : A → M S (result B E)) s :
  try_bind m k s = match m s with (Ok a, s1) => k a s1 | (Err e, s1) => (Err e, s1) end.
Proof. unfold try_bind. rewrite bind_run. by destruct (m s) as [[a|e] s1]. Qed.
(** Ask for a value and set it. *)
Lemma ask_and_set (ask : M Wizard (result string ended)) collected key (k : collected_vars → M Wizard (result collected_vars ended)) s :
  wz_env (ask s).2 = wz_env s → (∀ value, (ask s).1 = Ok value → trim value ≠ "") →
  let m := value ←? ask; collected ←? set_collected collected key value; k collected in
  (∃ e, (m s).1 = Err e ∧ required_kept s (m s).2)
  ∨ (∃ c s1, required_kept s s1 ∧ is_set key s1 = true ∧ m s = k c s1).
Proof.
  intros He Hv. cbv zeta. rewrite try_run. destruct (ask s) as [[value|e] s1]; cbn [fst snd] in *;
    [|left; exists e; split; [done|by apply required_same]].
  rewrite try_run. specialize (Hv value eq_refl).
  destruct (set_collected_set collected key value s1) as [Hk Hs]; [by left|].
  assert (required_kept s s1) as Hk1 by (by apply required_same). specialize (Hs Hv).
  destruct (set_collected collected key value s1) as [[c|e] s2]; cbn [fst snd] in *.
  - right. exists c, s2. split; [by etrans|]. split; [by apply (Hs c)|done].
  - left. exists e. split; [done|by etrans].
Qed.

Lemma ask_all_set vars collected s : Forall (λ v, good_var v ∧ required (rv_key v)) vars →
  required_kept s (ask_all vars collected s).2
  ∧ ∀ c, (ask_all vars collected s).1 = Ok c → Forall (λ v, is_set (rv_key v) (ask_all vars collected s).2 = true) vars.
Proof.
  intros Hvars. revert collected s. induction Hvars as [|v vars [Hg Hreq] _ IH]; intros collected s; [split; [intros key _ Hs; exact Hs|intros c _; constructor]|].
  cbn [ask_all]. rewrite bind_run. cbn [gets]. destruct (is_set (rv_key v) s) eqn:Hset.
  - destruct (IH collected s) as [Hk Hall]. split; [exact Hk|]. intros c Hc. constructor; [by apply Hk|by eapply Hall].
  - assert (∀ ask : M Wizard (result string ended), wz_env (ask s).2 = wz_env s → (∀ value, (ask s).1 = Ok value → trim value ≠ "") →
      let m := value ←? ask; collected ←? set_collected collected (rv_key v) value; ask_all vars collected in
      required_kept s (m s).2 ∧ ∀ c, (m s).1 = Ok c → Forall (λ v, is_set (rv_key v) (m s).2 = true) (v :: vars)) as Hask.
    { intros ask He Hv m. destruct (ask_and_set ask collected (rv_key v) (ask_all vars) s He Hv) as [(e & Hm & Hk)|(c & s1 & Hk & Hs & Hm)];
        fold m in Hm |- *; [fold m in Hk; split; [exact Hk|by rewrite Hm]|].
      rewrite Hm. destruct (IH c s1) as [Hk2 Hall]. split; [by etrans|]. intros c' Hc'. constructor; [by apply Hk2|by eapply Hall]. }
    destruct (bool_decide _); apply Hask; first [apply prompt_api_key_set|by apply prompt_value_set].
Qed.

Lemma rpc_kept {A} (m : M csd_log A) : steps required_kept (rpc m).
Proof. intros s. unfold rpc, zoom. destruct (m (wz_csd s)). by apply required_same. Qed.
Lemma read_line_kept : steps required_kept read_line.
Proof. intros s. apply required_same, read_line_env. Qed.
Lemma write_file_kept path contents : steps required_kept (write_file path contents).
Proof. intros s. unfold write_file. case_bool_decide; by apply required_same. Qed.
#[local] Hint Resolve rpc_kept read_line_kept write_file_kept : steps.
Lemma says_yes_kept : steps required_kept says_yes.
Proof. unfold says_yes. peel. Qed.
Lemma write_env_kept c : steps required_kept (write_env_file c).
Proof. unfold write_env_file. peel. Qed.
Lemma patch_env_kept c : steps required_kept (patch_env_file c).
Proof. unfold patch_env_file. peel. Qed.
Lemma not_required_collateral : ¬ required "OPOI_COLLATERAL_TXID" ∧ ¬ required "OPOI_COLLATERAL_VOUT".
Proof. split; apply (bool_decide_unpack _); vm_compute; done. Qed.
Lemma collateral_kept c t v : steps required_kept
  (collected ←? set_collected c "OPOI_COLLATERAL_TXID" t; set_collected collected "OPOI_COLLATERAL_VOUT" v).
Proof. destruct not_required_collateral. apply steps_try; [typeclasses eauto|by apply set_other|intros; by apply set_other]. Qed.
#[local] Hint Resolve says_yes_kept write_env_kept patch_env_kept collateral_kept : steps.
Lemma picker_kept client c : steps required_kept (offer_stake_utxo_picker client c).
Proof. unfold offer_stake_utxo_picker. peel. Qed.
#[local] Hint Resolve picker_kept : steps.
Lemma maybe_picker_kept client p c : steps required_kept (maybe_offer_stake_picker client p c).
Proof. unfold maybe_offer_stake_picker. peel. Qed.

Lemma var_by_key_good key v : var_by_key key = Some v → good_var v.
Proof.
  intros [Hin _]%find_first_Some. pose proof required_good as Hg. rewrite Forall_forall in Hg. by apply Hg.
Qed.
Lemma ask_again_kept keys : ∀ c, steps required_kept (ask_again keys c).
Proof.
  induction keys as [|key keys IH]; intros c s; cbn [ask_again]; [apply required_same; done|].
  destruct (var_by_key key) as [v|] eqn:Hv; [|apply required_same; done].
  destruct (prompt_value_set v s (var_by_key_good _ _ Hv)) as [He Hval].
  destruct (ask_and_set (prompt_value v) c key (ask_again keys) s He Hval) as [(e & _ & Hk)|(c' & s1 & Hk & _ & ->)]; [exact Hk|].
  etrans; [exact Hk|apply IH].
Qed.
#[local] Hint Resolve maybe_picker_kept ask_again_kept : steps.
Lemma connect_loop_kept fuel : ∀ c, steps required_kept (connect_loop fuel c).
Proof.
  induction fuel as [|fuel IH]; intros c; cbn [connect_loop]; [peel|].
  peel.
Qed.
Lemma stake_configured_kept : steps required_kept ensure_stake_configured.
Proof.
  unfold ensure_stake_configured. peel.
Qed.

Lemma run_manual_exits s : (run_manual s).1 = Err (Exited 1).
Proof.
  unfold run_manual. rewrite bind_run. cbn [gets]. rewrite bind_run.
  destruct (wz_files s !! ENV_PATH); [done|]. destruct (wz_files s !! ENV_EXAMPLE_PATH); [|done].
  unfold ignore. rewrite bind_run. by destruct (write_file _ _ s).
Qed.
Lemma run_automatic_set s s' : run_automatic s = (Ok (), s') → Forall (λ v, is_set (rv_key v) s' = true) REQUIRED_VARS.
Proof.
  unfold run_automatic. rewrite try_run. destruct (ask_all_set REQUIRED_VARS [] s) as [_ Hall].
  { pose proof required_good as Hg. rewrite Forall_forall in *. intros v Hv. split; [by apply Hg|]. by apply list_elem_of_fmap_2. }
  destruct (ask_all REQUIRED_VARS [] s) as [[c|e] s1]; cbn [fst snd] in Hall; [|done]. specialize (Hall c eq_refl).
  intros Hrun. match type of Hrun with ?m s1 = _ => assert (steps required_kept m) as Hk end.
  { apply steps_bind; [typeclasses eauto|peel|]. intros n. apply steps_try; [typeclasses eauto|apply connect_loop_kept|]. peel. }
  specialize (Hk s1). rewrite Hrun in Hk. cbn [snd] in Hk. rewrite Forall_forall in *. intros v Hv.
  apply Hk; [by apply list_elem_of_fmap_2|by apply Hall].
Qed.
End wizard_lemmas.

(** *** The file's lines *)

(** The line assigns one of the variables. *)
Definition names (pairs : collected_vars) (line : string) : bool :=
  match key_of_line line with Some k => bool_decide (k ∈ pairs.*1) | None => false end.
Definition storable (kv : string * string) : Prop := "="%char ∉ ascii_list kv.1 ∧ "010"%char ∉ ascii_list kv.1 ∧ clean kv.2.

Lemma key_of_env_line k v : "="%char ∉ ascii_list k → key_of_line (env_line k v) = Some k.
Proof.
  unfold ascii_list. induction k as [|c k IH]; intros Hk; [done|].
  cbn [String.list_ascii_of_string] in Hk. apply not_elem_of_cons in Hk as [Hc Hk].
  change (env_line (String c k) v) with (String c (env_line k v)). cbn [key_of_line]. destruct (Ascii.eqb_spec c "="); [congruence|]. by rewrite (IH Hk).
Qed.
Lemma env_line_clean kv : storable kv → clean (env_line kv.1 kv.2).
Proof.
  destruct kv as [k v]. intros (_ & Hk & Hn & Hl). unfold clean, env_line. cbn [fst snd] in *. rewrite !ascii_app.
  change (ascii_list "=") with ["="%char]. split; [set_solver|].
  destruct (ascii_list v) as [|c l] eqn:Hv; [by rewrite app_nil_r, last_snoc|]. rewrite last_app, last_app.
  destruct (last (c :: l)) eqn:Hc; [congruence|]. by apply last_None in Hc.
Qed.

(** The variable a line assigns, as its place among the pairs. *)
Definition named (pairs : collected_vars) (line : string) : option nat :=
  key_of_line line ≫= λ key, position (λ kv : string * string, bool_decide (kv.1 = key)) pairs.
Lemma named_Some pairs line i : named pairs line = Some i →
  ∃ k v, pairs !! i = Some (k, v) ∧ key_of_line line = Some k ∧ names pairs line = true.
Proof.
  unfold named, names. destruct (key_of_line line) as [key|]; [|done]. cbn. intros ([k v] & Hi & Hk%bool_decide_eq_true)%position_Some.
  cbn in Hk. subst k. exists key, v. split_and!; [done..|]. apply bool_decide_true. apply list_elem_of_fmap.
  exists (key, v). split; [done|]. by eapply list_elem_of_lookup_2.
Qed.
Lemma named_None pairs line : named pairs line = None → names pairs line = false.
Proof.
  unfold named, names. destruct (key_of_line line) as [key|]; [|done]. cbn. intros Hn%position_None.
  apply bool_decide_false. intros ([k v] & -> & Hin)%list_elem_of_fmap. rewrite Forall_forall in Hn. specialize (Hn _ Hin).
  cbn in Hn. by rewrite bool_decide_true in Hn.
Qed.

Definition new_line (pairs : collected_vars) (line : string) : string :=
  match named pairs line ≫= (pairs !!.) with Some (k, v) => env_line k v | None => line end.
Definition appended (pairs : collected_vars) (lines : list string) : list string :=
  omap (λ '(idx, (k, v)), if bool_decide (idx ∈ omap (named pairs) lines) then None else Some (env_line k v))
    (imap (λ (i : nat) (kv : string * string), (i, kv)) pairs).
Lemma patched_lines pairs existing : Forall storable pairs → "013"%char ∉ ascii_list existing →
  str_lines (patched pairs existing) = (new_line pairs <$> str_lines existing) ++ appended pairs (str_lines existing).
Proof.
  intros Hp Hcr.
  change (patched pairs existing) with (unlines ((new_line pairs <$> str_lines existing) ++ appended pairs (str_lines existing))).
  apply lines_unlines. apply Forall_app. rewrite Forall_forall in Hp. split; apply Forall_forall.
  - intros l (x & -> & Hx)%list_elem_of_fmap. unfold new_line. destruct (named pairs x) as [i|] eqn:Hn.
    + destruct (named_Some pairs x i Hn) as (k & v & Hi & _). cbn. rewrite Hi.
      apply (env_line_clean (k, v)), Hp. by eapply list_elem_of_lookup_2.
    + pose proof (lines_clean _ Hcr) as Hc. rewrite Forall_forall in Hc. by apply Hc.
  - intros l ([i [k v]] & Hin & Hl)%list_elem_of_omap. case_bool_decide; [done|]. injection Hl as <-.
    apply (env_line_clean (k, v)), Hp. apply elem_of_lookup_imap in Hin as (j & [k' v'] & [= -> -> ->] & Hj). by eapply list_elem_of_lookup_2.
Qed.
Lemma pairs_functional (pairs : collected_vars) k v v' : NoDup pairs.*1 → (k, v) ∈ pairs → (k, v') ∈ pairs → v = v'.
Proof.
  intros Hnd [i Hi]%list_elem_of_lookup_1 [j Hj]%list_elem_of_lookup_1.
  assert (i = j) as -> by (eapply (NoDup_lookup pairs.*1); [done|by rewrite list_lookup_fmap, Hi|by rewrite list_lookup_fmap, Hj]).
  congruence.
Qed.
Lemma storable_key (pairs : collected_vars) k v : Forall storable pairs → (k, v) ∈ pairs → "="%char ∉ ascii_list k.
Proof. rewrite Forall_forall. intros Hst Hin. by destruct (Hst _ Hin). Qed.
Lemma names_env_line (pairs : collected_vars) k v : Forall storable pairs → (k, v) ∈ pairs → names pairs (env_line k v) = true.
Proof.
  intros Hst Hin. unfold names. rewrite key_of_env_line by (by eapply storable_key). apply bool_decide_true.
  apply list_elem_of_fmap. by exists (k, v).
Qed.
Lemma elem_of_appended (pairs : collected_vars) (lines : list string) l : l ∈ appended pairs lines →
  ∃ i k v, pairs !! i = Some (k, v) ∧ i ∉ omap (named pairs) lines ∧ l = env_line k v.
Proof.
  intros ([i [k v]] & Hin & Hl)%list_elem_of_omap. case_bool_decide as Hi; [done|]. injection Hl as <-.
  apply elem_of_lookup_imap in Hin as (j & [k' v'] & [= -> -> ->] & Hj). by exists j, k', v'.
Qed.
Lemma new_line_named (pairs : collected_vars) l : Forall storable pairs →
  match named pairs l with
  | Some i => ∃ k v, (k, v) ∈ pairs ∧ key_of_line l = Some k ∧ new_line pairs l = env_line k v
  | None => new_line pairs l = l
  end.
Proof.
  intros Hst. unfold new_line. destruct (named pairs l) as [i|] eqn:Hn; [|done]. destruct (named_Some pairs l i Hn) as (k & v & Hi & Hk & _).
  cbn. rewrite Hi. exists k, v. split; [by eapply list_elem_of_lookup_2|done].
Qed.
Lemma filter_new_lines (pairs : collected_vars) (lines : list string) : Forall storable pairs →
  filter (λ l, names pairs l = false) (new_line pairs <$> lines) = filter (λ l, names pairs l = false) lines.
Proof.
  intros Hst. induction lines as [|l lines IH]; [done|]. csimpl. pose proof (new_line_named pairs l Hst) as Hn.
  destruct (named pairs l) as [i|] eqn:Hl.
  - destruct Hn as (k & v & Hin & Hk & ->). destruct (named_Some pairs l i Hl) as (_ & _ & _ & _ & Hb).
    rewrite !filter_cons_False; [done|by rewrite Hb|by rewrite (names_env_line pairs k v)].
  - rewrite Hn. apply named_None in Hl. by rewrite !filter_cons_True, IH.
Qed.
Lemma filter_appended (pairs : collected_vars) (lines : list string) : Forall storable pairs → filter (λ l, names pairs l = false) (appended pairs lines) = [].
Proof.
  intros Hst. apply elem_of_nil_inv. intros l [Hl Hin]%list_elem_of_filter.
  apply elem_of_appended in Hin as (i & k & v & Hi & _ & ->). rewrite (names_env_line pairs k v) in Hl; [done|done|].
  by eapply list_elem_of_lookup_2.
Qed.
Lemma saved_line (pairs : collected_vars) (lines : list string) k v : NoDup pairs.*1 → Forall storable pairs → (k, v) ∈ pairs →
  env_line k v ∈ (new_line pairs <$> lines) ++ appended pairs lines.
Proof.
  intros Hnd Hst Hin. apply elem_of_app. destruct (list_elem_of_lookup_1 _ _ Hin) as [i Hi].
  destruct (decide (i ∈ omap (named pairs) lines)) as [Ha|Ha].
  - left. apply list_elem_of_omap in Ha as (l & Hl & Hn). apply list_elem_of_fmap. exists l. split; [|done].
    unfold new_line, collected_vars in *. rewrite Hn. cbn. by rewrite Hi.
  - right. apply list_elem_of_omap. exists (i, (k, v)). split; [|by rewrite bool_decide_false].
    apply elem_of_lookup_imap. by exists i, (k, v).
Qed.
Lemma new_line_value (pairs : collected_vars) k v l : NoDup pairs.*1 → Forall storable pairs → (k, v) ∈ pairs →
  key_of_line (new_line pairs l) = Some k → new_line pairs l = env_line k v.
Proof.
  intros Hnd Hst Hin. pose proof (new_line_named pairs l Hst) as Hn. destruct (named pairs l) as [i|] eqn:Hl.
  - destruct Hn as (k' & v' & Hin' & Hk & ->). rewrite key_of_env_line by (by eapply storable_key). intros [= ->].
    f_equal. by eapply pairs_functional.
  - rewrite Hn. intros Hk. apply named_None in Hl. unfold names in Hl. rewrite Hk in Hl. apply bool_decide_eq_false in Hl.
    destruct Hl. apply list_elem_of_fmap. by exists (k, v).
Qed.
Lemma appended_value (pairs : collected_vars) (lines : list string) k v l : NoDup pairs.*1 → Forall storable pairs → (k, v) ∈ pairs →
  l ∈ appended pairs lines → key_of_line l = Some k → l = env_line k v.
Proof.
  intros Hnd Hst Hin (i & k' & v' & Hi & _ & ->)%elem_of_appended. apply list_elem_of_lookup_2 in Hi.
  rewrite key_of_env_line by (by eapply storable_key). intros [= ->]. f_equal. by eapply pairs_functional.
Qed.
(** *** The loops *)

Section loops.
Context `{Dotenv, Daemons, Entropy, Crypto}.

(** The input never grows back. *)
Definition reads_on (s s' : Wizard) : Prop := length (wz_stdin s') ≤ length (wz_stdin s).
#[local] Instance reads_on_preorder : PreOrder reads_on.
Proof. unfold reads_on. split; [by intros s|]. intros x y z Hx Hy. lia. Qed.
Lemma read_line_on : steps reads_on read_line.
Proof. intros s. unfold reads_on, read_line. destruct (wz_stdin s) as [|l rest] eqn:E; cbn [snd]; [by rewrite E|]. cbn. unfold constant. lia. Qed.
Lemma rpc_on {A} (m : M csd_log A) : steps reads_on (rpc m).
Proof. intros s. unfold rpc, zoom, reads_on. by destruct (m (wz_csd s)). Qed.
Lemma set_collected_on c k v : steps reads_on (set_collected c k v).
Proof. intros s. unfold set_collected, reads_on. by destruct (has_nul v). Qed.
#[local] Hint Resolve read_line_on rpc_on set_collected_on : steps.
Lemma prompt_loop_on v fuel : steps reads_on (prompt_loop fuel v).
Proof. induction fuel as [|fuel IH]; cbn [prompt_loop]; peel. Qed.
Lemma prompt_value_on v : steps reads_on (prompt_value v).
Proof. intros s. unfold prompt_value. apply prompt_loop_on. Qed.
#[local] Hint Resolve prompt_value_on : steps.
Lemma ask_again_on keys : ∀ c, steps reads_on (ask_again keys c).
Proof. induction keys as [|key keys IH]; intros c; cbn [ask_again]; peel. Qed.

(** A turn of the connection loop that goes on has used a line up, so the fuel
    given is always enough: more does not change the run. *)
Lemma connect_loop_fuel n : ∀ m c s, length (wz_stdin s) < n → n ≤ m → connect_loop m c s = connect_loop n c s.
Proof.
  induction n as [|n IH]; intros m c s Hlt Hle; [lia|]. destruct m as [|m]; [lia|]. cbn [connect_loop].
  rewrite !bind_run. cbn [gets]. rewrite !bind_run. pose proof (rpc_on (get_chain_height (H := new_client s)) s) as Hr.
  destruct (rpc _ s) as [[h|e] s1]; [done|]. unfold reads_on in Hr. cbn [snd] in Hr. rewrite !bind_run.
  unfold says_yes. rewrite !bind_run. unfold read_line. destruct (wz_stdin s1) as [|l rest] eqn:Hin; cbn [mret M_ret].
  - change (eq_ignore_ascii_case (trim "") "y") with false. done.
  - cbn [length] in Hr. destruct (eq_ignore_ascii_case _ _); [|done]. rewrite !try_run.
    set (s2 := s1 <| wz_stdin := rest |>). pose proof (ask_again_on ["CSD_RPC_URL"; "CSD_RPC_USER"; "CSD_RPC_PASS"] c s2) as Ha.
    destruct (ask_again _ c s2) as [[c'|e'] s3]; [|done]. unfold reads_on in Ha.
    change (wz_stdin s2) with rest in Ha. cbn [snd] in Ha. apply IH; lia.
Qed.

Definition blank_line (l : string) : bool := bool_decide (trim (trim_end_eol l) = "").
Lemma prompt_answered v s : existsb (λ l, negb (blank_line l)) (wz_stdin s) = true → ∃ value, (prompt_value v s).1 = Ok value.
Proof.
  unfold prompt_value. remember (wz_stdin s) as inp eqn:Hin. revert s Hin. induction inp as [|l inp IH]; intros s Hin; [done|].
  cbn [existsb length]. intros Hex. cbn [prompt_loop]. rewrite bind_run. unfold read_line at 1. rewrite <-Hin. cbv zeta.
  unfold blank_line in Hex. destruct (bool_decide_reflect (trim (trim_end_eol l) = "")) as [Hb|Hb].
  - case_bool_decide; [by eexists|]. by apply IH.
  - rewrite bool_decide_true by done. by eexists.
Qed.
Lemma prompt_at_end v fuel s : default "" (suggested_default v) = "" → existsb (λ l, negb (blank_line l)) (wz_stdin s) = false →
  (prompt_loop fuel v s).1 = Err NeverEnds.
Proof.
  intros Hd. revert s. induction fuel as [|fuel IH]; intros s Hex; [done|]. cbn [prompt_loop]. rewrite bind_run. cbv zeta.
  assert (∃ l s1, read_line s = (l, s1) ∧ trim l = "" ∧ existsb (λ l, negb (blank_line l)) (wz_stdin s1) = false) as (l & s1 & -> & Hl & Hex').
  { unfold read_line. destruct (wz_stdin s) as [|l rest] eqn:Hin; [exists "", s; by rewrite Hin|].
    cbn [existsb] in Hex. apply orb_false_iff in Hex as [Hb Hr]. apply negb_false_iff, bool_decide_eq_true in Hb. by eexists _, _. }
  rewrite (bool_decide_true (trim l = "")) by done. rewrite Hd, bool_decide_false by (by intros []). by apply IH.
Qed.
End loops.

(** ** Properties *)

Section properties.
Context `{Dotenv, Daemons, Entropy, Crypto}.

Lemma configured_vars s s' : ensure_configured s = (Ok (), s') → Forall (λ v, is_set (rv_key v) s' = true) REQUIRED_VARS.
Proof.
  unfold ensure_configured. rewrite bind_run. cbn [modify]. rewrite bind_run. cbn [gets]. set (s1 := load_dotenv s).
  destruct (bool_decide_reflect (filter (λ v, is_set (rv_key v) s1 = false) REQUIRED_VARS = [])) as [Hm|_].
  - intros Hrun. pose proof (stake_configured_kept s1) as Hk. rewrite Hrun in Hk. cbn [snd] in Hk.
    rewrite Forall_forall. intros v Hv. apply Hk; [by apply list_elem_of_fmap_2|].
    destruct (is_set (rv_key v) s1) eqn:Hs; [done|]. assert (v ∈ []) as []%not_elem_of_nil. rewrite <-Hm. by apply list_elem_of_filter.
  - rewrite bind_run. destruct (read_line s1) as [input s2]. case_bool_decide; [apply run_automatic_set|].
    intros Hrun. pose proof (run_manual_exits s2) as He. by rewrite Hrun in He.
Qed.

(** The wizard closes the gap it is there for: whenever it lets the process go
    on - whatever was configured, is typed in, or the daemon answers - every
    variable the configuration requires is set to something that is not blank. *)
Theorem wizard_configures (s s' : Wizard) :
  ensure_configured s = (Ok (), s') → Forall (λ v, is_set (rv_key v) s' = true) REQUIRED_VARS.
Proof. apply configured_vars. Qed.

(** C27. Saving the stake's collateral disturbs nothing else: in the patched [.env]
    the lines of all other variables, and the comments, are the ones that were
    there, in their order; every saved variable is there and reads back, on each of
    its lines, as the value that was saved. *)
Theorem patch_env_roundtrip (pairs : collected_vars) (existing : string) :
  NoDup pairs.*1 → Forall storable pairs → "013"%char ∉ ascii_list existing →
  let before := str_lines existing in
  let after := str_lines (patched pairs existing) in
  filter (λ l, names pairs l = false) after = filter (λ l, names pairs l = false) before
  ∧ ∀ k v, (k, v) ∈ pairs → env_line k v ∈ after ∧ Forall (λ l, key_of_line l = Some k → l = env_line k v) after.
Proof.
  intros Hnd Hst Hcr. cbv zeta. rewrite (patched_lines pairs existing Hst Hcr). set (lines := str_lines existing). split.
  - rewrite filter_app. rewrite (filter_appended pairs lines Hst), app_nil_r. by apply filter_new_lines.
  - intros k v Hkv. split; [by apply saved_line|]. apply Forall_app. split; apply Forall_forall.
    + intros l (x & -> & Hx)%list_elem_of_fmap. by apply new_line_value.
    + intros l Hl. by eapply appended_value.
Qed.

(** A prompt ends exactly when it can be answered: when there is a default, or
    some line to come is not blank.  Otherwise no amount of turns ends it: at the
    end of the input the wizard asks forever. *)
Theorem prompt_value_ends (v : RequiredVar) (s : Wizard) :
  let answerable := negb (bool_decide (default "" (suggested_default v) = "")) || existsb (λ l, negb (blank_line l)) (wz_stdin s) in
  if answerable then ∃ value, (prompt_value v s).1 = Ok value
  else ∀ fuel, (prompt_loop fuel v s).1 = Err NeverEnds.
Proof.
  cbv zeta. destruct (bool_decide_reflect (default "" (suggested_default v) = "")) as [Hd|Hd]; cbn [negb orb].
  - destruct (existsb _ _) eqn:Hex; [by apply prompt_answered|]. intros fuel. by apply prompt_at_end.
  - unfold prompt_value. cbn [prompt_loop]. rewrite bind_run. destruct (read_line s) as [l s1]. cbv zeta.
    destruct (bool_decide_reflect (trim l = "")); (rewrite bool_decide_true by done); by eexists.
Qed.
End properties.

(** ** Witnesses and examples *)

Section examples.
#[local] Instance file_dotenv : Dotenv := {|
  dotenv_pairs := λ files, match files !! ENV_PATH with
                           | Some s => omap (λ l, k ← key_of_line l; Some (k, String.substring (S (String.length k)) (String.length l) l)) (str_lines s)
                           | None => [] end |}.
#[local] Instance one_daemon : Daemons := {| csd_at := λ _ _ _, {|
  csd_post := λ _ m _, if bool_decide (m = "getinfo") then Body (Object [("result", Object [("blocks", u 5)]); ("error", Null)])
                       else Body (Object [("result", Null); ("error", Str "no stake")]);
  print_json := λ _, ""; decode_error := λ _, "" |} |}.
Lemma zeros_length n b : Some (replicate n Ascii.zero) = Some b → length b = n.
Proof. intros [= <-]. apply length_replicate. Qed.
#[local] Instance no_entropy : Entropy := {| urandom := λ n, Some (replicate n Ascii.zero); nanos := 0; urandom_length := zeros_length |}.
Existing Instance toy_crypto.

(** Everything but the API key is in [.env]; the operator presses Enter for it. *)
Definition five_set : string := unlines
  ["UPSTREAM_POOL_ADDR=pool:3333"; "CSD_RPC_URL=http://d"; "CSD_RPC_USER=u"; "CSD_RPC_PASS=p"; "OPOI_ADDRESSES=a"].
Definition example_file : string := unlines ["# example"; "UPSTREAM_POOL_ADDR=127.0.0.1:3332"; "OPOI_REQUESTER_API_KEY="].
Definition incomplete : Wizard := mkWizard ∅ {[ENV_PATH := five_set; ENV_EXAMPLE_PATH := example_file]} ∅ ["2"; "key"] [].

Lemma wizard_configures_witness :
  match ensure_configured incomplete with
  | (Ok (), s') => is_set "OPOI_REQUESTER_API_KEY" s' = true
  | _ => False
  end.
Proof.
  destruct (ensure_configured incomplete) as [[[]|e] s'] eqn:Hrun; [|vm_compute in Hrun; discriminate].
  pose proof (wizard_configures incomplete s' Hrun) as Hall. rewrite Forall_forall in Hall.
  apply (Hall (mkRequiredVar "OPOI_REQUESTER_API_KEY" None)). repeat (first [by left|right]).
Defined.

(** The automatic way rewrites [.env] from the example with only what was asked:
    the variables the operator had set there are gone. *)
Lemma regenerated_env_loses_values :
  let s' := (ensure_configured incomplete).2 in
  (ensure_configured incomplete).1 = Ok ()
  ∧ str_lines (default "" (wz_files s' !! ENV_PATH)) = ["# example"; "UPSTREAM_POOL_ADDR=127.0.0.1:3332"; "OPOI_REQUESTER_API_KEY=key"].
Proof. vm_compute. done. Qed.

Lemma patch_env_roundtrip_witness :
  let after := str_lines (patched [("OPOI_COLLATERAL_TXID", "aa"); ("OPOI_COLLATERAL_VOUT", "1")] (unlines ["# c"; "OPOI_COLLATERAL_TXID="; "X=1"])) in
  filter (λ l, names [("OPOI_COLLATERAL_TXID", "aa"); ("OPOI_COLLATERAL_VOUT", "1")] l = false) after = ["# c"; "X=1"]
  ∧ "OPOI_COLLATERAL_VOUT=1" ∈ after.
Proof.
  destruct (patch_env_roundtrip [("OPOI_COLLATERAL_TXID", "aa"); ("OPOI_COLLATERAL_VOUT", "1")]
    (unlines ["# c"; "OPOI_COLLATERAL_TXID="; "X=1"])) as [Hf Hv].
  - apply (bool_decide_unpack _). vm_compute. exact I.
  - repeat constructor; apply (bool_decide_unpack _); vm_compute; exact I.
  - apply (bool_decide_unpack _). vm_compute. exact I.
  - split; [rewrite Hf; vm_compute; exact eq_refl|]. apply (Hv "OPOI_COLLATERAL_VOUT" "1"). right. left.
Defined.
End examples.
