(* ===== verification/Main.v ===== *)
(** * The process ([src/main.rs])

    From the first line of [main] to the point where the loops run: the wizard,
    the configuration, the stake pool, the database (the operator's own, or an
    embedded PostgreSQL this process sets up), the migrations and the start-up
    sequence of Bridge.  Each step that fails ends the process.

    clap, sqlx and postgresql_embedded are outside the repository: [Clap],
    [Sql] and [EmbeddedPg] are what [main] relies on. *)

From S2P Require Import MinerRegistry StakePool Config OpoiEngine ModelSource Speculative Ledger Kept SetupWizard.
From S2P Require Export Composition.

(** [Config::parse]: a missing or malformed variable ends the process. *)
Class Clap := { parse_config : gmap string string → option Config }.

(** [postgresql_embedded::Settings]; the other fields are the crate's defaults. *)
Record Settings := mkSettings {
  st_data_dir : string;
  st_port : N;
  st_password_file : string;
  st_password : string;
  st_temporary : bool
}.

(** The host the server runs on, with the files of the process.  [pg_role] is the
    password the superuser's role of a data directory was created with, [None]
    when the directory is not initialised: only the first [setup] creates the
    role, writing the password to [password_file]. *)
Class EmbeddedPg := {
  pg_host : Type;
  pg_role : pg_host → string → option string;
  pg_setup : Settings → M (pg_host * gmap string string) (result () string);
  pg_start : Settings → M (pg_host * gmap string string) (result () string);
  pg_database_exists : Settings → string → M (pg_host * gmap string string) (result bool string);
  pg_create_database : Settings → string → M (pg_host * gmap string string) (result () string);
  pg_url : Settings → string → string;
  pg_setup_first : ∀ st h fs s', pg_role h (st_data_dir st) = None → pg_setup st (h, fs) = (Ok (), s') →
    pg_role s'.1 (st_data_dir st) = Some (st_password st) ∧ s'.2 !! st_password_file st = Some (st_password st);
  pg_setup_again : ∀ st h fs pw r s', pg_role h (st_data_dir st) = Some pw → pg_setup st (h, fs) = (r, s') →
    pg_role s'.1 (st_data_dir st) = Some pw ∧ s'.2 !! st_password_file st = fs !! st_password_file st;
  pg_start_keeps : ∀ st s, pg_role (pg_start st s).2.1 = pg_role s.1 ∧ (pg_start st s).2.2 = s.2;
  pg_exists_keeps : ∀ st n s, pg_role (pg_database_exists st n s).2.1 = pg_role s.1 ∧ (pg_database_exists st n s).2.2 = s.2;
  pg_create_keeps : ∀ st n s, pg_role (pg_create_database st n s).2.1 = pg_role s.1 ∧ (pg_create_database st n s).2.2 = s.2
}.

(** Connecting to a database, and running [./migrations] on it. *)
Class Sql `{EmbeddedPg} := {
  open_database : string → pg_host → result Database string;
  migrated : Database → result Database string
}.

Definition DB_NAME : string := "cs_stratum_bridge".

(** The password the files hold for this data directory; an empty file counts as
    a missing one.  [fresh] is a new random UUID. *)
Definition embedded_settings (cfg : Config) (fresh : string) (files : gmap string string) : Settings :=
  let password_file := embedded_db_data_dir cfg +:+ ".pgpass" in
  let existing := trim (default "" (files !! password_file)) in
  mkSettings (embedded_db_data_dir cfg) (embedded_db_port cfg) password_file
    (if bool_decide (existing = "") then fresh else existing) false.

Section connect.
Context `{EmbeddedPg}.
Notation HostM := (M (pg_host * gmap string string)).

(** The connection string of this run. *)
Definition database_address (cfg : Config) (fresh : string) : HostM (result string string) :=
  match database_url cfg with
  | Some url => mret (Ok url)
  | None =>
    settings ← gets (λ s, embedded_settings cfg fresh s.2);
    _ ←? pg_setup settings;
    _ ←? pg_start settings;
    exists_already ←? pg_database_exists settings DB_NAME;
    _ ←? (if (exists_already : bool) then mret (Ok ()) else pg_create_database settings DB_NAME);
    mret (Ok (pg_url settings DB_NAME))
  end.
End connect.

(** How the process can end before the loops run; [Serving] is the bridge they run on. *)
Inductive main_end : Type :=
| Ended (e : ended)
| UsageError
| NoAddress
| NoDatabase (e : string)
| StartFailed (e : AppError)
| Serving (b : Bridge).

Section main.
Context `{Dotenv, Daemons, Entropy, Crypto, Clap, EmbeddedPg, !Sql, RowOrder, Schedule, DisplayF64}.

Definition Host : Type := Wizard * pg_host.
Definition on_wizard {A} (m : M Wizard A) : M Host A := λ h, let '(a, w) := m h.1 in (a, (w, h.2)).
(** The server works on the files of the process. *)
Definition on_server {A} (m : M (pg_host * gmap string string) A) : M Host A := λ h,
  let '(a, s) := m (h.2, wz_files h.1) in (a, (h.1 <| wz_files := s.2 |>, s.1)).

(** [Config::load] *)
Definition load : M Host (option Config) :=
  _ ← on_wizard (modify load_dotenv);
  gets (λ h, parse_config (wz_env h.1)).
Definition daemon (cfg : Config) : Csd := csd_at (csd_rpc_url cfg) (csd_rpc_user cfg) (csd_rpc_pass cfg).

Definition main (fresh : string) (sources audit_sources : ModelSourceConfig) (drafts : gmap string DraftModelSource) (now : N)
    : M Host main_end :=
  configured ← on_wizard ensure_configured;
  match configured with
  | Err e => mret (Ended e)
  | Ok () =>
    parsed ← load;
    match parsed with
    | None => mret UsageError
    | Some cfg =>
      match new_stake_pool (opoi_address_list cfg) with
      | None => mret NoAddress
      | Some _ =>
        url ← on_server (database_address cfg fresh);
        match url with
        | Err e => mret (NoDatabase e)
        | Ok url =>
          opened ← gets (λ h, open_database url h.2);
          match opened with
          | Err e => mret (NoDatabase e)
          | Ok db0 =>
            match migrated db0 with
            | Err e => mret (NoDatabase e)
            | Ok db =>
              log ← gets (λ h, wz_csd h.1);
              match initial cfg (mkWorld log db new_registry (mkNet ∅ [])) sources audit_sources drafts now with
              | None => mret NoAddress
              | Some b0 =>
                let '(r, b) := startup (H := daemon cfg) b0 in
                mret (match r with Ok () => Serving b | Err e => StartFailed e end)
              end
            end
          end
        end
      end
    end
  end.
End main.

(** ** Lemmas *)

(** What is chosen is never blank, and is chosen again when it is the only one. *)
Lemma chosen_password cfg fresh fs : trim fresh = fresh → fresh ≠ "" → let st := embedded_settings cfg fresh fs in
  trim (st_password st) = st_password st ∧ st_password st ≠ "" ∧ embedded_settings cfg (st_password st) ∅ = st.
Proof.
  intros Ht Hne. unfold embedded_settings. rewrite lookup_empty. cbn [st_password].
  set (old := trim (default "" (fs !! (embedded_db_data_dir cfg +:+ ".pgpass")))). split_and!.
  - case_bool_decide; [done|]. apply trim_idem.
  - by case_bool_decide.
  - by rewrite (bool_decide_true (trim (default "" None) = "")).
Qed.

(** The password pinned for a data directory: the role's, and in its file. *)
Definition pinned `{EmbeddedPg} (cfg : Config) (pw : string) (s : pg_host * gmap string string) : Prop :=
  pg_role s.1 (embedded_db_data_dir cfg) = Some pw ∧ s.2 !! (embedded_db_data_dir cfg +:+ ".pgpass") = Some pw.

Section address.
Context `{EmbeddedPg}.

(** Once it is set up, the server's later calls leave role and file alone. *)
Lemma after_setup (cfg : Config) (st : Settings) s url s' :
  (_ ←? pg_start st; exists_already ←? pg_database_exists st DB_NAME;
   _ ←? (if (exists_already : bool) then mret (Ok ()) else pg_create_database st DB_NAME);
   mret (Ok (pg_url st DB_NAME))) s = (Ok url, s') →
  url = pg_url st DB_NAME ∧ pg_role s'.1 = pg_role s.1 ∧ s'.2 = s.2.
Proof.
  rewrite try_run. pose proof (pg_start_keeps st s) as [Hr Hf]. destruct (pg_start st s) as [[[]|e] s1]; [|done]. cbn [snd] in *.
  rewrite try_run. pose proof (pg_exists_keeps st DB_NAME s1) as [Hr1 Hf1]. destruct (pg_database_exists st DB_NAME s1) as [[[]|e] s2]; [..|done]; cbn [snd] in *.
  - cbn. intros [= <- <-]. split_and!; congruence.
  - rewrite try_run. pose proof (pg_create_keeps st DB_NAME s2) as [Hr2 Hf2]. destruct (pg_create_database st DB_NAME s2) as [[[]|e] s3]; [|done].
    cbn. intros [= <- <-]. cbn [snd] in *. split_and!; congruence.
Qed.
Lemma address_run cfg fresh s url s' : database_url cfg = None → database_address cfg fresh s = (Ok url, s') →
  let st := embedded_settings cfg fresh s.2 in
  ∃ s1, pg_setup st s = (Ok (), s1) ∧ url = pg_url st DB_NAME ∧ pg_role s'.1 = pg_role s1.1 ∧ s'.2 = s1.2.
Proof.
  intros Hu. unfold database_address. rewrite Hu, bind_run. cbn [gets]. cbv zeta. set (st := embedded_settings cfg fresh s.2).
  rewrite try_run. destruct (pg_setup st s) as [[[]|e] s1]; [|done]. intros Hr. exists s1. split; [done|]. by apply (after_setup cfg).
Qed.
Lemma first_address cfg fresh h fs url s' : database_url cfg = None → pg_role h (embedded_db_data_dir cfg) = None →
  database_address cfg fresh (h, fs) = (Ok url, s') →
  let st := embedded_settings cfg fresh fs in
  url = pg_url st DB_NAME ∧ pinned cfg (st_password st) s'.
Proof.
  intros Hu Hr (s1 & Hs & -> & Hr1 & Hf1)%address_run; [|done]. split; [done|]. cbn [snd] in Hs.
  destruct (pg_setup_first (embedded_settings cfg fresh fs) h fs s1 Hr Hs) as [Hp Hf]. split; [by rewrite Hr1|by rewrite Hf1].
Qed.
Lemma later_address cfg fresh s url s' pw : database_url cfg = None → trim pw = pw → pw ≠ "" → pinned cfg pw s →
  database_address cfg fresh s = (Ok url, s') →
  url = pg_url (embedded_settings cfg pw ∅) DB_NAME ∧ pinned cfg pw s'.
Proof.
  intros Hu Ht Hne [Hr Hf] (s1 & Hs & -> & Hr1 & Hf1)%address_run; [|done].
  assert (embedded_settings cfg fresh s.2 = embedded_settings cfg pw ∅) as E.
  { unfold embedded_settings. rewrite Hf, lookup_empty. cbn [from_option]. unfold id. rewrite Ht.
    change (trim "") with "". by rewrite bool_decide_false. }
  rewrite E in *. split; [done|]. destruct s as [h fs].
  destruct (pg_setup_again (embedded_settings cfg pw ∅) h fs pw (Ok ()) s1 Hr Hs) as [Hp Hf']. split; [by rewrite Hr1|rewrite Hf1; by etrans].
Qed.
End address.

(** ** Properties *)

(** A restart connects with the password the database was created with: the role's
    password is the one in its file after the first run, and a later run - with
    any freshly drawn password, on any files and host that still hold that one -
    builds the same connection string and leaves both alone. *)
Theorem restart_reuses_password `{EmbeddedPg} (cfg : Config) (fresh fresh' : string) (h : pg_host) (fs : gmap string string) (url url' : string)
    (s1 s2 s3 : pg_host * gmap string string) :
  database_url cfg = None → pg_role h (embedded_db_data_dir cfg) = None → trim fresh = fresh → fresh ≠ "" →
  database_address cfg fresh (h, fs) = (Ok url, s1) →
  let pw := st_password (embedded_settings cfg fresh fs) in
  pinned cfg pw s1
  ∧ (pinned cfg pw s2 → database_address cfg fresh' s2 = (Ok url', s3) → url' = url ∧ pinned cfg pw s3).
Proof.
  intros Hu Hr Ht Hne Hfirst pw. destruct (first_address _ _ _ _ _ _ Hu Hr Hfirst) as [-> Hp]. split; [done|]. intros Hp2 Hsecond.
  destruct (chosen_password cfg fresh fs Ht Hne) as (Htp & Hnp & E).
  destruct (later_address _ _ _ _ _ _ Hu Htp Hnp Hp2 Hsecond) as [-> Hp3]. by rewrite E.
Qed.

Section process.
Context `{Dotenv, Daemons, Entropy, Crypto, Clap, EmbeddedPg, !Sql, RowOrder, Schedule, DisplayF64}.

(** The start-up works on the shared world alone. *)
Definition world_only (b b' : Bridge) : Prop := b' = b <| br_world := br_world b' |>.
#[local] Instance world_only_preorder : PreOrder world_only.
Proof. split; [by intros []|]. unfold world_only. intros x y z -> ->. reflexivity. Qed.
Lemma in_shared_world {A} (m : M World A) : steps world_only (in_shared m).
Proof. apply steps_zoom. by intros []. Qed.
#[local] Hint Resolve in_shared_world : steps.
Lemma startup_world `{Csd} : steps world_only startup.
Proof. unfold startup. peel. Qed.
Lemma startup_reached `{Csd} b b' : startup b = (Ok (), b') → ∃ height, (get_chain_height (w_csd (br_world b))).1 = Ok height.
Proof.
  unfold startup. rewrite bind_run. cbn [gets]. rewrite bind_run. cbn [gets]. rewrite try_run. unfold in_shared at 1, csd, zoom. cbn [world_of bridge_world].
  destruct (get_chain_height (w_csd (br_world b))) as [[height|e] l]; [by eexists|done].
Qed.

Definition startable (h : Host) : Prop := ∀ url db0 db, open_database url h.2 = Ok db0 → migrated db0 = Ok db → db_wf db ∧ paid_ok db.

(** What a run that gets as far as the loops has done. *)
Lemma main_run fresh srcs asrcs drafts now h h' b : main fresh srcs asrcs drafts now h = (Serving b, h') →
  ∃ w1 cfg db0 url db b0,
    ensure_configured h.1 = (Ok (), w1)
    ∧ wz_env h'.1 = wz_env (load_dotenv w1) ∧ parse_config (wz_env h'.1) = Some cfg
    ∧ open_database url h'.2 = Ok db0 ∧ migrated db0 = Ok db
    ∧ initial cfg (mkWorld (wz_csd h'.1) db new_registry (mkNet ∅ [])) srcs asrcs drafts now = Some b0
    ∧ startup (H := daemon cfg) b0 = (Ok (), b).
Proof.
  unfold main. rewrite bind_run. unfold on_wizard at 1. destruct (ensure_configured h.1) as [[[]|e] w1] eqn:Hc; [|done].
  rewrite bind_run. unfold load. rewrite bind_run. cbn [on_wizard modify gets fst snd]. set (w2 := load_dotenv w1).
  destruct (parse_config (wz_env w2)) as [cfg|] eqn:Hp; [|done]. destruct (new_stake_pool _) as [pool|]; [|done].
  rewrite bind_run. unfold on_server. destruct (database_address cfg fresh _) as [[url|e] s3]; [|done].
  set (h3 := ((w2, h.2).1 <| wz_files := s3.2 |>, s3.1)). rewrite bind_run. cbn [gets].
  destruct (open_database url h3.2) as [db0|e] eqn:Ho; [|done]. destruct (migrated db0) as [db|e] eqn:Hm; [|done].
  rewrite bind_run. cbn [gets]. destruct (initial _ _ _ _ _ _) as [b0|] eqn:Hi; [|done].
  destruct (startup b0) as [[[]|e] b1] eqn:Hs; [|done]. intros [= <- <-]. exists w1, cfg, db0, url, db, b0. by split_and!.
Qed.
Lemma load_dotenv_set key s : is_set key s = true → is_set key (load_dotenv s) = true.
Proof.
  unfold load_dotenv, is_set. cbn. unfold constant. generalize (wz_env s) as env, (dotenv_pairs (wz_files s)) as l.
  intros env l. revert env. induction l as [|[k v] l IH]; intros env Hs; [done|]. cbn [fold_left fst snd]. apply IH.
  destruct (env !! k) as [x|] eqn:Hk; [done|]. rewrite lookup_insert_ne; [done|]. intros ->. by rewrite Hk in Hs.
Qed.

(** C26. A process that serves is ready to: every required variable is set, the
    configuration is the one they parse to, the stake pool has its addresses, the
    daemon answered; and on a database the migrations left in order the ledger
    of answers has moved only by its own steps since, with no commit left over
    from the recovery and nobody connected yet. *)
Theorem main_serves (fresh : string) (srcs asrcs : ModelSourceConfig) (drafts : gmap string DraftModelSource) (now : N) (h h' : Host) (b : Bridge) :
  main fresh srcs asrcs drafts now h = (Serving b, h') → startable h' →
  Forall (λ v, is_set (rv_key v) h'.1 = true) REQUIRED_VARS
  ∧ parse_config (wz_env h'.1) = Some (br_cfg b)
  ∧ addresses (br_pool b) = opoi_address_list (br_cfg b) ∧ addresses (br_pool b) ≠ []
  ∧ (∃ height, (get_chain_height (H := daemon (br_cfg b)) (wz_csd h'.1)).1 = Ok height)
  ∧ (∃ url db0 db, open_database url h'.2 = Ok db0 ∧ migrated db0 = Ok db
       ∧ rtc ledger_step (submissions db) (submissions (w_db (br_world b))))
  ∧ ledger_ok (w_db (br_world b)) [] ∧ bridge_tokens b = [] ∧ br_sessions b = ∅.
Proof.
  intros (w1 & cfg & db0 & url & db & b0 & Hc & He & Hp & Ho & Hm & Hi & Hs)%main_run Hok.
  destruct (Hok _ _ _ Ho Hm) as [Hd Hpd]. pose proof (initial_ok _ _ _ _ _ _ _ Hi) as (Ew & _ & Ha & Ht). cbn [w_db] in Ew.
  pose proof (startup_world (H9 := daemon cfg) b0) as Hw. rewrite Hs in Hw. cbn [snd] in Hw. 
  destruct (start_ledger (H := daemon cfg) b0) as [Hl Hsteps]; [rewrite Ew; by split; [..|apply NoDup_nil_2|]|done..|]. rewrite Hs in Hl, Hsteps. cbn [snd] in Hl, Hsteps.
  assert (bridge_tokens b = []) as Htb by (by rewrite Hw). rewrite Htb in Hl. rewrite Ew in Hsteps.
  destruct (startup_reached (H9 := daemon cfg) _ _ Hs) as [height Hh].
  unfold initial in Hi. destruct (new_stake_pool _) as [pool|] eqn:Hpool; [|done]. apply Some_inj in Hi.
  assert (addresses pool = opoi_address_list cfg ∧ opoi_address_list cfg ≠ []) as [Hpa Hne].
  { unfold new_stake_pool in Hpool. destruct (opoi_address_list cfg); [done|]. by injection Hpool as <-. }
  rewrite Hw. rewrite Hw in Hl, Hsteps. subst b0. unfold constant in *. cbn [br_cfg br_pool br_world w_csd br_sessions] in *. split_and!; try done.
  - rewrite Forall_forall. intros v Hv. apply configured_vars in Hc. rewrite Forall_forall in Hc.
    rewrite (is_set_env _ (load_dotenv w1)) by done. by apply load_dotenv_set, Hc.
  - cbn. congruence.
  - by exists height.
  - by exists url, db0, db.
Qed.
End process.

(** ** Witnesses and examples *)

Section examples.
Existing Instances table_order toy_crypto in_order.
#[local] Instance no_print : DisplayF64 := {| display_f64 := λ _, "" |}.
#[local] Instance file_dotenv : Dotenv := {|
  dotenv_pairs := λ files, match files !! ENV_PATH with
                           | Some s => omap (λ l, k ← key_of_line l; Some (k, String.substring (S (String.length k)) (String.length l) l)) (str_lines s)
                           | None => [] end |}.
#[local] Instance staked_daemon : Daemons := {| csd_at := λ _ _ _, {|
  csd_post := λ _ m _, Body (Object [("result", if bool_decide (m = "getinfo") then Object [("blocks", u 5)] else Array [Str "a"; Str "ACTIVE"; u 1; u 1]);
                                     ("error", Null)]);
  print_json := λ _, ""; decode_error := λ _, "" |} |}.
#[local] Instance zeros : Entropy := {| urandom := λ n, Some (replicate n Ascii.zero); nanos := 0; urandom_length := zeros_length |}.
(** clap, with every option but the addresses at its default. *)
#[local] Instance addresses_only : Clap := {| parse_config := λ env, a ← env !! "OPOI_ADDRESSES"; Some (with_addresses a default_config) |}.

(** A PostgreSQL that keeps the roles' passwords and the databases created. *)
Definition toy_setup (st : Settings) : M (gmap string string * gmap string string) (result () string) := λ '(h, fs),
  match h !! st_data_dir st with
  | Some _ => (Ok (), (h, fs))
  | None => (Ok (), (<[st_data_dir st := st_password st]> h, <[st_password_file st := st_password st]> fs))
  end.
#[local, program] Instance toy_pg : EmbeddedPg := {|
  pg_host := gmap string string; pg_role := λ h dir, h !! dir; pg_setup := toy_setup;
  pg_start := λ _, mret (Ok ()); pg_database_exists := λ _ _, mret (Ok false); pg_create_database := λ _ _, mret (Ok ());
  pg_url := λ st n, st_password st +:+ "@" +:+ n |}.
Next Obligation. unfold toy_setup. intros st h fs s' -> [= <-]. cbn. by rewrite !lookup_insert_eq. Qed.
Next Obligation. unfold toy_setup. intros st h fs pw r s' Hr. rewrite Hr. by intros [= <- <-]. Qed.
Solve Obligations with done.
#[local] Instance fresh_databases : Sql := {| open_database := λ _ _, Ok (empty_db []); migrated := λ d, Ok d |}.

(** A fresh host, everything but the addresses set in [.env]. *)
Definition config_file (addrs : string) : string := unlines
  ["UPSTREAM_POOL_ADDR=pool:3333"; "CSD_RPC_URL=http://d"; "CSD_RPC_USER=u"; "CSD_RPC_PASS=p"; "OPOI_ADDRESSES=" +:+ addrs; "OPOI_REQUESTER_API_KEY=k"].
Definition host (addrs : string) : Host := (mkWizard ∅ {[ENV_PATH := config_file addrs]} ∅ [] [], ∅).
Definition no_models : ModelSourceConfig := mkModelSources ∅ None.
Notation run addrs := (main "f00d" no_models no_models ∅ 0 (host addrs)).

Definition pool_of (e : main_end) : option (list string) := match e with Serving b => Some (addresses (br_pool b)) | _ => None end.
Definition url_of {A} (r : result string string * A) : string := match r.1 with Ok url => url | Err e => "" end.

Lemma main_serves_witness :
  match run "a,b" with
  | (Serving b, h') => ledger_ok (w_db (br_world b)) [] ∧ addresses (br_pool b) = ["a"; "b"]
  | _ => False
  end.
Proof.
  assert (pool_of (run "a,b").1 = Some ["a"; "b"]) as Hpool by (vm_compute; exact eq_refl).
  destruct (run "a,b") as [e h'] eqn:Hrun. assert (startable h') as Hs.
  { intros url db0 db [= <-] [= <-]. split; [apply db_wf_empty|constructor]. }
  destruct e as [e| | |e|e|b]; try discriminate Hpool.
  pose proof (main_serves "f00d" no_models no_models ∅ 0 (host "a,b") h' b Hrun Hs) as (_ & _ & _ & _ & _ & _ & Hl & _).
  split; [exact Hl|]. injection Hpool as Hpool. exact Hpool.
Defined.

(** The wizard only asks that the addresses are not blank: a comma is, to it, an
    address list, and the stake pool's constructor panics on it. *)
Lemma comma_is_no_address : (run ",").1 = NoAddress.
Proof. by vm_compute. Qed.

Lemma restart_reuses_password_witness :
  match database_address default_config "f00d" (∅, ∅) with
  | (Ok url, s1) => ∃ s3, database_address default_config "beef" s1 = (Ok url, s3)
  | _ => False
  end.
Proof.
  assert (url_of (database_address default_config "f00d" (∅, ∅)) = "f00d@cs_stratum_bridge"
    ∧ url_of (database_address default_config "beef" (database_address default_config "f00d" (∅, ∅)).2) = "f00d@cs_stratum_bridge") as [Hu1 Hu2]
    by (vm_compute; split; exact eq_refl).
  destruct (database_address default_config "f00d" (∅, ∅)) as [[url|e] s1] eqn:H1; [|discriminate Hu1]. cbn [snd] in Hu2.
  destruct (database_address default_config "beef" s1) as [[url'|e] s3] eqn:H2; [|discriminate Hu2]. exists s3.
  destruct (restart_reuses_password default_config "f00d" "beef" ∅ ∅ url url' s1 s1 s3) as [Hp Hr];
    [exact eq_refl|vm_compute; exact eq_refl|vm_compute; exact eq_refl|discriminate|exact H1|].
  destruct (Hr Hp H2) as [-> _]. exact eq_refl.
Defined.
End examples.
