(* ===== verification/Sha256.v ===== *)
(** * SHA-256 and HMAC

    The functions behind the sha2 and hmac crates (FIPS 180-4, RFC 2104),
    executable: the instance of [Crypto] the repository's own tests are replayed
    with.  No theorem depends on it. *)

From S2P Require Export Bytes.

Definition word_mask : N := N.ones 32.
Definition add32 (a b : N) : N := N.land (a + b) word_mask.
Definition rotr (x n : N) : N := N.lor (N.shiftr x n) (N.land (N.shiftl x (32 - n)) word_mask).
Definition not32 (x : N) : N := N.lxor x word_mask.

(** The constants: the first 32 bits of the fractional parts of the square roots
    of the first eight primes, and of the cube roots of the first sixty-four. *)
Definition prime (n : N) : bool := forallb (λ d, negb (n `mod` N.of_nat d =? 0)%N) (seq 2 (N.to_nat n - 2)).
Definition primes : list N := Eval vm_compute in filter (λ n, prime n = true) (N.of_nat <$> seq 2 310).
(** The largest [r < acc + 2 ^ bits] with [r ^ 3 <= n], above [acc]. *)
Fixpoint cube_root (bits : nat) (n acc : N) : N :=
  match bits with
  | 0 => acc
  | S b => let r := (acc + 2 ^ N.of_nat b)%N in cube_root b n (if (r ^ 3 <=? n)%N then r else acc)
  end.
Definition initial_state : list N := Eval vm_compute in (λ p, N.land (N.sqrt (N.shiftl p 64)) word_mask) <$> take 8 primes.
Definition round_constants : list N := Eval vm_compute in (λ p, N.land (cube_root 36 (N.shiftl p 96) 0) word_mask) <$> primes.

Definition small_sigma0 (x : N) : N := N.lxor (N.lxor (rotr x 7) (rotr x 18)) (N.shiftr x 3).
Definition small_sigma1 (x : N) : N := N.lxor (N.lxor (rotr x 17) (rotr x 19)) (N.shiftr x 10).
Definition big_sigma0 (x : N) : N := N.lxor (N.lxor (rotr x 2) (rotr x 13)) (rotr x 22).
Definition big_sigma1 (x : N) : N := N.lxor (N.lxor (rotr x 6) (rotr x 11)) (rotr x 25).
Definition choose (x y z : N) : N := N.lxor (N.land x y) (N.land (not32 x) z).
Definition majority (x y z : N) : N := N.lxor (N.lxor (N.land x y) (N.land x z)) (N.land y z).

(** The message schedule, on the last sixteen words. *)
Fixpoint schedule (n : nat) (window : list N) : list N :=
  match n with
  | 0 => []
  | S n' =>
    let back i := nth (16 - i) window 0%N in
    let next := add32 (add32 (small_sigma1 (back 2)) (back 7)) (add32 (small_sigma0 (back 15)) (back 16)) in
    back 16 :: schedule n' (tail window ++ [next])
  end.

Definition round (s : list N) (kw : N * N) : list N :=
  match s with
  | [a; b; c; d; e; f; g; h] =>
    let t1 := add32 (add32 h (big_sigma1 e)) (add32 (choose e f g) (add32 kw.1 kw.2)) in
    let t2 := add32 (big_sigma0 a) (majority a b c) in
    [add32 t1 t2; a; b; c; add32 d t1; e; f; g]
  | _ => s
  end.
Definition compress (s block : list N) : list N := zip_with add32 s (fold_left round (zip round_constants (schedule 64 block)) s).

(** Big-endian words of four bytes. *)
Fixpoint be_words (b : bytes) : list N :=
  match b with
  | c0 :: c1 :: c2 :: c3 :: b' => be_value [c0; c1; c2; c3] :: be_words b'
  | _ => []
  end.
Definition be_bytes (k : nat) (n : N) : bytes := reverse (le_bytes k n).

(** One bit, zeros up to eight bytes before a block's end, the length in bits. *)
Definition padded (b : bytes) : bytes :=
  b ++ [Ascii.ascii_of_N 128] ++ replicate ((119 - length b `mod` 64) `mod` 64) Ascii.zero ++ be_bytes 8 (8 * N.of_nat (length b)).
Fixpoint absorb (blocks : nat) (s words : list N) : list N :=
  match blocks with
  | 0 => s
  | S n => absorb n (compress s (take 16 words)) (drop 16 words)
  end.
Definition sha2_state (b : bytes) : list N := let p := padded b in absorb (length p / 64) initial_state (be_words p).
Definition sha2 (b : bytes) : bytes := w ← sha2_state b; be_bytes 4 w.

Definition xor_with (n : N) (b : bytes) : bytes := (λ c, Ascii.ascii_of_N (N.lxor (Ascii.N_of_ascii c) n)) <$> b.
Definition hmac_sha2 (key message : bytes) : bytes :=
  let key := if (64 <? length key)%nat then sha2 key else key in
  let block := key ++ replicate (64 - length key) Ascii.zero in
  sha2 (xor_with 92 block ++ sha2 (xor_with 54 block ++ message)).

(** ** Lemmas *)

Lemma round_length s kw : length (round s kw) = length s.
Proof. by destruct s as [|? [|? [|? [|? [|? [|? [|? [|? [|??]]]]]]]]]. Qed.
Lemma rounds_length l : ∀ s, length (fold_left round l s) = length s.
Proof. induction l as [|kw l IH]; intros s; [done|]. cbn [fold_left]. by rewrite IH, round_length. Qed.
Lemma absorb_length n : ∀ s words, length (absorb n s words) = length s.
Proof.
  induction n as [|n IH]; intros s words; [done|]. cbn [absorb]. rewrite IH. unfold compress. rewrite length_zip_with, rounds_length. lia.
Qed.
Lemma sha2_length b : length (sha2 b) = 32.
Proof.
  unfold sha2. assert (length (sha2_state b) = 8) as Hl by apply absorb_length. revert Hl. generalize (sha2_state b). intros l.
  do 8 (destruct l as [|? l]; [discriminate|]). destruct l; [by unfold be_bytes|discriminate].
Qed.

(** ** Test vectors *)

Lemma sha2_vectors :
  real_hex_encode (sha2 []) = "e3b0c44298fc1c149afbf4c8996fb92427ae41e4649b934ca495991b7852b855"
  ∧ real_hex_encode (sha2 (as_bytes "abc")) = "ba7816bf8f01cfea414140de5dae2223b00361a396177a9cb410ff61f20015ad"
  ∧ real_hex_encode (sha2 (as_bytes "abcdbcdecdefdefgefghfghighijhijkijkljklmklmnlmnomnopnopq"))
    = "248d6a61d20638b8e5c026930c3e6039a33ce45964ff2167f6ecedd419db06c1"
  ∧ real_hex_encode (hmac_sha2 (as_bytes "Jefe") (as_bytes "what do ya want for nothing?"))
    = "5bdcc146bf60754e6a042426089575c75a003f089d2739839dec58b964ec3843".
Proof. vm_compute. by split_and!. Qed.

#[local] Instance sha2_crypto : Crypto := {|
  hex_encode := real_hex_encode; hex_decode := real_hex_decode; sha256 := sha2; hmac_sha256 := hmac_sha2;
  hex_decode_encode := real_hex_round; hex_encode_lower := real_hex_lower; hex_encode_digits := real_hex_digits;
  sha256_length := sha2_length |}.
