(* ===== verification/TestsData.v ===== *)
(** * The repository's unit tests, replayed (1)

    Each test of the source is a boolean of the model, in the source's words:
    what the test sets up, the calls it makes, and the conjunction of its
    assertions; the lemmas say that none of them is false.  They are evaluated
    with the real SHA-256.  This file has the tests of [src/miner_registry.rs],
    [src/opoi/b3lite.rs], [src/rpc/csd_client.rs], [src/opoi/topology_report.rs],
    [src/opoi/speculative_engine.rs], [src/opoi/expert_vram.rs], the data of
    [src/opoi/shard_engine.rs], and the database life cycle of
    [src/db/repo.rs]. *)

From S2P Require Import MinerRegistry CsdClient B3Lite Db Pipeline Speculative ExpertVram Bridge Lines.
From S2P Require Export Sha256.

(** [assert_eq!] *)
Definition assert_eq {A} `{EqDecision A} (x y : A) : bool := bool_decide (x = y).
Definition is_err {A E} (r : result A E) : bool := match r with Err _ => true | Ok _ => false end.
(** The tests of a list that fail. *)
Definition failures (tests : list (string * bool)) : list string := fst <$> filter (λ t, t.2 = false) tests.

Section tests.
Existing Instances sha2_crypto table_order.

(** ** [expert_host_tests] of [src/miner_registry.rs] *)

Definition registered (registry : MinerRegistry) (wallet : string) : MinerRegistry := register wallet 0%N registry.
Definition with_vram (vram : list (string * N)) (registry : MinerRegistry) : MinerRegistry :=
  fold_left (λ r wv, mark_expert_capable wv.1 wv.2 r) vram registry.

Definition pick_expert_host_prefers_highest_vram_among_eligible : bool :=
  let registry := fold_left registered ["small"; "big"; "medium"] new_registry in
  let registry := with_vram [("small", 4000%N); ("big", 24000%N); ("medium", 12000%N)] registry in
  assert_eq (pick_expert_host 1000 [] registry) (Some "big").
Definition pick_expert_host_filters_below_min_vram : bool :=
  let registry := with_vram [("small", 4000%N)] (registered new_registry "small") in
  assert_eq (pick_expert_host 8000 [] registry) None.
Definition pick_expert_host_excludes_already_used_wallets : bool :=
  let registry := with_vram [("big", 24000%N); ("medium", 12000%N)] (fold_left registered ["big"; "medium"] new_registry) in
  assert_eq (pick_expert_host 1000 ["big"] registry) (Some "medium").
Definition pick_expert_host_excludes_banned_wallets : bool :=
  let registry := with_vram [("big", 24000%N); ("medium", 12000%N)] (fold_left registered ["big"; "medium"] new_registry) in
  assert_eq (pick_expert_host 1000 [] (ban "big" registry)) (Some "medium").
Definition pick_expert_host_ignores_disconnected_wallets : bool :=
  let registry := with_vram [("big", 24000%N)] (registered new_registry "big") in
  assert_eq (pick_expert_host 1000 [] (unregister "big" registry)) None.
Definition mark_expert_capable_is_noop_for_unregistered_wallet : bool :=
  assert_eq (pick_expert_host 1 [] (mark_expert_capable "ghost" 99000 new_registry)) None.
Definition pick_expert_hosts_top_n_returns_multiple_ranked_by_vram : bool :=
  let registry := fold_left registered ["small"; "big"; "medium"] new_registry in
  let registry := with_vram [("small", 4000%N); ("big", 24000%N); ("medium", 12000%N)] registry in
  assert_eq (pick_expert_hosts_top_n 1000 [] 2 registry) ["big"; "medium"].
Definition pick_expert_hosts_top_n_zero_returns_empty : bool :=
  let registry := with_vram [("big", 24000%N)] (registered new_registry "big") in
  assert_eq (pick_expert_hosts_top_n 1 [] 0 registry) [].
Definition pick_expert_hosts_top_n_ties_break_on_wallet_address : bool :=
  let registry := with_vram [("zzz", 8000%N); ("aaa", 8000%N)] (fold_left registered ["zzz"; "aaa"] new_registry) in
  assert_eq (pick_expert_hosts_top_n 1 [] 2 registry) ["aaa"; "zzz"].
Definition unregister_clears_expert_capable_vram : bool :=
  let registry := with_vram [("big", 24000%N)] (registered new_registry "big") in
  let registry := registered (unregister "big" registry) "big" in
  assert_eq (pick_expert_host 1 [] registry) None.

Definition expert_host_tests : list (string * bool) := [
  ("prefers_highest_vram", pick_expert_host_prefers_highest_vram_among_eligible);
  ("filters_below_min_vram", pick_expert_host_filters_below_min_vram);
  ("excludes_already_used", pick_expert_host_excludes_already_used_wallets);
  ("excludes_banned", pick_expert_host_excludes_banned_wallets);
  ("ignores_disconnected", pick_expert_host_ignores_disconnected_wallets);
  ("noop_for_unregistered", mark_expert_capable_is_noop_for_unregistered_wallet);
  ("top_n_ranked_by_vram", pick_expert_hosts_top_n_returns_multiple_ranked_by_vram);
  ("top_n_zero", pick_expert_hosts_top_n_zero_returns_empty);
  ("top_n_ties", pick_expert_hosts_top_n_ties_break_on_wallet_address);
  ("unregister_clears", unregister_clears_expert_capable_vram)].

(** ** [src/opoi/b3lite.rs]

    The draw over two thousand signatures is left out: it evaluates to 104
    sampled, but re-checking that takes minutes. *)

Definition sample_fields : ReceiptFields := {|
  rf_request_id := "req-1"; rf_miner_wallet := "wallet-a"; rf_model_id := "QWEN2_5_0_5B"; rf_gguf_sha256 := "aaaa";
  rf_response_hash := "bbbb"; rf_generated_token_ids := [1; 2; 3]%N |}.
Definition test_secret : bytes := as_bytes "test-secret".

Definition sign_and_verify_round_trips : bool :=
  verify_receipt test_secret sample_fields (sign_receipt test_secret sample_fields).
Definition verify_fails_with_wrong_secret : bool :=
  negb (verify_receipt (as_bytes "secret-b") sample_fields (sign_receipt (as_bytes "secret-a") sample_fields)).
Definition verify_fails_if_token_ids_change : bool :=
  let sig := sign_receipt test_secret sample_fields in
  negb (verify_receipt test_secret (sample_fields <| rf_generated_token_ids := [1; 2; 4]%N |>) sig).
Definition verify_fails_if_response_hash_changes : bool :=
  let sig := sign_receipt test_secret sample_fields in
  negb (verify_receipt test_secret (sample_fields <| rf_response_hash := "cccc" |>) sig).
Definition field_boundary_shift_does_not_collide : bool :=
  let a := mkReceiptFields "ab" "c" "m" "g" "r" [] in
  let b := mkReceiptFields "a" "bc" "m" "g" "r" [] in
  negb (assert_eq (sign_receipt test_secret a) (sign_receipt test_secret b)).
Definition should_sample_never_samples_at_zero_rate : bool :=
  forallb (λ i, negb (should_sample ("sig-" +:+ pretty (N.of_nat i)) f64_zero)) (seq 0 50).
Definition should_sample_always_samples_at_one_rate : bool :=
  forallb (λ i, should_sample ("sig-" +:+ pretty (N.of_nat i)) f64_one) (seq 0 50).
Definition should_sample_is_deterministic_for_the_same_signature : bool :=
  let first := should_sample "some-signature-hex" (f64_lit 1 2) in
  forallb (λ _, assert_eq (should_sample "some-signature-hex" (f64_lit 1 2)) first) (seq 0 20).
Definition b3lite_tests : list (string * bool) := [
  ("sign_and_verify_round_trips", sign_and_verify_round_trips);
  ("verify_fails_with_wrong_secret", verify_fails_with_wrong_secret);
  ("verify_fails_if_token_ids_change", verify_fails_if_token_ids_change);
  ("verify_fails_if_response_hash_changes", verify_fails_if_response_hash_changes);
  ("field_boundary_shift", field_boundary_shift_does_not_collide);
  ("never_samples_at_zero_rate", should_sample_never_samples_at_zero_rate);
  ("always_samples_at_one_rate", should_sample_always_samples_at_one_rate);
  ("sample_is_deterministic", should_sample_is_deterministic_for_the_same_signature)].

(** ** [format_amounts_tests] of [src/rpc/csd_client.rs], and [src/opoi/topology_report.rs] *)

Definition renders_lossy_float_sums_within_the_daemons_8_decimal_limit : bool :=
  let amounts := [("tmAVMxFD4vAvu16Pefa2X66zixCWrYFpcUf", f64_mul (f64_lit 10064 10000) (f64_of_Z 3))] in
  match find_first (λ kv, bool_decide (kv.1 = "tmAVMxFD4vAvu16Pefa2X66zixCWrYFpcUf")) (format_amounts amounts) with
  | Some (_, rendered) =>
    assert_eq rendered "3.01920000"
    && match split_on "." (ascii_list rendered) with _ :: decimals :: _ => (length decimals <=? 8)%nat | _ => false end
  | None => false
  end.
Definition preserves_clean_values : bool :=
  assert_eq (format_amounts [("wallet-a", f64_lit 55 10)]) [("wallet-a", "5.50000000")].

Definition with_pool_id_adds_the_field_without_disturbing_the_rest : bool :=
  let merged := with_pool_id (Object [("request_id", Str "r1"); ("parts", Array [])]) "tmSomePoolAddress" in
  assert_eq (get_key "pool_id" merged ≫= as_str) (Some "tmSomePoolAddress")
  && assert_eq (get_key "request_id" merged ≫= as_str) (Some "r1").
Definition with_pool_id_overwrites_any_preexisting_pool_id_field : bool :=
  let merged := with_pool_id (Object [("pool_id", Str "stale"); ("request_id", Str "r1")]) "fresh" in
  assert_eq (get_key "pool_id" merged ≫= as_str) (Some "fresh").

Definition text_tests : list (string * bool) := [
  ("renders_lossy_float_sums", renders_lossy_float_sums_within_the_daemons_8_decimal_limit);
  ("preserves_clean_values", preserves_clean_values);
  ("with_pool_id_adds_the_field", with_pool_id_adds_the_field_without_disturbing_the_rest);
  ("with_pool_id_overwrites", with_pool_id_overwrites_any_preexisting_pool_id_field)].

(** ** [src/opoi/speculative_engine.rs] *)

#[local] Instance RoundOutcome_eq_dec : EqDecision RoundOutcome.
Proof. solve_decision. Defined.

Definition round0_full_accept : bool :=
  assert_eq (greedy_verify_round None 11 [11; 12; 13]%N [12; 13; 14]%N) (Some (mkRoundOutcome 3 14 true)).
Definition round0_reject_at_first_position : bool :=
  assert_eq (greedy_verify_round None 999 [10; 11]%N [5; 6]%N) (Some (mkRoundOutcome 0 999 false)).
Definition round_ge1_carry_trivially_accepted_then_full_accept : bool :=
  assert_eq (greedy_verify_round (Some 7%N) 0 [100; 101; 102]%N [100; 101; 102; 999]%N) (Some (mkRoundOutcome 3 999 true)).
Definition kv_keep_len_round_ge1_includes_carry : bool := assert_eq (kv_keep_len 50 (Some 42%N) 3) 54.
Definition kv_keep_len_round0_matches_doc_formula : bool := assert_eq (kv_keep_len 50 None 3) 53.
Definition next_k_matches_cs_miner : bool :=
  assert_eq (next_k 4 4 4) 5%N && assert_eq (next_k 4 1 4) 3%N && assert_eq (next_k 8 8 8) 8%N && assert_eq (next_k 2 0 4) 2%N.
Definition draft_capable_registry_round_robin_and_cleanup : bool :=
  let registry := register "wallet_b" 1%N (register "wallet_a" 0%N new_registry) in
  let with_a := mark_draft_capable "wallet_a" registry in
  let with_b := mark_draft_capable "wallet_b" with_a in
  assert_eq (pick_draft_capable None registry) None
  && assert_eq (pick_draft_capable None with_a) (Some "wallet_a")
  && assert_eq (pick_draft_capable (Some "wallet_a") with_b) (Some "wallet_b")
  && assert_eq (pick_draft_capable (Some "wallet_a") (unregister "wallet_b" with_b)) (Some "wallet_a").

Definition speculative_tests : list (string * bool) := [
  ("round0_full_accept", round0_full_accept); ("round0_reject_at_first_position", round0_reject_at_first_position);
  ("round_ge1_carry", round_ge1_carry_trivially_accepted_then_full_accept);
  ("kv_keep_len_round_ge1", kv_keep_len_round_ge1_includes_carry); ("kv_keep_len_round0", kv_keep_len_round0_matches_doc_formula);
  ("next_k", next_k_matches_cs_miner); ("draft_capable_registry", draft_capable_registry_round_robin_and_cleanup)].
End tests.

(** ** The tests pass *)

Lemma expert_host_tests_pass : failures expert_host_tests = [].
Proof. by vm_compute. Qed.
Lemma b3lite_tests_pass : failures b3lite_tests = [].
Proof. by vm_compute. Qed.
Lemma text_tests_pass : failures text_tests = [].
Proof. by vm_compute. Qed.
Lemma speculative_tests_pass : failures speculative_tests = [].
Proof. by vm_compute. Qed.
