(* ===== verification/TestsShard.v ===== *)
(** * The repository's unit tests, replayed (2)

    The tests of the data of [src/opoi/shard_engine.rs] (the winning wallet, the
    response, the split of a graph, a shard's experts) and those of
    [src/opoi/expert_vram.rs]. *)

From S2P Require Import MinerRegistry CsdClient Wire Pipeline ExpertVram Tensor.
From S2P Require Export TestsData.

Definition contains (sub s : string) : bool := match String.index 0 sub s with Some _ => true | None => false end.

Section tests.
Existing Instances sha2_crypto.

(** ** [select_winning_wallet] *)

Definition winning_wallet_none_when_no_contributions : bool := assert_eq (select_winning_wallet ∅) None.
Definition winning_wallet_single_contributor_always_wins : bool :=
  assert_eq (select_winning_wallet (<["wallet_only" := 1%N]> ∅)) (Some "wallet_only").
Definition winning_wallet_clear_majority_wins : bool :=
  let contributions := <["wallet_c" := 1%N]> (<["wallet_b" := 9%N]> (<["wallet_a" := 3%N]> ∅)) in
  assert_eq (select_winning_wallet contributions) (Some "wallet_b").
Definition winning_wallet_tie_breaks_toward_greatest_address : bool :=
  let contributions := <["mmm_wallet" := 1%N]> (<["zzz_wallet" := 5%N]> (<["aaa_wallet" := 5%N]> ∅)) in
  assert_eq (select_winning_wallet contributions) (Some "zzz_wallet").
Definition winning_wallet_three_way_tie_breaks_toward_greatest_address : bool :=
  let contributions := <["ccc" := 5%N]> (<["bbb" := 5%N]> (<["aaa" := 5%N]> ∅)) in
  assert_eq (select_winning_wallet contributions) (Some "ccc").
Definition winning_wallet_tie_break_independent_of_insertion_order : bool :=
  let contributions := <["aaa_wallet" := 5%N]> (<["zzz_wallet" := 5%N]> ∅) in
  assert_eq (select_winning_wallet contributions) (Some "zzz_wallet").
Definition winning_wallet_deterministic_across_repeated_calls : bool :=
  let contributions := <["wallet_y" := 7%N]> (<["wallet_x" := 7%N]> ∅) in
  let first := select_winning_wallet contributions in
  forallb (λ _, assert_eq (select_winning_wallet contributions) first) (seq 0 20).

Definition winning_wallet_tests : list (string * bool) := [
  ("none", winning_wallet_none_when_no_contributions); ("single", winning_wallet_single_contributor_always_wins);
  ("majority", winning_wallet_clear_majority_wins); ("tie", winning_wallet_tie_breaks_toward_greatest_address);
  ("three_way_tie", winning_wallet_three_way_tie_breaks_toward_greatest_address);
  ("insertion_order", winning_wallet_tie_break_independent_of_insertion_order);
  ("deterministic", winning_wallet_deterministic_across_repeated_calls)].

(** ** [build_response] *)

Definition build_response_empty_tokens_is_empty_hex_of_empty_hash : bool :=
  let '(hash, hex_str) := build_response [] in
  assert_eq hex_str "" && assert_eq hash (hex_encode (sha256 [])).
Definition build_response_is_deterministic_for_same_tokens : bool :=
  let tokens := [1; 2; 3; 42; 999999]%N in
  let '(hash1, hex1) := build_response tokens in
  let '(hash2, hex2) := build_response tokens in
  assert_eq hash1 hash2 && assert_eq hex1 hex2.
Definition build_response_is_sensitive_to_token_differences : bool :=
  let '(hash_a, hex_a) := build_response [1; 2; 3]%N in
  let '(hash_b, hex_b) := build_response [1; 2; 4]%N in
  negb (assert_eq hash_a hash_b) && negb (assert_eq hex_a hex_b).
Definition build_response_is_sensitive_to_token_order : bool :=
  let '(hash_a, hex_a) := build_response [1; 2; 3]%N in
  let '(hash_b, hex_b) := build_response [3; 2; 1]%N in
  negb (assert_eq hash_a hash_b) && negb (assert_eq hex_a hex_b).
Definition build_response_hex_matches_expected_little_endian_encoding : bool :=
  let tokens := [1; 256; 65536; u32_max]%N in
  let '(hash, hex_str) := build_response tokens in
  let expected_raw := fold_left (λ raw t, raw ++ u32_le t) tokens [] in
  assert_eq hex_str (hex_encode expected_raw)
  && assert_eq (String.length hex_str) (length tokens * 8)
  && assert_eq (hex_decode hex_str) (Some expected_raw)
  && assert_eq hash (hex_encode (sha256 expected_raw)).
Definition build_response_single_token_round_trips : bool :=
  let '(hash, hex_str) := build_response [0x12345678]%N in
  assert_eq hex_str "78563412" && assert_eq hash (hex_encode (sha256 (ascii_of_N <$> [0x78; 0x56; 0x34; 0x12]%N))).
Definition build_response_length_scales_with_token_count : bool :=
  let tokens := N.of_nat <$> seq 0 50 in
  let '(_, hex_str) := build_response tokens in
  assert_eq (String.length hex_str) (length tokens * 8).

Definition build_response_tests : list (string * bool) := [
  ("empty", build_response_empty_tokens_is_empty_hex_of_empty_hash); ("deterministic", build_response_is_deterministic_for_same_tokens);
  ("differences", build_response_is_sensitive_to_token_differences); ("order", build_response_is_sensitive_to_token_order);
  ("little_endian", build_response_hex_matches_expected_little_endian_encoding);
  ("single", build_response_single_token_round_trips); ("length", build_response_length_scales_with_token_count)].

(** ** [split_model_execution_graph] *)

Definition dense (shard_index layer_start layer_end : N) : ShardDescriptor :=
  mkShardDescriptor shard_index "DENSE" (Some layer_start) (Some layer_end) (Some 0%N).
Definition expert (shard_index layer_start layer_end expert_id : N) : ShardDescriptor :=
  mkShardDescriptor shard_index "EXPERT" (Some layer_start) (Some layer_end) (Some expert_id).

Definition split_pure_dense_graph_yields_empty_expert_groups : bool :=
  let '(shards, expert_groups) := split_model_execution_graph [dense 0 0 4; dense 1 4 8] in
  assert_eq (length shards) 2 && assert_eq expert_groups ∅.
Definition split_dense_only_graph_sorts_by_shard_index_even_if_input_unsorted : bool :=
  let '(shards, _) := split_model_execution_graph [dense 1 4 8; dense 0 0 4] in
  assert_eq (sd_shard_index <$> shards !! 0) (Some 0%N) && assert_eq (sd_shard_index <$> shards !! 1) (Some 1%N).
Definition split_moe_graph_groups_experts_by_layer_range : bool :=
  let graph := [dense 0 0 4; dense 1 4 8; expert 2 0 4 0; expert 3 0 4 1; expert 4 4 8 0; expert 5 4 8 1]%N in
  let '(shards, expert_groups) := split_model_execution_graph graph in
  assert_eq (length shards) 2 && forallb (λ s, assert_eq (sd_shard_type s) "DENSE") shards
  && assert_eq (size expert_groups) 2
  && assert_eq (stable_sort N.leb <$> expert_groups !! (0, 4)%N) (Some [0; 1]%N)
  && assert_eq (stable_sort N.leb <$> expert_groups !! (4, 8)%N) (Some [0; 1]%N).
Definition split_graph_with_no_dense_nodes_yields_empty_dense_list : bool :=
  let '(shards, expert_groups) := split_model_execution_graph [expert 0 0 4 0; expert 1 0 4 1] in
  assert_eq (length shards) 0 && assert_eq (size expert_groups) 1.
Definition split_expert_node_with_missing_layer_bounds_defaults_key_to_zero_zero : bool :=
  let malformed := mkShardDescriptor 1 "EXPERT" None None (Some 3%N) in
  let '(_, expert_groups) := split_model_execution_graph [malformed] in
  assert_eq (expert_groups !! (0, 0)%N) (Some [3]%N).

Definition split_tests : list (string * bool) := [
  ("pure_dense", split_pure_dense_graph_yields_empty_expert_groups);
  ("sorts", split_dense_only_graph_sorts_by_shard_index_even_if_input_unsorted);
  ("moe", split_moe_graph_groups_experts_by_layer_range); ("no_dense", split_graph_with_no_dense_nodes_yields_empty_dense_list);
  ("missing_bounds", split_expert_node_with_missing_layer_bounds_defaults_key_to_zero_zero)].

(** ** [expert_group_for] *)

Definition test_manifest (model_id : string) (num_layers : N) : ModelManifest :=
  mkModelManifest model_id "MOE" num_layers "gguf-hash" "ACTIVE".
Definition test_pipeline (shards : list ShardDescriptor) (expert_groups : gmap (N * N) (list N)) : PipelineState := {|
  p_shards := shards; p_manifest := test_manifest "model-x" 8; p_prompt_hash := "ph"; p_max_tokens := 4; p_pos := 0;
  p_token_index := 0; p_current_input := Prompt "aa"; p_original_prompt_hex := "aa"; p_generated_token_ids := [];
  p_contributions := ∅; p_expert_groups := expert_groups; p_moe_layer_walk := None; p_dispatch_log := [] |}.

Definition expert_group_for_none_when_no_groups_registered_at_all : bool :=
  let pipeline := test_pipeline [dense 0 0 4; dense 1 4 8] ∅ in
  assert_eq (expert_group_for pipeline 0) None && assert_eq (expert_group_for pipeline 1) None.
Definition expert_group_for_some_when_this_shards_range_has_a_group : bool :=
  let pipeline := test_pipeline [dense 0 0 4; dense 1 4 8] {[(0, 4) := [0; 1]]}%N in
  assert_eq (expert_group_for pipeline 0) (Some [0; 1]%N) && assert_eq (expert_group_for pipeline 1) None.
Definition expert_group_for_none_when_group_is_present_but_empty : bool :=
  assert_eq (expert_group_for (test_pipeline [dense 0 0 4] {[(0, 4)%N := []]}) 0) None.
Definition expert_group_for_out_of_range_pos_is_none : bool :=
  assert_eq (expert_group_for (test_pipeline [dense 0 0 4] ∅) 5) None.

Definition expert_group_tests : list (string * bool) := [
  ("none", expert_group_for_none_when_no_groups_registered_at_all);
  ("some", expert_group_for_some_when_this_shards_range_has_a_group);
  ("empty", expert_group_for_none_when_group_is_present_but_empty); ("out_of_range", expert_group_for_out_of_range_pos_is_none)].

(** ** [src/opoi/expert_vram.rs] *)

Definition write_gguf_string (out : bytes) (s : string) : bytes := out ++ u64_le (N.of_nat (String.length s)) ++ as_bytes s.
Definition write_tensor (exps_dtype : N) (st : bytes * N) (t : string * list N) : bytes * N :=
  let '(out, offset) := st in
  let out := write_gguf_string out t.1 ++ u32_le (N.of_nat (length t.2)) in
  let out := fold_left (λ out d, out ++ u64_le d) t.2 out in
  (out ++ u32_le exps_dtype ++ u64_le offset, (offset + 1024)%N).
Definition build_synthetic_gguf (n_layer : nat) (hidden ffn n_expert exps_dtype : N) : bytes :=
  let out := as_bytes "GGUF" ++ u32_le 3 ++ u64_le (N.of_nat n_layer * 3) ++ u64_le 1 in
  let out := write_gguf_string out "general.alignment" ++ u32_le 4 ++ u32_le 32 in
  let tensors := layer ← seq 0 n_layer;
    (λ sd, ("blk." +:+ pretty (N.of_nat layer) +:+ "." +:+ sd.1 +:+ ".weight", sd.2)) <$>
      [("ffn_gate_exps", [hidden; ffn; n_expert]); ("ffn_up_exps", [hidden; ffn; n_expert]); ("ffn_down_exps", [ffn; hidden; n_expert])] in
  (fold_left (write_tensor exps_dtype) tensors (out, 0%N)).1.

Definition ggml_block_and_type_size_matches_candle_core_table : bool :=
  assert_eq (ggml_block_and_type_size 0) (Some (1, 4)%N) && assert_eq (ggml_block_and_type_size 2) (Some (32, 18)%N)
  && assert_eq (ggml_block_and_type_size 12) (Some (256, 144)%N) && assert_eq (ggml_block_and_type_size 14) (Some (256, 210)%N)
  && assert_eq (ggml_block_and_type_size 30) (Some (1, 2)%N) && assert_eq (ggml_block_and_type_size 9999) None.
Definition parse_gguf_tensor_infos_finds_every_expert_tensor : bool :=
  match parse_gguf_tensor_infos (build_synthetic_gguf 2 256 512 4 12) with
  | Some (Ok infos) =>
    assert_eq (size infos) 6
    && assert_eq (dims <$> infos !! "blk.0.ffn_gate_exps.weight") (Some [256; 512; 4]%N)
    && assert_eq (ggml_type <$> infos !! "blk.0.ffn_gate_exps.weight") (Some 12%N)
    && assert_eq (dims <$> infos !! "blk.1.ffn_down_exps.weight") (Some [512; 256; 4]%N)
  | _ => false
  end.
Definition parse_gguf_tensor_infos_rejects_bad_magic : bool :=
  match parse_gguf_tensor_infos (<[0 := "X"%char]> (build_synthetic_gguf 1 64 128 2 12)) with
  | Some (Err (Invalid _)) => true
  | _ => false
  end.
Definition parse_gguf_tensor_infos_reports_incomplete_on_truncation : bool :=
  let bytes := build_synthetic_gguf 2 256 512 4 12 in
  match parse_gguf_tensor_infos (take (length bytes / 2) bytes) with Some (Err Incomplete) => true | _ => false end.

Definition layer_infos (gate_type up_type down_type : N) : gmap string GgufTensorInfo :=
  <["blk.0.ffn_down_exps.weight" := mkGgufTensorInfo [512; 256; 4]%N down_type]>
    (<["blk.0.ffn_up_exps.weight" := mkGgufTensorInfo [256; 512; 4]%N up_type]>
      (<["blk.0.ffn_gate_exps.weight" := mkGgufTensorInfo [256; 512; 4]%N gate_type]> ∅)).
Definition expert_vram_bytes_for_layer_matches_hand_computed_value : bool :=
  match expert_vram_bytes_for_layer (layer_infos 12 12 14) 0 4 with
  | Ok bytes => assert_eq bytes 254976%N && assert_eq (div_ceil bytes (1024 * 1024)) 1%N
  | Err _ => false
  end.
Definition expert_vram_bytes_for_layer_errors_on_missing_tensor : bool :=
  match expert_vram_bytes_for_layer ∅ 0 4 with Ok _ => false | Err err => contains "blk.0.ffn_gate_exps.weight" err end.
Definition expert_vram_bytes_for_layer_errors_on_unsupported_dtype : bool :=
  match expert_vram_bytes_for_layer (layer_infos 9999 12 14) 0 4 with
  | Ok _ => false
  | Err err => contains "unsupported/unknown ggml_type 9999" err
  end.
Definition expert_vram_bytes_for_layer_errors_on_zero_n_expert : bool := is_err (expert_vram_bytes_for_layer ∅ 0 0).

(** A server that has the file at one address, and nothing anywhere else. *)
Definition file_server : HttpGet := {| http_get := λ url,
  if bool_decide (url = "http://127.0.0.1:8080/model.gguf") then GetBody [build_synthetic_gguf 3 256 512 4 12] None
  else GetFailed "connection refused" |}.
Definition estimator_end_to_end_over_real_http : bool :=
  let ask ls le := min_vram_mb_for_range (H := file_server) "TEST_MODEL" "http://127.0.0.1:8080/model.gguf" "sha-doesnt-matter-here" ls le 4 in
  let '(mb, estimator) := ask 0%N 3%N ∅ in
  let '(mb_cached, _) := ask 1%N 2%N estimator in
  assert_eq mb (Some 1%N) && assert_eq mb_cached (Some 1%N).
Definition estimator_returns_none_on_unreachable_host : bool :=
  assert_eq (min_vram_mb_for_range (H := file_server) "TEST_MODEL" "http://127.0.0.1:1/model.gguf" "sha" 0 4 4 ∅).1 None.

Definition expert_vram_tests : list (string * bool) := [
  ("table", ggml_block_and_type_size_matches_candle_core_table); ("finds_every", parse_gguf_tensor_infos_finds_every_expert_tensor);
  ("bad_magic", parse_gguf_tensor_infos_rejects_bad_magic); ("truncation", parse_gguf_tensor_infos_reports_incomplete_on_truncation);
  ("hand_computed", expert_vram_bytes_for_layer_matches_hand_computed_value);
  ("missing_tensor", expert_vram_bytes_for_layer_errors_on_missing_tensor);
  ("unsupported", expert_vram_bytes_for_layer_errors_on_unsupported_dtype);
  ("zero_experts", expert_vram_bytes_for_layer_errors_on_zero_n_expert);
  ("over_http", estimator_end_to_end_over_real_http); ("unreachable", estimator_returns_none_on_unreachable_host)].
End tests.

(** ** The tests pass *)

Lemma winning_wallet_tests_pass : failures winning_wallet_tests = [].
Proof. by vm_compute. Qed.
Lemma build_response_tests_pass : failures build_response_tests = [].
Proof. by vm_compute. Qed.
Lemma split_tests_pass : failures split_tests = [].
Proof. by vm_compute. Qed.
Lemma expert_group_tests_pass : failures expert_group_tests = [].
Proof. by vm_compute. Qed.
Lemma expert_vram_tests_pass : failures expert_vram_tests = [].
Proof. by vm_compute. Qed.
