(* ===== verification/TestsExperts.v ===== *)
(** * The repository's unit tests, replayed (3)

    The tests of [src/opoi/expert_dispatch.rs]: the combine, and the fan-out,
    join and retries over fake channels.  A test that spawns a task and answers
    it runs here as the task's steps: up to its await, the answers, its polls. *)

From S2P Require Import MinerRegistry Wire Tensor World ExpertDispatch.
From S2P Require Export TestsShard.

(** The [f32] nearest to a decimal literal. *)
Definition f32_lit (num den : Z) : f32 := SFdiv 24 128 (binary_normalize 24 128 num 0 false) (binary_normalize 24 128 den 0 false).
Definition f32_int (z : Z) : f32 := binary_normalize 24 128 z 0 false.
(** [(x - y).abs() < 1e-5] *)
Definition close_to (y : f32) (x : N) : bool := SFltb (SFabs (SFsub 24 128 (f32_of_bits x) y)) (f32_lit 1 100000).
(** [line.contains(method)] *)
Definition names_method (method : string) (m : down_msg) : bool :=
  bool_decide ((v ← line_value m; name ← get_key "method" v; as_str name) = Some method).
(** What a channel received, oldest first. *)
Definition lines_on (tx : N) (w : World) : list down_msg := snd <$> filter (λ l, l.1 = tx) (sent (w_net w)).
Definition nth_line (n : nat) (tx : N) (method : string) (w : World) : bool :=
  match lines_on tx w !! n with Some m => names_method method m | None => false end.

Section tests.
Existing Instances sha2_crypto toy_hex_error key_iter.

Definition data_of (data : list f32) : string := f32_to_hex (f32_to_bits <$> data).
Definition values_are (data_hex : string) (data : list f32) : bool :=
  match hex_to_f32 data_hex with Ok l => assert_eq l (f32_to_bits <$> data) | Err _ => false end.
Definition first_close_to (data_hex : string) (y : f32) : bool :=
  match hex_to_f32 data_hex with Ok (x :: _) => close_to y x | _ => false end.

(** ** [combine_tests] *)

Definition test_result (expert_id : N) (shape : list N) (data : list f32) : OpoiExpertResult :=
  mkOpoiExpertResult "req-1" 0 4 3 expert_id 0 "" (mkExpertOutputWire shape (data_of data)).
Definition half : f32 := f32_lit 1 2.

Definition combine_weighted_single_expert_full_weight_is_identity : bool :=
  match combine_weighted [(f32_int 1, test_result 0 [3]%N (f32_int <$> [1; 2; 3]%Z))] with
  | Some (Ok out) => values_are (eo_data_hex out) (f32_int <$> [1; 2; 3]%Z) && assert_eq (eo_shape out) [3]%N
  | _ => false
  end.
Definition combine_weighted_two_experts_weighted_sum : bool :=
  match combine_weighted [(half, test_result 0 [2]%N (f32_int <$> [2; 4]%Z)); (half, test_result 1 [2]%N (f32_int <$> [10; 20]%Z))] with
  | Some (Ok out) => values_are (eo_data_hex out) (f32_int <$> [6; 12]%Z)
  | _ => false
  end.
Definition combine_weighted_three_experts_arbitrary_weights : bool :=
  let ten := [f32_int 10] in
  match combine_weighted [(f32_lit 2 10, test_result 0 [1]%N ten); (f32_lit 3 10, test_result 1 [1]%N ten); (half, test_result 2 [1]%N ten)] with
  | Some (Ok out) => first_close_to (eo_data_hex out) (f32_int 10)
  | _ => false
  end.
Definition combine_weighted_rejects_mismatched_shapes : bool :=
  match combine_weighted [(half, test_result 0 [2]%N (f32_int <$> [1; 2]%Z)); (half, test_result 1 [3]%N (f32_int <$> [1; 2; 3]%Z))] with
  | Some outcome => is_err outcome
  | None => false
  end.
Definition combine_weighted_empty_is_error : bool :=
  match combine_weighted [] with Some outcome => is_err outcome | None => false end.
Definition f32_hex_round_trips : bool :=
  let data := [f32_int 0; f32_lit (-15) 10; f32_lit 314159 100000; f32_of_bits 0xff7fffff; f32_of_bits 0x7f7fffff] in
  values_are (data_of data) data.
Definition hex_to_f32_rejects_non_multiple_of_4 : bool := is_err (hex_to_f32 "aabbcc").

Definition combine_tests : list (string * bool) := [
  ("single", combine_weighted_single_expert_full_weight_is_identity); ("two", combine_weighted_two_experts_weighted_sum);
  ("three", combine_weighted_three_experts_arbitrary_weights); ("mismatched_shapes", combine_weighted_rejects_mismatched_shapes);
  ("empty", combine_weighted_empty_is_error); ("f32_hex", f32_hex_round_trips);
  ("non_multiple_of_4", hex_to_f32_rejects_non_multiple_of_4)].

(** ** [dispatch_tests] *)

Definition selected (id : N) (weight value : f32) : SelectedExpert := mkSelectedExpert id weight [1]%N [f32_to_bits value].
(** A dispatcher over a registry whose channels are all open. *)
Definition dispatcher_over (registry : MinerRegistry) : Disp :=
  mkDisp new_dispatcher [] (mkWorld [] (empty_db []) registry (mkNet (list_to_set (inner registry).*2) [])).
Definition job (request_id : string) (layer_idx : N) : Job := mkJob request_id 0 4 layer_idx 0 "model-x" "http://gguf" "gguf-hash".
(** The rest of [dispatch_and_join] once every expert has been answered. *)
Definition joined (j : Job) (tasks : list Task) : M Disp (option (result ExpertOutputWire string)) :=
  done ← mapM (poll_task j false) tasks;
  mret (join_all done ≫= join_group).
(** A call that fails before it dispatches anything. *)
Definition fails (j : Job) (experts : list SelectedExpert) (pre_excluded : list string) (registry : MinerRegistry) : bool :=
  is_err (dispatch_group j experts (λ _, 1000%N) pre_excluded (dispatcher_over registry)).1.

Definition dispatch_and_join_combines_two_experts_dispatched_to_different_wallets : bool :=
  let registry := register "wallet-b" 1%N (register "wallet-a" 0%N new_registry) in
  let registry := with_vram [("wallet-a", 24000%N); ("wallet-b", 24000%N)] registry in
  let j := job "req-1" 3 in
  let '(group, d) := dispatch_group j [selected 0 half (f32_int 10); selected 1 half (f32_int 20)] (λ _, 1000%N) [] (dispatcher_over registry) in
  match group with
  | Err _ => false
  | Ok tasks =>
    let '(a, d) := handle_expert_result "wallet-a" (test_result 0 [1]%N [f32_int 10]) d in
    let '(b, d) := handle_expert_result "wallet-b" (test_result 1 [1]%N [f32_int 20]) d in
    nth_line 0 0 "opoi.expert_assign" (d_world d) && nth_line 0 1 "opoi.expert_assign" (d_world d)
    && negb (is_err a) && negb (is_err b)
    && match (joined j tasks d).1 with Some (Ok combined) => first_close_to (eo_data_hex combined) (f32_int 15) | _ => false end
  end.
Definition dispatch_and_join_fails_whole_group_when_no_eligible_host_for_one_expert : bool :=
  let registry := with_vram [("wallet-a", 24000%N)] (register "wallet-a" 0%N new_registry) in
  fails (job "req-2" 3) [selected 0 half (f32_int 1); selected 1 half (f32_int 2)] [] registry.
Definition dispatch_and_join_never_picks_a_pre_excluded_wallet_even_as_the_only_eligible_host : bool :=
  let registry := with_vram [("primary-wallet", 24000%N)] (register "primary-wallet" 0%N new_registry) in
  fails (job "req-4" 3) [selected 0 (f32_int 1) (f32_int 1)] ["primary-wallet"] registry.
Definition dispatch_and_join_rejects_empty_expert_list : bool := fails (job "req-3" 3) [] [] new_registry.
Definition dispatch_and_join_rejects_layer_idx_outside_its_own_range : bool :=
  fails (job "req-3b" 4) [selected 0 (f32_int 1) (f32_int 1)] [] new_registry.

(** [trusted-wallet] holds the dispatch of expert 0, its channel still open. *)
Definition awaiting_trusted : Disp :=
  let d := dispatcher_over (register "trusted-wallet" 0%N new_registry) in
  let key := mkKey "req-1" 0 4 3 0 in
  d <| d_disp := {| assignments := {[key := "trusted-wallet"]}; pending := {[key := 0]}; recent := ∅ |} |>
    <| d_chans := [mkOneshot key "trusted-wallet" Open] |>.
Definition handle_expert_result_rejects_wrong_wallet : bool :=
  match (handle_expert_result "some-other-wallet" (test_result 0 [1]%N [f32_int 1]) awaiting_trusted).1 with
  | Err NotAssignedToCaller => true
  | _ => false
  end.
Definition handle_expert_result_rejects_unknown_key : bool :=
  let r := mkOpoiExpertResult "never-dispatched" 0 4 3 0 0 "" (mkExpertOutputWire [1]%N (data_of [f32_int 1])) in
  match (handle_expert_result "any-wallet" r (dispatcher_over new_registry)).1 with Err UnknownRequest => true | _ => false end.
Definition on_disconnect_unblocks_a_waiting_dispatch_immediately : bool :=
  let '(_, d) := on_disconnect "trusted-wallet" awaiting_trusted in
  match chan_of 0 d with Dropped => true | _ => false end
  && assert_eq (assignments (d_disp d) !! mkKey "req-1" 0 4 3 0) None.

Definition expert_assignment_key_distinguishes_different_experts_same_request : bool :=
  negb (assert_eq (mkKey "r" 0 4 3 0) (mkKey "r" 0 4 3 1)).
Definition expert_assignment_key_distinguishes_different_layer_ranges_same_expert : bool :=
  negb (assert_eq (mkKey "r" 0 4 3 0) (mkKey "r" 4 8 7 0)).
Definition expert_assignment_key_distinguishes_different_layer_idx_same_range_and_expert : bool :=
  negb (assert_eq (mkKey "r" 0 4 1 0) (mkKey "r" 0 4 2 0)).

Definition dispatch_tests : list (string * bool) := [
  ("combines_two", dispatch_and_join_combines_two_experts_dispatched_to_different_wallets);
  ("no_eligible_host", dispatch_and_join_fails_whole_group_when_no_eligible_host_for_one_expert);
  ("pre_excluded", dispatch_and_join_never_picks_a_pre_excluded_wallet_even_as_the_only_eligible_host);
  ("empty_list", dispatch_and_join_rejects_empty_expert_list);
  ("layer_outside", dispatch_and_join_rejects_layer_idx_outside_its_own_range);
  ("wrong_wallet", handle_expert_result_rejects_wrong_wallet); ("unknown_key", handle_expert_result_rejects_unknown_key);
  ("disconnect", on_disconnect_unblocks_a_waiting_dispatch_immediately);
  ("key_expert", expert_assignment_key_distinguishes_different_experts_same_request);
  ("key_range", expert_assignment_key_distinguishes_different_layer_ranges_same_expert);
  ("key_layer", expert_assignment_key_distinguishes_different_layer_idx_same_range_and_expert)].
End tests.

(** ** The tests pass *)

Lemma combine_tests_pass : failures combine_tests = [].
Proof. by vm_compute. Qed.
Lemma dispatch_tests_pass : failures dispatch_tests = [].
Proof. by vm_compute. Qed.
