(* ===== verification/TestsAudit.v ===== *)
(** * The repository's unit tests, replayed (4)

    The tests of [src/opoi/b3lite_audit.rs] and of [src/db/repo.rs].  The two
    that the source runs only against a live database - and, for the audit's, a
    live cs-miner - run here on the model's database, with a process that prints
    an admissible verdict.  A random UUID is a fixed text, and
    the verdict's detail is written without its quotation marks. *)

From S2P Require Import MinerRegistry Wire World Pipeline ModelSource B3LiteAudit.
From S2P Require Export TestsExperts.

Section tests.
Existing Instances sha2_crypto key_iter table_order empty_market yes_csd.

(** ** The texts *)

Definition decode_prompt_hex_round_trips : bool :=
  let original := "The capital of France is" in
  assert_eq (decode_prompt_hex (hex_encode (as_bytes original))) (Some original).
Definition decode_prompt_hex_rejects_invalid_hex : bool := assert_eq (decode_prompt_hex "not-hex!!") None.
Definition decode_token_ids_hex_round_trips : bool :=
  let ids := [1; 256; 65536; u32_max]%N in
  let raw := fold_left (λ raw id, raw ++ u32_le id) ids [] in
  assert_eq (decode_token_ids_hex (hex_encode raw)) (Some ids).
Definition decode_token_ids_hex_rejects_non_multiple_of_4 : bool := assert_eq (decode_token_ids_hex "aabbcc") None.
Definition decode_token_ids_hex_empty_is_empty_vec : bool := assert_eq (decode_token_ids_hex "") (Some []).

Definition position_with (admissible : bool) : AuditPositionWire := mkAuditPositionWire 0 1 1 admissible.
Definition all_admissible_true_when_every_position_is : bool := all_admissible [position_with true; position_with true].
Definition all_admissible_false_on_any_divergent_position : bool := negb (all_admissible [position_with true; position_with false]).
Definition all_admissible_false_when_empty : bool := negb (all_admissible []).

Definition audit_tests : list (string * bool) := [
  ("prompt_round_trips", decode_prompt_hex_round_trips); ("prompt_invalid", decode_prompt_hex_rejects_invalid_hex);
  ("tokens_round_trip", decode_token_ids_hex_round_trips); ("tokens_non_multiple", decode_token_ids_hex_rejects_non_multiple_of_4);
  ("tokens_empty", decode_token_ids_hex_empty_is_empty_vec); ("all_admissible", all_admissible_true_when_every_position_is);
  ("any_divergent", all_admissible_false_on_any_divergent_position); ("no_position", all_admissible_false_when_empty)].

(** ** [stratum_dispatch_tests] *)

Definition auditor_with_registry (registry : MinerRegistry) : World * B3LiteAuditor :=
  (mkWorld [] (empty_db []) registry (mkNet (list_to_set (inner registry).*2) []),
   new_auditor (mkModelSources ∅ None) "unused" "/tmp" ["trusted-wallet"]).
Definition trusted_registry : MinerRegistry := register "trusted-wallet" 0%N new_registry.
(** The trusted wallet holds the audit of "req-1", its channel still open. *)
Definition awaiting_verdict : World * B3LiteAuditor :=
  let '(w, a) := auditor_with_registry trusted_registry in
  (w, a <| au_assignments := {["req-1" := "trusted-wallet"]} |> <| au_pending := {["req-1" := 0]} |> <| au_chans := [Open] |>).
Definition test_receipt : B3LiteReceipt := {|
  b_id := 1; b_request_id := "req-1"; b_miner_wallet := "audited-wallet"; b_model_id := "M"; b_gguf_sha256 := "gguf-hash";
  b_prompt_hash := None; b_prompt_hex := hex_encode (as_bytes "hi"); b_response_hash := "r"; b_generated_token_ids_hex := "";
  b_total_layers := 4; b_signature_hex := "sig"; b_sampled := true; b_audit_status := "PENDING"; b_audit_detail := None;
  b_created_at := 0; b_audited_at := None |}.

Definition dispatch_via_stratum_delivers_verdict_on_matching_reply : bool :=
  let source := mkModelSource "http://x/gguf" "http://x/tok" "tok-hash" in
  let s := auditor_with_registry (mark_auditor_capable "trusted-wallet" trusted_registry) in
  let '(_, (w, _)) := dispatch_via_stratum "trusted-wallet" test_receipt source "hi" [1; 2]%N s in
  nth_line 0 0 "opoi.audit_assign" w
  && match lines_on 0 w with
     | line :: _ =>
       assert_eq (v ← line_value line; params ← get_key "params" v; p ← get_index 0 params; id ← get_key "request_id" p; as_str id) (Some "req-1")
     | [] => false
     end.
Definition handle_audit_result_rejects_wrong_wallet : bool :=
  match (handle_audit_result "some-other-wallet" (mkOpoiAuditResult "req-1" []) awaiting_verdict).1 with
  | Err NotAssignedToCaller => true
  | _ => false
  end.
Definition handle_audit_result_rejects_unknown_request : bool :=
  match (handle_audit_result "any-wallet" (mkOpoiAuditResult "never-dispatched" []) (auditor_with_registry new_registry)).1 with
  | Err UnknownRequest => true
  | _ => false
  end.
Definition handle_audit_result_delivers_to_the_matching_pending_dispatch : bool :=
  let positions := [position_with true] in
  let '(r, (_, a)) := handle_audit_result "trusted-wallet" (mkOpoiAuditResult "req-1" positions) awaiting_verdict in
  negb (is_err r)
  && match au_chans a !! 0 with
     | Some (Delivered delivered) =>
       assert_eq (length delivered) (length positions) && assert_eq (ap_admissible <$> delivered !! 0) (Some true)
     | _ => false
     end.
Definition audit_disconnect_unblocks_a_waiting_dispatch_immediately : bool :=
  let '(_, (_, a)) := B3LiteAudit.on_disconnect "trusted-wallet" awaiting_verdict in
  match au_chans a !! 0 with Some SenderDropped => true | _ => false end && assert_eq (au_assignments a !! "req-1") None.

Definition stratum_dispatch_tests : list (string * bool) := [
  ("assign_line", dispatch_via_stratum_delivers_verdict_on_matching_reply); ("wrong_wallet", handle_audit_result_rejects_wrong_wallet);
  ("unknown_request", handle_audit_result_rejects_unknown_request);
  ("delivers", handle_audit_result_delivers_to_the_matching_pending_dispatch);
  ("disconnect", audit_disconnect_unblocks_a_waiting_dispatch_immediately)].

(** ** [live_audit_tick_test] *)

Definition committed_ids : list N := [12095; 13; 1084; 374; 279]%N.
Definition live_gguf : string := "c5396e06af294bd101b30dce59131a76d2b773e76950acc870eda801d3ab0515".
(** What an honest cs-miner prints for the receipt. *)
Definition admissible_stdout : Value := Object [("positions", Array (audit_position_value <$> imap (λ n id, mkAuditPositionWire (N.of_nat n) id id true) committed_ids))].
Definition audit_tick_runs_a_real_receipt_through_a_real_cs_miner_subprocess : bool :=
  let prompt_hex := hex_encode (as_bytes "The capital of France is") in
  let generated_token_ids_hex := hex_encode (fold_left (λ raw id, raw ++ u32_le id) committed_ids []) in
  let '(created, d) := create_b3lite_receipt "audit-tick-test" "test-wallet" "QWEN2_5_0_5B" live_gguf None prompt_hex
    "resp-hash-placeholder" generated_token_ids_hex 24 "sig" true (empty_db []) in
  match created with
  | Err _ => false
  | Ok receipt_id =>
    let sources := mkModelSources {["QWEN2_5_0_5B" := mkModelSource "http://x/gguf" "http://x/tok" "tok-hash"]} None in
    let auditor := new_auditor sources "cs-miner" "/tmp/b3lite_audit_test" [] in
    let s := (mkWorld [] d new_registry (mkNet ∅ []), auditor) in
    let '(_, s) := audit_tick 0 s in
    let '(_, (w, _)) := process_ended 0 (Stdout (Some admissible_stdout) "") s in
    assert_eq (b_audit_status <$> find_first (λ b, bool_decide (b_id b = receipt_id)) (receipts (w_db w))) (Some "ADMISSIBLE")
  end.

(** ** [b3lite_repo_tests] *)

Definition requested (id : string) (rows : list Submission) : bool := existsb (λ s, bool_decide (s_request_id s = id)) rows.
Definition has_receipt (id : N) (rows : list B3LiteReceipt) : bool := existsb (λ b, bool_decide (b_id b = id)) rows.
Definition b3lite_receipt_and_consequence_lifecycle : M Database (result bool AppError) :=
  let wallet := "test-wallet-a" in
  unsampled_id ←? create_b3lite_receipt "test-req-1" wallet "QWEN2_5_0_5B" "deadbeef" (Some "promptash") "70726f6d7074"
    "resphash" "0100000002000000" 24 "sig-unsampled" false;
  sampled_id ←? create_b3lite_receipt "test-req-2" wallet "QWEN2_5_0_5B" "deadbeef" (Some "promptash") "70726f6d7074"
    "resphash2" "0300000004000000" 24 "sig-sampled" true;
  pending ←? list_pending_b3lite_audits;
  let listed := has_receipt sampled_id pending && negb (has_receipt unsampled_id pending)
    && match find_first (λ b, bool_decide (b_id b = sampled_id)) pending with
       | Some row => assert_eq (b_audit_status row) "PENDING" && assert_eq (b_request_id row) "test-req-2"
                     && assert_eq (b_generated_token_ids_hex row) "0300000004000000" && b_sampled row
       | None => false
       end in
  _ ←? mark_b3lite_audit_result sampled_id "DIVERGENT" "{positions:[]}";
  pending_after ←? list_pending_b3lite_audits;
  _ ←? insert_b3lite_consequence sampled_id wallet "test-req-2" "WITHHOLD_PAY" "test divergence";
  count ←? count_withhold_consequences wallet;
  ejected ←? list_ejected_wallets;
  _ ←? insert_b3lite_consequence sampled_id wallet "test-req-2" "EJECTED" "3 confirmed divergences";
  ejected_after ←? list_ejected_wallets;
  submission_id ←? create_submission wallet "test-req-2" (Some "QWEN2_5_0_5B") (Some "promptash") None None "resphash2" "0300000004000000" 2;
  _ ←? mark_published submission_id (f64_lit 15 10);
  unpaid ←? list_unpaid_published;
  other_submission_id ←? create_submission wallet "test-req-3" (Some "QWEN2_5_0_5B") (Some "promptash") None None "resphash3" "0500000006000000" 2;
  _ ←? mark_published other_submission_id (f64_lit 15 10);
  unpaid_after ←? list_unpaid_published;
  mret (Ok (listed && negb (has_receipt sampled_id pending_after) && (1 <=? count)%Z && negb (bool_decide (wallet ∈ ejected))
    && bool_decide (wallet ∈ ejected_after) && negb (requested "test-req-2" unpaid) && requested "test-req-3" unpaid_after)).

Definition live_tests : list (string * bool) := [
  ("audit_tick", audit_tick_runs_a_real_receipt_through_a_real_cs_miner_subprocess);
  ("lifecycle", match (b3lite_receipt_and_consequence_lifecycle (empty_db [])).1 with Ok passed => passed | Err _ => false end)].
End tests.

(** ** The tests pass *)

Lemma audit_tests_pass : failures audit_tests = [].
Proof. by vm_compute. Qed.
Lemma stratum_dispatch_tests_pass : failures stratum_dispatch_tests = [].
Proof. by vm_compute. Qed.
Lemma live_tests_pass : failures live_tests = [].
Proof. by vm_compute. Qed.
