(* ===== verification/TestsMoe.v ===== *)
(** * The repository's unit tests, replayed (5)

    [d2_expert_group_dispatch_tests] of [src/opoi/shard_engine.rs]: the shard
    engine and the expert dispatcher together, on the shared state of Bridge.
    Neither the daemon nor a file can be reached, as in the source; its engine
    has no speculative engine, here there is one with nothing in it.  A spawned
    handler runs up to its await, the experts answer, its futures are polled. *)

From S2P Require Import MinerRegistry StakePool RateLimit Config OpoiEngine Wire World CsdClient Tensor ExpertDispatch ModelSource.
From S2P Require Import Pipeline ShardEngine Speculative B3LiteAudit ExpertVram Bridge.
From S2P Require Export TestsAudit.

Section tests.
Existing Instances sha2_crypto toy_hex_error key_iter table_order empty_market in_order toy_tokenizers sample_text.
#[local] Instance no_daemon : Csd := {| csd_post := λ _ _ _, SendFailed "connection refused"; print_json := λ _, ""; decode_error := λ _, "" |}.
#[local] Instance no_file : HttpGet := {| http_get := λ _, GetFailed "connection refused" |}.
#[local] Instance no_f64 : DisplayF64 := {| display_f64 := λ _, "" |}.

(** ** The set-up of every test *)

Definition test_source : ModelSource := mkModelSource "http://gguf.example/model.gguf" "http://gguf.example/tok" "tok-hash".
Definition stakes : StakePool := mkStakePool ["stake-addr-1"] 0.
Definition test_engine (registry : MinerRegistry) (model_id : string) : Bridge := {|
  br_cfg := default_config; br_world := mkWorld [] (empty_db []) registry (mkNet (list_to_set (inner registry).*2) []);
  br_pool := stakes; br_opoi := new_engine stakes 0;
  br_shard := new_shard_engine stakes (mkModelSources {[model_id := test_source]} None) None;
  br_spec := new_speculative_engine stakes ∅; br_audit := new_auditor (mkModelSources ∅ None) "" "" [];
  br_disp := new_dispatcher; br_oneshots := []; br_limiter := prompt_rate_limiter; br_sessions := ∅; br_posted := []; br_now := 0 |}.
(** [engine.pipelines.insert], [engine.assignments.insert], [*engine.last_assigned.lock() = ..] *)
Definition with_pipe (request_id : string) (p : PipelineState) (b : Bridge) : Bridge :=
  b <| br_shard := (br_shard b) <| se_pipelines := <[request_id := p]> (se_pipelines (br_shard b)) |> |>.
Definition assigned_to_primary (request_id : string) (b : Bridge) : Bridge :=
  b <| br_shard := (br_shard b) <| se_assignments := <[request_id := mkShardAssignment "primary-miner" 0 0 None]> (se_assignments (br_shard b)) |> |>.
Definition last_assigned_is (wallet : string) (b : Bridge) : Bridge :=
  b <| br_shard := (br_shard b) <| se_last_assigned := Some wallet |> |>.
Definition pipe_of (request_id : string) (b : Bridge) : option PipelineState := se_pipelines (br_shard b) !! request_id.

(** "next-hop-miner" first, then the experts, on the channels 1, 2 and 3. *)
Definition with_experts (registry : MinerRegistry) : MinerRegistry :=
  with_vram [("expert-a", 24000%N); ("expert-b", 24000%N)] (register "expert-b" 3%N (register "expert-a" 2%N registry)).
Definition moe_registry : MinerRegistry := with_experts (register "next-hop-miner" 1%N new_registry).
Definition primary_only : MinerRegistry := register "primary-miner" 0%N new_registry.
Definition two_shards (range : N) : PipelineState :=
  (test_pipeline [dense 0 0 range; dense 1 range 8] {[(0%N, range) := [0; 1]%N]}).

Definition choices (a b : f32) : list RouterExpertChoice := [mkRouterExpertChoice 0 a; mkRouterExpertChoice 1 b].
Definition shard_result (request_id output_hash : string) (x y : Z) (next_token_id : option N)
    (router_selection : option (list (list RouterExpertChoice))) (moe_layer_step : option N) : OpoiShardResult :=
  mkOpoiShardResult request_id 0 0 output_hash (mkShardOutputWire [2]%N (data_of (f32_int <$> [x; y]))) next_token_id None
    router_selection moe_layer_step.
Notation result_of id sel := (shard_result id "irrelevant-for-this-test" 1 2 None sel None).

(** An expert's reply: its value at both positions. *)
Definition expert_reply (request_id wallet : string) (layer_end layer_idx expert_id : N) (value : Z) : M Bridge bool :=
  r ← handle_expert_result wallet (mkOpoiExpertResult request_id 0 layer_end layer_idx expert_id 0 ""
        (mkExpertOutputWire [2]%N (data_of (f32_int <$> [value; value]))));
  mret (negb (is_err r)).
(** Both experts reply, and the handler that waits for them goes on to its end. *)
Definition experts_answer (request_id : string) (layer_end layer_idx : N) (a b : Z) (o : shard_answer ExpertWait) : M Bridge bool :=
  match o with
  | Suspended w =>
    ok_a ← expert_reply request_id "expert-a" layer_end layer_idx 0 a;
    ok_b ← expert_reply request_id "expert-b" layer_end layer_idx 1 b;
    o ← poll_expert w 0 false;
    match o with
    | Suspended w =>
      o ← poll_expert w 1 false;
      mret (ok_a && ok_b && match o with Answered (Ok ()) => true | _ => false end)
    | _ => mret false
    end
  | _ => mret false
  end.
Definition answered_ok (o : shard_answer ExpertWait) : bool := match o with Answered (Ok ()) => true | _ => false end.
(** The input of the pipeline's next step is a tensor that starts with about [y]. *)
Definition input_is (y : f32) (p : PipelineState) : bool :=
  match p_current_input p with Tensor _ data_hex => first_close_to data_hex y | _ => false end.
Definition input_is_pair (y : f32) (p : PipelineState) : bool :=
  match p_current_input p with
  | Tensor shape data_hex =>
    assert_eq shape [2]%N
    && match hex_to_f32 data_hex with Ok [v0; v1] => close_to y v0 && close_to y v1 | _ => false end
  | _ => false
  end.
(** The [n]th line of a channel, its parameter [moe_layer_step]. *)
Definition layer_step_on (n : nat) (tx : N) (b : Bridge) : option N :=
  m ← lines_on tx (br_world b) !! n; v ← line_value m; params ← get_key "params" v; p ← get_index 0 params;
  step ← get_key "moe_layer_step" p; as_u64 step.
Definition line_on (n : nat) (tx : N) (method : string) (b : Bridge) : bool := nth_line n tx method (br_world b).

(** ** The tests *)

(** Both experts get a line; the combined tensor is the next shard's input. *)
Definition fans_out (request_id : string) (selection : list (list RouterExpertChoice)) : bool :=
  let b := last_assigned_is "expert-b" (assigned_to_primary request_id (with_pipe request_id (two_shards 4) (test_engine moe_registry "model-x"))) in
  let '(o, b) := handle_shard_result "primary-miner" (result_of request_id (Some selection)) b in
  let lines := line_on 0 2 "opoi.expert_assign" b && line_on 0 3 "opoi.expert_assign" b in
  let '(ok, b) := experts_answer request_id 4 3 10 20 o b in
  lines && ok
  && match pipe_of request_id b with Some p => assert_eq (p_pos p) 1 && input_is_pair (f32_int 15) p | None => false end
  && line_on 0 1 "opoi.shard_assign" b.
Definition moe_layer_range_fans_out_to_experts_and_feeds_combined_output_to_next_dense_shard : bool :=
  fans_out "req-1" [choices half half].
Definition moe_multi_layer_range_dispatches_only_last_layer_selection : bool :=
  fans_out "req-multi" [choices (f32_lit 9 10) (f32_lit 1 10); choices half half].

Definition moe_multi_layer_range_rejects_out_of_range_expert_id_even_in_an_interior_layer : bool :=
  let id := "req-bad-interior" in
  let b := assigned_to_primary id (with_pipe id (two_shards 4) (test_engine primary_only "model-x")) in
  let '(o, b) := handle_shard_result "primary-miner"
                   (result_of id (Some [[mkRouterExpertChoice 99 (f32_int 1)]; choices half half])) b in
  answered_ok o && match pipe_of id b with None => true | Some _ => false end.
Definition missing_router_selection_stalls_the_pipeline_instead_of_guessing : bool :=
  let b := assigned_to_primary "req-2" (with_pipe "req-2" (two_shards 4) (test_engine primary_only "model-x")) in
  let '(o, b) := handle_shard_result "primary-miner" (result_of "req-2" None) b in
  answered_ok o && match pipe_of "req-2" b with Some p => assert_eq (p_pos p) 0 | None => false end.
Definition last_shard_with_expert_group_falls_back_to_primarys_next_token_id : bool :=
  let p := (test_pipeline [dense 0 0 8] {[(0, 8)%N := [0; 1]%N]}) <| p_max_tokens := 1%N |> in
  let b := assigned_to_primary "req-3" (with_pipe "req-3" p (test_engine primary_only "model-x")) in
  answered_ok (handle_shard_result "primary-miner" (shard_result "req-3" "irrelevant-for-this-test" 1 2 (Some 42%N) None None) b).1.

Definition moe_multi_layer_stateful_walk_dispatches_every_layer_pinned_to_the_same_wallet : bool :=
  let id := "req-walk" in
  let registry := with_experts (register "next-hop-miner" 1%N primary_only) in
  let b := with_pipe id (two_shards 2) (test_engine registry "model-x") in
  (* the fresh dispatch *)
  let '(_, b) := on_shard (dispatch_current id test_source) b in
  let fresh := assert_eq (layer_step_on 0 0 b) (Some 0%N)
    && assert_eq (pipe_of id b ≫= p_moe_layer_walk) (Some (0%N, "primary-miner")) in
  (* layer 0, the interior one *)
  let result1 := shard_result id "irrelevant-for-this-test" 1 2 None (Some [choices (f32_lit 9 10) (f32_lit 1 10)]) (Some 0%N) in
  let '(o, b) := handle_shard_result "primary-miner" result1 b in
  let lines1 := line_on 0 2 "opoi.expert_assign" b && line_on 0 3 "opoi.expert_assign" b in
  let '(ok1, b) := experts_answer id 2 0 10 20 o b in
  let interior := match pipe_of id b with
    | Some p => assert_eq (p_pos p) 0 && assert_eq (p_moe_layer_walk p) (Some (1%N, "primary-miner")) && input_is (f32_int 11) p
    | None => false
    end && assert_eq (layer_step_on 1 0 b) (Some 1%N) in
  (* layer 1, the boundary *)
  let result2 := shard_result id "boundary-hash" 3 4 None (Some [choices half half]) (Some 1%N) in
  let '(o, b) := handle_shard_result "primary-miner" result2 b in
  let lines2 := line_on 1 2 "opoi.expert_assign" b && line_on 1 3 "opoi.expert_assign" b in
  let '(ok2, b) := experts_answer id 2 1 100 200 o b in
  let boundary := match pipe_of id b with
    | Some p => assert_eq (p_pos p) 1 && assert_eq (p_moe_layer_walk p) None && input_is (f32_int 150) p
    | None => false
    end in
  fresh && lines1 && ok1 && interior && lines2 && ok2 && boundary
  && line_on 0 1 "opoi.shard_assign" b && assert_eq (layer_step_on 0 1 b) None.

Definition dispatch_current_drops_pipeline_when_pinned_wallet_for_a_mid_walk_resume_is_gone : bool :=
  let p := (two_shards 2) <| p_current_input := Tensor [2]%N (data_of (f32_int <$> [1; 2]%Z)) |>
             <| p_moe_layer_walk := Some (1%N, "ghost-miner") |> in
  let '(_, b) := on_shard (dispatch_current "req-disc" test_source) (with_pipe "req-disc" p (test_engine new_registry "model-x")) in
  match pipe_of "req-disc" b with None => true | Some _ => false end.

(** ** The topology snapshot *)

Definition topology_registry : MinerRegistry :=
  with_vram [("expert-a", 8000%N); ("expert-b", 16000%N)] (register "expert-b" 3%N (register "expert-a" 2%N primary_only)).
Definition topology_pipe : PipelineState :=
  (test_pipeline [dense 0 0 2; dense 1 2 4] {[(0, 2)%N := [0; 1; 2]%N]})
    <| p_moe_layer_walk := Some (0%N, "primary-miner") |>
    <| p_dispatch_log := [mkDispatchRecord 0 0 2 (Some 0%N) "primary-miner" 0] |>.
Definition part_of (kind : string) (shard_index : N) (t : TopologySnapshot) : option TopologyPart :=
  find_first (λ p, bool_decide (tp_kind p = kind) && (tp_shard_index p =? shard_index)%N) (ts_parts t).
Definition expert_shown (real : list (N * string)) (e : TopologyExpert) : bool :=
  match find_first (λ r, (r.1 =? te_expert_id e)%N) real with
  | Some (_, wallet) =>
    te_activated e && assert_eq (te_wallet e) (Some wallet)
    && assert_eq (te_vram_mb e) (Some (if bool_decide (wallet = "expert-a") then 8000%N else 16000%N))
  | None => negb (te_activated e) && assert_eq (te_wallet e) None
  end.
Definition snapshot_shows (real : list (N * string)) (snapshot : TopologySnapshot) : bool :=
  assert_eq (ts_model_id snapshot) "model-x" && assert_eq (ts_arch_type snapshot) "MOE" && assert_eq (ts_current_pos snapshot) 0
  && match part_of "dense" 0 snapshot with
     | Some dense0 => assert_eq (tp_status dense0) "current" && assert_eq (tp_primary_wallet dense0) (Some "primary-miner")
                      && assert_eq (tp_primary_vram_mb dense0) None
     | None => false
     end
  && match part_of "expert_group" 0 snapshot with
     | Some group0 => assert_eq (length (tp_experts group0)) 3 && forallb (expert_shown real) (tp_experts group0)
     | None => false
     end
  && match part_of "dense" 1 snapshot with
     | Some dense1 => assert_eq (tp_status dense1) "pending" && assert_eq (tp_primary_wallet dense1) None
     | None => false
     end
  && match part_of "expert_group" 1 snapshot with None => true | Some _ => false end
  && assert_eq (length (ts_connected_miners snapshot)) 3
  && match find_first (λ m, bool_decide (snap_wallet m = "primary-miner")) (ts_connected_miners snapshot) with
     | Some m => negb (snap_expert_capable m)
     | None => false
     end.
Definition topology_reply (j : Job) (real : list (N * string)) : M Bridge () :=
  for_each (λ e, ignore (handle_expert_result e.2 (mkOpoiExpertResult (j_request_id j) 0 2 0 e.1 0 ""
                           (mkExpertOutputWire [1]%N (data_of [f32_int 1]))))) real.

Definition topology_snapshot_reports_dense_shards_and_expert_activation : bool :=
  let b := with_pipe "req-topo" topology_pipe (test_engine topology_registry "model-x") in
  let j := mkJob "req-topo" 0 2 0 0 "model-x" "http://gguf" "gguf-hash" in
  let '(group, b) := on_disp (dispatch_group j [selected 0 half (f32_int 1); selected 1 half (f32_int 1)] (λ _, 1000%N) []) b in
  match group with
  | Err _ => false
  | Ok tasks =>
    let real := recent_assignments_for_range "req-topo" 0 2 (br_disp b) in
    let '(_, b) := topology_reply j real b in
    let '(joined, b) := on_disp (joined j tasks) b in
    line_on 0 2 "opoi.expert_assign" b && line_on 0 3 "opoi.expert_assign" b && assert_eq (length real) 2
    && match joined with Some (Ok _) => true | _ => false end
    && match (topology "req-topo" b).1 with Some snapshot => snapshot_shows real snapshot | None => false end
    && match (topology "never-existed" b).1 with None => true | Some _ => false end
    && assert_eq (on_shard active_request_ids b).1 ["req-topo"]
  end.

Definition d2_expert_group_dispatch_tests : list (string * bool) := [
  ("fans_out", moe_layer_range_fans_out_to_experts_and_feeds_combined_output_to_next_dense_shard);
  ("only_last_layer", moe_multi_layer_range_dispatches_only_last_layer_selection);
  ("rejects_interior", moe_multi_layer_range_rejects_out_of_range_expert_id_even_in_an_interior_layer);
  ("stalls", missing_router_selection_stalls_the_pipeline_instead_of_guessing);
  ("last_shard", last_shard_with_expert_group_falls_back_to_primarys_next_token_id);
  ("stateful_walk", moe_multi_layer_stateful_walk_dispatches_every_layer_pinned_to_the_same_wallet);
  ("pinned_gone", dispatch_current_drops_pipeline_when_pinned_wallet_for_a_mid_walk_resume_is_gone);
  ("topology", topology_snapshot_reports_dense_shards_and_expert_activation)].
End tests.

(** ** The tests pass *)

Lemma d2_expert_group_dispatch_tests_pass : failures d2_expert_group_dispatch_tests = [].
Proof. by vm_compute. Qed.
